(* ===== verification/_CoqProject ===== *)
-Q . S2P
Prelude.v
Physical.v
PhysicalSpec.v
PhysicalRuns.v
Table.v
Mapping.v
MappingTree.v
MappingSpec.v
MappingCow.v
MappingExamples.v
MappingLimits.v
Ethernet.v
Arp.v
Text.v
Semaphore.v
Spinlock.v
Malloc.v
Io.v
Clock.v
Task.v
Sched.v
SchedSpec.v
Switch.v
SchedExamples.v
Net.v
Pci.v
Interrupt.v
Memory.v
Acpi.v
Hpet.v
Rtl8139.v
Mm.v
Elf.v
Serial.v
Font.v
Screen.v
BootAsm.v
Boot.v
Layout.v
Loader.v
Isr.v
Handlers.v
Start.v
StartExamples.v
Main.v
Wire.v
