(* ===== verification/Prelude.v ===== *)
(** * Verification of the aosir kernel and its boot loader

    The program is a kernel for x86-64 in Rust with some assembly, and the UEFI boot loader
    that starts it.  This development translates it into definitions that run, and proves
    what they do.  File names of the program below are relative to [src/].

    ** How the program is modelled

    - A function is a Rocq function of its arguments and of the state it reads; it returns
      the state it leaves.  [outcome] (this file) is its result: [Ret] or a [Panic] with its
      reason.  The kernel is built with overflow checks, so [+], [-] and [*] are
      [checked_add], [checked_sub] and [checked_mul] at their width; indexing, slicing and
      [copy_from_slice] panic as in Rust.
    - Integers are [Z].  Addresses are integers; what lies behind raw pointers is a map from
      addresses, and an access where there is nothing is [Panic InvalidDeref].
    - Device registers are behind the class [Hardware] of Io.v; drivers are written in the
      monad [io] and proved on a model of the device from its data sheet.
    - Concurrency is interleaving on one processor, the only one the kernel starts: operations
      are cut where interrupts or other tasks can get in, and a step relation runs them.
    - Code outside the repository - the firmware, the standard library's [BinaryHeap], the
      called Rust functions in assembly - is a parameter, with its documented behaviour as
      hypotheses; witnesses instantiate them.
    - The structures that devices, firmware, assembly and the boot loader share with the
      kernel are declared in Layout.v as in the source, with the compiler's layout rules.
      Text that is printed is built as [core::fmt] does (Text.v).

    ** Memory

    - Physical.v, PhysicalSpec.v: [paging/src/physical.rs], the buddy allocator.  Freeing
      keeps the lists well formed and conserves memory, allocation takes the lowest block,
      the two are inverse, and [init] owns only memory of the given ranges.
      PhysicalRuns.v: whatever a client that frees what it holds does, blocks in use
      are disjoint from each other and from the lists; the unit tests of the source.
    - Table.v: [arch/x86_64/src/paging/{mod,table,error}.rs], [arch/interface] and
      [bare_metal]: entries, flags, levels and the class [Environment].
    - Mapping.v: [arch/x86_64/src/paging/mapping.rs].  The invariant is in MappingTree.v (the
      tables of an address space are a tree), the effect of [map] and [unmap]
      on every translation in MappingSpec.v, copy on write in MappingCow.v,
      initialisation and the error paths in MappingLimits.v, concrete memories in
      MappingExamples.v.
    - Malloc.v: [src/mm/malloc.rs], the kernel heap.  Blocks are aligned and disjoint.
    - Mm.v: [src/arch/x86_64/mm.rs].  The allocator gets free memory above 8 MiB only, and
      what a page fault does.

    ** Tasks, locks and time

    - Semaphore.v, Spinlock.v: [src/locking].  No wake-up is lost, every blocked task is
      accounted for, waiters can make progress; a lock excludes other tasks.
    - Task.v, Sched.v, SchedSpec.v, SchedExamples.v: [src/kernel/sched].  The queue holds the
      runnable tasks once each in every reachable state, [switch] picks a least runtime,
      [sleep] ends at the tick that is due.  The clients of the queue are proved against the
      class [HeapLaws].
    - Switch.v: [src/arch/x86_64/task_switch.s].  Switching away and back restores a task; a
      new task starts where it should.
    - Clock.v, Hpet.v: [src/kernel/clock.rs], [src/arch/x86_64/hpet.rs].  A tick runs the
      callbacks that are due; how the clock drifts.
    - Isr.v, Interrupt.v, Handlers.v: [src/arch/x86_64/isr.s], [interrupt.rs], [pm.rs],
      [syscall.rs], [pit.rs].  Interrupts are transparent to the interrupted code, gates
      decode to their handlers, the I/O APIC entries, what system calls do.
    - Start.v, StartExamples.v: [start] of [src/main.rs] with [interrupt::init] and the
      [init] functions it calls, and [pm.s].  On a machine where no step panics, the kernel
      ends in its main loop with interrupts routed, the clock running and the tasks
      runnable; a run of it on a small concrete machine.
    - Main.v: what runs then - the bodies of the tasks' loops, the network task, the panic
      handler.  The interface is a queue of frames that are handled in order; a panic
      is reported unless the serial port is locked.

    ** Devices and network

    - Io.v: [src/arch/x86_64/port.rs].  Pci.v: [src/drivers/pci.rs], which functions are
      reported.  Acpi.v: [src/drivers/acpi.rs], parsing of the MADT and the other tables.
    - Serial.v: [src/drivers/serial.rs], [write_all] ends with everything sent, once.
    - Rtl8139.v: [src/drivers/net/rtl8139.rs], frames are received in order and sent whole.
    - Ethernet.v, Arp.v, Net.v: [src/net].  Frames that are built parse back, the ARP
      accessors and replies, the receive ring is a queue under every interleaving of driver
      and network task, and requests are answered.
    - Wire.v: the card and the serial port in one machine.  An ARP request in the card's ring
      is answered by way of the driver's bottom half, the interface and the network task.
    - Text.v: the [Display] implementations of [src/net/ethernet.rs] and the parts of
      [core::fmt] that messages use.  A printed MAC address reads back.

    ** Booting

    - Memory.v: bytes in memory and accesses to fields.  Layout.v: the declarations of the
      structures with [repr].  Fields do not overlap and are aligned; the offsets Acpi.v,
      Malloc.v, Switch.v, Rtl8139.v, Elf.v and Boot.v use are those of the declarations.
    - Elf.v, BootAsm.v, Boot.v: [bootloader/src/loader/elf.rs], [src/arch/x86_64/boot.s],
      [bootloader/src/main.rs] from the memory map on, [bootlib], [src/boot/mod.rs].  On the
      page tables of the boot code the kernel reads the memory map and the boot data the
      loader passed, with its segments in place.
    - Loader.v: [bootloader/src/main.rs] from its start, [bootloader/src/loader/mod.rs] and
      the opening of the frame buffer, over the firmware's services.  A service that fails
      ends the loader with its status; otherwise it hands over as Boot.v says.
    - Font.v, Screen.v: [bootloader/src/framebuffer].  The font table holds the glyphs of the
      file; text is laid out in cells.

    ** Fuel

    Loops without a structural measure take fuel, and running out is [Panic OutOfFuel].  That
    it is enough is proved: the length of the frame for VLAN tags ([skip_tags_fuel]), the
    number of structures for the MADT ([madt_parse]), the number of readings of the device
    for [write_all] and the calls of the clock for the busy sleep.  The wait for the reset of
    the network card and the receive loop take the number of rounds the card needs.

    ** What is not modelled

    The build script, and [util/src/volatile.rs], which nothing uses.  The two stores of the
    main loop to pages that are not mapped have no effect of their own: they are the faults
    [page_fault_handler] of Mm.v handles.  The instructions [lidt], [lgdt], [sti] and [cli]
    appear through the loaded descriptors and the interrupt flag.  [Deref] of the guards
    is the access to the state they guard, so it is not a definition.

    Where the program does not do what it means to, the theorem states what it does: for
    example the clock that runs ahead, the fork that confuses bit 12, the ARP reply
    with the wrong address, or the page lost by a fault at an address that is not aligned.

    This file has the notions all others share: [outcome] and its monad, slices and bytes,
    machine integers, bit masks and aligned addresses, sorted sets. *)

From stdpp Require Export base decidable numbers option list sorting gmap sets strings.
From Stdlib Require Export ZArith Lia Btauto.

#[global] Open Scope Z_scope.

(** ** Panics

    The kernel is built with the [dev] profile (the Makefile installs
    [target/.../debug/aosir]), so arithmetic is checked and every failed check, failed
    [expect], out-of-range index and explicit [panic!] ends in the panic handler, which
    never returns.  [outcome] is the result of running a piece of Rust code. *)

Inductive panic_reason :=
| ArithmeticOverflow
| IndexOutOfBounds
| LengthMismatch
| InvalidDeref
| OutOfFuel
| Unreachable
| AssertionFailed (msg : string)
| ExpectFailed (msg : string)
| ExplicitPanic (msg : string).

Inductive outcome (A : Type) :=
| Ret (a : A)
| Panic (why : panic_reason).
Arguments Ret {A} a.
Arguments Panic {A} why.

#[global] Instance outcome_ret : MRet outcome := @Ret.
#[global] Instance outcome_bind : MBind outcome := λ A B f m,
  match m with
  | Ret a => f a
  | Panic p => Panic p
  end.
#[global] Instance outcome_fmap : FMap outcome := λ A B f m,
  match m with
  | Ret a => Ret (f a)
  | Panic p => Panic p
  end.

(** Rust's [Result]. *)
Inductive Result (T X : Type) :=
| Ok (v : T)
| Err (e : X).
Arguments Ok {T X} v.
Arguments Err {T X} e.

(** [assert!], [expect] and indexing. *)
Definition assert_that (b : bool) (p : panic_reason) : outcome () :=
  if b then Ret tt else Panic p.

Definition expect {A} (o : option A) (p : panic_reason) : outcome A :=
  match o with
  | Some a => Ret a
  | None => Panic p
  end.

Definition index {A} (l : list A) (i : nat) : outcome A := expect (l !! i) IndexOutOfBounds.

Definition index_set {A} (l : list A) (i : nat) (x : A) : outcome (list A) :=
  if decide (i < length l)%nat then Ret (<[i := x]> l) else Panic IndexOutOfBounds.

Fixpoint mfold {A B} (f : B → A → outcome B) (l : list A) (b : B) : outcome B :=
  match l with
  | [] => Ret b
  | a :: l => b' ← f b a; mfold f l b'
  end.

Section outcome_lemmas.
Context {A B : Type}.

Lemma bind_Ret_inv (m : outcome A) (f : A → outcome B) b :
  m ≫= f = Ret b ↔ ∃ a, m = Ret a ∧ f a = Ret b.
Proof. destruct m; cbn; naive_solver. Qed.

(** For results that are pairs of large records, where [injection] is slow. *)
Lemma Ret_pair_inv (a a' : A) (b b' : B) : Ret (a, b) = Ret (a', b') → a = a' ∧ b = b'.
Proof. by intros [= <- <-]. Qed.

Lemma bind_Ret (m : outcome A) (f : A → outcome B) a : m = Ret a → m ≫= f = f a.
Proof. by intros ->. Qed.

Lemma fmap_Ret_inv (m : outcome A) (f : A → B) b :
  f <$> m = Ret b ↔ ∃ a, m = Ret a ∧ f a = b.
Proof. destruct m; cbn; naive_solver. Qed.

Lemma expect_Ret_inv (o : option A) p a : expect o p = Ret a ↔ o = Some a.
Proof. destruct o; cbn; naive_solver. Qed.

Lemma assert_Ret_inv b p u : assert_that b p = Ret u ↔ b = true.
Proof. destruct b, u; cbn; naive_solver. Qed.

Lemma index_Ret_inv (l : list A) i a : index l i = Ret a ↔ l !! i = Some a.
Proof. apply expect_Ret_inv. Qed.

Lemma index_set_Ret_inv (l l' : list A) i x :
  index_set l i x = Ret l' ↔ (i < length l)%nat ∧ l' = <[i := x]> l.
Proof. unfold index_set. case_decide; naive_solver. Qed.

Lemma mfold_app (f : B → A → outcome B) l1 l2 b :
  mfold f (l1 ++ l2) b = (b' ← mfold f l1 b; mfold f l2 b').
Proof.
  revert b; induction l1 as [|a l1 IH]; intros b; cbn; [done|].
  destruct (f b a) as [b'|]; cbn; [apply IH|done].
Qed.

(** Loop rule: an invariant indexed by the part of the list already visited. *)
Lemma mfold_inv (f : B → A → outcome B) (I : list A → B → Prop) l b0 :
  I [] b0 →
  (∀ done x rest b, l = done ++ x :: rest → I done b →
     ∃ b', f b x = Ret b' ∧ I (done ++ [x]) b') →
  ∃ b', mfold f l b0 = Ret b' ∧ I l b'.
Proof.
  intros H0 Hstep.
  enough (∀ todo done b, l = done ++ todo → I done b →
            ∃ b', mfold f todo b = Ret b' ∧ I l b') as H by (by apply (H l [] b0)).
  induction todo as [|x rest IH]; intros dn b Hl HI; cbn.
  - rewrite app_nil_r in Hl. subst. eauto.
  - destruct (Hstep dn x rest b Hl HI) as (b' & -> & HI'); cbn.
    apply (IH (dn ++ [x])); [by rewrite <- app_assoc|done].
Qed.
End outcome_lemmas.

(** ** Slices

    Byte slices are lists; positions are [nat].  [slice] is [&l[a..b]], [copy_into] is
    [l[a..b].copy_from_slice(src)] and [split_at] is the method of the same name. *)

Definition slice {A} (l : list A) (a b : nat) : outcome (list A) :=
  if decide (a ≤ b ∧ b ≤ length l)%nat then Ret (take (b - a) (drop a l))
  else Panic IndexOutOfBounds.

Definition slice_from {A} (l : list A) (a : nat) : outcome (list A) := slice l a (length l).

Definition copy_into {A} (l : list A) (a b : nat) (src : list A) : outcome (list A) :=
  if decide (a ≤ b ∧ b ≤ length l)%nat then
    if decide (length src = b - a)%nat then Ret (take a l ++ src ++ drop b l)
    else Panic LengthMismatch
  else Panic IndexOutOfBounds.

Definition split_at {A} (l : list A) (n : nat) : outcome (list A * list A) :=
  if decide (n ≤ length l)%nat then Ret (take n l, drop n l) else Panic IndexOutOfBounds.

(** [to_be_bytes] / [from_be_bytes] of a [u16], and the little-endian bytes of an integer. *)
Definition be16 (n : Z) : list Z := [n / 256 mod 256; n mod 256].
Definition from_be16 (l : list Z) : outcome Z :=
  match l with
  | [a; b] => Ret (a * 256 + b)
  | _ => Panic LengthMismatch
  end.

Fixpoint to_le_bytes (k : nat) (n : Z) : list Z :=
  match k with
  | O => []
  | S k => n mod 256 :: to_le_bytes k (n / 256)
  end.
Fixpoint from_le_bytes (l : list Z) : Z :=
  match l with
  | [] => 0
  | b :: l => b + 256 * from_le_bytes l
  end.

Section slice_lemmas.
Context {A : Type}.
Implicit Types l m r : list A.

Lemma slice_app l m r a b :
  a = length l → b = (length l + length m)%nat → slice (l ++ m ++ r) a b = Ret m.
Proof.
  intros -> ->. unfold slice. rewrite decide_True by (rewrite !length_app; lia).
  rewrite drop_app_length. replace (length l + length m - length l)%nat with (length m) by lia.
  by rewrite take_app_length.
Qed.

Lemma slice_prefix m r b : b = length m → slice (m ++ r) 0 b = Ret m.
Proof. by apply (slice_app [] m r). Qed.

Lemma slice_from_app l m a : a = length l → slice_from (l ++ m) a = Ret m.
Proof.
  intros ->. unfold slice_from. rewrite <- (app_nil_r m) at 1.
  apply slice_app; [done|]. by rewrite length_app.
Qed.

Lemma slice_take l b : (b ≤ length l)%nat → slice l 0 b = Ret (take b l).
Proof. intros. unfold slice. rewrite decide_True by lia. by rewrite drop_0, Nat.sub_0_r. Qed.

Lemma slice_panics l a b : (length l < b)%nat → slice l a b = Panic IndexOutOfBounds.
Proof. intros. unfold slice. by rewrite decide_False by lia. Qed.

Lemma copy_into_app l m r src a b :
  a = length l → b = (length l + length m)%nat → length src = length m →
  copy_into (l ++ m ++ r) a b src = Ret (l ++ src ++ r).
Proof.
  intros -> -> Hlen. unfold copy_into. rewrite decide_True by (rewrite !length_app; lia).
  rewrite decide_True by lia. rewrite take_app_length. f_equal. f_equal. f_equal.
  rewrite app_assoc. apply drop_app_length'. by rewrite length_app.
Qed.

(** Writing at the end of what has been written so far. *)
Lemma copy_into_next l r src b :
  b = (length l + length src)%nat → (length src ≤ length r)%nat →
  copy_into (l ++ r) (length l) b src = Ret ((l ++ src) ++ drop (length src) r).
Proof.
  intros -> Hlen. rewrite <- (take_drop (length src) r) at 1.
  rewrite (copy_into_app l (take (length src) r)); rewrite ?length_take, ?app_assoc; lia || done.
Qed.

Lemma index_set_next l r x :
  (0 < length r)%nat → index_set (l ++ r) (length l) x = Ret ((l ++ [x]) ++ drop 1 r).
Proof.
  intros Hr. unfold index_set. rewrite decide_True by (rewrite length_app; lia).
  destruct r as [|y r]; [cbn in Hr; lia|]. rewrite insert_app_r_alt, Nat.sub_diag by lia.
  by rewrite <- app_assoc.
Qed.

(** Reading what was written, and beside it. *)
Lemma length_copy_into l a b src l' : copy_into l a b src = Ret l' → length l' = length l.
Proof.
  unfold copy_into. destruct (decide _); [|done]. destruct (decide _); [|done]. intros [= <-].
  rewrite !length_app, length_take, length_drop. lia.
Qed.

Lemma slice_copied l a b src l' : copy_into l a b src = Ret l' → slice l' a b = Ret src.
Proof.
  unfold copy_into. destruct (decide _) as [Hb|]; [|done]. destruct (decide _); [|done]. intros [= <-].
  apply slice_app; rewrite ?length_take; lia.
Qed.

Lemma slice_kept l a b src l' c d :
  copy_into l a b src = Ret l' → (d ≤ a ∨ b ≤ c)%nat → slice l' c d = slice l c d.
Proof.
  intros E Hcd. pose proof (length_copy_into _ _ _ _ _ E) as Hlen. unfold copy_into in E.
  destruct (decide _) as [Hb|]; [|done]. destruct (decide _); [|done]. injection E as <-.
  unfold slice. rewrite Hlen. destruct (decide _) as [Hd|]; [|done]. f_equal. apply list_eq. intros i.
  destruct (decide (i < d - c)%nat); [|by rewrite !lookup_take_ge by lia].
  rewrite !lookup_take_lt, !lookup_drop by lia. destruct Hcd.
  - rewrite lookup_app_l by (rewrite length_take; lia). by rewrite lookup_take_lt by lia.
  - rewrite lookup_app_r by (rewrite length_take; lia). rewrite lookup_app_r by (rewrite length_take; lia).
    rewrite lookup_drop, length_take. f_equal. lia.
Qed.

Lemma split_at_app l m n : n = length l → split_at (l ++ m) n = Ret (l, m).
Proof.
  intros ->. unfold split_at. rewrite decide_True by (rewrite length_app; lia).
  by rewrite take_app_length, drop_app_length.
Qed.

Lemma split_at_short l n : (length l < n)%nat → split_at l n = Panic IndexOutOfBounds.
Proof. intros. unfold split_at. by rewrite decide_False by lia. Qed.
End slice_lemmas.

Lemma from_be16_be16 n : 0 ≤ n < 2 ^ 16 → from_be16 (be16 n) = Ret n.
Proof.
  intros [H0 H1]. change (2 ^ 16) with 65536 in H1. cbn [be16 from_be16].
  rewrite (Z.mod_small (n / 256)).
  - f_equal. pose proof (Z.div_mod n 256). lia.
  - split; [apply Z.div_pos; lia|apply Z.div_lt_upper_bound; lia].
Qed.

Lemma length_be16 n : length (be16 n) = 2%nat.
Proof. done. Qed.

Lemma length_to_le_bytes k n : length (to_le_bytes k n) = k.
Proof. revert n; induction k as [|k IH]; intros n; cbn; [done|]. by rewrite IH. Qed.

Lemma from_to_le_bytes k n : 0 ≤ n < 256 ^ Z.of_nat k → from_le_bytes (to_le_bytes k n) = n.
Proof.
  revert n; induction k as [|k IH]; intros n Hn; cbn [to_le_bytes from_le_bytes].
  { change (256 ^ Z.of_nat 0) with 1 in Hn. lia. }
  rewrite Nat2Z.inj_succ, Z.pow_succ_r in Hn by lia.
  rewrite IH.
  - pose proof (Z.div_mod n 256). lia.
  - split; [apply Z.div_pos; lia|apply Z.div_lt_upper_bound; lia].
Qed.

(** [monad_inv] opens every [_ = Ret _] hypothesis of the context down to its leaves. *)
Ltac monad_inv_step :=
  match goal with
  | H : (_ ≫= _) = Ret _ |- _ =>
      apply bind_Ret_inv in H; destruct H as (? & ? & ?)
  | H : _ <$> _ = Ret _ |- _ =>
      apply fmap_Ret_inv in H; destruct H as (? & ? & ?)
  | H : expect _ _ = Ret _ |- _ => apply expect_Ret_inv in H
  | H : assert_that _ _ = Ret _ |- _ => apply assert_Ret_inv in H
  | H : index _ _ = Ret _ |- _ => apply index_Ret_inv in H
  | H : index_set _ _ _ = Ret _ |- _ => apply index_set_Ret_inv in H; destruct H as [? ?]
  | H : Ret _ = Ret _ |- _ => injection H; clear H; intros
  | H : mret _ = Ret _ |- _ => injection H; clear H; intros
  | H : Panic _ = Ret _ |- _ => discriminate H
  | H : Ret _ = Panic _ |- _ => discriminate H
  end.
Ltac monad_inv := repeat monad_inv_step; simplify_eq/=.

(** [ret] runs binds whose first action has returned; [checked] discharges checked
    arithmetic by [lia] on the way. *)
Ltac ret := cbn [mbind outcome_bind fmap outcome_fmap expect assert_that mret outcome_ret].

(** ** Machine integers

    A [uN] is a [Z] in [[0, 2^N)].  [checked_*] are the operators [+], [-], [*] and [<<]
    of the dev profile; [wrapping_*] are [fetch_add] and [wrapping_sub]. *)

Definition fits (w z : Z) : Prop := 0 ≤ z < 2 ^ w.
#[global] Instance fits_dec w z : Decision (fits w z).
Proof. unfold fits. apply _. Defined.

Definition checked_add (w a b : Z) : outcome Z :=
  if decide (a + b < 2 ^ w) then Ret (a + b) else Panic ArithmeticOverflow.
Definition checked_sub (a b : Z) : outcome Z :=
  if decide (b ≤ a) then Ret (a - b) else Panic ArithmeticOverflow.
Definition checked_mul (w a b : Z) : outcome Z :=
  if decide (a * b < 2 ^ w) then Ret (a * b) else Panic ArithmeticOverflow.
Definition checked_shl (w a n : Z) : outcome Z :=
  if decide (n < w) then Ret (Z.shiftl a n mod 2 ^ w) else Panic ArithmeticOverflow.

Definition wrapping_add (w a b : Z) : Z := (a + b) mod 2 ^ w.
Definition wrapping_sub (w a b : Z) : Z := (a - b) mod 2 ^ w.

(** [!a] at width [w]. *)
Definition bnot (w a : Z) : Z := Z.lxor a (Z.ones w).

(** [1 << n] on a 64-bit integer. *)
Definition one_shl (n : Z) : outcome Z := checked_shl 64 1 n.

Lemma checked_add_ok w a b : a + b < 2 ^ w → checked_add w a b = Ret (a + b).
Proof. intros. unfold checked_add. by case_decide. Qed.
Lemma checked_sub_ok a b : b ≤ a → checked_sub a b = Ret (a - b).
Proof. intros. unfold checked_sub. by case_decide. Qed.
Lemma checked_sub_underflow a b : a < b → checked_sub a b = Panic ArithmeticOverflow.
Proof. intros. unfold checked_sub. case_decide; [lia|done]. Qed.
Lemma checked_mul_ok w a b : a * b < 2 ^ w → checked_mul w a b = Ret (a * b).
Proof. intros. unfold checked_mul. by case_decide. Qed.
Lemma one_shl_ok n : 0 ≤ n < 64 → one_shl n = Ret (2 ^ n).
Proof.
  intros Hn. unfold one_shl, checked_shl. case_decide; [|lia].
  rewrite Z.shiftl_1_l, Z.mod_small; [done|].
  split; [apply Z.pow_nonneg; lia|apply Z.pow_lt_mono_r; lia].
Qed.

Ltac checked :=
  repeat (first [rewrite checked_add_ok by lia | rewrite checked_sub_ok by lia
                |rewrite checked_mul_ok by lia]; ret).

Lemma checked_add_Ret_inv w a b c :
  checked_add w a b = Ret c ↔ a + b < 2 ^ w ∧ c = a + b.
Proof. unfold checked_add. case_decide; naive_solver. Qed.
Lemma checked_sub_Ret_inv a b c : checked_sub a b = Ret c ↔ b ≤ a ∧ c = a - b.
Proof. unfold checked_sub. case_decide; naive_solver. Qed.
Lemma checked_mul_Ret_inv w a b c :
  checked_mul w a b = Ret c ↔ a * b < 2 ^ w ∧ c = a * b.
Proof. unfold checked_mul. case_decide; naive_solver. Qed.

(** ** Aligned addresses and the bit tricks on them *)

Lemma pow2_pos k : 0 ≤ k → 0 < 2 ^ k.
Proof. intros. by apply Z.pow_pos_nonneg. Qed.

Lemma pow2_split k j : 0 ≤ j ≤ k → 2 ^ k = 2 ^ (k - j) * 2 ^ j.
Proof. intros. rewrite <- Z.pow_add_r by lia. f_equal. lia. Qed.

Lemma pow2_divide j k : 0 ≤ j ≤ k → (2 ^ j | 2 ^ k).
Proof. intros. exists (2 ^ (k - j)). by apply pow2_split. Qed.

Lemma pow2_le_divide j k a : 0 ≤ j ≤ k → (2 ^ k | a) → (2 ^ j | a).
Proof. intros. etrans; [by apply pow2_divide|done]. Qed.

Lemma div_le_self a b : 0 ≤ a → 0 ≤ b → a / b ≤ a.
Proof.
  intros Ha Hb. destruct (decide (b = 0)) as [->|]; [rewrite Z.div_0_r; lia|].
  apply Z.div_le_upper_bound; nia.
Qed.

(** Divisibility of closed integers. *)
Ltac concrete_divide := apply Z.mod_divide; [done|reflexivity].

(** Two multiples of [d] less than [d] apart are equal. *)
Lemma divide_between d a b : 0 < d → (d | a) → (d | b) → a < b → a + d ≤ b.
Proof.
  intros Hd [x ->] [y ->] Hlt. apply Z.mul_lt_mono_pos_r in Hlt; [|done].
  assert (x + 1 ≤ y) by lia. nia.
Qed.

(** Bits [s .. s+n-1] of a number, as a number and one by one. *)
Lemma slice_bits s n v w :
  0 ≤ s → 0 ≤ n →
  v / 2 ^ s mod 2 ^ n = w / 2 ^ s mod 2 ^ n ↔
  ∀ i, s ≤ i < s + n → Z.testbit v i = Z.testbit w i.
Proof.
  intros Hs Hn. split.
  - intros H i Hi.
    assert (Z.testbit (v / 2 ^ s mod 2 ^ n) (i - s) = Z.testbit (w / 2 ^ s mod 2 ^ n) (i - s)) as Hb
      by (by rewrite H).
    rewrite !Z.mod_pow2_bits_low, !Z.div_pow2_bits in Hb by lia. by rewrite Z.sub_add in Hb.
  - intros H. apply Z.bits_inj'. intros i Hi. destruct (decide (i < n)).
    + rewrite !Z.mod_pow2_bits_low, !Z.div_pow2_bits by lia. apply H. lia.
    + by rewrite !Z.mod_pow2_bits_high by lia.
Qed.

(** [|] of a multiple of a power of two with something below it is addition. *)
Lemma lor_low n q v : 0 ≤ n → Z.lor (q * 2 ^ n) (v mod 2 ^ n) = q * 2 ^ n + v mod 2 ^ n.
Proof.
  intros Hn. rewrite <- Z.add_lor_land.
  assert (Z.land (q * 2 ^ n) (v mod 2 ^ n) = 0) as ->; [|lia].
  apply Z.bits_inj'. intros i Hi. rewrite Z.land_spec, Z.bits_0. destruct (decide (i < n)).
  - by rewrite Z.mul_pow2_bits_low.
  - by rewrite Z.mod_pow2_bits_high, andb_false_r by lia.
Qed.

Lemma lxor_1 q : Z.lxor q 1 = if Z.even q then q + 1 else q - 1.
Proof.
  assert (∀ r, Z.lxor (2 * r) 1 = 2 * r + 1) as Heven.
  { intros r. symmetry. apply Z.add_nocarry_lxor.
    change 1 with (Z.ones 1). rewrite Z.land_ones by lia. change (2 ^ 1) with 2.
    rewrite Z.mul_comm. apply Z_mod_mult. }
  destruct (Z.even q) eqn:Hq.
  - apply Z.even_spec in Hq as [r ->]. apply Heven.
  - assert (Z.odd q = true) as [r ->]%Z.odd_spec by (by rewrite <- Z.negb_even, Hq).
    rewrite <- Heven, Z.lxor_assoc, Z.lxor_nilpotent, Z.lxor_0_r, Heven. lia.
Qed.

Lemma lxor_pow2_mul k q : 0 ≤ k → Z.lxor (q * 2 ^ k) (2 ^ k) = Z.lxor q 1 * 2 ^ k.
Proof.
  intros Hk. rewrite <- !Z.shiftl_mul_pow2 by lia. rewrite <- (Z.shiftl_1_l k).
  by rewrite Z.shiftl_lxor.
Qed.

Lemma lxor_pow2_even k a :
  0 ≤ k → (2 ^ (k + 1) | a) → Z.lxor a (2 ^ k) = a + 2 ^ k.
Proof.
  intros Hk [q ->]. rewrite Z.pow_add_r, Z.pow_1_r by lia.
  replace (q * (2 ^ k * 2)) with ((2 * q) * 2 ^ k) by lia.
  rewrite lxor_pow2_mul, lxor_1, Z.even_mul by lia. cbn. lia.
Qed.

Lemma lxor_pow2_odd k a :
  0 ≤ k → (2 ^ (k + 1) | a - 2 ^ k) → Z.lxor a (2 ^ k) = a - 2 ^ k.
Proof.
  intros Hk Ha.
  assert (a = Z.lxor (a - 2 ^ k) (2 ^ k)) as Hx by (rewrite lxor_pow2_even by done; lia).
  rewrite Hx at 1. by rewrite Z.lxor_assoc, Z.lxor_nilpotent, Z.lxor_0_r.
Qed.

(** A block of size [2^k] is either the low or the high half of a block of size [2^(k+1)]. *)
Lemma aligned_cases k a :
  0 ≤ k → (2 ^ k | a) → (2 ^ (k + 1) | a) ∨ (2 ^ (k + 1) | a - 2 ^ k).
Proof.
  intros Hk [q ->]. rewrite Z.pow_add_r, Z.pow_1_r by lia.
  destruct (Z.Even_or_Odd q) as [[r ->]|[r ->]]; [left|right]; exists r; lia.
Qed.

(** [a & !(1 << k)] clears bit [k]. *)
Lemma land_bnot w a m : 0 ≤ a < 2 ^ w → 0 ≤ w → Z.land a (bnot w m) = Z.ldiff a m.
Proof.
  intros Ha Hw. apply Z.bits_inj'. intros i Hi. unfold bnot.
  rewrite Z.land_spec, Z.ldiff_spec, Z.lxor_spec.
  destruct (decide (i < w)).
  - rewrite Z.ones_spec_low by lia. by rewrite xorb_true_r.
  - rewrite <- (Z.mod_small a (2 ^ w)) by done.
    by rewrite Z.mod_pow2_bits_high by lia.
Qed.


Lemma ldiff_pow2_even k a : 0 ≤ k → (2 ^ (k + 1) | a) → Z.ldiff a (2 ^ k) = a.
Proof.
  intros Hk [q ->]. apply Z.bits_inj'. intros i Hi. rewrite Z.ldiff_spec.
  destruct (decide (i = k)) as [->|].
  - rewrite Z.mul_pow2_bits_low by lia. done.
  - by rewrite Z.pow2_bits_false, andb_true_r by lia.
Qed.

Lemma ldiff_pow2_odd k a :
  0 ≤ k → (2 ^ (k + 1) | a - 2 ^ k) → Z.ldiff a (2 ^ k) = a - 2 ^ k.
Proof.
  intros Hk Ha. rewrite <- (ldiff_pow2_even k (a - 2 ^ k)) by done.
  apply Z.bits_inj'. intros i Hi. rewrite <- lxor_pow2_odd, !Z.ldiff_spec, Z.lxor_spec by done.
  destruct (decide (i = k)) as [->|].
  - rewrite Z.pow2_bits_true by lia. by rewrite !andb_false_r.
  - by rewrite Z.pow2_bits_false, xorb_false_r by lia.
Qed.

(** ** Ordered sets

    A [BTreeSet<usize>] is a [gset Z]; its iterator is ascending. *)

Definition btree_iter (s : gset Z) : list Z := merge_sort Z.le (elements s).
Definition btree_first (s : gset Z) : option Z := head (btree_iter s).

Lemma elem_of_btree_iter s x : x ∈ btree_iter s ↔ x ∈ s.
Proof. unfold btree_iter. by rewrite merge_sort_Permutation, elem_of_elements. Qed.

Lemma btree_iter_sorted s : StronglySorted Z.le (btree_iter s).
Proof. apply StronglySorted_merge_sort; apply _. Qed.

Lemma btree_iter_NoDup s : NoDup (btree_iter s).
Proof. unfold btree_iter. rewrite merge_sort_Permutation. apply NoDup_elements. Qed.

Lemma StronglySorted_filter {A} (R : relation A) (P : A → Prop) `{!∀ x, Decision (P x)} l :
  StronglySorted R l → StronglySorted R (filter P l).
Proof.
  induction 1 as [|x l Hl IH Hx]; [constructor|]. rewrite filter_cons. destruct (decide (P x)); [|done].
  constructor; [done|]. rewrite Forall_forall in *. intros y [_ Hy]%list_elem_of_filter. auto.
Qed.

Lemma sorted_NoDup_lt l : StronglySorted Z.le l → NoDup l → StronglySorted Z.lt l.
Proof.
  induction 1 as [|x l Hl IH Hx]; [constructor|]. intros [Hn Hnd]%NoDup_cons. constructor; [auto|].
  rewrite Forall_forall in *. intros y Hy. pose proof (Hx y Hy). assert (x ≠ y) by (by intros ->). lia.
Qed.

Lemma btree_first_Some s x :
  btree_first s = Some x ↔ x ∈ s ∧ ∀ y, y ∈ s → x ≤ y.
Proof.
  unfold btree_first. setoid_rewrite <- elem_of_btree_iter.
  pose proof (btree_iter_sorted s) as Hs.
  destruct Hs as [|z l Hl Hz]; cbn.
  - split; [done|]. intros [H _]. by apply elem_of_nil in H.
  - split.
    + intros [= ->]. split; [set_solver|]. intros y [->|Hy]%elem_of_cons; [lia|].
      by rewrite Forall_forall in Hz; apply Hz.
    + intros [Hx Hmin]. f_equal. apply (anti_symm Z.le).
      * apply elem_of_cons in Hx as [->|Hx]; [lia|]. by rewrite Forall_forall in Hz; apply Hz.
      * apply Hmin. set_solver.
Qed.

Lemma btree_first_None s : btree_first s = None ↔ s = ∅.
Proof.
  split.
  - intros H. apply set_eq. intros x. rewrite <- elem_of_btree_iter.
    unfold btree_first in H. destruct (btree_iter s); [set_solver|done].
  - intros ->. done.
Qed.

(** ** Automation

    [lens] normalises lengths of lists, [bits] turns bit operations into tests of bits. *)

Create Rewrite HintDb lens.
Create Rewrite HintDb bits.
#[export] Hint Rewrite @length_app @length_take @length_drop @length_insert @length_replicate
  @length_seqZ @length_fmap @length_nil @length_cons length_to_le_bytes length_be16 : lens.
#[export] Hint Rewrite Z.land_spec Z.lor_spec Z.lxor_spec Z.ldiff_spec Z.bits_0 : bits.

(** Goals on lengths of lists. *)
Ltac len := autorewrite with lens in *; cbn [length] in *; lia.
