(* ===== verification/Physical.v ===== *)
(** * The physical page allocator (paging/src/physical.rs)

    [PageAllocator] keeps one free list per block order, from 4 KiB (order 12) to 512 KiB
    (order 19).  [free] coalesces buddies, [allocate] takes the lowest block of the
    requested order, [init] carves memory ranges into blocks. *)

From S2P Require Import Prelude.

Definition PAGE_SIZE_ORDER : Z := 12.
Definition PAGE_SIZE : Z := 2 ^ PAGE_SIZE_ORDER.
Definition BLOCK_ORDER_COUNT : Z := 7.

Record PageAllocator := mkPageAllocator { free_lists : list (gset Z) }.

Record Block := mkBlock { addr : Z; order : Z }.

Definition get_addr (b : Block) : Z := addr b.

Definition new : PageAllocator := mkPageAllocator [].

(** [self.free_lists[i] = l], used after [free_lists[i]] has been read. *)
Definition set_list (self : PageAllocator) (i : nat) (l : gset Z) : PageAllocator :=
  mkPageAllocator (<[i := l]> (free_lists self)).

(** [(lo..hi).contains(&x)] *)
Definition range_contains (lo hi x : Z) : bool := (lo <=? x) && (x <? hi).

(** The recursion halves [block_size] down to [PAGE_SIZE]; a [usize] can be halved at most
    64 times, so [is_buddy_in_range] starts with fuel 64. *)
Fixpoint is_buddy_in_range_go (fuel : nat) (addr block_size start size : Z) : outcome bool :=
  match fuel with
  | O => Panic OutOfFuel
  | S fuel =>
      let buddy := Z.lxor addr block_size in
      if decide (block_size = PAGE_SIZE) then
        stop ← checked_add 64 start size;
        Ret (range_contains start stop buddy)
      else
        stop ← checked_add 64 start size;
        if range_contains start stop buddy
        then is_buddy_in_range_go fuel buddy (Z.shiftr block_size 1) start size
        else Ret false
  end.

Definition is_buddy_in_range (addr block_size start size : Z) : outcome bool :=
  is_buddy_in_range_go 64 addr block_size start size.

(** [free] recurses into the next order, so at most once per free list. *)
Fixpoint free_go (fuel : nat) (self : PageAllocator) (block : Block) : outcome PageAllocator :=
  match fuel with
  | O => Panic OutOfFuel
  | S fuel =>
      list_idx ← checked_sub (order block) PAGE_SIZE_ORDER;
      block_size ← one_shl (order block);
      let buddy := Z.lxor (addr block) block_size in
      l ← index (free_lists self) (Z.to_nat list_idx);
      let removed := bool_decide (buddy ∈ l) in
      let self := set_list self (Z.to_nat list_idx) (l ∖ {[buddy]}) in
      if removed && (list_idx + 1 <? Z.of_nat (length (free_lists self))) then
        let merged := Z.land (addr block) (bnot 64 block_size) in
        free_go fuel self (mkBlock merged (order block + 1))
      else
        Ret (set_list self (Z.to_nat list_idx) ({[addr block]} ∪ (l ∖ {[buddy]})))
  end.

Definition free (self : PageAllocator) (block : Block) : outcome PageAllocator :=
  free_go (S (length (free_lists self))) self block.

(** The recursive call of [allocate] is on [list_idx + 1], which is below [order]; the
    fuel bounds the depth by the first order. *)
Fixpoint allocate_go (fuel : nat) (self : PageAllocator) (order : Z)
    : outcome (option Block * PageAllocator) :=
  match fuel with
  | O => Panic OutOfFuel
  | S fuel =>
      list_idx ← checked_sub order PAGE_SIZE_ORDER;
      if decide (Z.of_nat (length (free_lists self)) ≤ list_idx) then Ret (None, self)
      else
        l ← index (free_lists self) (Z.to_nat list_idx);
        match btree_first l with
        | Some addr =>
            Ret (Some (mkBlock addr order), set_list self (Z.to_nat list_idx) (l ∖ {[addr]}))
        | None =>
            '(large_block, self) ← allocate_go fuel self (list_idx + 1);
            match large_block with
            | None => Ret (None, self)
            | Some large_block =>
                block_size ← one_shl order;
                let buddy := Z.lxor (addr large_block) block_size in
                l ← index (free_lists self) (Z.to_nat list_idx);
                Ret (Some (mkBlock (addr large_block) order),
                     set_list self (Z.to_nat list_idx) ({[buddy]} ∪ l))
            end
        end
  end.

Definition allocate (self : PageAllocator) (order : Z) : outcome (option Block * PageAllocator) :=
  allocate_go (S (Z.to_nat order)) self order.

(** The [for sz in ..] loop of [init]: free the largest block that starts at [start], or
    fall off the end with [shift] past the largest order. *)
Fixpoint init_try_sizes (self : PageAllocator) (start size shift : Z) (szs : list Z)
    : outcome (PageAllocator * Z) :=
  match szs with
  | [] => Ret (self, shift)
  | sz :: szs =>
      block_size ← one_shl sz;
      in_range ← is_buddy_in_range start block_size start size;
      if negb in_range then
        self ← free self (mkBlock start sz);
        Ret (self, shift)
      else
        shift ← checked_shl 64 block_size 1;
        init_try_sizes self start size shift szs
  end.

(** The [loop] of [init]; every round consumes at least one page. *)
Fixpoint init_carve (fuel : nat) (self : PageAllocator) (start size : Z) : outcome PageAllocator :=
  match fuel with
  | O => Panic OutOfFuel
  | S fuel =>
      '(self, shift) ← init_try_sizes self start size PAGE_SIZE
                         (seqZ PAGE_SIZE_ORDER (BLOCK_ORDER_COUNT + 1));
      start ← checked_add 64 start shift;
      size ← checked_sub size shift;
      if decide (size = 0) then Ret self else init_carve fuel self start size
  end.

Definition init (self : PageAllocator) (init_free : list (Z * Z)) : outcome PageAllocator :=
  let self := mkPageAllocator
    (free_lists self ++ replicate (Z.to_nat (BLOCK_ORDER_COUNT + 1)) ∅) in
  mfold (λ self b, init_carve (S (Z.to_nat (b.2 / PAGE_SIZE))) self b.1 b.2) init_free self.

#[global] Arguments is_buddy_in_range : simpl never.
#[global] Arguments free : simpl never.
#[global] Arguments allocate : simpl never.

(** ** What the allocator owns

    [has self k a]: the block [[a, a + 2^k)] is on the free list of order [k].
    [covers self p]: physical address [p] lies in a free block.  [chunk p] is the
    1 MiB-aligned megabyte around [p], twice the largest order. *)

Definition has (self : PageAllocator) (k a : Z) : Prop :=
  PAGE_SIZE_ORDER ≤ k ∧
  ∃ l, free_lists self !! Z.to_nat (k - PAGE_SIZE_ORDER) = Some l ∧ a ∈ l.

Definition in_span (a k p : Z) : Prop := a ≤ p < a + 2 ^ k.
Definition in_block (b : Block) (p : Z) : Prop := in_span (addr b) (order b) p.
Definition covers (self : PageAllocator) (p : Z) : Prop :=
  ∃ k a, has self k a ∧ in_span a k p.

Definition MAX_ORDER : Z := PAGE_SIZE_ORDER + BLOCK_ORDER_COUNT.
Ltac orders := unfold MAX_ORDER, PAGE_SIZE_ORDER, BLOCK_ORDER_COUNT in *; lia.

Definition same_chunk (p q : Z) : Prop := p / 2 ^ (MAX_ORDER + 1) = q / 2 ^ (MAX_ORDER + 1).

Definition span_ok (a k : Z) : Prop :=
  PAGE_SIZE_ORDER ≤ k ≤ MAX_ORDER ∧ 0 ≤ a ∧ (2 ^ k | a) ∧ a + 2 ^ k ≤ 2 ^ 64.
Definition block_ok (b : Block) : Prop := span_ok (addr b) (order b).

(** The invariant: eight lists of aligned blocks, pairwise disjoint, no block free
    together with its buddy. *)
Record wf (self : PageAllocator) : Prop := {
  wf_length : length (free_lists self) = Z.to_nat (BLOCK_ORDER_COUNT + 1);
  wf_span k a : has self k a → span_ok a k;
  wf_disjoint k a j b p :
    has self k a → has self j b → in_span a k p → in_span b j p → k = j ∧ a = b;
  wf_coalesced k a : has self k a → ¬ has self k (Z.lxor a (2 ^ k));
}.

Lemma has_lookup self k l a :
  PAGE_SIZE_ORDER ≤ k →
  free_lists self !! Z.to_nat (k - PAGE_SIZE_ORDER) = Some l →
  has self k a ↔ a ∈ l.
Proof. unfold has. naive_solver. Qed.

Lemma has_set_list self k l l' j a :
  PAGE_SIZE_ORDER ≤ k →
  free_lists self !! Z.to_nat (k - PAGE_SIZE_ORDER) = Some l →
  has (set_list self (Z.to_nat (k - PAGE_SIZE_ORDER)) l') j a ↔
  if decide (j = k) then a ∈ l' else has self j a.
Proof.
  intros Hk Hl. unfold has, set_list; cbn. case_decide as Hj.
  - subst. rewrite list_lookup_insert_eq by (by eapply lookup_lt_Some). naive_solver.
  - split; (intros [? (l0 & Hl0 & ?)]; split; [done|]).
    + rewrite list_lookup_insert_ne in Hl0 by orders. eauto.
    + exists l0. rewrite list_lookup_insert_ne by orders. eauto.
Qed.

Lemma wf_list self k :
  wf self → PAGE_SIZE_ORDER ≤ k ≤ MAX_ORDER →
  ∃ l, free_lists self !! Z.to_nat (k - PAGE_SIZE_ORDER) = Some l.
Proof.
  intros Hwf Hk. apply lookup_lt_is_Some. rewrite (wf_length _ Hwf).
  orders.
Qed.

(** ** Geometry of buddies *)

Lemma span_nonempty a k : 0 ≤ k → in_span a k a.
Proof. intros. unfold in_span. pose proof (pow2_pos k). lia. Qed.

Lemma buddy_spans a k p :
  span_ok a k →
  in_span (Z.ldiff a (2 ^ k)) (k + 1) p ↔ in_span a k p ∨ in_span (Z.lxor a (2 ^ k)) k p.
Proof.
  intros ((? & _) & _ & Hd & _). unfold PAGE_SIZE_ORDER in *. unfold in_span.
  pose proof (pow2_pos k ltac:(lia)). rewrite Z.pow_add_r, Z.pow_1_r by lia.
  destruct (aligned_cases k a) as [He|Ho]; [lia|done| |].
  - rewrite ldiff_pow2_even, lxor_pow2_even by (done || lia). lia.
  - rewrite ldiff_pow2_odd, lxor_pow2_odd by (done || lia). lia.
Qed.

Lemma merged_ok a k :
  span_ok a k → k < MAX_ORDER → span_ok (Z.ldiff a (2 ^ k)) (k + 1).
Proof.
  intros ((Hk & _) & H0 & Hd & Hmax) Hlt. unfold PAGE_SIZE_ORDER in *.
  pose proof (pow2_pos k ltac:(lia)).
  assert (2 ^ (k + 1) = 2 ^ k * 2) as Hp by (rewrite Z.pow_add_r, Z.pow_1_r by lia; lia).
  assert ((2 ^ (k + 1) | 2 ^ 64)) as H64 by (apply pow2_divide; orders).
  unfold span_ok, PAGE_SIZE_ORDER. destruct (aligned_cases k a) as [He|Ho]; [lia|done| |].
  - rewrite ldiff_pow2_even by (done || lia).
    assert (a + 2 ^ (k + 1) ≤ 2 ^ 64) by (apply divide_between; [lia|done|done|lia]).
    split_and!; try done; lia.
  - rewrite ldiff_pow2_odd by (done || lia).
    assert (0 ≤ a - 2 ^ k).
    { destruct Ho as [r Hr]. rewrite Hr, Hp in *. assert (0 ≤ r); [|nia].
      assert (- 1 < 2 * r + 1); [|lia]. apply (Z.mul_lt_mono_pos_r (2 ^ k)); lia. }
    split_and!; try done; lia.
Qed.

Lemma buddy_involutive a k : Z.lxor (Z.lxor a (2 ^ k)) (2 ^ k) = a.
Proof. by rewrite Z.lxor_assoc, Z.lxor_nilpotent, Z.lxor_0_r. Qed.

Lemma buddy_ne a k : 0 ≤ k → Z.lxor a (2 ^ k) ≠ a.
Proof.
  intros Hk H. assert (Z.lxor a (Z.lxor a (2 ^ k)) = 0) as H0 by (rewrite H; apply Z.lxor_nilpotent).
  rewrite <- Z.lxor_assoc, Z.lxor_nilpotent, Z.lxor_0_l in H0. pose proof (pow2_pos k). lia.
Qed.

(** The two halves of a megabyte. *)
Lemma top_chunk a p q :
  span_ok a MAX_ORDER →
  in_span a MAX_ORDER p ∨ in_span (Z.lxor a (2 ^ MAX_ORDER)) MAX_ORDER p →
  same_chunk q p →
  in_span a MAX_ORDER q ∨ in_span (Z.lxor a (2 ^ MAX_ORDER)) MAX_ORDER q.
Proof.
  intros Hok Hp. rewrite <- buddy_spans in Hp |- * by done. unfold same_chunk, in_span in *.
  assert ((2 ^ (MAX_ORDER + 1) | Z.ldiff a (2 ^ MAX_ORDER))) as [c Hc].
  { destruct Hok as (_ & _ & Hd & _). destruct (aligned_cases MAX_ORDER a); [done|done| |].
    - by rewrite ldiff_pow2_even.
    - by rewrite ldiff_pow2_odd. }
  rewrite Hc in *. intros Hq.
  pose proof (pow2_pos (MAX_ORDER + 1) ltac:(done)).
  generalize dependent (2 ^ (MAX_ORDER + 1)). intros M Hc Hp Hq HM.
  assert (p / M = c) by (symmetry; apply Z.div_unique with (p - c * M); lia).
  pose proof (Z.div_mod q M ltac:(lia)). pose proof (Z.mod_pos_bound q M HM). nia.
Qed.

(** ** Adding and removing one block *)

Lemma set_list_id self k l :
  free_lists self !! Z.to_nat (k - PAGE_SIZE_ORDER) = Some l →
  set_list self (Z.to_nat (k - PAGE_SIZE_ORDER)) l = self.
Proof. intros Hl. unfold set_list. rewrite list_insert_id by done. by destruct self. Qed.

Lemma set_list_set_list self i l l' : set_list (set_list self i l) i l' = set_list self i l'.
Proof. unfold set_list; cbn. by rewrite list_insert_insert_eq. Qed.

Section one_block.
Context (self : PageAllocator) (Hwf : wf self).

Lemma has_covers k a p : has self k a → in_span a k p → covers self p.
Proof. unfold covers. eauto. Qed.

Lemma insert_block b l :
  block_ok b → (∀ p, in_block b p → ¬ covers self p) →
  free_lists self !! Z.to_nat (order b - PAGE_SIZE_ORDER) = Some l →
  Z.lxor (addr b) (2 ^ order b) ∉ l →
  let self' := set_list self (Z.to_nat (order b - PAGE_SIZE_ORDER)) ({[addr b]} ∪ l) in
  wf self' ∧ (∀ p, covers self' p ↔ covers self p ∨ in_block b p).
Proof.
  intros Hb Hdisj Hl Hbuddy. pose proof Hb as ((Hk & _) & _).
  assert (∀ j a, has (set_list self (Z.to_nat (order b - PAGE_SIZE_ORDER))
      ({[addr b]} ∪ l)) j a ↔ has self j a ∨ (j = order b ∧ a = addr b)) as Hhas.
  { intros j a. rewrite has_set_list by done. case_decide; [|naive_solver].
    subst j. rewrite (has_lookup self (order b) l) by done. set_solver. }
  split.
  - split.
    + unfold set_list; cbn. rewrite length_insert. apply Hwf.
    + intros k a [?|[-> ->]]%Hhas; [by apply Hwf|done].
    + intros k a j c p [Ha|[-> ->]]%Hhas [Hc|[-> ->]]%Hhas Hpa Hpc; [|..|done].
      * by eapply (wf_disjoint self).
      * exfalso. eapply Hdisj; [exact Hpc|]. by eapply has_covers.
      * exfalso. eapply Hdisj; [exact Hpa|]. by eapply has_covers.
    + intros k a Ha Hbud. apply Hhas in Ha as [Ha|[-> ->]], Hbud as [Hbud|[Hk' Ha']].
      * exact (wf_coalesced _ Hwf _ _ Ha Hbud).
      * subst k. apply Hbuddy. rewrite <- (has_lookup self (order b) l) by done.
        by rewrite <- Ha', buddy_involutive.
      * apply Hbuddy. by rewrite <- (has_lookup self (order b) l).
      * unfold PAGE_SIZE_ORDER in *. by apply (buddy_ne (addr b) (order b)); [lia|].
  - intros p. unfold covers, in_block. setoid_rewrite Hhas. naive_solver.
Qed.

Lemma remove_block k a l :
  has self k a →
  free_lists self !! Z.to_nat (k - PAGE_SIZE_ORDER) = Some l →
  let self' := set_list self (Z.to_nat (k - PAGE_SIZE_ORDER)) (l ∖ {[a]}) in
  wf self' ∧ (∀ p, covers self p ↔ covers self' p ∨ in_span a k p) ∧
  (∀ p, in_span a k p → ¬ covers self' p).
Proof.
  intros Ha Hl. pose proof Ha as [Hk _].
  assert (∀ j c, has (set_list self (Z.to_nat (k - PAGE_SIZE_ORDER)) (l ∖ {[a]})) j c ↔
            has self j c ∧ ¬ (j = k ∧ c = a)) as Hhas.
  { intros j c. rewrite has_set_list by done. case_decide; [|naive_solver].
    subst j. rewrite (has_lookup self k l) by done. set_solver. }
  split_and!.
  - split.
    + unfold set_list; cbn. rewrite length_insert. apply Hwf.
    + intros j c [? _]%Hhas. by apply Hwf.
    + intros j c i d p [? _]%Hhas [? _]%Hhas. by apply (wf_disjoint self).
    + intros j c [Hc _]%Hhas [Hb _]%Hhas.
      exact (wf_coalesced _ Hwf _ _ Hc Hb).
  - intros p. unfold covers. setoid_rewrite Hhas. split; [|naive_solver].
    intros (j & c & Hc & Hp). destruct (decide (j = k ∧ c = a)) as [[-> ->]|]; naive_solver.
  - intros p Hp (j & c & [Hc Hne]%Hhas & Hpc). apply Hne. by eapply (wf_disjoint self).
Qed.
End one_block.

Lemma free_go_spec n self b :
  wf self → block_ok b → (∀ p, in_block b p → ¬ covers self p) →
  MAX_ORDER < order b + Z.of_nat n →
  ∃ self', free_go n self b = Ret self' ∧ wf self' ∧
    (∀ p, covers self' p → covers self p ∨ in_block b p) ∧
    (∀ p, covers self p ∨ in_block b p →
       covers self' p ∨ ∀ q, same_chunk q p → covers self q ∨ in_block b q).
Proof.
  revert self b. induction n as [|n IH]; intros self b Hwf Hb Hdisj Hfuel.
  { destruct Hb as (? & _). lia. }
  pose proof Hb as (Hk & Ha0 & Had & Hmax).
  destruct (wf_list self (order b) Hwf Hk) as [l Hl].
  assert (0 < 2 ^ order b) by (apply pow2_pos; unfold PAGE_SIZE_ORDER in *; lia).
  cbn [free_go]. rewrite checked_sub_ok by lia.
  rewrite one_shl_ok by orders.
  cbn. unfold index. rewrite Hl; cbn. rewrite length_insert, (wf_length _ Hwf).
  change (Z.of_nat (Z.to_nat (BLOCK_ORDER_COUNT + 1))) with 8.
  destruct (decide (Z.lxor (addr b) (2 ^ order b) ∈ l)) as [Hin|Hin].
  - rewrite bool_decide_eq_true_2 by done; cbn.
    assert (has self (order b) (Z.lxor (addr b) (2 ^ order b))) as Hhas
      by (rewrite (has_lookup self _ l); [done|lia|done]).
    destruct (remove_block self Hwf _ _ _ Hhas Hl) as (Hwf1 & Hcov1 & Hdisj1).
    destruct (Z.ltb_spec (order b - PAGE_SIZE_ORDER + 1) 8) as [Hlt|Hge].
    + (* merge and continue one order up *)
      rewrite land_bnot by lia.
      assert (order b < MAX_ORDER) by orders.
      pose proof (λ p, buddy_spans (addr b) (order b) p Hb) as Hspan.
      destruct (IH _ (mkBlock (Z.ldiff (addr b) (2 ^ order b)) (order b + 1)) Hwf1)
        as (self' & Hfree & Hwf' & Hs & Hc).
      * by apply merged_ok.
      * intros p Hp. unfold in_block in *; cbn in Hp. apply Hspan in Hp as [Hp|Hp]; [|by auto].
        intros Hc. eapply Hdisj; [exact Hp|]. apply Hcov1. by left.
      * cbn. lia.
      * exists self'. split_and!; [exact Hfree|done|..]; unfold in_block in *; cbn in *.
        -- intros p Hp. apply Hs in Hp. rewrite Hspan in Hp. rewrite Hcov1. tauto.
        -- intros p Hp. destruct (Hc p) as [?|Hq]; [rewrite Hspan; rewrite Hcov1 in Hp; tauto|by left|].
           right. intros q Hqp. specialize (Hq q Hqp). rewrite Hspan in Hq. rewrite Hcov1. tauto.
    + (* the top order: the buddy is dropped *)
      assert (order b = MAX_ORDER) as Htop
        by orders.
      eexists; split; [reflexivity|].
      edestruct (insert_block _ Hwf1 b (l ∖ {[Z.lxor (addr b) (2 ^ order b)]})) as [Hwf2 Hcov2].
      { done. }
      { intros p Hp Hc. eapply Hdisj; [exact Hp|]. apply Hcov1. by left. }
      { unfold set_list; cbn. apply list_lookup_insert_eq. by eapply lookup_lt_Some. }
      { set_solver. }
      split_and!; [done|..].
      * intros p. rewrite Hcov2, Hcov1. tauto.
      * intros p Hp. rewrite Hcov1 in Hp. rewrite Hcov2.
        destruct Hp as [[?|Hp]|?]; [tauto| |tauto].
        right. intros q Hqp. rewrite Hcov1. unfold in_block. rewrite Htop in *.
        destruct (top_chunk (addr b) p q); [|by right|done|tauto|tauto].
        unfold block_ok in Hb. by rewrite Htop in Hb.
  - rewrite bool_decide_eq_false_2 by done; cbn.
    assert (l ∖ {[Z.lxor (addr b) (2 ^ order b)]} = l) as -> by set_solver.
    rewrite (set_list_id self _ l) by done.
    destruct (insert_block self Hwf b l) as [Hwf' Hcov]; [done..|].
    eexists; split; [reflexivity|]. split_and!; [done|..].
    + intros p. by rewrite Hcov.
    + intros p. rewrite Hcov. by left.
Qed.

(** ** Carving ranges *)

Lemma is_buddy_go_low fuel a k start size :
  PAGE_SIZE_ORDER ≤ k → k - PAGE_SIZE_ORDER < Z.of_nat fuel →
  (2 ^ (k + 1) | a) → start ≤ a → (PAGE_SIZE | start + size) → start + size < 2 ^ 64 →
  is_buddy_in_range_go fuel a (2 ^ k) start size
  = Ret (bool_decide (a + 2 ^ (k + 1) ≤ start + size)).
Proof.
  revert a k. induction fuel as [|fuel IH]; intros a k Hk Hfuel Ha Hstart Hsz Hmax; [orders|].
  assert (0 < 2 ^ k) by (apply pow2_pos; orders).
  assert (2 ^ (k + 1) = 2 * 2 ^ k) as Hp by (rewrite Z.pow_add_r by orders; lia).
  assert ((PAGE_SIZE | a + 2 ^ k)) as Hpa.
  { apply Z.divide_add_r; [|by apply pow2_divide; orders].
    eapply pow2_le_divide; [|exact Ha]. orders. }
  cbn [is_buddy_in_range_go]. rewrite checked_add_ok by done.
  rewrite lxor_pow2_even by (done || orders). cbn.
  assert (range_contains start (start + size) (a + 2 ^ k)
    = bool_decide (a + 2 ^ k < start + size)) as Hc.
  { unfold range_contains. rewrite (proj2 (Z.leb_le _ _)) by lia. cbn.
    destruct (Z.ltb_spec (a + 2 ^ k) (start + size)).
    - by rewrite bool_decide_eq_true_2. - by rewrite bool_decide_eq_false_2 by lia. }
  rewrite Hc. destruct (decide (2 ^ k = PAGE_SIZE)) as [Hpage|Hpage].
  - f_equal. apply bool_decide_ext. split; [|lia]. intros Hlt.
    assert (a + 2 ^ k + PAGE_SIZE ≤ start + size) by (by apply divide_between). lia.
  - assert (PAGE_SIZE_ORDER < k).
    { destruct (decide (k = PAGE_SIZE_ORDER)) as [->|]; [done|lia]. }
    assert (2 ^ k = 2 * 2 ^ (k - 1)) as Hp1.
    { replace k with (k - 1 + 1) at 1 by lia. rewrite Z.pow_add_r by orders. lia. }
    case_bool_decide as Hlt.
    + rewrite Z.shiftr_div_pow2, Z.pow_1_r, Hp1, (Z.mul_comm 2), Z.div_mul by lia.
      rewrite IH; [|try orders..|done|done].
      * f_equal. apply bool_decide_ext. replace (k - 1 + 1) with k by lia. lia.
      * replace (k - 1 + 1) with k by lia. rewrite (Z.mul_comm _ 2), <- Hp1.
        apply Z.divide_add_r; [|done]. eapply pow2_le_divide; [|exact Ha]. orders.
    + f_equal. symmetry. apply bool_decide_eq_false_2. lia.
Qed.

Lemma is_buddy_in_range_start k start size :
  PAGE_SIZE_ORDER ≤ k ≤ MAX_ORDER → (2 ^ k | start) →
  (PAGE_SIZE | start + size) → start + size < 2 ^ 64 →
  ∃ r, is_buddy_in_range start (2 ^ k) start size = Ret r ∧
    (r = true ↔ (2 ^ (k + 1) | start) ∧ 2 ^ (k + 1) ≤ size).
Proof.
  intros Hk Hstart Hsz Hmax. unfold is_buddy_in_range.
  destruct (aligned_cases k start) as [He|Ho]; [orders|done| |].
  - rewrite is_buddy_go_low by (done || orders). eexists; split; [done|].
    rewrite bool_decide_eq_true. split; [|lia]. intros; split; [done|lia].
  - assert (0 < 2 ^ k) by (apply pow2_pos; orders).
    exists false. split.
    + change 64%nat with (S 63). cbn [is_buddy_in_range_go].
      rewrite lxor_pow2_odd, checked_add_ok by (done || orders). cbn. unfold range_contains.
      rewrite (proj2 (Z.leb_gt _ _)) by lia. cbn. by case_decide.
    + split; [done|]. intros [[q Hq] _]. exfalso. destruct Ho as [r Hr].
      assert (2 ^ (k + 1) = 2 * 2 ^ k) as Hp by (rewrite Z.pow_add_r by orders; lia).
      rewrite Hp in *. assert (2 * (q - r) * 2 ^ k = 1 * 2 ^ k) by lia.
      assert (2 * (q - r) = 1) by (eapply Z.mul_reg_r; [|done]; lia). lia.
Qed.

(** The order chosen at [start]: the largest power of two that divides [start] and fits. *)
Definition best_order (start size j : Z) : Prop :=
  PAGE_SIZE_ORDER ≤ j ≤ MAX_ORDER + 1 ∧ (2 ^ j | start) ∧ 2 ^ j ≤ size ∧
  (j ≤ MAX_ORDER → ¬ ((2 ^ (j + 1) | start) ∧ 2 ^ (j + 1) ≤ size)).

Lemma init_try_sizes_spec n k self start size :
  k + Z.of_nat n = MAX_ORDER + 1 → PAGE_SIZE_ORDER ≤ k → (2 ^ k | start) → 2 ^ k ≤ size →
  (PAGE_SIZE | start + size) → start + size < 2 ^ 64 →
  ∃ j, best_order start size j ∧
    init_try_sizes self start size (2 ^ k) (seqZ k (Z.of_nat n)) =
    if decide (j = MAX_ORDER + 1) then Ret (self, 2 ^ j)
    else self' ← free self (mkBlock start j); Ret (self', 2 ^ j).
Proof.
  revert k. induction n as [|n IH]; intros k Hn Hk Hd Hfit Hsz Hmax.
  - exists k. assert (k = MAX_ORDER + 1) as -> by lia. split.
    + split_and!; try done; intros; lia.
    + by rewrite decide_True.
  - rewrite seqZ_cons by lia. cbn [init_try_sizes].
    replace (Z.pred (Z.of_nat (S n))) with (Z.of_nat n) by lia.
    rewrite one_shl_ok by orders. cbn.
    destruct (is_buddy_in_range_start k start size) as (r & -> & Hr); [lia|done..|]. cbn.
    destruct r; cbn.
    + destruct Hr as [[Hd' Hfit'] _]; [done|].
      unfold checked_shl. rewrite decide_True by lia. cbn.
      assert (Z.shiftl (2 ^ k) 1 mod 2 ^ 64 = 2 ^ (k + 1)) as ->.
      { rewrite Z.shiftl_mul_pow2, <- Z.pow_add_r by orders. apply Z.mod_small.
        split; [by apply Z.pow_nonneg|]. apply Z.pow_lt_mono_r; orders. }
      apply IH; try done; orders.
    + exists k. split.
      * split_and!; try done; [lia|]. intros _ Hb. apply Hr in Hb. done.
      * by rewrite decide_False by lia.
Qed.
