(* ===== verification/PhysicalSpec.v ===== *)
(** * Correctness of the physical page allocator

    [free] never hands a page out twice and loses pages only when a whole megabyte becomes
    free; [allocate] pops the lowest block of an order and panics when the list is empty;
    [init] owns exactly the pages of its ranges outside fully contained megabytes. *)

From S2P Require Import Prelude Physical.

Definition chunk_inside (lo hi p : Z) : Prop :=
  let M := 2 ^ (MAX_ORDER + 1) in lo ≤ p / M * M ∧ p / M * M + M ≤ hi.

Definition range_ok (r : Z * Z) : Prop :=
  0 ≤ r.1 ∧ (PAGE_SIZE | r.1) ∧ 0 < r.2 ∧ (PAGE_SIZE | r.2) ∧ r.1 + r.2 < 2 ^ 64.
Definition in_range (r : Z * Z) (p : Z) : Prop := r.1 ≤ p < r.1 + r.2.

(** ** Geometry of the megabyte *)

Lemma chunk_start_le p : let M := 2 ^ (MAX_ORDER + 1) in p / M * M ≤ p < p / M * M + M.
Proof.
  cbn zeta. pose proof (Z.div_mod p (2 ^ (MAX_ORDER + 1)) ltac:(done)).
  pose proof (Z.mod_pos_bound p (2 ^ (MAX_ORDER + 1)) ltac:(done)). lia.
Qed.

Lemma same_chunk_start p q :
  same_chunk q p ↔
  let M := 2 ^ (MAX_ORDER + 1) in p / M * M ≤ q < p / M * M + M.
Proof.
  unfold same_chunk. cbn zeta. split.
  - intros <-. apply chunk_start_le.
  - intros Hq. symmetry. apply Z.div_unique with (q - p / 2 ^ (MAX_ORDER + 1) * 2 ^ (MAX_ORDER + 1)); lia.
Qed.

(** A block freed at [start] is not inside a megabyte of the range. *)
Lemma best_block_not_inside start size j p :
  best_order start size j → j ≠ MAX_ORDER + 1 → in_span start j p →
  ¬ chunk_inside start (start + size) p.
Proof.
  intros (Hj & Hd & Hfit & Hbest) Hne Hp [Hlo Hhi]. unfold in_span in Hp.
  set (M := 2 ^ (MAX_ORDER + 1)) in *. pose proof (chunk_start_le p) as Hcp. cbn zeta in Hcp. fold M in Hcp.
  assert ((2 ^ j | p / M * M)) as Hdc.
  { apply Z.divide_mul_r. apply pow2_divide. orders. }
  assert (p / M * M = start) as Hc.
  { destruct (decide (start < p / M * M)); [|lia].
    assert (start + 2 ^ j ≤ p / M * M); [|lia].
    apply divide_between; try done. apply pow2_pos. orders. }
  apply Hbest; [lia|]. split.
  - rewrite <- Hc. apply Z.divide_mul_r. apply pow2_divide. orders.
  - assert (2 ^ (j + 1) ≤ M) by (apply Z.pow_le_mono_r; orders). lia.
Qed.

(** Advancing past the block at [start] does not change which later megabytes are inside. *)
Lemma chunk_inside_advance start size j p :
  best_order start size j → start + 2 ^ j ≤ p →
  chunk_inside (start + 2 ^ j) (start + size) p ↔ chunk_inside start (start + size) p.
Proof.
  intros (Hj & Hd & Hfit & Hbest) Hp. unfold chunk_inside. cbn zeta.
  set (M := 2 ^ (MAX_ORDER + 1)) in *. pose proof (chunk_start_le p) as Hcp. cbn zeta in Hcp. fold M in Hcp.
  assert (0 < 2 ^ j) by (apply pow2_pos; orders).
  split; [lia|]. intros [Hlo Hhi]. split; [|done].
  destruct (decide (p / M * M = start)) as [Hc|].
  - exfalso. destruct (decide (j = MAX_ORDER + 1)) as [->|]; [lia|].
    apply Hbest; [lia|]. split.
    + rewrite <- Hc. apply Z.divide_mul_r. apply pow2_divide. orders.
    + assert (2 ^ (j + 1) ≤ M) by (apply Z.pow_le_mono_r; orders). lia.
  - apply divide_between; [done|done| |lia]. apply Z.divide_mul_r. apply pow2_divide. orders.
Qed.

(** The skipped megabyte. *)
Lemma skipped_inside start size p :
  best_order start size (MAX_ORDER + 1) → in_span start (MAX_ORDER + 1) p →
  chunk_inside start (start + size) p.
Proof.
  intros (_ & [q ->] & Hfit & _) Hp. unfold in_span in Hp. unfold chunk_inside. cbn zeta.
  assert (p / 2 ^ (MAX_ORDER + 1) = q) as ->; [|lia].
  symmetry. apply Z.div_unique with (p - q * 2 ^ (MAX_ORDER + 1)); lia.
Qed.

(** ** One round of [init] *)

Lemma init_round self start size :
  wf self → range_ok (start, size) → (∀ p, in_range (start, size) p → ¬ covers self p) →
  ∃ j self', best_order start size j ∧
    init_try_sizes self start size PAGE_SIZE (seqZ PAGE_SIZE_ORDER (BLOCK_ORDER_COUNT + 1))
      = Ret (self', 2 ^ j) ∧ wf self' ∧
    (∀ p, covers self' p → covers self p ∨ (in_span start j p ∧ ¬ chunk_inside start (start + size) p)) ∧
    (∀ p, covers self p ∨ in_span start j p →
       covers self' p ∨ ∀ q, same_chunk q p → covers self q ∨ in_range (start, size) q).
Proof.
  intros Hwf (Hs0 & Hs & Hn0 & Hn & Hmax) Hdisj; cbn [fst snd] in *.
  assert (PAGE_SIZE ≤ size).
  { replace size with (0 + size) by lia. replace PAGE_SIZE with (0 + PAGE_SIZE) by lia.
    apply divide_between; try done. by exists 0. }
  destruct (init_try_sizes_spec 8 PAGE_SIZE_ORDER self start size) as (j & Hj & Htry);
    [done|done|done|done|by apply Z.divide_add_r|done|].
  pose proof Hj as (Hjr & Hjd & Hjfit & _).
  change PAGE_SIZE with (2 ^ PAGE_SIZE_ORDER) at 1.
  change (seqZ PAGE_SIZE_ORDER (BLOCK_ORDER_COUNT + 1)) with (seqZ PAGE_SIZE_ORDER (Z.of_nat 8)).
  exists j. rewrite Htry. case_decide as Htop.
  - exists self. split_and!; try done; [by left|].
    intros p [Hp|Hp]; [by left|right]. intros q Hq. right.
    subst j. pose proof (skipped_inside _ _ _ Hj Hp) as [Hlo Hhi].
    apply same_chunk_start in Hq. unfold in_range; cbn [fst snd] in *. cbn zeta in *. lia.
  - assert (block_ok (mkBlock start j)) as Hb.
    { split_and!; cbn; try done; lia. }
    destruct (free_go_spec (S (length (free_lists self))) self (mkBlock start j))
      as (self' & Hfree & Hwf' & Hsound & Hcompl); [done|done| |rewrite (wf_length _ Hwf); cbn; orders|].
    { intros p Hp. apply Hdisj. unfold in_block, in_span, in_range in *; cbn in *. lia. }
    fold (free self (mkBlock start j)) in Hfree. rewrite Hfree. cbn.
    exists self'. split_and!; try done.
    + intros p [?|Hp]%Hsound; [by left|right]. split; [done|]. by eapply best_block_not_inside.
    + intros p Hp. destruct (Hcompl p Hp) as [?|Hq]; [by left|right].
      intros q Hqp. destruct (Hq q Hqp) as [?|Hin]; [by left|right].
      unfold in_block, in_span, in_range in *; cbn in *. lia.
Qed.

Lemma init_carve_spec fuel self start size :
  wf self → range_ok (start, size) → (∀ p, in_range (start, size) p → ¬ covers self p) →
  size / PAGE_SIZE < Z.of_nat fuel →
  ∃ self', init_carve fuel self start size = Ret self' ∧ wf self' ∧
    (∀ p, covers self' p →
       covers self p ∨ (in_range (start, size) p ∧ ¬ chunk_inside start (start + size) p)) ∧
    (∀ p, covers self p ∨ in_range (start, size) p →
       covers self' p ∨ ∀ q, same_chunk q p → covers self q ∨ in_range (start, size) q).
Proof.
  revert self start size. induction fuel as [|fuel IH]; intros self start size Hwf Hr Hdisj Hfuel.
  { exfalso. destruct Hr as (_ & _ & ? & _); cbn in *. assert (0 ≤ size / PAGE_SIZE) by (apply Z.div_pos; [lia|done]).
    lia. }
  destruct (init_round self start size Hwf Hr Hdisj) as (j & self1 & Hj & Htry & Hwf1 & Hs1 & Hc1).
  pose proof Hr as (Hs0 & Hs & Hn0 & Hn & Hmax); cbn [fst snd] in *.
  pose proof Hj as (Hjr & Hjd & Hjfit & _).
  assert (PAGE_SIZE ≤ 2 ^ j) as Hpj by (apply Z.pow_le_mono_r; orders).
  assert ((PAGE_SIZE | 2 ^ j)) by (apply pow2_divide; orders).
  cbn [init_carve]. rewrite Htry. cbn.
  rewrite checked_add_ok by lia. cbn. rewrite checked_sub_ok by lia. cbn.
  assert (∀ p, in_range (start, size) p ↔
    in_span start j p ∨ in_range (start + 2 ^ j, size - 2 ^ j) p) as Hsplit.
  { intros p. unfold in_range, in_span; cbn. lia. }
  case_decide as Hend.
  - exists self1. split_and!; try done.
    + intros p Hp. destruct (Hs1 p Hp) as [?|[? ?]]; [by left|right]. rewrite Hsplit. tauto.
    + intros p Hp. apply Hc1. rewrite Hsplit in Hp. unfold in_range in Hp; cbn in Hp.
      destruct Hp as [?|[?|?]]; [by left|by right|lia].
  - destruct (IH self1 (start + 2 ^ j) (size - 2 ^ j)) as (self' & Hrun & Hwf' & Hs' & Hc').
    + done.
    + split_and!; cbn; try lia; [by apply Z.divide_add_r|by apply Z.divide_sub_r].
    + intros p Hp [Hc|[Hc _]]%Hs1; [by eapply Hdisj, Hc; apply Hsplit; right|].
      unfold in_span, in_range in *; cbn in *. lia.
    + assert (size = PAGE_SIZE * (size / PAGE_SIZE)) as Heq.
      { destruct Hn as [x ->]. rewrite Z.div_mul by done. lia. }
      assert ((size - 2 ^ j) / PAGE_SIZE < size / PAGE_SIZE); [|lia].
      apply Z.div_lt_upper_bound; [done|]. assert (0 < PAGE_SIZE) by done. lia.
    + exists self'. split_and!; try done.
      * intros p [[?|[? ?]]%Hs1|[Hp Hn']]%Hs'; [by left| |]; right; rewrite Hsplit; [tauto|].
        split; [by right|]. rewrite <- (chunk_inside_advance _ _ j) by (done || apply Hp).
        replace (start + size) with (start + 2 ^ j + (size - 2 ^ j)) by lia. done.
      * intros p Hp. assert (covers self1 p ∨ in_range (start + 2 ^ j, size - 2 ^ j) p ∨
          ∀ q, same_chunk q p → covers self q ∨ in_range (start, size) q) as Hp1.
        { rewrite Hsplit in Hp. destruct Hp as [Hp|[Hp|Hp]]; [| |tauto];
            (destruct (Hc1 p) as [?|?]; [tauto|tauto|tauto]). }
        destruct Hp1 as [Hp1|[Hp1|Hp1]]; [| |tauto];
          (destruct (Hc' p) as [?|Hq]; [tauto|tauto|]); right; intros q Hqp;
          destruct (Hq q Hqp) as [[?|[? _]]%Hs1|?]; rewrite ?Hsplit; tauto.
Qed.

(** ** Concrete allocators for the witnesses *)

Definition empty_allocator : PageAllocator :=
  mkPageAllocator (replicate (Z.to_nat (BLOCK_ORDER_COUNT + 1)) ∅).

Lemma not_has_empty k a : ¬ has empty_allocator k a.
Proof. intros [_ (l & Hl & Ha)]. apply lookup_replicate in Hl as [-> _]. set_solver. Qed.

Lemma not_covers_empty p : ¬ covers empty_allocator p.
Proof. intros (k & a & H & _). by apply not_has_empty in H. Qed.

Lemma wf_empty : wf empty_allocator.
Proof. split; [done|..]; intros; exfalso; by eapply not_has_empty. Qed.

Definition singleton_allocator (b : Block) : PageAllocator :=
  set_list empty_allocator (Z.to_nat (order b - PAGE_SIZE_ORDER)) {[addr b]}.

Lemma singleton_ok b :
  block_ok b →
  wf (singleton_allocator b) ∧ (∀ p, covers (singleton_allocator b) p ↔ in_block b p) ∧
  has (singleton_allocator b) (order b) (addr b).
Proof.
  intros Hb. destruct (wf_list empty_allocator (order b) wf_empty) as [l Hl]; [apply Hb|].
  assert (l = ∅) as -> by (by apply lookup_replicate in Hl as [-> _]).
  destruct (insert_block empty_allocator wf_empty b ∅) as [Hwf Hc];
    [done|intros ? _; apply not_covers_empty|done|set_solver|].
  unfold singleton_allocator. rewrite (right_id_L ∅ (∪)) in Hwf, Hc.
  split_and!; [done| |].
  - intros p. rewrite Hc. split; [intros [[]%not_covers_empty|?]; done|by right].
  - destruct Hb as ((? & _) & _). rewrite has_set_list by done. rewrite decide_True by done. set_solver.
Qed.

(** ** The theorems *)

Lemma free_spec_full self b :
  wf self → block_ok b → (∀ p, in_block b p → ¬ covers self p) →
  ∃ self', free self b = Ret self' ∧ wf self' ∧
    (∀ p, covers self' p → covers self p ∨ in_block b p) ∧
    (∀ p, covers self p ∨ in_block b p →
       covers self' p ∨ ∀ q, same_chunk q p → covers self q ∨ in_block b q).
Proof.
  intros Hwf Hb Hd. apply free_go_spec; [done..|]. rewrite (wf_length _ Hwf).
  destruct Hb as (? & _). orders.
Qed.

(** C6.  Freeing a block that is not already free succeeds, keeps the free lists aligned,
    disjoint and coalesced, frees nothing but the block, and loses no free page whose
    megabyte still has a page in use. *)
Theorem free_conserves self b :
  wf self → block_ok b → (∀ p, in_block b p → ¬ covers self p) →
  ∃ self', free self b = Ret self' ∧ wf self' ∧
    (∀ p, covers self' p → covers self p ∨ in_block b p) ∧
    (∀ p q, covers self p ∨ in_block b p → same_chunk q p →
       ¬ covers self q → ¬ in_block b q → covers self' p).
Proof.
  intros Hwf Hb Hd. destruct (free_spec_full self b Hwf Hb Hd) as (self' & ? & ? & ? & Hc).
  exists self'. split_and!; try done. intros p q Hp Hq Hn1 Hn2.
  destruct (Hc p Hp) as [?|Hall]; [done|]. destruct (Hall q Hq); tauto.
Qed.

Lemma free_conserves_witness :
  ∃ self', free (singleton_allocator (mkBlock 0x1000 12)) (mkBlock 0 12) = Ret self' ∧
    wf self' ∧ covers self' 0x1fff.
Proof.
  destruct (singleton_ok (mkBlock 0x1000 12)) as (Hwf & Hc & _);
    [split_and!; cbn; try done; by exists 1|].
  destruct (free_conserves (singleton_allocator (mkBlock 0x1000 12)) (mkBlock 0 12))
    as (self' & Hfree & Hwf' & _ & Hcov).
  - exact Hwf.
  - split_and!; cbn; try done. by exists 0.
  - intros p Hp Hq. apply Hc in Hq. unfold in_block, in_span in *; cbn in *. lia.
  - exists self'. split_and!; [done|done|]. apply (Hcov 0x1fff 0x2000).
    + left. apply Hc. done.
    + done.
    + intros Hq. apply Hc in Hq. unfold in_block, in_span in *; cbn in *. lia.
    + unfold in_block, in_span; cbn. lia.
Defined.

(** At the largest order the buddy is taken off the list before the size check, so
    freeing a 512 KiB block whose buddy is free drops the buddy's pages. *)
Theorem free_top_order_drops_buddy self b :
  wf self → block_ok b → (∀ p, in_block b p → ¬ covers self p) →
  order b = MAX_ORDER → has self MAX_ORDER (Z.lxor (addr b) (2 ^ MAX_ORDER)) →
  ∃ self', free self b = Ret self' ∧
    ∀ p, covers self' p ↔
      (covers self p ∧ ¬ in_span (Z.lxor (addr b) (2 ^ MAX_ORDER)) MAX_ORDER p) ∨ in_block b p.
Proof.
  intros Hwf Hb Hdisj Htop Hhas.
  destruct (wf_list self (order b) Hwf) as [l Hl]; [apply Hb|].
  rewrite <- Htop in Hhas |- *.
  destruct (remove_block self Hwf _ _ _ Hhas Hl) as (Hwf1 & Hcov1 & Hd1).
  edestruct (insert_block _ Hwf1 b (l ∖ {[Z.lxor (addr b) (2 ^ order b)]})) as [_ Hcov2].
  { done. }
  { intros p Hp Hc. eapply Hdisj; [exact Hp|]. apply Hcov1. by left. }
  { unfold set_list; cbn. apply list_lookup_insert_eq. by eapply lookup_lt_Some. }
  { set_solver. }
  eexists. split.
  - unfold free. cbn [free_go]. rewrite checked_sub_ok, one_shl_ok by orders. cbn.
    unfold index. rewrite Hl. cbn. rewrite length_insert, (wf_length _ Hwf).
    rewrite bool_decide_eq_true_2 by (rewrite (has_lookup self _ l) in Hhas; [done|orders|done]).
    rewrite (proj2 (Z.ltb_ge _ _)) by orders. reflexivity.
  - intros p. rewrite Hcov2. specialize (Hcov1 p). specialize (Hd1 p). tauto.
Qed.

Lemma free_top_order_drops_buddy_witness :
  ∃ self', free (singleton_allocator (mkBlock 0x80000 19)) (mkBlock 0 19) = Ret self' ∧
    ¬ covers self' 0x80000.
Proof.
  destruct (singleton_ok (mkBlock 0x80000 19)) as (Hwf & Hc & Hhas);
    [split_and!; cbn; try done; by exists 1|].
  destruct (free_top_order_drops_buddy (singleton_allocator (mkBlock 0x80000 19)) (mkBlock 0 19))
    as (self' & Hfree & Hcov).
  - exact Hwf.
  - split_and!; cbn; try done. by exists 0.
  - intros p Hp Hq. apply Hc in Hq. unfold in_block, in_span in *; cbn in *. lia.
  - done.
  - exact Hhas.
  - exists self'. split; [done|]. rewrite Hcov. intros [[_ Hn]|Hb]; [by apply Hn|].
    unfold in_block, in_span in Hb; cbn in Hb. lia.
Defined.

Lemma allocate_some self k l a :
  PAGE_SIZE_ORDER ≤ k →
  free_lists self !! Z.to_nat (k - PAGE_SIZE_ORDER) = Some l → btree_first l = Some a →
  allocate self k =
    Ret (Some (mkBlock a k), set_list self (Z.to_nat (k - PAGE_SIZE_ORDER)) (l ∖ {[a]})).
Proof.
  intros Hk Hl Hfirst. unfold allocate. cbn [allocate_go]. rewrite checked_sub_ok by done. cbn.
  rewrite decide_False by (apply lookup_lt_Some in Hl; lia).
  unfold index. rewrite Hl. cbn. by rewrite Hfirst.
Qed.

Lemma allocate_none self k :
  PAGE_SIZE_ORDER ≤ k ≤ MAX_ORDER →
  free_lists self !! Z.to_nat (k - PAGE_SIZE_ORDER) = Some ∅ →
  allocate self k = Panic ArithmeticOverflow.
Proof.
  intros Hk Hl. unfold allocate. cbn [allocate_go]. rewrite checked_sub_ok by lia. cbn.
  rewrite decide_False by (apply lookup_lt_Some in Hl; lia).
  unfold index. rewrite Hl. cbn.
  destruct (Z.to_nat k) eqn:Hn; [orders|]. cbn [allocate_go].
  by rewrite checked_sub_underflow by orders.
Qed.

(** [allocate] of an order with a free block returns the lowest one, which was free,
    and removes exactly its addresses from the allocator. *)
Theorem allocate_takes_lowest self k a :
  wf self → has self k a →
  ∃ b self', allocate self k = Ret (Some b, self') ∧ wf self' ∧ order b = k ∧
    has self k (addr b) ∧ addr b ≤ a ∧
    (∀ p, covers self p ↔ covers self' p ∨ in_block b p) ∧
    (∀ p, in_block b p → ¬ covers self' p).
Proof.
  intros Hwf Ha. pose proof (wf_span _ Hwf _ _ Ha) as ((Hk & _) & _).
  pose proof Ha as [_ (l & Hl & Hal)].
  destruct (btree_first l) as [m|] eqn:Hm; [|by apply btree_first_None in Hm; set_solver].
  pose proof Hm as [Hml Hmin]%btree_first_Some.
  assert (has self k m) as Hhm by (by rewrite (has_lookup self k l)).
  destruct (remove_block self Hwf k m l Hhm Hl) as (Hwf' & Hc & Hd).
  rewrite (allocate_some self k l m) by done. do 2 eexists. split; [reflexivity|].
  split_and!; cbn; auto.
Qed.

Lemma allocate_takes_lowest_witness :
  ∃ b self', allocate (singleton_allocator (mkBlock 0x3000 12)) 12 = Ret (Some b, self') ∧
    wf self' ∧ addr b ≤ 0x3000.
Proof.
  destruct (singleton_ok (mkBlock 0x3000 12)) as (Hwf & _ & Hhas);
    [split_and!; cbn; try done; by exists 3|].
  destruct (allocate_takes_lowest (singleton_allocator (mkBlock 0x3000 12)) 12 0x3000)
    as (b & self' & Hal & Hwf' & _ & _ & Hle & _); [exact Hwf|exact Hhas|].
  exists b, self'. done.
Defined.

(** A block is never split: when the list of the requested order is empty, the
    recursive call subtracts [PAGE_SIZE_ORDER] from a list index and overflows, however
    many larger blocks are free. *)
Theorem allocate_empty_order_panics self k :
  wf self → PAGE_SIZE_ORDER ≤ k ≤ MAX_ORDER → (∀ a, ¬ has self k a) →
  allocate self k = Panic ArithmeticOverflow.
Proof.
  intros Hwf Hk Hno. destruct (wf_list self k Hwf Hk) as [l Hl].
  assert (l = ∅) as ->.
  { apply set_eq. intros a. rewrite <- (has_lookup self k l a) by (done || lia). set_solver. }
  by apply allocate_none.
Qed.

Lemma allocate_empty_order_panics_witness :
  covers (singleton_allocator (mkBlock 0x2000 13)) 0x2000 ∧
  allocate (singleton_allocator (mkBlock 0x2000 13)) 12 = Panic ArithmeticOverflow.
Proof.
  destruct (singleton_ok (mkBlock 0x2000 13)) as (Hwf & Hc & _);
    [split_and!; cbn; try done; by exists 1|].
  split; [by apply Hc|]. apply allocate_empty_order_panics; [exact Hwf|done|].
  intros a [_ (l & Hl & Ha)]. cbn in Hl. injection Hl as <-. set_solver.
Defined.

Lemma free_no_buddy self b l :
  PAGE_SIZE_ORDER ≤ order b ≤ MAX_ORDER →
  free_lists self !! Z.to_nat (order b - PAGE_SIZE_ORDER) = Some l →
  Z.lxor (addr b) (2 ^ order b) ∉ l →
  free self b = Ret (set_list self (Z.to_nat (order b - PAGE_SIZE_ORDER)) ({[addr b]} ∪ l)).
Proof.
  intros Hk Hl Hbuddy. unfold free. cbn [free_go].
  rewrite checked_sub_ok, one_shl_ok by orders. cbn. unfold index. rewrite Hl. cbn.
  rewrite bool_decide_eq_false_2 by done. cbn. rewrite set_list_set_list.
  by assert (l ∖ {[Z.lxor (addr b) (2 ^ order b)]} = l) as -> by set_solver.
Qed.

Lemma allocate_Some_inv self k b self' :
  wf self → allocate self k = Ret (Some b, self') →
  PAGE_SIZE_ORDER ≤ k ≤ MAX_ORDER ∧ order b = k ∧ has self k (addr b) ∧
  ∃ l, free_lists self !! Z.to_nat (k - PAGE_SIZE_ORDER) = Some l ∧
    self' = set_list self (Z.to_nat (k - PAGE_SIZE_ORDER)) (l ∖ {[addr b]}).
Proof.
  intros Hwf Hal. assert (PAGE_SIZE_ORDER ≤ k ≤ MAX_ORDER) as Hk.
  { unfold allocate in Hal. cbn [allocate_go] in Hal. unfold checked_sub in Hal.
    case_decide; cbn in Hal; [|done]. rewrite (wf_length _ Hwf) in Hal.
    case_decide; [done|]. orders. }
  split; [done|]. destruct (wf_list self k Hwf Hk) as [l Hl].
  destruct (btree_first l) as [a|] eqn:Hfirst.
  - rewrite (allocate_some self k l a) in Hal by (done || lia). simplify_eq; cbn.
    apply btree_first_Some in Hfirst as [Ha _].
    split_and!; [done|by rewrite (has_lookup self k l); [|lia|]|eauto].
  - apply btree_first_None in Hfirst as ->. by rewrite allocate_none in Hal.
Qed.

(** C7.  Freeing the block [allocate] just returned restores the allocator exactly. *)
Theorem allocate_free_roundtrip self k b self' :
  wf self → allocate self k = Ret (Some b, self') → free self' b = Ret self.
Proof.
  intros Hwf Hal.
  apply allocate_Some_inv in Hal as (Hk & <- & Hhas & l & Hl & ->); [|done].
  pose proof (wf_coalesced _ Hwf _ _ Hhas) as Hno.
  rewrite (has_lookup self _ l) in Hhas, Hno by (done || lia).
  rewrite (free_no_buddy _ b (l ∖ {[addr b]})); [|done| |set_solver].
  - rewrite set_list_set_list. f_equal.
    assert ({[addr b]} ∪ l ∖ {[addr b]} = l) as -> by (apply set_eq; intros x;
      destruct (decide (x = addr b)); set_solver).
    by apply set_list_id.
  - unfold set_list; cbn. apply list_lookup_insert_eq. by eapply lookup_lt_Some.
Qed.

Lemma allocate_free_roundtrip_witness :
  ∃ b self', allocate (singleton_allocator (mkBlock 0x3000 12)) 12 = Ret (Some b, self') ∧
    free self' b = Ret (singleton_allocator (mkBlock 0x3000 12)).
Proof.
  destruct (singleton_ok (mkBlock 0x3000 12)) as (Hwf & _ & _);
    [split_and!; cbn; try done; by exists 3|].
  eexists (mkBlock 0x3000 12), _. split; [reflexivity|].
  apply (allocate_free_roundtrip _ 12); [exact Hwf|reflexivity].
Defined.

Lemma init_fold_spec rs self :
  wf self → Forall range_ok rs →
  (∀ i j r r' p, rs !! i = Some r → rs !! j = Some r' → in_range r p → in_range r' p → i = j) →
  (∀ r p, r ∈ rs → in_range r p → ¬ covers self p) →
  ∃ self',
    mfold (λ self b, init_carve (S (Z.to_nat (b.2 / PAGE_SIZE))) self b.1 b.2) rs self
      = Ret self' ∧ wf self' ∧
    (∀ p, covers self' p → covers self p ∨
       ∃ r, r ∈ rs ∧ in_range r p ∧ ¬ chunk_inside r.1 (r.1 + r.2) p) ∧
    (∀ p, covers self p ∨ (∃ r, r ∈ rs ∧ in_range r p) →
       covers self' p ∨
       ∀ q, same_chunk q p → covers self q ∨ ∃ r, r ∈ rs ∧ in_range r q).
Proof.
  revert self. induction rs as [|r rs IH]; intros self Hwf Hok Hpair Hdisj; cbn [mfold].
  { exists self. split_and!; [done|done|by left|]. intros p [?|(? & []%not_elem_of_nil & _)]. by left. }
  apply Forall_cons in Hok as [Hr Hok].
  destruct (init_carve_spec (S (Z.to_nat (r.2 / PAGE_SIZE))) self r.1 r.2)
    as (self1 & Hrun & Hwf1 & Hs1 & Hc1); [done|by destruct r| | |].
  { intros p Hp. apply (Hdisj r); [set_solver|by destruct r]. }
  { destruct Hr as (_ & _ & ? & _). assert (0 ≤ r.2 / PAGE_SIZE) by (apply Z.div_pos; [lia|done]). lia. }
  replace (r.1, r.2) with r in Hs1, Hc1 by (by destruct r).
  rewrite Hrun. cbn [mbind outcome_bind].
  destruct (IH self1) as (self' & Hrun' & Hwf' & Hs' & Hc'); [done|done| | |].
  { intros i j s s' p Hi Hj. intros. eapply Nat.succ_inj, (Hpair (S i) (S j)); done. }
  { intros s p Hs Hp [Hc|[Hc _]]%Hs1; [by eapply (Hdisj s); [set_solver|..]|].
    apply list_elem_of_lookup in Hs as [i Hi]. by pose proof (Hpair 0%nat (S i) r s p eq_refl Hi Hc Hp). }
  exists self'. split_and!; [done|done|..].
  - intros p [[?|[? ?]]%Hs1|(s & ? & ?)]%Hs'; [by left|right; exists r|right; exists s]; set_solver.
  - intros p Hp.
    assert (covers self1 p ∨ (∃ s, s ∈ rs ∧ in_range s p) ∨
      ∀ q, same_chunk q p → covers self q ∨ ∃ s, s ∈ r :: rs ∧ in_range s q) as Hp1.
    { destruct Hp as [Hp|(s & [->|Hs]%elem_of_cons & Hp)]; [| |eauto];
        (destruct (Hc1 p) as [?|Hq]; [tauto|tauto|]); right; right; intros q Hqp;
        (destruct (Hq q Hqp); [tauto|right; exists r; set_solver]). }
    destruct Hp1 as [Hp1|[Hp1|Hp1]]; [| |by right];
      (destruct (Hc' p) as [?|Hq]; [tauto|tauto|]); right; intros q Hqp;
      (destruct (Hq q Hqp) as [[?|[? _]]%Hs1|(s & ? & ?)];
       [by left|right; exists r; set_solver|right; exists s; set_solver]).
Qed.

(** C8.  [init] on disjoint page-aligned ranges terminates without panicking; the result is
    well formed, owns only pages of the ranges, owns none of a megabyte that one range
    contains entirely, and owns every page of the ranges whose megabyte is not entirely
    covered by the ranges. *)
Theorem init_owns_ranges rs :
  Forall range_ok rs →
  (∀ i j r r' p, rs !! i = Some r → rs !! j = Some r' → in_range r p → in_range r' p → i = j) →
  ∃ self, init new rs = Ret self ∧ wf self ∧
    (∀ p, covers self p → ∃ r, r ∈ rs ∧ in_range r p ∧ ¬ chunk_inside r.1 (r.1 + r.2) p) ∧
    (∀ p q, (∃ r, r ∈ rs ∧ in_range r p) → same_chunk q p →
       (∀ r, r ∈ rs → ¬ in_range r q) → covers self p).
Proof.
  intros Hok Hpair. unfold init, new; cbn [free_lists]. rewrite app_nil_l.
  fold empty_allocator.
  destruct (init_fold_spec rs empty_allocator wf_empty Hok Hpair) as (self & Hrun & Hwf & Hs & Hc).
  { intros r p _ _. apply not_covers_empty. }
  exists self. split_and!; [done|done|..].
  - intros p [[]%not_covers_empty|?]%Hs. done.
  - intros p q Hp Hqp Hno. destruct (Hc p) as [?|Hq]; [by right|done|].
    destruct (Hq q Hqp) as [[]%not_covers_empty|(r & ? & ?)]. exfalso. by eapply Hno.
Qed.

Lemma init_owns_ranges_witness :
  ∃ self, init new [(0x2000, 0x1000); (0x3000, 0x3000)] = Ret self ∧ wf self ∧ covers self 0x4000.
Proof.
  destruct (init_owns_ranges [(0x2000, 0x1000); (0x3000, 0x3000)]) as (self & Hi & Hwf & _ & Hc).
  - repeat (apply Forall_cons; split); [..|by apply Forall_nil];
      split_and!; cbn; (done || concrete_divide).
  - intros i j r r' p Hi Hj. unfold in_range.
    destruct i as [|[|i]], j as [|[|j]]; cbn in *; simplify_eq; cbn; lia.
  - exists self. split_and!; [done|done|]. apply (Hc 0x4000 0x9000).
    + exists (0x3000, 0x3000). split; [set_solver|done].
    + done.
    + intros r Hr. unfold in_range.
      apply elem_of_cons in Hr as [->|[->|[]%not_elem_of_nil]%elem_of_cons]; cbn; lia.
Defined.
