(* ===== verification/PhysicalRuns.v ===== *)
(** * Running the page allocator

    What holds after any sequence of calls: [client] is an allocator together with the blocks
    it has handed out and not got back.  At the end are the unit tests of the source, which
    the model passes. *)

From S2P Require Import Prelude Physical PhysicalSpec.

Record client := mkClient { pages : PageAllocator; held : list Block }.

(** A call of [allocate] that gives a block, or of [free] with a block that was given. *)
Inductive client_step (s : client) : client → Prop :=
| cs_allocate k b pa : allocate (pages s) k = Ret (Some b, pa) → client_step s (mkClient pa (b :: held s))
| cs_free i b pa : held s !! i = Some b → free (pages s) b = Ret pa → client_step s (mkClient pa (delete i (held s))).

Record client_ok (owned : Z → Prop) (s : client) : Prop := {
  co_wf : wf (pages s);
  co_blocks : Forall block_ok (held s);
  co_used i b p : held s !! i = Some b → in_block b p → ¬ covers (pages s) p;
  co_disjoint i j b c p : held s !! i = Some b → held s !! j = Some c → in_block b p → in_block c p → i = j;
  co_owned p : covers (pages s) p ∨ (∃ b, b ∈ held s ∧ in_block b p) → owned p;
}.

(** What a block taken from the allocator is. *)
Lemma allocate_block self k b self' : wf self → allocate self k = Ret (Some b, self') →
  wf self' ∧ block_ok b ∧ (∀ p, covers self p ↔ covers self' p ∨ in_block b p) ∧ (∀ p, in_block b p → ¬ covers self' p).
Proof.
  intros Hwf E. destruct (allocate_Some_inv _ _ _ _ Hwf E) as (_ & <- & Hhas & l & Hl & ->).
  destruct (remove_block self Hwf (order b) (addr b) l Hhas Hl) as (Hwf' & Hc & Hd).
  split_and!; [done|by apply (wf_span _ Hwf)|done|done].
Qed.

Lemma lookup_delete_inv {A} (l : list A) i j x : delete i l !! j = Some x →
  ∃ j', l !! j' = Some x ∧ j' ≠ i ∧ (j < i ∧ j' = j ∨ i ≤ j ∧ j' = S j)%nat.
Proof.
  intros H. destruct (decide (j < i)%nat) as [Hlt|Hge].
  - rewrite list_lookup_delete_lt in H by done. exists j. split_and!; [done|lia|lia].
  - rewrite list_lookup_delete_ge in H by lia. exists (S j). split_and!; [done|lia|lia].
Qed.

Lemma client_ok_step owned s s' : client_ok owned s → client_step s s' → client_ok owned s'.
Proof.
  intros [Hwf Hb Hu Hd Ho] Hs. destruct Hs as [k b pa E|i b pa Hi E].
  - destruct (allocate_block _ _ _ _ Hwf E) as (Hwf' & Hok & Hc & Hn).
    assert (∀ p, in_block b p → covers (pages s) p) as Hin by (intros p Hp; apply Hc; by right).
    split; cbn [pages held].
    + done.
    + by apply Forall_cons.
    + intros [|i] c p Hi Hp; cbn in Hi; [simplify_eq; by apply Hn|]. intros Hx. apply (Hu i c p Hi Hp), Hc. by left.
    + intros [|i] [|j] c d p Hi Hj Hp Hp'; cbn in Hi, Hj; simplify_eq; [done| | |f_equal; by eapply Hd].
      * by destruct (Hu j d p Hj Hp' (Hin p Hp)).
      * by destruct (Hu i c p Hi Hp (Hin p Hp')).
    + intros p [Hp|(c & [->|Hx]%elem_of_cons & Hp)]; apply Ho; [left; apply Hc; by left|left; by apply Hin|right; by exists c].
  - pose proof (proj1 (Forall_lookup _ _) Hb _ _ Hi) as Hok.
    destruct (free_spec_full (pages s) b Hwf Hok (λ p, Hu i b p Hi)) as (pa' & E' & Hwf' & Hsub & _).
    rewrite E in E'. injection E' as <-. split; cbn [pages held].
    + done.
    + apply Forall_lookup. intros j c (j' & Hj & _)%lookup_delete_inv. by eapply (proj1 (Forall_lookup _ _) Hb).
    + intros j c p (j' & Hj & Hne & _)%lookup_delete_inv Hp [Hx|Hx]%Hsub; [by eapply Hu|].
      apply Hne. by eapply Hd.
    + intros j1 j2 c d p (k1 & H1 & _ & Hk1)%lookup_delete_inv (k2 & H2 & _ & Hk2)%lookup_delete_inv Hp1 Hp2.
      assert (k1 = k2) by (by eapply Hd). lia.
    + intros p [[Hx|Hx]%Hsub|(c & Hx & Hp)]; apply Ho.
      * by left.
      * right. exists b. split; [|done]. apply list_elem_of_lookup. by exists i.
      * right. exists c. split; [|done]. apply list_elem_of_lookup in Hx as (j & (j' & Hj & _)%lookup_delete_inv).
        apply list_elem_of_lookup. by exists j'.
Qed.

(** C9. The allocator under any sequence of calls.  However its clients allocate, and free what
    they were given, the blocks that are in use never overlap one another or the free memory,
    every page in use or free is one of the ranges given to [init], and each block in use can
    be freed: [free] returns. *)
Theorem allocator_runs_safe rs pa s :
  Forall range_ok rs →
  (∀ i j r r' p, rs !! i = Some r → rs !! j = Some r' → in_range r p → in_range r' p → i = j) →
  init new rs = Ret pa → rtc client_step (mkClient pa []) s →
  (∀ i j b c p, held s !! i = Some b → held s !! j = Some c → in_block b p → in_block c p → i = j) ∧
  (∀ b p, b ∈ held s → in_block b p → ¬ covers (pages s) p ∧ ∃ r, r ∈ rs ∧ in_range r p) ∧
  (∀ p, covers (pages s) p → ∃ r, r ∈ rs ∧ in_range r p) ∧
  (∀ b, b ∈ held s → ∃ pa', free (pages s) b = Ret pa').
Proof.
  intros Hok Hpair E Hs.
  assert (client_ok (λ p, ∃ r, r ∈ rs ∧ in_range r p) s) as [Hwf Hb Hu Hd Ho].
  { assert (client_ok (λ p, ∃ r, r ∈ rs ∧ in_range r p) (mkClient pa [])) as H0.
    { unfold init, new in E. cbn [free_lists] in E. rewrite app_nil_l in E. fold empty_allocator in E.
      destruct (init_fold_spec rs empty_allocator wf_empty Hok Hpair) as (pa' & E' & Hwf & Hsub & _).
      { intros r p _ _. apply not_covers_empty. }
      rewrite E in E'. injection E' as <-. split; cbn [pages held]; [done|constructor|done|done|].
      intros p [[[]%not_covers_empty|(r & ? & ? & _)]%Hsub|(b & []%not_elem_of_nil & _)]. by exists r. }
    clear E. induction Hs as [|s1 s2 s3 H12 _ IH]; [done|]. apply IH. by eapply client_ok_step. }
  split_and!.
  - done.
  - intros b p Hx Hp. split; [|apply Ho; right; by exists b]. apply list_elem_of_lookup in Hx as [i Hi]. by eapply Hu.
  - intros p Hp. apply Ho. by left.
  - intros b Hx. apply list_elem_of_lookup in Hx as [i Hi].
    destruct (free_spec_full (pages s) b Hwf (proj1 (Forall_lookup _ _) Hb _ _ Hi) (λ p, Hu i b p Hi)) as (pa' & ? & _).
    by exists pa'.
Qed.

(** Two blocks of two ranges, both in use. *)
Definition two_ranges : list (Z * Z) := [(0x2000, 0x1000); (0x5000, 0x1000)].
Definition from_outcome {A} (d : A) (o : outcome A) : A := match o with Ret a => a | Panic _ => d end.
Definition pages0 : PageAllocator := from_outcome new (init new two_ranges).
Definition pages1 : PageAllocator := (from_outcome (None, new) (allocate pages0 12)).2.
Definition pages2 : PageAllocator := (from_outcome (None, new) (allocate pages1 12)).2.

Lemma allocator_runs_safe_witness :
  rtc client_step (mkClient pages0 []) (mkClient pages2 [mkBlock 0x5000 12; mkBlock 0x2000 12]) ∧
  ¬ covers pages2 0x2fff ∧ ∃ pa, free pages2 (mkBlock 0x2000 12) = Ret pa.
Proof.
  assert (rtc client_step (mkClient pages0 []) (mkClient pages2 [mkBlock 0x5000 12; mkBlock 0x2000 12])) as Hr.
  { eapply rtc_l; [apply (cs_allocate _ 12 (mkBlock 0x2000 12) pages1); vm_compute; reflexivity|].
    apply rtc_once, (cs_allocate (mkClient pages1 [mkBlock 0x2000 12]) 12 (mkBlock 0x5000 12) pages2). vm_compute. reflexivity. }
  split; [exact Hr|].
  destruct (allocator_runs_safe two_ranges pages0 (mkClient pages2 [mkBlock 0x5000 12; mkBlock 0x2000 12])) as (_ & Hu & _ & Hf).
  - repeat (apply Forall_cons; split); [..|by apply Forall_nil]; split_and!; cbn; (done || concrete_divide).
  - intros i j r r' p Hi Hj. unfold in_range. destruct i as [|[|i]], j as [|[|j]]; cbn in *; simplify_eq; cbn; lia.
  - vm_compute. reflexivity.
  - exact Hr.
  - assert (mkBlock 0x2000 12 ∈ [mkBlock 0x5000 12; mkBlock 0x2000 12]) as Hin by (apply elem_of_cons; right; by apply list_elem_of_singleton).
    split; [apply (Hu _ 0x2fff Hin); unfold in_block, in_span; cbn; lia|exact (Hf _ Hin)].
Defined.

(** ** The unit tests of the source *)

Definition list_len (self : PageAllocator) (i : nat) : outcome nat := size <$> index (free_lists self) i.

Definition assert_eq {A} `{!EqDecision A} (a b : A) (msg : string) : outcome () :=
  assert_that (bool_decide (a = b)) (AssertionFailed msg).

Definition unit_is_buddy_in_range : outcome () :=
  b ← is_buddy_in_range 0x2000 0x1000 0x2000 0x2000; _ ← assert_eq b true "case 1";
  b ← is_buddy_in_range 0x4000 0x2000 0x2000 0x6000; _ ← assert_eq b true "case 2";
  b ← is_buddy_in_range 0x4000 0x2000 0x2000 0x4000; _ ← assert_eq b false "case 3";
  b ← is_buddy_in_range 0x2000 0x2000 0x2000 0x5000; _ ← assert_eq b false "case 3";
  b ← is_buddy_in_range 0x0 0x2000 0x0 0x3000; assert_eq b false "case 4".

(** The lengths of the first lists, after [init] on the ranges. *)
Definition expect_lists (ranges : list (Z * Z)) (lens : list nat) (case : string) : outcome () :=
  pa ← init new ranges;
  mfold (λ _ '(i, n), len ← list_len pa i; assert_eq len n case) (imap pair lens) tt.

Definition unit_init_works : outcome () :=
  _ ← expect_lists [(0x2000, 0x11000)] [1; 2; 1; 1]%nat "Case 1";
  _ ← expect_lists [(0x2000, 0x4000); (0x6000, 0x2000)] [0; 1; 1]%nat "Case 2";
  _ ← expect_lists [(0x2000, 0x1000); (0x3000, 0x3000)] [0; 2]%nat "Case 3";
  expect_lists [(0x0, 0x1000); (0x1000, 0x3000); (0x4000, 0x4000)] [0; 0; 0; 1]%nat "Case 4".

Lemma unit_tests_pass : unit_is_buddy_in_range = Ret tt ∧ unit_init_works = Ret tt.
Proof. by vm_compute. Qed.
