(* ===== verification/Table.v ===== *)
(** * Paging structures (arch/x86_64/src/paging/{mod,table,error}.rs, arch/interface)

    The bit-level layout of x86-64 paging entries, the four levels, and the [Environment]
    trait that tells the mapper where paging structures are mapped. *)

From S2P Require Import Prelude.

(** ** Constants of paging/mod.rs *)

Definition MASK_51_12 : Z := 0x000ffffffffff000.
Definition MASK_51_30 : Z := 0x000fffffffc0000000.
Definition MASK_51_21 : Z := 0x0000fffffffe00000.
Definition MASK_47_12 : Z := 0x0000fffffffff000.
Definition MASK_47_39 : Z := 0x0000ff8000000000.
Definition MASK_47_30 : Z := 0x0000fffffc0000000.
Definition MASK_38_30 : Z := 0x0000007fc0000000.
Definition MASK_29_21 : Z := 0x000000003fe00000.
Definition MASK_29_0 : Z := 0x000000003fffffff.
Definition MASK_20_12 : Z := 0x00000000001ff000.
Definition MASK_20_0 : Z := 0x00000000001fffff.
Definition PAGING_STRUCTURE_BASE_ADDR : Z := 0xffffff8000000000.
Definition MMIO_BASE : Z := 0xffffff0000000000.

Inductive PageSize := Normal | Huge | Gigantic.

#[global] Instance PageSize_eq_dec : EqDecision PageSize.
Proof. solve_decision. Defined.

(** [impl Into<usize> for PageSize] *)
Definition page_size_into (s : PageSize) : Z :=
  match s with
  | Normal => 0x1000
  | Huge => 0x200000
  | Gigantic => 0x40000000
  end.

(** [paging/error.rs] *)
Inductive PagingError := MisalignedAddress (addr : Z) (size : PageSize).

(** ** Flags *)

Definition PRESENT_FLAG : Z := 1.
Definition RW_FLAG : Z := Z.shiftl 1 1.
Definition US_FLAG : Z := Z.shiftl 1 2.
Definition PWT_FLAG : Z := Z.shiftl 1 3.
Definition PCD_FLAG : Z := Z.shiftl 1 4.
Definition ACCESSED_FLAG : Z := Z.shiftl 1 5.
Definition DIRTY_FLAG : Z := Z.shiftl 1 6.
Definition PS_FLAG : Z := Z.shiftl 1 7.
Definition GLOBAL_FLAG : Z := Z.shiftl 1 8.
Definition PAT_FLAG : Z := Z.shiftl 1 12.
Definition ALL_FLAGS : Z :=
  foldr Z.lor 0 [PRESENT_FLAG; RW_FLAG; US_FLAG; PWT_FLAG; PCD_FLAG; ACCESSED_FLAG;
                 DIRTY_FLAG; PS_FLAG; GLOBAL_FLAG; PAT_FLAG].

(** ** The levels: [trait PagingLevel] and its four implementations *)

Inductive PagingLevel := PML4 | PDPT | PD | PT.

Definition MASK (L : PagingLevel) : Z :=
  match L with
  | PML4 => MASK_47_39
  | PDPT => MASK_38_30
  | PD => MASK_29_21
  | PT => MASK_20_12
  end.

Definition SHIFT (L : PagingLevel) : Z :=
  match L with
  | PML4 => 39
  | PDPT => 30
  | PD => 21
  | PT => 12
  end.

Definition entry_idx (L : PagingLevel) (virt_addr : Z) : Z :=
  Z.shiftr (Z.land virt_addr (MASK L)) (SHIFT L).

(** ** Entries *)

Record PagingStructEntry := mkEntry { bytes : Z }.

Definition entry_default : PagingStructEntry := mkEntry 0.

Definition entry_new (flags phys_addr : Z) : PagingStructEntry :=
  mkEntry (Z.lor flags (Z.land phys_addr MASK_51_12)).

Definition get_flags (e : PagingStructEntry) (flag : Z) : Z := Z.land (bytes e) flag.

Definition set_flags (e : PagingStructEntry) (flag : Z) (value : bool) : PagingStructEntry :=
  if value then mkEntry (Z.lor (bytes e) flag)
  else mkEntry (Z.land (bytes e) (bnot 64 flag)).

Definition get_addr (e : PagingStructEntry) : Z := Z.land (bytes e) MASK_51_12.

Definition set_addr (e : PagingStructEntry) (addr : Z) : PagingStructEntry :=
  mkEntry (Z.lor (Z.land (bytes e) (bnot 64 MASK_51_12)) (Z.land addr MASK_51_12)).

(** ** Tables *)

Definition ENTRY_COUNT : nat := 512.

Record PagingStruct := mkTable { entries : list PagingStructEntry }.

Definition table_default : PagingStruct := mkTable (replicate ENTRY_COUNT entry_default).

Definition get_entry (t : PagingStruct) (idx : Z) : outcome PagingStructEntry :=
  index (entries t) (Z.to_nat idx).

(** Writing through the reference [get_entry_mut] returns. *)
Definition set_entry (t : PagingStruct) (idx : Z) (e : PagingStructEntry) : outcome PagingStruct :=
  es ← index_set (entries t) (Z.to_nat idx) e; Ret (mkTable es).

(** ** [trait Environment] (arch/interface/src/lib.rs)

    [paging_structure_base] is the address of the current top-level table and
    [flush_tlb] must not change it. *)

Class Environment (E : Type) := {
  PAGING_STRUCTURE_BASE : Z;
  paging_structure_base : E → outcome Z;
  flush_tlb : E → E;
  flush_tlb_base e : paging_structure_base (flush_tlb e) = paging_structure_base e;
}.
Arguments PAGING_STRUCTURE_BASE E {_}.

(** [PagingStruct::phys_addr] of the table at address [table]. *)
Definition table_phys_addr (E : Type) `{Environment E} (table : Z) : outcome Z :=
  checked_sub table (PAGING_STRUCTURE_BASE E).

Definition get_virt_addr (E : Type) `{Environment E} (e : PagingStructEntry) : outcome Z :=
  checked_add 64 (get_addr e) (PAGING_STRUCTURE_BASE E).

(** [impl Environment for X86_64BareMetal] (arch/x86_64/bare_metal/src/lib.rs): the
    environment is the CPU, of which [cr3] and the number of TLB flushes are kept. *)
Record X86_64BareMetal := mkBareMetal { cr3 : Z; tlb_flushes : nat }.

#[global] Program Instance bare_metal_environment : Environment X86_64BareMetal := {
  PAGING_STRUCTURE_BASE := PAGING_STRUCTURE_BASE_ADDR;
  paging_structure_base e := checked_add 64 (cr3 e) PAGING_STRUCTURE_BASE_ADDR;
  flush_tlb e := mkBareMetal (cr3 e) (S (tlb_flushes e));
}.
Next Obligation. done. Qed.

(** The environment of the unit tests: tables live in an identity-mapped buffer. *)
Record UserlandTest := mkUserlandTest { test_base : Z }.

#[global] Program Instance userland_test_environment : Environment UserlandTest := {
  PAGING_STRUCTURE_BASE := 0;
  paging_structure_base e := Ret (test_base e);
  flush_tlb e := e;
}.
Next Obligation. done. Qed.

(** ** Lemmas: indices *)

Lemma mask_shift L : MASK L = Z.shiftl (Z.ones 9) (SHIFT L).
Proof. by destruct L. Qed.

Lemma SHIFT_pos L : 0 ≤ SHIFT L.
Proof. by destruct L. Qed.

Lemma entry_idx_spec L v : entry_idx L v = v / 2 ^ SHIFT L mod 512.
Proof.
  pose proof (SHIFT_pos L). unfold entry_idx. rewrite mask_shift, Z.shiftr_land.
  rewrite Z.shiftr_shiftl_l, Z.sub_diag, Z.shiftl_0_r, Z.land_ones by lia.
  by rewrite Z.shiftr_div_pow2 by lia.
Qed.

Lemma entry_idx_bound L v : 0 ≤ entry_idx L v < 512.
Proof. rewrite entry_idx_spec. by apply Z.mod_pos_bound. Qed.

Lemma entry_idx_bits L v w :
  entry_idx L v = entry_idx L w ↔
  ∀ i, SHIFT L ≤ i < SHIFT L + 9 → Z.testbit v i = Z.testbit w i.
Proof. rewrite !entry_idx_spec. apply (slice_bits _ 9); [apply SHIFT_pos|done]. Qed.

(** The number of the block of size [s] that holds a 48-bit address. *)
Definition block_of (s : PageSize) (v : Z) : Z :=
  v / page_size_into s mod (2 ^ 48 / page_size_into s).

Lemma block_of_bits s v w :
  block_of s v = block_of s w ↔
  ∀ i, Z.log2 (page_size_into s) ≤ i < 48 → Z.testbit v i = Z.testbit w i.
Proof.
  destruct s; [apply (slice_bits 12 36)|apply (slice_bits 21 27)|apply (slice_bits 30 18)]; done.
Qed.

(** ** Lemmas: entries, bit by bit *)

Definition entry_ok (e : PagingStructEntry) : Prop := fits 64 (bytes e).
Definition entry_bit (e : PagingStructEntry) (i : Z) : bool := Z.testbit (bytes e) i.
Definition present (e : PagingStructEntry) : bool := entry_bit e 0.
Definition writable (e : PagingStructEntry) : bool := entry_bit e 1.
Definition page_sized (e : PagingStructEntry) : bool := entry_bit e 7.

Lemma testbit_fits w z i : fits w z → 0 ≤ w → w ≤ i → Z.testbit z i = false.
Proof.
  intros Hz Hw Hi. rewrite <- (Z.mod_small z (2 ^ w)) by done. by apply Z.mod_pow2_bits_high.
Qed.

Lemma fits_testbit w z : 0 ≤ z → 0 ≤ w → (∀ i, w ≤ i → Z.testbit z i = false) → fits w z.
Proof.
  intros Hz Hw H. split; [done|]. destruct (decide (z = 0)) as [->|]; [by apply pow2_pos|].
  apply Z.log2_lt_pow2; [lia|]. destruct (decide (Z.log2 z < w)) as [|Hge]; [done|].
  exfalso. specialize (H (Z.log2 z) ltac:(lia)). by rewrite Z.bit_log2 in H by lia.
Qed.

Lemma fits_lor w a b : 0 ≤ w → fits w a → fits w b → fits w (Z.lor a b).
Proof.
  intros Hw Ha Hb. apply fits_testbit; [apply Z.lor_nonneg; split; [apply Ha|apply Hb]|done|].
  intros i Hi. rewrite Z.lor_spec. by rewrite !(testbit_fits w).
Qed.

Lemma fits_land w a b : 0 ≤ w → fits w a → 0 ≤ b → fits w (Z.land a b).
Proof.
  intros Hw Ha Hb. apply fits_testbit; [apply Z.land_nonneg; left; apply Ha|done|].
  intros i Hi. rewrite Z.land_spec. by rewrite (testbit_fits w).
Qed.

Lemma testbit_MASK_51_12 i : Z.testbit MASK_51_12 i = bool_decide (12 ≤ i < 52).
Proof.
  change MASK_51_12 with (Z.shiftl (Z.ones 40) 12).
  destruct (decide (0 ≤ i)).
  - rewrite Z.shiftl_spec by done. case_bool_decide.
    + by rewrite Z.ones_spec_low by lia.
    + destruct (decide (i < 12)).
      * by rewrite Z.testbit_neg_r by lia.
      * by rewrite Z.ones_spec_high by lia.
  - rewrite Z.testbit_neg_r by lia. by rewrite bool_decide_eq_false_2 by lia.
Qed.

Lemma set_addr_bit e a i :
  entry_ok e → 0 ≤ i →
  entry_bit (set_addr e a) i =
  if bool_decide (12 ≤ i < 52) then Z.testbit a i else entry_bit e i.
Proof.
  intros He Hi. unfold entry_bit, set_addr; cbn.
  rewrite land_bnot by (done || apply He).
  rewrite Z.lor_spec, Z.ldiff_spec, Z.land_spec, testbit_MASK_51_12.
  case_bool_decide; cbn; btauto.
Qed.

Lemma set_flags_bit e k i v :
  entry_ok e → 0 ≤ k → 0 ≤ i →
  entry_bit (set_flags e (2 ^ k) v) i = if bool_decide (i = k) then v else entry_bit e i.
Proof.
  intros He Hk Hi. unfold entry_bit, set_flags. destruct v; cbn.
  - rewrite Z.lor_spec. case_bool_decide as Hik.
    + subst. by rewrite Z.pow2_bits_true, orb_true_r.
    + by rewrite Z.pow2_bits_false, orb_false_r by done.
  - rewrite land_bnot by (done || apply He). rewrite Z.ldiff_spec. case_bool_decide as Hik.
    + subst. by rewrite Z.pow2_bits_true, andb_false_r.
    + by rewrite Z.pow2_bits_false, andb_true_r by done.
Qed.

Lemma set_flags_lor_bit e f i :
  entry_bit (set_flags e f true) i = entry_bit e i || Z.testbit f i.
Proof. unfold entry_bit, set_flags; cbn. by rewrite Z.lor_spec. Qed.

Lemma set_addr_ok e a : entry_ok e → 0 ≤ a → entry_ok (set_addr e a).
Proof.
  intros He Ha. unfold entry_ok, set_addr; cbn. apply fits_lor; [done|..].
  - apply fits_land; [done|done|]. apply Z.lxor_nonneg. done.
  - rewrite Z.land_comm. by apply fits_land.
Qed.

Lemma set_flags_ok e f v : entry_ok e → fits 64 f → entry_ok (set_flags e f v).
Proof.
  intros He Hf. unfold entry_ok, set_flags. destruct v; cbn.
  - by apply fits_lor.
  - apply fits_land; [done|done|]. apply Z.lxor_nonneg. split; [done|]. intros; apply Hf.
Qed.

Lemma entry_eq_bits (e1 e2 : PagingStructEntry) :
  (∀ i, 0 ≤ i → entry_bit e1 i = entry_bit e2 i) → e1 = e2.
Proof. destruct e1, e2; cbn. intros H. f_equal. by apply Z.bits_inj'. Qed.

(** Physical addresses of 4 KiB pages, the only ones an entry can hold. *)
Definition page_addr (a : Z) : Prop := 0 ≤ a < 2 ^ 52 ∧ (4096 | a).

Lemma land_mask_page a : page_addr a → Z.land a MASK_51_12 = a.
Proof.
  intros [Ha [q ->]]. apply Z.bits_inj'. intros i Hi.
  rewrite Z.land_spec, testbit_MASK_51_12. case_bool_decide; [by rewrite andb_true_r|].
  rewrite andb_false_r. symmetry. destruct (decide (i < 12)).
  - change 4096 with (2 ^ 12). by apply Z.mul_pow2_bits_low.
  - apply (testbit_fits 52); [done|done|lia].
Qed.

Lemma get_addr_page e : entry_ok e → page_addr (get_addr e).
Proof.
  intros He. unfold get_addr. split.
  - apply fits_testbit; [apply Z.land_nonneg; by right|done|].
    intros i Hi. rewrite Z.land_spec, testbit_MASK_51_12, bool_decide_eq_false_2 by lia.
    apply andb_false_r.
  - apply Z.mod_divide; [done|]. change 4096 with (2 ^ 12). rewrite <- Z.land_ones by done.
    apply Z.bits_inj'. intros i Hi.
    rewrite !Z.land_spec, testbit_MASK_51_12, Z.bits_0.
    case_bool_decide; [|by rewrite andb_false_r].
    by rewrite Z.ones_spec_high, andb_false_r by lia.
Qed.

Lemma get_set_addr e a : entry_ok e → get_addr (set_addr e a) = Z.land a MASK_51_12.
Proof.
  intros He. unfold get_addr. apply Z.bits_inj'. intros i Hi. rewrite !Z.land_spec.
  fold (entry_bit (set_addr e a) i). rewrite set_addr_bit by done. rewrite testbit_MASK_51_12.
  case_bool_decide; [done|]. by rewrite !andb_false_r.
Qed.

Lemma get_addr_bits e1 e2 :
  (∀ i, 12 ≤ i < 52 → entry_bit e1 i = entry_bit e2 i) → get_addr e1 = get_addr e2.
Proof.
  intros H. unfold get_addr. apply Z.bits_inj'. intros i Hi.
  rewrite !Z.land_spec, testbit_MASK_51_12. case_bool_decide; [|by rewrite !andb_false_r].
  rewrite !andb_true_r. by apply H.
Qed.

(** The tests [flags & F == F] of the walker, for a single-bit flag within [ALL_FLAGS]. *)
Lemma flag_test e k :
  k ∈ [0; 1; 2; 3; 4; 5; 6; 7; 8; 12] →
  Z.land (get_flags e ALL_FLAGS) (2 ^ k) = if entry_bit e k then 2 ^ k else 0.
Proof.
  intros Hk. assert (0 ≤ k) by (repeat (apply elem_of_cons in Hk as [->|Hk]; [done|]); by apply elem_of_nil in Hk).
  unfold get_flags. rewrite <- Z.land_assoc.
  assert (Z.land ALL_FLAGS (2 ^ k) = 2 ^ k) as ->.
  { repeat (apply elem_of_cons in Hk as [->|Hk]; [done|]). by apply elem_of_nil in Hk. }
  apply Z.bits_inj'. intros i Hi. rewrite Z.land_spec. unfold entry_bit.
  destruct (decide (i = k)) as [->|Hik].
  - rewrite Z.pow2_bits_true by done. destruct (Z.testbit _ k); [|by rewrite Z.bits_0].
    by rewrite Z.pow2_bits_true.
  - rewrite Z.pow2_bits_false, andb_false_r by lia.
    destruct (Z.testbit _ k); [by rewrite Z.pow2_bits_false by lia|by rewrite Z.bits_0].
Qed.

Lemma entry_default_bit i : entry_bit entry_default i = false.
Proof. apply Z.bits_0. Qed.

(** An entry made present and writable, as [map] and [walk_or_create_table] write it. *)
Lemma mapped_entry e pa :
  entry_ok e → page_addr pa →
  let e' := set_flags (set_addr e pa) (Z.lor PRESENT_FLAG RW_FLAG) true in
  entry_ok e' ∧ present e' = true ∧ writable e' = true ∧ page_sized e' = page_sized e ∧
  get_addr e' = pa.
Proof.
  intros He Hpa e'. pose proof Hpa as [Ha _].
  assert (∀ i, 0 ≤ i → entry_bit e' i =
    (if bool_decide (12 ≤ i < 52) then Z.testbit pa i else entry_bit e i) || Z.testbit 3 i) as Hbit.
  { intros i Hi. unfold e'. by rewrite set_flags_lor_bit, set_addr_bit. }
  unfold present, writable, page_sized. rewrite !Hbit by done. split_and!.
  - apply set_flags_ok; [|done]. apply set_addr_ok; [done|apply Ha].
  - apply orb_true_r.
  - apply orb_true_r.
  - by rewrite orb_false_r.
  - transitivity (get_addr (set_addr e pa)); [|rewrite get_set_addr by done; by apply land_mask_page].
    apply get_addr_bits. intros i Hi. rewrite Hbit, set_addr_bit by (done || lia).
    rewrite bool_decide_eq_true_2 by done. rewrite (testbit_fits 2 3) by (done || lia).
    apply orb_false_r.
Qed.

(** Changing the write bit only. *)
Lemma set_rw_entry e b :
  entry_ok e →
  let e' := set_flags e RW_FLAG b in
  entry_ok e' ∧ present e' = present e ∧ writable e' = b ∧ page_sized e' = page_sized e ∧
  get_addr e' = get_addr e.
Proof.
  intros He e'.
  assert (∀ i, 0 ≤ i → entry_bit e' i = if bool_decide (i = 1) then b else entry_bit e i) as Hbit.
  { intros i Hi. by apply (set_flags_bit e 1). }
  unfold present, writable, page_sized. rewrite !Hbit by done. split_and!; try done.
  - by apply set_flags_ok.
  - apply get_addr_bits. intros i Hi. rewrite Hbit by lia. by rewrite bool_decide_eq_false_2 by lia.
Qed.
