(* ===== verification/Mapping.v ===== *)
(** * The page mapper (arch/x86_64/src/paging/mapping.rs)

    [Mapper] has the fields of the source and, next to them, the memory its raw pointers
    reach: the paging structures by address ([tables]) and the bytes of physical memory
    ([ram]).  Dereferencing an address with no table or no byte is [Panic InvalidDeref].
    Every operation returns the mapper it leaves behind together with its result. *)

From S2P Require Import Prelude Physical Table.

Definition BOOT_PAGE_TABLE_COUNT : Z := 7.

Record MappedPage := mkMappedPage {
  mp_phys_addr : Z;
  mp_size : PageSize;
  refs : Z;
  aliasing_paging_structures : gset (Z * Z);
}.

Record LeafEntry := mkLeaf {
  leaf_table : Z;
  leaf_phys_addr : Z;
  leaf_idx : Z;
  leaf_page_size : PageSize;
}.

Record Mapper (E : Type) := mkMapper {
  base : Z;
  region_length : Z;
  next : Z;
  mapped_pages : gmap Z MappedPage;
  page_allocator : PageAllocator;
  environment : E;
  tables : gmap Z PagingStruct;
  ram : gmap Z Z;
}.
Arguments mkMapper {E}.
Arguments base {E}.
Arguments region_length {E}.
Arguments next {E}.
Arguments mapped_pages {E}.
Arguments page_allocator {E}.
Arguments environment {E}.
Arguments tables {E}.
Arguments ram {E}.

Section setters.
Context {E : Type}.
Implicit Types self : Mapper E.

Definition with_next self n : Mapper E :=
  mkMapper (base self) (region_length self) n (mapped_pages self) (page_allocator self)
    (environment self) (tables self) (ram self).
Definition with_mapped_pages self mps : Mapper E :=
  mkMapper (base self) (region_length self) (next self) mps (page_allocator self)
    (environment self) (tables self) (ram self).
Definition with_page_allocator self pa : Mapper E :=
  mkMapper (base self) (region_length self) (next self) (mapped_pages self) pa
    (environment self) (tables self) (ram self).
Definition with_environment self env : Mapper E :=
  mkMapper (base self) (region_length self) (next self) (mapped_pages self) (page_allocator self)
    env (tables self) (ram self).
Definition with_tables self ts : Mapper E :=
  mkMapper (base self) (region_length self) (next self) (mapped_pages self) (page_allocator self)
    (environment self) ts (ram self).
Definition with_ram self m : Mapper E :=
  mkMapper (base self) (region_length self) (next self) (mapped_pages self) (page_allocator self)
    (environment self) (tables self) m.
End setters.

Section mapper.
Context {E : Type} `{!Environment E}.
Implicit Types self : Mapper E.

(** Reading [table.get_entry(idx)], and writing through [table.get_entry_mut(idx)]. *)
Definition read_entry self (table idx : Z) : outcome PagingStructEntry :=
  t ← expect (tables self !! table) InvalidDeref; get_entry t idx.

Definition write_entry self (table idx : Z) (e : PagingStructEntry) : outcome (Mapper E) :=
  t ← expect (tables self !! table) InvalidDeref;
  t' ← set_entry t idx e;
  Ret (with_tables self (<[table := t']> (tables self))).

Definition update_entry self (table idx : Z) (f : PagingStructEntry → PagingStructEntry) :
    outcome (Mapper E) :=
  e ← read_entry self table idx; write_entry self table idx (f e).

(** [write_bytes] on the part of an entry at address [a] that lies in [[lo, hi)]. *)
Definition zero_entry (lo hi a : Z) (e : PagingStructEntry) : PagingStructEntry :=
  foldl (λ e k,
    if decide (lo ≤ a + k < hi) then mkEntry (Z.ldiff (bytes e) (Z.shiftl 0xff (8 * k))) else e)
    e (seqZ 0 8).

Definition zero_table (lo hi a : Z) (t : PagingStruct) : PagingStruct :=
  mkTable (imap (λ j e, zero_entry lo hi (a + 8 * Z.of_nat j) e) (entries t)).

Definition write_zeroes (lo hi : Z) (ts : gmap Z PagingStruct) : gmap Z PagingStruct :=
  map_imap (λ a t, Some (zero_table lo hi a t)) ts.

Definition new_mapper (base length next : Z) (allocator : PageAllocator) (env : E)
    (ts : gmap Z PagingStruct) (ram : gmap Z Z) : outcome (Mapper E) :=
  ptr ← checked_add 64 base (7 * 0x1000);
  n ← checked_sub length (BOOT_PAGE_TABLE_COUNT * 0x1000);
  Ret (mkMapper base length next ∅ allocator env (write_zeroes ptr (ptr + n) ts) ram).

Definition new_table self : outcome (Mapper E * Z) :=
  let n := next self in
  let self := with_next self (wrapping_add 64 n 1) in
  table ← checked_add 64 (base self) (n * 0x1000);
  Ret (self, table).

Definition table_for_phys_addr self (phys_addr : Z) : outcome Z :=
  a ← checked_add 64 (PAGING_STRUCTURE_BASE E) phys_addr;
  off ← checked_sub a (base self);
  checked_add 64 (base self) (off `div` 0x1000 * 0x1000).

Definition walk (L : PagingLevel) self (table virt_addr : Z) : outcome (option (Z * Z)) :=
  let idx := entry_idx L virt_addr in
  entry ← read_entry self table idx;
  let addr := get_addr entry in
  let flags := get_flags entry ALL_FLAGS in
  Ret (if decide (Z.land flags PRESENT_FLAG = PRESENT_FLAG) then Some (addr, flags) else None).

Definition walk_or_create_table (L : PagingLevel) self (table virt_addr : Z) :
    outcome (Mapper E * (Z * Z)) :=
  w ← walk L self table virt_addr;
  match w with
  | Some (next_table, flags) =>
      next_table ← table_for_phys_addr self next_table;
      Ret (self, (next_table, flags))
  | None =>
      let idx := entry_idx L virt_addr in
      '(self, next_table) ← new_table self;
      let flags := Z.lor PRESENT_FLAG RW_FLAG in
      pa ← table_phys_addr E next_table;
      self ← update_entry self table idx (λ e, set_flags (set_addr e pa) flags true);
      Ret (self, (next_table, flags))
  end.

Definition walk_to_leaf self (pml4 virt_addr : Z) : outcome (option LeafEntry) :=
  w ← walk PML4 self pml4 virt_addr;
  match w with
  | None => Ret None
  | Some (pml4e_addr, _) =>
      pdpt ← table_for_phys_addr self pml4e_addr;
      w ← walk PDPT self pdpt virt_addr;
      match w with
      | None => Ret None
      | Some (pdpte_addr, pdpte_flags) =>
          if decide (Z.land pdpte_flags PS_FLAG = PS_FLAG)
          then Ret (Some (mkLeaf pdpt pdpte_addr (entry_idx PDPT virt_addr) Gigantic))
          else
            pd ← table_for_phys_addr self pdpte_addr;
            w ← walk PD self pd virt_addr;
            match w with
            | None => Ret None
            | Some (pde_addr, pde_flags) =>
                if decide (Z.land pde_flags PS_FLAG = PS_FLAG)
                then Ret (Some (mkLeaf pd pde_addr (entry_idx PD virt_addr) Huge))
                else
                  pt ← table_for_phys_addr self pde_addr;
                  w ← walk PT self pt virt_addr;
                  match w with
                  | None => Ret None
                  | Some (pte_addr, _) =>
                      Ret (Some (mkLeaf pt pte_addr (entry_idx PT virt_addr) Normal))
                  end
            end
      end
  end.

(** Writing through the reference [(&leaf).into()] returns. *)
Definition update_leaf self (leaf : LeafEntry) (f : PagingStructEntry → PagingStructEntry) :
    outcome (Mapper E) :=
  update_entry self (leaf_table leaf) (leaf_idx leaf) f.

(** The tuples of a [BTreeSet<(usize, usize)>], in its order. *)
Definition pair_le (x y : Z * Z) : Prop := x.1 < y.1 ∨ (x.1 = y.1 ∧ x.2 ≤ y.2).
#[local] Instance pair_le_dec x y : Decision (pair_le x y).
Proof. unfold pair_le. apply _. Defined.

Definition btreeset_iter (s : gset (Z * Z)) : list (Z * Z) := merge_sort pair_le (elements s).

(** The loop of [map] over the aliases of a page that is already mapped. *)
Definition map_alias (virt_addr : Z) self (alias : Z * Z) : outcome (Mapper E) :=
  aliasing_pml4 ← table_for_phys_addr self alias.1;
  leaf ← walk_to_leaf self aliasing_pml4 virt_addr;
  leaf ← expect leaf (ExpectFailed "Aliasing paging structures must map address");
  update_leaf self leaf (λ e, set_flags e RW_FLAG false).

(** The bookkeeping of [map] for the user half of the address space. *)
Definition map_account self (pml4 pte_addr phys_addr virt_addr : Z) : outcome (Mapper E) :=
  cr3 ← table_phys_addr E pml4;
  match mapped_pages self !! pte_addr with
  | Some pg =>
      let pg := mkMappedPage (mp_phys_addr pg) (mp_size pg) (wrapping_add 64 (refs pg) 1)
                  ({[(cr3, virt_addr)]} ∪ aliasing_paging_structures pg) in
      let self := with_mapped_pages self (<[pte_addr := pg]> (mapped_pages self)) in
      mfold (map_alias virt_addr) (btreeset_iter (aliasing_paging_structures pg)) self
  | None =>
      let pg := mkMappedPage phys_addr Normal 1 {[(cr3, virt_addr)]} in
      Ret (with_mapped_pages self (<[phys_addr := pg]> (mapped_pages self)))
  end.

Definition map_MASK_11_0 : Z := Z.shiftl 1 12 - 1.

Definition map self (phys_addr virt_addr : Z) : outcome (Mapper E * Result () PagingError) :=
  if decide (Z.land phys_addr map_MASK_11_0 ≠ 0)
  then Ret (self, Err (MisalignedAddress phys_addr Normal)) else
  if decide (Z.land virt_addr map_MASK_11_0 ≠ 0)
  then Ret (self, Err (MisalignedAddress virt_addr Normal)) else
  pml4 ← paging_structure_base (environment self);
  '(self, (pdpt, _)) ← walk_or_create_table PML4 self pml4 virt_addr;
  '(self, (pd, _)) ← walk_or_create_table PDPT self pdpt virt_addr;
  '(self, (pt, _)) ← walk_or_create_table PD self pd virt_addr;
  let idx := Z.shiftr (Z.land virt_addr (MASK PT)) (SHIFT PT) in
  self ← update_entry self pt idx (λ pte,
    set_flags (set_addr pte (Z.land phys_addr MASK_51_12)) (Z.lor PRESENT_FLAG RW_FLAG) true);
  pte ← read_entry self pt idx;
  self ← (if decide (Z.shiftr virt_addr 51 = 0)
          then map_account self pml4 (get_addr pte) phys_addr virt_addr
          else Ret self);
  Ret (with_environment self (flush_tlb (environment self)), Ok tt).

(** The mask of the alignment check of [unmap]. *)
Definition unmap_mask (s : PageSize) : Z :=
  match s with
  | Gigantic => Z.shiftl 1 30 - 1
  | Huge => Z.shiftl 1 21 - 1
  | Normal => Z.shiftl 1 12 - 1
  end.

(** The bookkeeping of [unmap] for the user half of the address space. *)
Definition unmap_account self (leaf : LeafEntry) (virt_addr : Z) : outcome (Mapper E) :=
  pg ← expect (mapped_pages self !! leaf_phys_addr leaf)
         (ExpectFailed "Mapped pages should be in mapped_pages");
  table ← paging_structure_base (environment self);
  cr3 ← table_phys_addr E table;
  if decide (refs pg > 1) then
    let refs' := wrapping_sub 64 (refs pg) 1 in
    _ ← assert_that (bool_decide ((cr3, virt_addr) ∈ aliasing_paging_structures pg))
          (AssertionFailed "Aliasing cr3 must have been in aliasing list");
    let aliases := aliasing_paging_structures pg ∖ {[(cr3, virt_addr)]} in
    let pg := mkMappedPage (mp_phys_addr pg) (mp_size pg) refs' aliases in
    let self := with_mapped_pages self (<[leaf_phys_addr leaf := pg]> (mapped_pages self)) in
    if decide (refs' = 1) then
      _ ← assert_that (bool_decide (size aliases = 1%nat))
            (AssertionFailed "There must be exactly one aliasing paging structure");
      '(pml4, _) ← expect (head (btreeset_iter aliases))
                     (ExpectFailed "There must be exactly one aliasing paging structure");
      pml4 ← table_for_phys_addr self pml4;
      leaf ← walk_to_leaf self pml4 virt_addr;
      leaf ← expect leaf (ExpectFailed "virt_addr must be mapped");
      update_leaf self leaf (λ e, set_flags e RW_FLAG true)
    else Ret self
  else
    Ret (with_mapped_pages self (delete (leaf_phys_addr leaf) (mapped_pages self))).

Definition unmap self (virt_addr : Z) : outcome (Mapper E * Result () PagingError) :=
  pml4 ← paging_structure_base (environment self);
  leaf ← walk_to_leaf self pml4 virt_addr;
  leaf ← expect leaf (ExpectFailed "Page to be unmapped must be mapped");
  if decide (Z.land virt_addr (unmap_mask (leaf_page_size leaf)) ≠ 0)
  then Ret (self, Err (MisalignedAddress virt_addr (leaf_page_size leaf))) else
  self ← update_leaf self leaf (λ _, entry_default);
  self ← (if decide (Z.shiftr virt_addr 51 = 0)
          then unmap_account self leaf virt_addr
          else Ret self);
  Ret (self, Ok tt).

Definition alloc_page_at self (virt_addr : Z) : outcome (Mapper E * Result () PagingError) :=
  '(phys_addr, pa) ← allocate (page_allocator self) 12;
  let self := with_page_allocator self pa in
  match phys_addr with
  | Some phys_addr => map self (Physical.get_addr phys_addr) virt_addr
  | None => Panic (ExplicitPanic "No available physical pages!")
  end.

Definition map_mmio self (phys_addr : Z) : outcome (Mapper E) :=
  virt_addr ← checked_add 64 phys_addr MMIO_BASE;
  '(self, _) ← map self phys_addr virt_addr;
  Ret self.

(** [Mapper::phys_addr] *)
Definition translate self (virt_addr : Z) : outcome (option Z) :=
  pml4 ← paging_structure_base (environment self);
  leaf ← walk_to_leaf self pml4 virt_addr;
  Ret (leaf ← leaf;
       match leaf_page_size leaf with
       | Gigantic =>
           Some (Z.lor (leaf_phys_addr leaf) (Z.land virt_addr (Z.shiftl 1 (SHIFT PDPT) - 1)))
       | Huge =>
           Some (Z.lor (leaf_phys_addr leaf) (Z.land virt_addr (Z.shiftl 1 (SHIFT PD) - 1)))
       | Normal =>
           Some (Z.lor (leaf_phys_addr leaf) (Z.land virt_addr (Z.shiftl 1 (SHIFT PT) - 1)))
       end).

(** ** Fork *)

(** One iteration of the loop of [fork] over the kernel half. *)
Definition fork_kernel_entry (src_pml4 dst_pml4 : Z) self (i : Z) : outcome (Mapper E) :=
  entry ← read_entry self src_pml4 i;
  let entry_addr := get_addr entry in
  let flags := get_flags entry ALL_FLAGS in
  if decide (Z.land flags PRESENT_FLAG ≠ PRESENT_FLAG) then Ret self else
  update_entry self dst_pml4 i (λ e, set_flags (set_addr e entry_addr) flags true).

(** [recursively_clone]; the recursive call is on [level - 1]. *)
Fixpoint recursively_clone (level : nat) self (src dst dst_cr3 virt_addr : Z) :
    outcome (Mapper E) :=
  mfold (λ self i,
    src_entry ← read_entry self src i;
    let src_addr := get_addr src_entry in
    let src_flags := get_flags src_entry ALL_FLAGS in
    shift ← match level with
            | 3%nat => Ret 30
            | 2%nat => Ret 21
            | 1%nat => Ret 12
            | _ => Panic Unreachable
            end;
    let virt_addr := Z.lor virt_addr (Z.shiftl i shift) in
    if decide (level = 1%nat ∨ Z.land src_flags PS_FLAG = PS_FLAG) then
      if decide (Z.land src_flags PRESENT_FLAG ≠ PRESENT_FLAG) then Ret self else
      self ← update_entry self dst i (λ e,
        set_flags (set_flags (set_addr e src_addr) src_flags true) RW_FLAG false);
      self ← update_entry self src i (λ e, set_flags e RW_FLAG false);
      mp ← expect (mapped_pages self !! src_addr)
             (ExpectFailed "MappedPage for physical page should have been created when getting mapped");
      let mp := mkMappedPage (mp_phys_addr mp) (mp_size mp) (wrapping_add 64 (refs mp) 1)
                  ({[(dst_cr3, virt_addr)]} ∪ aliasing_paging_structures mp) in
      Ret (with_mapped_pages self (<[src_addr := mp]> (mapped_pages self)))
    else
      if decide (Z.land src_flags PRESENT_FLAG ≠ PRESENT_FLAG) then Ret self else
      '(self, dst_table) ← new_table self;
      dst_table_addr ← table_phys_addr E dst_table;
      self ← update_entry self dst i (λ e,
        set_flags (set_flags (set_addr e dst_table_addr) src_flags true) RW_FLAG true);
      src_table ← table_for_phys_addr self src_addr;
      match level with
      | O => Panic Unreachable
      | S level => recursively_clone level self src_table dst_table dst_cr3 virt_addr
      end) (seqZ 0 512) self.

(** One iteration of the loop of [fork] over the user half. *)
Definition fork_user_entry (src_pml4 dst_pml4 : Z) self (i : Z) : outcome (Mapper E) :=
  entry ← read_entry self src_pml4 i;
  let flags := get_flags entry ALL_FLAGS in
  if decide (Z.land flags PRESENT_FLAG ≠ PRESENT_FLAG) then Ret self else
  '(self, dst_pdpt) ← new_table self;
  self ← update_entry self dst_pml4 i (λ e, set_flags e flags true);
  dst_table_addr ← table_phys_addr E dst_pdpt;
  self ← update_entry self dst_pml4 i (λ e, set_addr e dst_table_addr);
  dst_cr3 ← table_phys_addr E dst_pml4;
  entry ← read_entry self src_pml4 i;
  src_pdpt ← table_for_phys_addr self (get_addr entry);
  recursively_clone 3 self src_pdpt dst_pdpt dst_cr3 (Z.shiftl i 39).

Definition fork self (paging_struct_base : Z) : outcome (Mapper E * Z) :=
  let src_pml4 := paging_struct_base in
  '(self, dst_pml4) ← new_table self;
  self ← mfold (fork_kernel_entry src_pml4 dst_pml4) (seqZ 256 256) self;
  self ← mfold (fork_user_entry src_pml4 dst_pml4) (seqZ 0 256) self;
  pa ← table_phys_addr E dst_pml4;
  Ret (self, pa).

(** ** Copy on write *)

(** The byte at a virtual address, as the MMU finds it in the current structures;
    permission bits are not consulted. *)
Definition load self (virt_addr : Z) : outcome Z :=
  pa ← translate self virt_addr;
  pa ← expect pa InvalidDeref;
  expect (ram self !! pa) InvalidDeref.

Definition store self (virt_addr b : Z) : outcome (Mapper E) :=
  pa ← translate self virt_addr;
  pa ← expect pa InvalidDeref;
  _ ← expect (ram self !! pa) InvalidDeref;
  Ret (with_ram self (<[pa := b]> (ram self))).

Definition cow_copy_byte (src dest : Z) self (i : Z) : outcome (Mapper E) :=
  b ← load self (src + i);
  store self (dest + i) b.

Definition cow_copy self (src dest : Z) : outcome (Mapper E) :=
  mfold (cow_copy_byte src dest) (seqZ 0 0x1000) self.

Definition cow_tmp_map self (scratch : Z) : outcome (Mapper E * Block) :=
  '(new_page, pa) ← allocate (page_allocator self) 12;
  let self := with_page_allocator self pa in
  new_page ← expect new_page (ExpectFailed "Physical memory exhausted!");
  '(self, _) ← map self (Physical.get_addr new_page) scratch;
  Ret (self, new_page).

Definition cow self (virt_addr scratch : Z) : outcome (Mapper E * Result () PagingError) :=
  pml4 ← paging_structure_base (environment self);
  leaf ← walk_to_leaf self pml4 virt_addr;
  leaf ← expect leaf (ExpectFailed "Page should be mapped");
  _ ← match leaf_page_size leaf with
      | Gigantic => Panic (ExplicitPanic "Copy-on-write of gigantic pages is unsupported")
      | Huge => Panic (ExplicitPanic "Copy-on-write of huge pages is unsupported")
      | Normal =>
          pg ← expect (mapped_pages self !! leaf_phys_addr leaf)
                 (ExpectFailed "Mapped page should be in mapped_pages");
          assert_that (bool_decide (refs pg > 1))
            (AssertionFailed "Mapped page ref count should be greater than 1")
      end;
  '(self, new_page) ← cow_tmp_map self scratch;
  self ← cow_copy self virt_addr scratch;
  '(self, r) ← unmap self virt_addr;
  match r with
  | Err e => Ret (self, Err e)
  | Ok _ =>
      '(self, r) ← unmap self scratch;
      match r with
      | Err e => Ret (self, Err e)
      | Ok _ => map self (Physical.get_addr new_page) virt_addr
      end
  end.
End mapper.
