(* ===== verification/MappingTree.v ===== *)
(** * Trees of paging structures: the mapper's invariant

    [region_ok] describes the region paging structures are carved from; [owned dm own r self]
    says that the tables reachable from root [r] form a tree, [own] giving the depth of
    every table and the entry that points to it.  [table_at] and [leaf] are the walk of
    the MMU as functions; [walk_to_leaf] computes [leaf] on a well-formed mapper, and the
    frame lemmas say which writes leave [leaf] unchanged. *)

From S2P Require Import Prelude Physical Table Mapping.

Section tree.
Context {E : Type} `{!Environment E}.
Implicit Types self : Mapper E.

#[local] Abbreviation PSB := (PAGING_STRUCTURE_BASE E).

(** ** Tables and entries *)

Definition ent self (t i : Z) : option PagingStructEntry :=
  tb ← tables self !! t; entries tb !! Z.to_nat i.

Definition capacity self : Z := region_length self `div` 0x1000.

Definition in_region self (t : Z) : Prop := ∃ n, 0 ≤ n < capacity self ∧ t = base self + n * 0x1000.
Definition allocated self (t : Z) : Prop := ∃ n, 0 ≤ n < next self ∧ t = base self + n * 0x1000.

Record region_ok self : Prop := {
  region_psb : 0 ≤ PSB ≤ base self;
  region_base : (0x1000 | base self - PSB);
  region_end : base self - PSB + region_length self ≤ 2 ^ 52;
  region_end64 : base self + region_length self ≤ 2 ^ 64;
  region_next : 0 ≤ next self ≤ capacity self;
  region_tables t : in_region self t →
    ∃ tb, tables self !! t = Some tb ∧ length (entries tb) = ENTRY_COUNT;
  region_entries t i e : ent self t i = Some e → entry_ok e;
  region_fresh t i : in_region self t → ¬ allocated self t → 0 ≤ i < 512 →
    ent self t i = Some entry_default;
}.

Lemma allocated_in_region self t : region_ok self → allocated self t → in_region self t.
Proof. intros [? ? ? ? Hn ? ? ?] (n & ? & ->). exists n. split; [lia|done]. Qed.

Lemma capacity_end self t :
  region_ok self → in_region self t → base self ≤ t ∧ t + 0x1000 ≤ base self + region_length self.
Proof.
  intros [] (n & Hn & ->). unfold capacity in *.
  pose proof (Z.mul_div_le (region_length self) 0x1000). lia.
Qed.

Lemma ent_total self t i :
  region_ok self → in_region self t → 0 ≤ i < 512 → ∃ e, ent self t i = Some e ∧ entry_ok e.
Proof.
  intros Hr Ht Hi. destruct (region_tables _ Hr t Ht) as (tb & Htb & Hlen).
  destruct (lookup_lt_is_Some_2 (entries tb) (Z.to_nat i)) as [e He].
  { rewrite Hlen. unfold ENTRY_COUNT. lia. }
  assert (ent self t i = Some e) as Hent by (unfold ent; by rewrite Htb).
  exists e. split; [done|]. by eapply region_entries.
Qed.

Lemma read_entry_ent self t i e : ent self t i = Some e → read_entry self t i = Ret e.
Proof.
  unfold ent, read_entry, get_entry, index. destruct (tables self !! t); cbn; [|done].
  by intros ->.
Qed.

Lemma write_entry_ent self t i e :
  region_ok self → in_region self t → 0 ≤ i < 512 →
  ∃ ts, write_entry self t i e = Ret (with_tables self ts) ∧
    (∀ t', is_Some (ts !! t') → is_Some (tables self !! t')) ∧
    (∀ t' tb, tables self !! t' = Some tb →
       ∃ tb', ts !! t' = Some tb' ∧ length (entries tb') = length (entries tb)) ∧
    ∀ t' i', 0 ≤ i' → ent (with_tables self ts) t' i' =
      if decide (t' = t ∧ i' = i) then Some e else ent self t' i'.
Proof.
  intros Hr Ht Hi. destruct (region_tables _ Hr t Ht) as (tb & Htb & Hlen).
  unfold write_entry, set_entry, index_set. rewrite Htb; cbn.
  rewrite decide_True by (rewrite Hlen; unfold ENTRY_COUNT; lia). cbn.
  eexists. split; [reflexivity|]. split_and!.
  - intros t'. rewrite lookup_insert_is_Some. intros [<-|[_ ?]]; [by rewrite Htb|done].
  - intros t' tb' Ht'. destruct (decide (t' = t)) as [->|].
    + rewrite lookup_insert_eq. eexists; split; [done|]. cbn. rewrite length_insert. by simplify_eq.
    + rewrite lookup_insert_ne by done. eauto.
  - intros t' i' Hi'. unfold ent; cbn. destruct (decide (t' = t)) as [->|].
    + rewrite lookup_insert_eq, Htb; cbn. case_decide as Hd.
      * destruct Hd as [_ ->]. rewrite list_lookup_insert_eq; [done|].
        rewrite Hlen. unfold ENTRY_COUNT. lia.
      * rewrite list_lookup_insert_ne; [done|]. intros Hz. apply Hd. split; [done|lia].
    + rewrite lookup_insert_ne by done. by rewrite decide_False by tauto.
Qed.

Lemma update_entry_ent self t i e f :
  ent self t i = Some e → update_entry self t i f = write_entry self t i (f e).
Proof. intros He. unfold update_entry. by rewrite (read_entry_ent _ _ _ _ He). Qed.

(** ** The walk as a function *)

Definition level (d : nat) : PagingLevel :=
  match d with
  | 0%nat => PML4
  | 1%nat => PDPT
  | 2%nat => PD
  | _ => PT
  end.
Definition idx (d : nat) (v : Z) : Z := entry_idx (level d) v.
Definition size_of (d : nat) : PageSize :=
  match d with
  | 1%nat => Gigantic
  | 2%nat => Huge
  | _ => Normal
  end.

Definition child (e : PagingStructEntry) : Z := PSB + Table.get_addr e.

(** Does the entry of a table at depth [d] point to a table? *)
Definition points (d : nat) (e : PagingStructEntry) : bool :=
  present e && (bool_decide (d = 0%nat) || negb (page_sized e)).
(** Does it map a page? *)
Definition maps (d : nat) (e : PagingStructEntry) : bool :=
  present e && (bool_decide (d = 3%nat) || (bool_decide (0 < d)%nat && page_sized e)).

Fixpoint table_at self (r : Z) (d : nat) (v : Z) : option Z :=
  match d with
  | O => Some r
  | S d =>
      t ← table_at self r d v;
      e ← ent self t (idx d v);
      if points d e then Some (child e) else None
  end.

Definition leaf_at self (r : Z) (d : nat) (v : Z) : option LeafEntry :=
  t ← table_at self r d v;
  e ← ent self t (idx d v);
  if maps d e then Some (mkLeaf t (Table.get_addr e) (idx d v) (size_of d)) else None.

Definition leaf self (r v : Z) : option LeafEntry :=
  match leaf_at self r 1 v with
  | Some l => Some l
  | None =>
      match leaf_at self r 2 v with
      | Some l => Some l
      | None => leaf_at self r 3 v
      end
  end.

Lemma idx_bound d v : 0 ≤ idx d v < 512.
Proof. apply entry_idx_bound. Qed.

Lemma walk_ent self t d v e :
  ent self t (idx d v) = Some e →
  walk (level d) self t v =
  Ret (if present e then Some (Table.get_addr e, get_flags e ALL_FLAGS) else None).
Proof.
  intros He. unfold walk. fold (idx d v). rewrite (read_entry_ent _ _ _ _ He). cbn [mbind outcome_bind].
  change PRESENT_FLAG with (2 ^ 0). rewrite (flag_test e 0) by set_solver.
  fold (present e). by destruct (present e).
Qed.

Lemma ps_test {A} e (x y : A) :
  (if decide (Z.land (get_flags e ALL_FLAGS) PS_FLAG = PS_FLAG) then x else y) =
  if page_sized e then x else y.
Proof.
  change PS_FLAG with (2 ^ 7). rewrite (flag_test e 7) by set_solver.
  fold (page_sized e). by destruct (page_sized e).
Qed.

(** ** The invariant *)

Inductive place := Root | Under (t i : Z).

Record owned (dm : gmap Z nat) (own : gmap Z (nat * place)) (r : Z) self : Prop := {
  owned_root : own !! r = Some (0%nat, Root);
  owned_depth t d pl : own !! t = Some (d, pl) → dm !! t = Some d;
  owned_alloc t x : own !! t = Some x → allocated self t;
  owned_child t d pl i e : own !! t = Some (d, pl) → (d < 3)%nat → 0 ≤ i < 512 →
    ent self t i = Some e → points d e → own !! child e = Some (S d, Under t i);
  owned_clean t x i e : own !! t = Some x → 0 ≤ i < 512 → ent self t i = Some e →
    present e = false → page_sized e = false;
}.

Definition tree_ok (dm : gmap Z nat) (r : Z) self : Prop := ∃ own, owned dm own r self.

Lemma tree_ok_allocated dm r self : tree_ok dm r self → allocated self r.
Proof. intros [own Ho]. eapply owned_alloc; [done|]. by eapply owned_root. Qed.

(** ** Addresses of tables *)

Lemma table_for_phys_addr_ok self t :
  region_ok self → in_region self t → table_for_phys_addr self (t - PSB) = Ret t.
Proof.
  intros Hr Ht. pose proof (capacity_end _ _ Hr Ht). destruct Ht as (n & Hn & ->). destruct Hr.
  unfold table_for_phys_addr. rewrite checked_add_ok by lia. cbn [mbind outcome_bind].
  rewrite checked_sub_ok by lia. cbn [mbind outcome_bind].
  replace (PSB + (base self + n * 0x1000 - PSB) - base self) with (n * 0x1000) by lia.
  rewrite Z.div_mul by done. apply checked_add_ok. lia.
Qed.

Lemma table_phys_addr_ok self t :
  region_ok self → in_region self t →
  table_phys_addr E t = Ret (t - PSB) ∧ page_addr (t - PSB).
Proof.
  intros Hr Ht. pose proof (capacity_end _ _ Hr Ht) as Hend. destruct Ht as (n & Hn & ->). destruct Hr.
  split; [apply checked_sub_ok; lia|]. split; [lia|].
  replace (base self + n * 0x1000 - PSB) with (base self - PSB + n * 0x1000) by lia.
  apply Z.divide_add_r; [done|]. by exists n.
Qed.

Lemma table_for_child self t e :
  region_ok self → in_region self t → child e = t →
  table_for_phys_addr self (Table.get_addr e) = Ret (child e).
Proof.
  intros Hr Ht Hc. rewrite <- (table_for_phys_addr_ok self (child e)) by (by subst).
  f_equal. unfold child. lia.
Qed.

(** ** Walking a tree *)

Section one_tree.
Context (dm : gmap Z nat) (own : gmap Z (nat * place)) (r : Z) (self : Mapper E).
Hypothesis Hreg : region_ok self.
Hypothesis Hown : owned dm own r self.

Lemma owned_in_region t x : own !! t = Some x → in_region self t.
Proof. intros. apply allocated_in_region; [done|]. by eapply owned_alloc. Qed.

Lemma table_at_own d v t :
  (d ≤ 3)%nat → table_at self r d v = Some t →
  ∃ pl, own !! t = Some (d, pl) ∧
    match d with
    | O => pl = Root
    | S d' => ∃ t', table_at self r d' v = Some t' ∧ pl = Under t' (idx d' v)
    end.
Proof.
  revert t. induction d as [|d IH]; intros t Hd Ht; cbn in Ht.
  - simplify_eq. exists Root. split; [by eapply owned_root|done].
  - apply bind_Some in Ht as (t' & Ht' & Ht). apply bind_Some in Ht as (e & He & Ht).
    destruct (points d e) eqn:Hp; simplify_eq.
    destruct (IH t' ltac:(lia) Ht') as (pl' & Hpl' & _).
    exists (Under t' (idx d v)). split; [|eauto].
    eapply owned_child; [done|done|lia|apply idx_bound|done|by rewrite Hp].
Qed.

Lemma table_at_in_region d v t :
  (d ≤ 3)%nat → table_at self r d v = Some t → in_region self t.
Proof. intros Hd Ht. apply table_at_own in Ht as (? & ? & _); [|done]. by eapply owned_in_region. Qed.

(** Two addresses whose walks share a table share every index above it. *)
Lemma table_at_inj d v w t :
  (d ≤ 3)%nat → table_at self r d v = Some t → table_at self r d w = Some t →
  ∀ j, (j < d)%nat → idx j v = idx j w.
Proof.
  revert t. induction d as [|d IH]; intros t Hd Hv Hw j Hj; [lia|].
  destruct (table_at_own _ _ _ Hd Hv) as (pl & Hpl & t1 & Ht1 & ->).
  destruct (table_at_own _ _ _ Hd Hw) as (pl & Hpl' & t2 & Ht2 & ->).
  rewrite Hpl in Hpl'. simplify_eq.
  destruct (decide (j = d)) as [->|]; [done|]. apply (IH t2); auto with lia.
Qed.

Lemma table_at_depth d d' v w t :
  (d ≤ 3)%nat → (d' ≤ 3)%nat → table_at self r d v = Some t → table_at self r d' w = Some t → d = d'.
Proof.
  intros Hd Hd' Hv Hw. apply table_at_own in Hv as (? & Hv & _), Hw as (? & Hw & _); [|done..].
  rewrite Hv in Hw. by simplify_eq.
Qed.

Lemma table_at_entry d v t :
  (d ≤ 3)%nat → table_at self r d v = Some t →
  ∃ e, ent self t (idx d v) = Some e ∧ entry_ok e ∧
    (points d e → (d < 3)%nat → table_for_phys_addr self (Table.get_addr e) = Ret (child e)).
Proof.
  intros Hd Ht. destruct (ent_total self t (idx d v)) as (e & He & Hok);
    [done|by eapply table_at_in_region|apply idx_bound|].
  exists e. split_and!; [done|done|]. intros Hp Hd3.
  apply (table_for_child self (child e)); [done| |done].
  apply (table_at_in_region (S d) v); [lia|]. cbn. rewrite Ht; cbn. rewrite He; cbn.
  by destruct (points d e).
Qed.

(** One level of the walk, in the code and as a function. *)
Lemma walk_step d v t :
  (d ≤ 3)%nat → table_at self r d v = Some t →
  ∃ e, ent self t (idx d v) = Some e ∧ entry_ok e ∧
    walk (level d) self t v =
      Ret (if present e then Some (Table.get_addr e, get_flags e ALL_FLAGS) else None) ∧
    table_at self r (S d) v = (if points d e then Some (child e) else None) ∧
    leaf_at self r d v =
      (if maps d e then Some (mkLeaf t (Table.get_addr e) (idx d v) (size_of d)) else None) ∧
    (points d e → (d < 3)%nat → table_for_phys_addr self (Table.get_addr e) = Ret (child e)).
Proof.
  intros Hd Ht. destruct (table_at_entry d v t Hd Ht) as (e & He & Hok & Hc).
  exists e. split_and!; [done|done|by apply walk_ent| | |done].
  - cbn. rewrite Ht; cbn. by rewrite He.
  - unfold leaf_at. rewrite Ht; cbn. by rewrite He.
Qed.

Lemma table_at_None d v : table_at self r d v = None → table_at self r (S d) v = None.
Proof. intros H. cbn. by rewrite H. Qed.

Lemma leaf_at_None d v : table_at self r d v = None → leaf_at self r d v = None.
Proof. intros H. unfold leaf_at. by rewrite H. Qed.

Lemma walk_to_leaf_spec v : walk_to_leaf self r v = Ret (leaf self r v).
Proof.
  unfold walk_to_leaf, leaf.
  destruct (walk_step 0 v r ltac:(lia) eq_refl) as (e0 & _ & _ & W0 & T1 & _ & C0).
  rewrite (W0 : walk PML4 self r v = _). cbn [mbind outcome_bind].
  unfold points in C0, T1. rewrite (bool_decide_eq_true_2 (0 = 0)%nat), orb_true_l, andb_true_r in C0, T1 by done.
  destruct (present e0).
  2:{ by rewrite !leaf_at_None by (repeat (exact T1 || apply table_at_None)). }
  rewrite C0 by (done || lia). cbn [mbind outcome_bind].
  destruct (walk_step 1 v _ ltac:(lia) T1) as (e1 & _ & _ & W1 & T2 & L1 & C1).
  rewrite (W1 : walk PDPT self _ v = _). cbn [mbind outcome_bind]. rewrite L1.
  unfold points in C1, T2. unfold maps.
  rewrite (bool_decide_eq_false_2 (1 = 0)%nat) in * by lia.
  rewrite (bool_decide_eq_false_2 (1 = 3)%nat) by lia.
  rewrite (bool_decide_eq_true_2 (0 < 1)%nat) by lia. cbn [orb andb] in *.
  destruct (present e1); cbn [andb] in *.
  2:{ by rewrite !leaf_at_None by (repeat (exact T2 || apply table_at_None)). }
  rewrite ps_test. destruct (page_sized e1); [done|]. cbn [negb] in *.
  rewrite C1 by (done || lia). cbn [mbind outcome_bind].
  destruct (walk_step 2 v _ ltac:(lia) T2) as (e2 & _ & _ & W2 & T3 & L2 & C2).
  rewrite (W2 : walk PD self _ v = _). cbn [mbind outcome_bind]. rewrite L2.
  unfold points in C2, T3. unfold maps.
  rewrite (bool_decide_eq_false_2 (2 = 0)%nat) in * by lia.
  rewrite (bool_decide_eq_false_2 (2 = 3)%nat) by lia.
  rewrite (bool_decide_eq_true_2 (0 < 2)%nat) by lia. cbn [orb andb] in *.
  destruct (present e2); cbn [andb] in *; [|by rewrite leaf_at_None].
  rewrite ps_test. destruct (page_sized e2); [done|]. cbn [negb] in *.
  rewrite C2 by (done || lia). cbn [mbind outcome_bind].
  destruct (walk_step 3 v _ ltac:(lia) T3) as (e3 & _ & _ & W3 & _ & L3 & _).
  rewrite (W3 : walk PT self _ v = _), L3. cbn [mbind outcome_bind].
  unfold maps. rewrite (bool_decide_eq_true_2 (3 = 3)%nat) by done. cbn [orb].
  rewrite andb_true_r. by destruct (present e3).
Qed.
End one_tree.

(** ** Frames *)

Lemma table_at_frame self self' r v d :
  (d ≤ 3)%nat →
  (∀ d' t, (d' < d)%nat → table_at self r d' v = Some t →
     ent self' t (idx d' v) = ent self t (idx d' v)) →
  table_at self' r d v = table_at self r d v.
Proof.
  intros Hd. induction d as [|d IH]; intros Hent; [done|]. cbn.
  rewrite IH; [|lia|intros d' t ? ?; apply Hent; [lia|done]].
  destruct (table_at self r d v) as [t|] eqn:Ht; [|done]. cbn.
  by rewrite (Hent d t ltac:(lia) Ht).
Qed.

Lemma leaf_frame self self' r v :
  (∀ d t, (d ≤ 3)%nat → table_at self r d v = Some t →
     ent self' t (idx d v) = ent self t (idx d v)) →
  leaf self' r v = leaf self r v.
Proof.
  intros Hent.
  assert (∀ d, (d ≤ 3)%nat → leaf_at self' r d v = leaf_at self r d v) as Hl.
  { intros d Hd. unfold leaf_at. rewrite (table_at_frame self self') by (auto with lia).
    destruct (table_at self r d v) as [t|] eqn:Ht; [|done]. cbn. by rewrite (Hent d t). }
  unfold leaf. by rewrite !Hl by lia.
Qed.

(** ** Entries that differ only in bits the walk ignores *)

Definition similar (e e' : PagingStructEntry) : Prop :=
  Table.get_addr e = Table.get_addr e' ∧ present e = present e' ∧ page_sized e = page_sized e'.

#[global] Instance similar_equiv : Equivalence similar.
Proof.
  unfold similar. split.
  - by intros e.
  - intros e e' (?&?&?). by split_and!.
  - intros e1 e2 e3 (->&->&->) (->&->&->). by split_and!.
Qed.

(** Mappers the MMU cannot tell apart, but for permissions. *)
Definition same_walk self self' : Prop :=
  base self = base self' ∧ next self = next self' ∧
  ∀ t i, 0 ≤ i < 512 → option_Forall2 similar (ent self t i) (ent self' t i).

#[global] Instance same_walk_equiv : Equivalence same_walk.
Proof.
  split; unfold same_walk.
  - intros self. split_and!; [done..|]. intros. by apply reflexivity.
  - intros x y (->&->&H). split_and!; [done..|]. intros. symmetry. auto.
  - intros x y z (->&->&H1) (->&->&H2). split_and!; [done..|]. intros t i Hi.
    etransitivity; [by apply H1|by apply H2].
Qed.

Lemma similar_points d e e' : similar e e' → points d e = points d e'.
Proof. intros (_&Hp&Hs). unfold points. by rewrite Hp, Hs. Qed.
Lemma similar_maps d e e' : similar e e' → maps d e = maps d e'.
Proof. intros (_&Hp&Hs). unfold maps. by rewrite Hp, Hs. Qed.
Lemma similar_child e e' : similar e e' → child e = child e'.
Proof. intros (Ha&_). unfold child. by rewrite Ha. Qed.

#[global] Instance table_at_Proper : Proper (same_walk ==> eq ==> eq ==> eq ==> eq) table_at.
Proof.
  intros self self' Hs r ? <- d ? <- v ? <-. induction d as [|d IH]; [done|]. cbn. rewrite IH.
  destruct (table_at self' r d v) as [t|]; [|done]. cbn.
  destruct Hs as (_ & _ & Hs). specialize (Hs t (idx d v) (idx_bound d v)).
  inversion Hs as [e e' Hee|]; [|done]. cbn. by rewrite (similar_points _ _ _ Hee), (similar_child _ _ Hee).
Qed.

#[global] Instance leaf_at_Proper : Proper (same_walk ==> eq ==> eq ==> eq ==> eq) leaf_at.
Proof.
  intros self self' Hs r ? <- d ? <- v ? <-. unfold leaf_at.
  rewrite (table_at_Proper _ _ Hs r _ eq_refl d _ eq_refl v _ eq_refl).
  destruct (table_at self' r d v) as [t|]; [|done]. cbn.
  destruct Hs as (_ & _ & Hs). specialize (Hs t (idx d v) (idx_bound d v)).
  inversion Hs as [e e' Hee|]; [|done]. cbn. rewrite (similar_maps _ _ _ Hee). by destruct Hee as [-> _].
Qed.

#[global] Instance leaf_Proper : Proper (same_walk ==> eq ==> eq ==> eq) leaf.
Proof.
  intros self self' Hs r ? <- v ? <-. unfold leaf.
  by rewrite !(leaf_at_Proper _ _ Hs r _ eq_refl _ _ eq_refl v _ eq_refl).
Qed.

Lemma owned_same_walk dm own r self self' : same_walk self self' → owned dm own r self → owned dm own r self'.
Proof.
  intros (Hb & Hn & Hs) Ho.
  assert (∀ t i e', 0 ≤ i < 512 → ent self' t i = Some e' →
            ∃ e, ent self t i = Some e ∧ similar e e') as Hback.
  { intros t i e' Hi He'. specialize (Hs t i Hi). rewrite He' in Hs.
    inversion Hs as [e ? Hee Heq|]; simplify_eq. eauto. }
  split.
  - by eapply owned_root.
  - by eapply owned_depth.
  - intros t x Ht. destruct (owned_alloc _ _ _ _ Ho t x Ht) as (n & ? & ?). exists n.
    by rewrite <- Hb, <- Hn.
  - intros t d pl i e' Ht Hd Hi He' Hp. destruct (Hback t i e' Hi He') as (e & He & Hee).
    rewrite <- (similar_child _ _ Hee). rewrite <- (similar_points _ _ _ Hee) in Hp.
    by eapply owned_child.
  - intros t x i e' Ht Hi He' Hp. destruct (Hback t i e' Hi He') as (e & He & _ & Hp' & Hs').
    rewrite <- Hs'. eapply owned_clean; [done..|congruence].
Qed.

(** ** Writes *)

(** [self'] is [self] with entry [i] of table [t] overwritten by [e]. *)
Definition wrote self self' (t i : Z) (e : PagingStructEntry) : Prop :=
  (∃ ts, self' = with_tables self ts) ∧
  ∀ t' i', 0 ≤ i' → ent self' t' i' = if decide (t' = t ∧ i' = i) then Some e else ent self t' i'.

Lemma wrote_eq self self' t i e : wrote self self' t i e → 0 ≤ i → ent self' t i = Some e.
Proof. intros [_ H] Hi. by rewrite H, decide_True by done. Qed.

Lemma wrote_ne self self' t i e t' i' :
  wrote self self' t i e → 0 ≤ i' → (t', i') ≠ (t, i) → ent self' t' i' = ent self t' i'.
Proof. intros [_ H] Hi Hne. rewrite H, decide_False; [done|naive_solver|done]. Qed.

Lemma ent_max self t i : ent self t i = ent self t (Z.max 0 i).
Proof. unfold ent. by replace (Z.to_nat (Z.max 0 i)) with (Z.to_nat i) by lia. Qed.

Lemma write_entry_spec self t i e :
  region_ok self → allocated self t → 0 ≤ i < 512 → entry_ok e →
  ∃ self', write_entry self t i e = Ret self' ∧ region_ok self' ∧ wrote self self' t i e.
Proof.
  intros Hr Hal Hi He. pose proof (allocated_in_region _ _ Hr Hal) as Ht.
  destruct (write_entry_ent self t i e Hr Ht Hi) as (ts & Hw & _ & Hlen & Hent).
  exists (with_tables self ts). split_and!; [done| |split; [by eexists|done]].
  destruct Hr as [Hpsb Hbase Hend Hend64 Hnext Htab Hents Hfresh].
  split; cbn; try done.
  - intros t' Ht'. destruct (Htab t' Ht') as (tb & Htb & Hl).
    destruct (Hlen t' tb Htb) as (tb' & Htb' & Hl'). exists tb'. by rewrite Hl'.
  - intros t' i' e'. rewrite ent_max, Hent by lia. case_decide; [by intros; simplify_eq|apply Hents].
  - intros t' i' Ht' Hna Hi'. rewrite Hent by lia.
    rewrite decide_False; [by apply Hfresh|]. by intros [-> _].
Qed.

Lemma update_entry_spec self t i f :
  region_ok self → allocated self t → 0 ≤ i < 512 → (∀ e, entry_ok e → entry_ok (f e)) →
  ∃ e self', ent self t i = Some e ∧ entry_ok e ∧ update_entry self t i f = Ret self' ∧
    region_ok self' ∧ wrote self self' t i (f e).
Proof.
  intros Hr Hal Hi Hf.
  destruct (ent_total self t i Hr (allocated_in_region _ _ Hr Hal) Hi) as (e & He & Hok).
  destruct (write_entry_spec self t i (f e) Hr Hal Hi (Hf e Hok)) as (self' & Hw & Hr' & Hwr).
  exists e, self'. split_and!; try done. by rewrite (update_entry_ent _ _ _ _ _ He).
Qed.

Lemma wrote_similar self self' t i e e' :
  wrote self self' t i e' → ent self t i = Some e → similar e e' → same_walk self self'.
Proof.
  intros [[ts ->] H] He Hs. split_and!; [done..|]. intros t' i' Hi'. rewrite H by lia.
  case_decide as Hd; [|by apply reflexivity]. destruct Hd as [-> ->]. rewrite He. by constructor.
Qed.

(** Overwriting an entry with one that points to no table keeps a tree. *)
Lemma owned_write dm own r self self' t i e :
  owned dm own r self → wrote self self' t i e →
  (∀ d pl, own !! t = Some (d, pl) → (d < 3)%nat → points d e = false) →
  (present e = false → page_sized e = false) →
  owned dm own r self'.
Proof.
  intros Ho Hw Hp Hc. pose proof Hw as [[ts ->] Hent]. split.
  - by eapply owned_root.
  - by eapply owned_depth.
  - intros t' x Ht'. exact (owned_alloc _ _ _ _ Ho t' x Ht').
  - intros t' d pl i' e' Ht' Hd Hi'. rewrite Hent by lia. case_decide as Hdec.
    + destruct Hdec as [-> ->]. intros [= <-]. by rewrite (Hp d pl).
    + by eapply owned_child.
  - intros t' x i' e' Ht' Hi'. rewrite Hent by lia. case_decide.
    + by intros [= <-].
    + by eapply owned_clean.
Qed.

(** The leaf of [v] sits at depth [d] of its walk. *)
Lemma leaf_inv self r v l :
  leaf self r v = Some l →
  ∃ d t e, (1 ≤ d ≤ 3)%nat ∧ table_at self r d v = Some t ∧ ent self t (idx d v) = Some e ∧
    maps d e ∧ l = mkLeaf t (Table.get_addr e) (idx d v) (size_of d).
Proof.
  assert (∀ d, leaf_at self r d v = Some l → ∃ t e, table_at self r d v = Some t ∧
    ent self t (idx d v) = Some e ∧ maps d e ∧ l = mkLeaf t (Table.get_addr e) (idx d v) (size_of d)) as H.
  { intros d. unfold leaf_at. intros (t & Ht & H)%bind_Some. apply bind_Some in H as (e & He & H).
    destruct (maps d e) eqn:Hm; simplify_eq. exists t, e. split_and!; try done. by rewrite Hm. }
  unfold leaf. destruct (leaf_at self r 1 v) eqn:H1.
  { intros [= ->]. destruct (H 1%nat H1) as (t & e & ?). exists 1%nat, t, e. split; [lia|done]. }
  destruct (leaf_at self r 2 v) eqn:H2.
  { intros [= ->]. destruct (H 2%nat H2) as (t & e & ?). exists 2%nat, t, e. split; [lia|done]. }
  intros H3. destruct (H 3%nat H3) as (t & e & ?). exists 3%nat, t, e. split; [lia|done].
Qed.

(** [v] and [w] lie in the same page of the size mapped at depth [d]. *)
Definition same_page_at (d : nat) (v w : Z) : Prop := ∀ j, (j ≤ d)%nat → idx j v = idx j w.

(** Overwriting the entry of [v] at depth [d] does not affect addresses in other pages. *)
Lemma leaf_write_other dm own r self self' t d v w e :
  region_ok self → owned dm own r self → (d ≤ 3)%nat → table_at self r d v = Some t →
  wrote self self' t (idx d v) e → ¬ same_page_at d v w → leaf self' r w = leaf self r w.
Proof.
  intros Hr Ho Hd Ht Hw Hns. apply leaf_frame. intros d' t' Hd' Ht'.
  eapply wrote_ne; [done|apply idx_bound|]. intros [= -> Hi]. apply Hns.
  assert (d' = d) as -> by (by eapply (table_at_depth dm own r self)).
  intros j Hj. destruct (decide (j = d)) as [->|]; [done|].
  eapply (table_at_inj dm own r self Ho d); [done..|lia].
Qed.

Lemma table_at_above self r d d' v t :
  table_at self r d v = Some t → (d' ≤ d)%nat → ∃ t', table_at self r d' v = Some t'.
Proof.
  intros Ht Hd. induction Hd as [|d Hd IH] in t, Ht |- *; [eauto|].
  cbn in Ht. apply bind_Some in Ht as (t' & Ht' & _). by eapply IH.
Qed.

Lemma table_at_below self r d d' v :
  table_at self r d v = None → (d ≤ d')%nat → table_at self r d' v = None.
Proof. intros Ht Hd. induction Hd as [|d' Hd IH]; [done|]. cbn. by rewrite IH. Qed.

Lemma leaf_at_above self r d d' v t :
  table_at self r d v = Some t → (d' < d ≤ 3)%nat → leaf_at self r d' v = None.
Proof.
  intros Ht Hd. destruct (table_at_above _ _ _ (S d') _ _ Ht ltac:(lia)) as (t' & Ht').
  cbn in Ht'. apply bind_Some in Ht' as (t1 & Ht1 & He). apply bind_Some in He as (e & He & Hp).
  unfold leaf_at. rewrite Ht1; cbn. rewrite He; cbn. unfold points, maps in *.
  rewrite (bool_decide_eq_false_2 (d' = 3)%nat) by lia.
  destruct (present e); [|done]. destruct (page_sized e); [|by rewrite andb_false_r].
  destruct (bool_decide (d' = 0)%nat) eqn:Hz; [|done].
  apply bool_decide_eq_true in Hz as ->. done.
Qed.

(** The leaf of an address whose walk ends at depth [d]. *)
Lemma leaf_entry self r d v t e :
  (1 ≤ d ≤ 3)%nat → table_at self r d v = Some t → ent self t (idx d v) = Some e →
  (d = 3%nat ∨ points d e = false) →
  leaf self r v =
  if maps d e then Some (mkLeaf t (Table.get_addr e) (idx d v) (size_of d)) else None.
Proof.
  intros Hd Ht He Hend.
  assert (leaf_at self r d v =
    if maps d e then Some (mkLeaf t (Table.get_addr e) (idx d v) (size_of d)) else None) as Hl.
  { unfold leaf_at. rewrite Ht; cbn. by rewrite He. }
  assert (∀ d', (d < d' ≤ 3)%nat → leaf_at self r d' v = None) as Hbelow.
  { intros d' Hd'. destruct Hend as [->|Hp]; [lia|]. apply leaf_at_None.
    apply (table_at_below _ _ (S d)); [|lia]. cbn. rewrite Ht; cbn. rewrite He; cbn. by rewrite Hp. }
  assert (∀ d', (d' < d)%nat → leaf_at self r d' v = None) as Habove.
  { intros d' Hd'. apply (leaf_at_above _ _ d _ _ t); [done|lia]. }
  unfold leaf. assert (d = 1 ∨ d = 2 ∨ d = 3)%nat as [->|[->| ->]] by lia.
  - rewrite Hl, !Hbelow by lia. by destruct (maps 1 e).
  - rewrite (Habove 1%nat), Hl, Hbelow by lia. by destruct (maps 2 e).
  - by rewrite (Habove 1%nat), (Habove 2%nat), Hl by lia.
Qed.

Lemma table_at_same_page self r d v w :
  (∀ j, (j < d)%nat → idx j v = idx j w) → table_at self r d v = table_at self r d w.
Proof.
  intros H. induction d as [|d IH]; [done|]. cbn.
  rewrite IH by (intros; apply H; lia). by rewrite (H d) by lia.
Qed.

(** A table is still found after a write to one of its entries. *)
Lemma table_at_write dm own r self self' t d v w i e :
  owned dm own r self → (d ≤ 3)%nat → table_at self r d v = Some t →
  table_at self r d w = Some t → wrote self self' t i e → table_at self' r d w = Some t.
Proof.
  intros Ho Hd Hv Hw Hwr. rewrite (table_at_frame self self'); [done|done|].
  intros d' t' Hd' Ht'. eapply wrote_ne; [done|apply idx_bound|]. intros [= -> _].
  assert (d' = d) by (eapply (table_at_depth dm own r self); [done| |done..]; lia). lia.
Qed.

(** Overwriting the entry of [v] at depth [d]: what its page sees. *)
Lemma leaf_write_same dm own r self self' t d v w e :
  owned dm own r self → (1 ≤ d ≤ 3)%nat → table_at self r d v = Some t →
  wrote self self' t (idx d v) e → same_page_at d v w → (d = 3%nat ∨ points d e = false) →
  leaf self' r w =
  if maps d e then Some (mkLeaf t (Table.get_addr e) (idx d w) (size_of d)) else None.
Proof.
  intros Ho Hd Ht Hwr Hsame Hend.
  assert (table_at self r d w = Some t) as Htw.
  { rewrite <- Ht. symmetry. apply table_at_same_page. intros j Hj. apply Hsame. lia. }
  apply leaf_entry; [done| | |done].
  - by eapply (table_at_write dm own r self self' t d v w); [|lia|..].
  - rewrite <- (Hsame d) by lia. eapply wrote_eq; [done|]. apply idx_bound.
Qed.

(** ** New tables *)

Lemma new_table_spec self :
  region_ok self → next self < capacity self →
  let c := base self + next self * 0x1000 in
  let self' := with_next self (next self + 1) in
  new_table self = Ret (self', c) ∧ region_ok self' ∧ in_region self c ∧ ¬ allocated self c ∧
  allocated self' c ∧ ∀ i, 0 ≤ i < 512 → ent self c i = Some entry_default.
Proof.
  intros Hr Hn c self'.
  assert (in_region self c) as Hc by (exists (next self); destruct Hr; split; [lia|done]).
  assert (¬ allocated self c) as Hna by (intros (n & ? & ?); lia).
  pose proof (capacity_end _ _ Hr Hc) as Hend.
  assert (next self + 1 < 2 ^ 64) as Hlt.
  { destruct Hr. unfold capacity in *. pose proof (Z.mul_div_le (region_length self) 0x1000). lia. }
  split_and!; try done.
  - unfold new_table. destruct Hr. unfold wrapping_add. rewrite Z.mod_small by lia.
    rewrite checked_add_ok by (cbn; lia). done.
  - destruct Hr as [Hpsb Hbase He1 He2 Hnext Htab Hents Hfresh]. split; try done.
    + cbn. unfold capacity in *. cbn. lia.
    + intros t i Ht Hna' Hi. apply Hfresh; [done| |done]. intros (n & ? & ?). apply Hna'.
      exists n. cbn. split; [lia|done].
  - exists (next self). destruct Hr. cbn. split; [lia|done].
  - intros i Hi. by apply (region_fresh _ Hr).
Qed.

Lemma points_default d : points d entry_default = false.
Proof. done. Qed.
Lemma maps_default d : maps d entry_default = false.
Proof. done. Qed.

(** [self'] is [self] with a fresh table [c] hung under entry [i] of table [t]. *)
Record linked self self' (d : nat) (t i c : Z) (e e' : PagingStructEntry) : Prop := {
  linked_rest : self' = with_tables (with_next self (next self + 1)) (tables self');
  linked_ent t' i' : 0 ≤ i' → ent self' t' i' = if decide (t' = t ∧ i' = i) then Some e' else ent self t' i';
  linked_fresh i' : 0 ≤ i' < 512 → ent self c i' = Some entry_default;
  linked_new : c = base self + next self * 0x1000 ∧ 0 ≤ next self ∧ t ≠ c;
  linked_old : ent self t i = Some e ∧ points d e = false ∧ maps d e = false;
  linked_now : points d e' ∧ maps d e' = false ∧ child e' = c;
}.

Section link.
Context (self self' : Mapper E) (d : nat) (t i c : Z) (e e' : PagingStructEntry) (dm : gmap Z nat).
Hypothesis Hlink : linked self self' d t i c e e'.
Hypothesis Hdm : dm !! t = Some d.
Hypothesis Hi : 0 ≤ i < 512.
Hypothesis Hd : (d < 3)%nat.

Lemma linked_not_allocated : ¬ allocated self c.
Proof. destruct (linked_new _ _ _ _ _ _ _ _ Hlink) as [-> _]. intros (n & ? & ?). lia. Qed.

Lemma linked_fresh' i' : 0 ≤ i' < 512 → ent self' c i' = Some entry_default.
Proof.
  intros Hi'. rewrite (linked_ent _ _ _ _ _ _ _ _ Hlink) by lia. rewrite decide_False.
  - by apply (linked_fresh _ _ _ _ _ _ _ _ Hlink).
  - intros [-> _]. by destruct (linked_new _ _ _ _ _ _ _ _ Hlink) as (_ & _ & ?).
Qed.

(** Walks are unchanged, but for those that now end in the new table. *)
Lemma table_at_link own r n w :
  owned dm own r self → (n ≤ 3)%nat →
  table_at self' r n w = table_at self r n w ∨
  table_at self r n w = None ∧ table_at self' r n w = Some c.
Proof.
  intros Ho. induction n as [|n IH]; intros Hn; [by left|].
  destruct (IH ltac:(lia)) as [Heq|[Hold Hnew]]; cbn.
  - rewrite Heq. destruct (table_at self r n w) as [t'|] eqn:Ht'; [|by left]. cbn.
    rewrite (linked_ent _ _ _ _ _ _ _ _ Hlink) by apply idx_bound. case_decide as Hdec; [|by left].
    destruct Hdec as [-> Hidx]. right. rewrite Hidx.
    destruct (table_at_own dm own r self Ho n w t ltac:(lia) Ht') as (pl & Hpl & _).
    apply (owned_depth _ _ _ _ Ho) in Hpl. rewrite Hdm in Hpl. simplify_eq.
    destruct (linked_old _ _ _ _ _ _ _ _ Hlink) as (-> & Hp & _).
    destruct (linked_now _ _ _ _ _ _ _ _ Hlink) as (Hp' & _ & Hc). cbn. rewrite Hp.
    destruct (points n e'); [by rewrite Hc|done].
  - left. rewrite Hold, Hnew. cbn. by rewrite linked_fresh' by apply idx_bound.
Qed.

Lemma leaf_link own r w : owned dm own r self → leaf self' r w = leaf self r w.
Proof.
  intros Ho.
  assert (∀ n, (1 ≤ n ≤ 3)%nat → leaf_at self' r n w = leaf_at self r n w) as Hl.
  { intros n Hn. unfold leaf_at.
    destruct (table_at_link own r n w Ho ltac:(lia)) as [Heq|[Hold Hnew]].
    - rewrite Heq. destruct (table_at self r n w) as [t'|] eqn:Ht'; [|done]. cbn.
      rewrite (linked_ent _ _ _ _ _ _ _ _ Hlink) by apply idx_bound. case_decide as Hdec; [|done].
      destruct Hdec as [-> Hidx]. rewrite Hidx.
      destruct (table_at_own dm own r self Ho n w t ltac:(lia) Ht') as (pl & Hpl & _).
      apply (owned_depth _ _ _ _ Ho) in Hpl. rewrite Hdm in Hpl. simplify_eq.
      destruct (linked_old _ _ _ _ _ _ _ _ Hlink) as (-> & _ & Hm).
      destruct (linked_now _ _ _ _ _ _ _ _ Hlink) as (_ & Hm' & _). cbn. by rewrite Hm, Hm'.
    - rewrite Hold, Hnew. cbn. by rewrite linked_fresh' by apply idx_bound. }
  unfold leaf. by rewrite !Hl by lia.
Qed.

Lemma tree_ok_link r : tree_ok dm r self → tree_ok (<[c := S d]> dm) r self'.
Proof.
  intros [own Ho]. pose proof linked_not_allocated as Hna.
  assert (own !! c = None) as Hoc.
  { destruct (own !! c) eqn:Hx; [|done]. by apply (owned_alloc _ _ _ _ Ho) in Hx. }
  exists (if decide (is_Some (own !! t)) then <[c := (S d, Under t i)]> own else own).
  assert (∀ t' x, own !! t' = Some x →
    (if decide (is_Some (own !! t)) then <[c := (S d, Under t i)]> own else own) !! t' = Some x) as Hmono.
  { intros t' x Ht'. case_decide; [|done]. rewrite lookup_insert_ne; [done|]. by intros ->; simplify_eq. }
  assert (∀ t' x, (if decide (is_Some (own !! t)) then <[c := (S d, Under t i)]> own else own) !! t' = Some x →
    (t' = c ∧ x = (S d, Under t i)) ∨ (t' ≠ c ∧ own !! t' = Some x)) as Hinv.
  { intros t' x. destruct (decide (t' = c)) as [->|]; case_decide;
      rewrite ?lookup_insert_eq, ?lookup_insert_ne by done; naive_solver. }
  pose proof (linked_rest _ _ _ _ _ _ _ _ Hlink) as Hrest. split.
  - apply Hmono. by eapply owned_root.
  - intros t' d' pl [[-> [= -> ->]]|[Hne Ht']]%Hinv; [by rewrite lookup_insert_eq|].
    rewrite lookup_insert_ne by done. by eapply owned_depth.
  - intros t' x [[-> _]|[Hne Ht']]%Hinv; rewrite Hrest.
    + destruct (linked_new _ _ _ _ _ _ _ _ Hlink) as (-> & ? & _). exists (next self).
      cbn. split; [lia|done].
    + destruct (owned_alloc _ _ _ _ Ho _ _ Ht') as (n & ? & ->). exists n. cbn. split; [lia|done].
  - intros t' d' pl i' e1 Ht' Hd' Hi' He1 Hp.
    rewrite (linked_ent _ _ _ _ _ _ _ _ Hlink) in He1 by lia.
    destruct (Hinv _ _ Ht') as [[-> _]|[Hne Hown]].
    { rewrite decide_False in He1 by (intros [-> _]; by destruct (linked_new _ _ _ _ _ _ _ _ Hlink) as (_ & _ & ?)).
      rewrite (linked_fresh _ _ _ _ _ _ _ _ Hlink) in He1 by done. simplify_eq.
      by rewrite points_default in Hp. }
    destruct (decide (t' = t ∧ i' = i)) as [Hdec|].
    + destruct Hdec as [-> ->]. simplify_eq.
      destruct (linked_now _ _ _ _ _ _ _ _ Hlink) as (_ & _ & ->).
      rewrite decide_True by (by rewrite Hown). apply (owned_depth _ _ _ _ Ho) in Hown.
      rewrite Hdm in Hown. simplify_eq. by rewrite lookup_insert_eq.
    + apply Hmono. by eapply owned_child.
  - intros t' x i' e1 Ht' Hi'. rewrite (linked_ent _ _ _ _ _ _ _ _ Hlink) by lia. destruct (decide (t' = t ∧ i' = i)).
    + intros [= <-] Hpr. destruct (linked_now _ _ _ _ _ _ _ _ Hlink) as (Hp & _).
      unfold points in Hp. by rewrite Hpr in Hp.
    + destruct (Hinv _ _ Ht') as [[-> _]|[Hne Hown]]; [|by eapply owned_clean].
      rewrite (linked_fresh _ _ _ _ _ _ _ _ Hlink) by done. by intros [= <-].
Qed.
End link.

(** [self'] has grown tables [self] did not have, without changing what is mapped. *)
Record extends (dm : gmap Z nat) self (dm' : gmap Z nat) self' : Prop := {
  ext_rest : self' = with_tables (with_next self (next self')) (tables self');
  ext_next : next self ≤ next self';
  ext_tree r : tree_ok dm r self → tree_ok dm' r self';
  ext_leaf r w : tree_ok dm r self → leaf self' r w = leaf self r w;
  ext_table r n w t : tree_ok dm r self → (n ≤ 3)%nat →
    table_at self r n w = Some t → table_at self' r n w = Some t;
  ext_new r n w t : tree_ok dm r self → (n ≤ 3)%nat →
    table_at self' r n w = Some t → table_at self r n w = Some t ∨ ¬ allocated self t;
}.

Lemma extends_refl dm self : extends dm self dm self.
Proof. split; try done; [by destruct self|eauto]. Qed.

Lemma allocated_extends dm self dm' self' t :
  extends dm self dm' self' → allocated self t → allocated self' t.
Proof.
  intros [Hr Hn _ _ _ _] (n & ? & ->). exists n. split; [lia|]. by rewrite Hr.
Qed.

Lemma extends_trans dm1 dm2 dm3 s1 s2 s3 :
  extends dm1 s1 dm2 s2 → extends dm2 s2 dm3 s3 → extends dm1 s1 dm3 s3.
Proof.
  intros H12 H23. split.
  - destruct H12 as [H12 _ _ _ _ _], H23 as [H23 _ _ _ _ _]. rewrite H23 at 1. by rewrite H12.
  - transitivity (next s2); by eapply ext_next.
  - intros r Hr. eapply (ext_tree _ _ _ _ H23), ext_tree; done.
  - intros r w Hr. rewrite (ext_leaf _ _ _ _ H23) by (by eapply ext_tree). by eapply ext_leaf.
  - intros r n w t Hr Hn Ht. eapply (ext_table _ _ _ _ H23); [by eapply ext_tree|done|].
    by eapply ext_table.
  - intros r n w t Hr Hn Ht.
    destruct (ext_new _ _ _ _ H23 r n w t (ext_tree _ _ _ _ H12 r Hr) Hn Ht) as [Ht'|Hna].
    + by eapply ext_new.
    + right. intros Hal. apply Hna. by eapply allocated_extends.
Qed.

(** No large page maps [v]. *)
Definition no_huge self (r v : Z) : Prop :=
  ∀ l, leaf self r v = Some l → leaf_page_size l = Normal.

Lemma no_huge_points dm r self d v t e :
  tree_ok dm r self → no_huge self r v → (d < 3)%nat →
  table_at self r d v = Some t → ent self t (idx d v) = Some e →
  points d e = present e ∧ maps d e = false ∧ (d = 0%nat ∨ page_sized e = false).
Proof.
  intros [own Ho] Hno Hd Ht He. unfold points, maps.
  rewrite (bool_decide_eq_false_2 (d = 3)%nat) by lia.
  destruct (decide (d = 0)%nat) as [->|Hd0].
  { rewrite (bool_decide_eq_true_2 (0 = 0)%nat), (bool_decide_eq_false_2 (0 < 0)%nat) by lia.
    split_and!; [btauto|btauto|by left]. }
  rewrite (bool_decide_eq_false_2 (d = 0)%nat), (bool_decide_eq_true_2 (0 < d)%nat) by lia.
  destruct (page_sized e) eqn:Hps; [|split_and!; [btauto|btauto|by right]]. exfalso.
  destruct (present e) eqn:Hpr.
  - assert (points d e = false) as Hp by (unfold points; rewrite Hps; cbn;
      rewrite bool_decide_eq_false_2 by done; by rewrite andb_false_r).
    assert (maps d e = true) as Hm by (unfold maps; rewrite Hps, Hpr; cbn;
      rewrite (bool_decide_eq_true_2 (0 < d)%nat) by lia; by rewrite orb_true_r).
    pose proof (leaf_entry self r d v t e ltac:(lia) Ht He (or_intror Hp)) as Hl. rewrite Hm in Hl.
    apply Hno in Hl. cbn in Hl. by assert (d = 1 ∨ d = 2)%nat as [->| ->] by lia.
  - destruct (table_at_own dm own r self Ho d v t ltac:(lia) Ht) as (pl & Hpl & _).
    assert (page_sized e = false); [|congruence].
    eapply (owned_clean _ _ _ _ Ho); [done|apply idx_bound|done|done].
Qed.

Lemma extends_link self self' d t i c e e' dm :
  linked self self' d t i c e e' → dm !! t = Some d → 0 ≤ i < 512 → (d < 3)%nat →
  extends dm self (<[c := S d]> dm) self'.
Proof.
  intros Hl Hdm Hi Hd. pose proof (linked_rest _ _ _ _ _ _ _ _ Hl) as Hrest. split.
  - rewrite Hrest at 1. by rewrite Hrest.
  - rewrite Hrest. cbn. lia.
  - intros r. by apply (tree_ok_link _ _ _ _ _ _ _ _ _ Hl).
  - intros r w [own Ho]. by eapply leaf_link.
  - intros r n w t' [own Ho] Hn Ht'.
    destruct (table_at_link _ _ _ _ _ _ _ _ _ Hl Hdm Hi Hd own r n w Ho Hn) as [->|[? _]]; [done|congruence].
  - intros r n w t' [own Ho] Hn Ht'.
    destruct (table_at_link _ _ _ _ _ _ _ _ _ Hl Hdm Hi Hd own r n w Ho Hn) as [<-|[_ Heq]]; [by left|].
    right. rewrite Heq in Ht'. simplify_eq. by eapply linked_not_allocated.
Qed.

(** The branch of [walk_or_create_table] that creates a table. *)
Lemma create_table_spec dm r self d v t e :
  region_ok self → tree_ok dm r self → (d < 3)%nat → table_at self r d v = Some t →
  next self < capacity self → ent self t (idx d v) = Some e → present e = false →
  ∃ self' c e', 
    ('(self, next_table) ← new_table self;
     pa ← table_phys_addr E next_table;
     self ← update_entry self t (idx d v)
              (λ e, set_flags (set_addr e pa) (Z.lor PRESENT_FLAG RW_FLAG) true);
     Ret (self, (next_table, Z.lor PRESENT_FLAG RW_FLAG))) =
    Ret (self', (c, Z.lor PRESENT_FLAG RW_FLAG)) ∧
    region_ok self' ∧ linked self self' d t (idx d v) c e e'.
Proof.
  intros Hr [own Ho] Hd Ht Hcap He Hpr.
  destruct (table_at_own dm own r self Ho d v t ltac:(lia) Ht) as (pl & Hpl & _).
  destruct (new_table_spec self Hr Hcap) as (Hnew & Hr1 & Hc & Hna & Hal & Hdef).
  set (c := base self + next self * 0x1000) in *. set (self1 := with_next self (next self + 1)) in *.
  destruct (table_phys_addr_ok self c Hr Hc) as [Hpa Hpage].
  destruct (update_entry_spec self1 t (idx d v)
      (λ e, set_flags (set_addr e (c - PSB)) (Z.lor PRESENT_FLAG RW_FLAG) true))
    as (e1 & self2 & He1 & Hok & Hup & Hr2 & Hw).
  { done. }
  { destruct (owned_alloc _ _ _ _ Ho _ _ Hpl) as (n & ? & ->). exists n. cbn. split; [lia|done]. }
  { apply idx_bound. }
  { intros e0 He0. by apply mapped_entry. }
  assert (e1 = e) as -> by (change (ent self1 t (idx d v)) with (ent self t (idx d v)) in He1; congruence).
  destruct (mapped_entry e (c - PSB) Hok Hpage) as (Hok' & Hpr' & _ & Hps' & Haddr').
  exists self2, c, (set_flags (set_addr e (c - PSB)) (Z.lor PRESENT_FLAG RW_FLAG) true).
  split_and!.
  - rewrite Hnew. cbn [mbind outcome_bind]. rewrite Hpa. cbn [mbind outcome_bind]. by rewrite Hup.
  - done.
  - assert (page_sized e = false) as Hps by (eapply (owned_clean _ _ _ _ Ho); [done|apply idx_bound|done..]).
    cbv beta in Hw.
    generalize dependent (set_flags (set_addr e (c - PSB)) (Z.lor PRESENT_FLAG RW_FLAG) true).
    intros e' [[ts ->] Hent] Hok' Hpr' Hps' Haddr'. split; cbn; try done.
    + destruct Hr. split_and!; [done|lia|]. intros ->. apply Hna. by eapply owned_alloc.
    + unfold points, maps. by rewrite Hpr.
    + unfold points, maps, child. rewrite Hpr', Hps', Hps, Haddr', orb_true_r.
      rewrite (bool_decide_eq_false_2 (d = 3)%nat), andb_false_r by lia. split_and!; done || lia.
Qed.

Lemma walk_or_create_table_spec dm r self d v t :
  region_ok self → tree_ok dm r self → (d < 3)%nat → table_at self r d v = Some t →
  next self < capacity self → no_huge self r v →
  ∃ self' dm' c flags,
    walk_or_create_table (level d) self t v = Ret (self', (c, flags)) ∧
    region_ok self' ∧ extends dm self dm' self' ∧ next self' ≤ next self + 1 ∧
    table_at self' r (S d) v = Some c.
Proof.
  intros Hr Htree Hd Ht Hcap Hno. pose proof Htree as [own Ho].
  destruct (walk_step dm own r self Hr Ho d v t ltac:(lia) Ht)
    as (e & He & Hok & Hwalk & Hnext & _ & Hchild).
  destruct (no_huge_points dm r self d v t e Htree Hno Hd Ht He) as (Hp & Hm & Hps).
  unfold walk_or_create_table. rewrite Hwalk. cbn [mbind outcome_bind].
  rewrite Hp in Hnext, Hchild. destruct (present e) eqn:Hpr.
  - rewrite Hchild by (done || lia). cbn [mbind outcome_bind].
    exists self, dm, (child e), (get_flags e ALL_FLAGS). split_and!; [done|done|apply extends_refl|lia|done].
  - destruct (create_table_spec dm r self d v t e) as (self' & c & e' & Heq & Hr' & Hl); [done..|].
    fold (idx d v). rewrite Heq.
    destruct (table_at_own dm own r self Ho d v t ltac:(lia) Ht) as (pl & Hpl & _).
    apply (owned_depth _ _ _ _ Ho) in Hpl.
    exists self', (<[c := S d]> dm), c, (Z.lor PRESENT_FLAG RW_FLAG).
    pose proof (extends_link _ _ _ _ _ _ _ _ dm Hl Hpl (idx_bound d v) Hd) as Hext.
    split_and!; [done|done|done| |].
    + rewrite (linked_rest _ _ _ _ _ _ _ _ Hl). done.
    + cbn. rewrite (ext_table _ _ _ _ Hext r d v t Htree ltac:(lia) Ht). cbn.
      rewrite (linked_ent _ _ _ _ _ _ _ _ Hl) by apply idx_bound.
      rewrite decide_True by done. cbn.
      destruct (linked_now _ _ _ _ _ _ _ _ Hl) as (Hp' & _ & Hc).
      destruct (points d e'); [by rewrite Hc|done].
Qed.

(** ** Changes outside the tables *)

Lemma region_ok_ext self self' :
  base self = base self' → region_length self = region_length self' → next self = next self' →
  tables self = tables self' → region_ok self → region_ok self'.
Proof. destruct self, self'; cbn. intros -> -> -> -> [????????]. by split. Qed.

Lemma same_walk_ext self self' :
  base self = base self' → next self = next self' → tables self = tables self' → same_walk self self'.
Proof.
  intros Hb Hn Ht. split_and!; [done..|]. intros t i Hi. unfold ent. rewrite Ht. by apply reflexivity.
Qed.

Lemma tree_ok_same_walk dm r self self' : same_walk self self' → tree_ok dm r self → tree_ok dm r self'.
Proof. intros Hs [own Ho]. exists own. by eapply owned_same_walk. Qed.

Lemma walk_to_leaf_tree dm r self v :
  region_ok self → tree_ok dm r self → walk_to_leaf self r v = Ret (leaf self r v).
Proof. intros Hr [own Ho]. by apply (walk_to_leaf_spec dm own). Qed.

(** ** Pages *)

Definition page_of : Z → Z := block_of Normal.

(** The indices down to depth [d] determine the block of that depth. *)
Lemma same_page_at_block d v w :
  (1 ≤ d ≤ 3)%nat → same_page_at d v w ↔ block_of (size_of d) v = block_of (size_of d) w.
Proof.
  intros Hd. rewrite block_of_bits. unfold same_page_at, idx.
  assert (∀ i, Z.log2 (page_size_into (size_of d)) ≤ i < 48 →
    ∃ j, (j ≤ d)%nat ∧ SHIFT (level j) ≤ i < SHIFT (level j) + 9) as Hcover.
  { intros i Hi. destruct (decide (39 ≤ i)); [exists 0%nat; cbn; lia|].
    destruct (decide (30 ≤ i)); [exists 1%nat; cbn; lia|].
    destruct (decide (21 ≤ i)); [exists 2%nat|exists 3%nat]; cbn;
      assert (d = 1 ∨ d = 2 ∨ d = 3)%nat as [->|[->| ->]] by lia; cbn in Hi; lia. }
  assert (∀ j, (j ≤ d)%nat → Z.log2 (page_size_into (size_of d)) ≤ SHIFT (level j) ∧ SHIFT (level j) ≤ 39)
    as Hin.
  { intros j Hj. assert (d = 1 ∨ d = 2 ∨ d = 3)%nat as [->|[->| ->]] by lia;
      destruct j as [|[|[|[|]]]]; cbn; lia. }
  split.
  - intros H i Hi. destruct (Hcover i Hi) as (j & Hj & Hij).
    by apply (proj1 (entry_idx_bits _ _ _) (H j Hj)).
  - intros H j Hj. apply entry_idx_bits. intros i Hi. apply H. specialize (Hin j Hj). lia.
Qed.

Lemma same_page_at_3 v w : same_page_at 3 v w ↔ page_of v = page_of w.
Proof. apply (same_page_at_block 3). lia. Qed.

Lemma offset_mask n v : 0 ≤ n → Z.land v (Z.shiftl 1 n - 1) = v mod 2 ^ n.
Proof.
  intros Hn. rewrite <- Z.land_ones by done. done.
Qed.

Lemma lor_offset n a v :
  0 ≤ n → (2 ^ n | a) → Z.lor a (Z.land v (Z.shiftl 1 n - 1)) = a + v mod 2 ^ n.
Proof. intros Hn [q ->]. rewrite offset_mask by done. by apply lor_low. Qed.

(** Writing a present entry into a page table unmaps nothing, from any root. *)
Lemma leaf_write_mapped dm r self self' t i e w :
  tree_ok dm r self → dm !! t = Some 3%nat → wrote self self' t i e → maps 3 e = true →
  is_Some (leaf self r w) → is_Some (leaf self' r w).
Proof.
  intros [own Ho] Hdm Hw Hm Hsome.
  destruct (decide (table_at self r 3 w = Some t ∧ idx 3 w = i)) as [[Ht Hi]|Hne].
  - rewrite (leaf_entry self' r 3 w t e); [by rewrite Hm|lia| | |by left].
    + by eapply (table_at_write dm own r self self' t 3 w w).
    + rewrite Hi. eapply wrote_eq; [done|]. rewrite <- Hi. apply idx_bound.
  - rewrite (leaf_frame self); [done|]. intros d t' Hd Ht'.
    eapply wrote_ne; [done|apply idx_bound|]. intros [= -> Hi]. apply Hne.
    destruct (table_at_own dm own r self Ho d w t Hd Ht') as (pl & Hpl & _).
    apply (owned_depth _ _ _ _ Ho) in Hpl. rewrite Hdm in Hpl. by simplify_eq.
Qed.

(** Writing into a page table moves no table. *)
Lemma table_at_write_page dm r self self' t i e d w :
  tree_ok dm r self → dm !! t = Some 3%nat → wrote self self' t i e → (d ≤ 3)%nat →
  table_at self' r d w = table_at self r d w.
Proof.
  intros [own Ho] Hdm Hw Hd. apply table_at_frame; [done|]. intros d' t' Hd' Ht'.
  eapply wrote_ne; [done|apply idx_bound|]. intros [= -> _].
  destruct (table_at_own dm own r self Ho d' w t ltac:(lia) Ht') as (pl & Hpl & _).
  apply (owned_depth _ _ _ _ Ho) in Hpl. rewrite Hdm in Hpl. simplify_eq. lia.
Qed.
End tree.
