(* ===== verification/MappingSpec.v ===== *)
(** * Correctness of the page mapper

    What [map], [unmap] and [walk_or_create_table] do to the
    translation of every virtual address, to the bookkeeping of mapped pages and to the
    mapper's invariant. *)

From S2P Require Import Prelude Physical Table Mapping MappingTree.

Section spec.
Context {E : Type} `{!Environment E}.
Implicit Types self : Mapper E.

#[local] Abbreviation PSB := (PAGING_STRUCTURE_BASE E).

(** A mapper whose current root is [r]. *)
Record current dm r self : Prop := {
  cur_region : region_ok self;
  cur_root : paging_structure_base (environment self) = Ret r;
  cur_tree : tree_ok dm r self;
}.

(** The address a leaf gives a virtual address. *)
Definition leaf_translation (v : Z) (l : LeafEntry) : Z :=
  match leaf_page_size l with
  | Gigantic => Z.lor (leaf_phys_addr l) (Z.land v (Z.shiftl 1 (SHIFT PDPT) - 1))
  | Huge => Z.lor (leaf_phys_addr l) (Z.land v (Z.shiftl 1 (SHIFT PD) - 1))
  | Normal => Z.lor (leaf_phys_addr l) (Z.land v (Z.shiftl 1 (SHIFT PT) - 1))
  end.

#[local] Arguments leaf_translation : simpl never.

Lemma translate_leaf dm r self v :
  current dm r self → translate self v = Ret (leaf_translation v <$> leaf self r v).
Proof.
  intros [Hr Hb Ht]. unfold translate. rewrite Hb. cbn [mbind outcome_bind].
  rewrite (walk_to_leaf_tree dm) by done. cbn [mbind outcome_bind]. f_equal.
  destruct (leaf self r v) as [[? ? ? []]|]; done.
Qed.

Lemma leaf_translation_normal v l :
  leaf_page_size l = Normal → (0x1000 | leaf_phys_addr l) →
  leaf_translation v l = leaf_phys_addr l + v mod 0x1000.
Proof. intros Hs Ha. unfold leaf_translation. rewrite Hs. by apply (lor_offset 12). Qed.

Lemma aligned_mask n v : 0 ≤ n → (2 ^ n | v) ↔ Z.land v (Z.shiftl 1 n - 1) = 0.
Proof.
  intros Hn. rewrite offset_mask by done. pose proof (pow2_pos n Hn).
  rewrite <- Z.mod_divide by lia. done.
Qed.

(** ** Mapping a page *)

(** The three tables above the page table, created where they are missing. *)
Lemma map_tables_spec dm r self v :
  current dm r self → next self + 3 ≤ capacity self → no_huge self r v →
  ∃ self' dm' pdpt f1 self1 pd f2 self2 pt f3,
    walk_or_create_table PML4 self r v = Ret (self1, (pdpt, f1)) ∧
    walk_or_create_table PDPT self1 pdpt v = Ret (self2, (pd, f2)) ∧
    walk_or_create_table PD self2 pd v = Ret (self', (pt, f3)) ∧
    region_ok self' ∧ extends dm self dm' self' ∧ next self' ≤ next self + 3 ∧
    table_at self' r 3 v = Some pt.
Proof.
  intros [Hr Hb Ht] Hcap Hno.
  assert (∀ dm1 self1 n, extends dm self dm1 self1 → next self1 ≤ next self + n → n ≤ 2 →
    tree_ok dm1 r self1 ∧ next self1 < capacity self1 ∧ no_huge self1 r v) as Hnext.
  { intros dm1 self1 n Hext Hn1 Hn. split_and!.
    - by eapply ext_tree.
    - rewrite (ext_rest _ _ _ _ Hext). unfold capacity in *. cbn. lia.
    - intros l. rewrite (ext_leaf _ _ _ _ Hext) by done. apply Hno. }
  destruct (walk_or_create_table_spec dm r self 0 v r) as (s1 & dm1 & pdpt & f1 & E1 & R1 & X1 & N1 & T1);
    [done|done|lia|done|lia|done|].
  destruct (Hnext dm1 s1 1 X1 N1 ltac:(lia)) as (Ht1 & Hc1 & Hno1).
  destruct (walk_or_create_table_spec dm1 r s1 1 v pdpt) as (s2 & dm2 & pd & f2 & E2 & R2 & X2 & N2 & T2);
    [done|done|lia|done..|].
  pose proof (extends_trans _ _ _ _ _ _ X1 X2) as X12.
  destruct (Hnext dm2 s2 2 X12 ltac:(lia) ltac:(lia)) as (Ht2 & Hc2 & Hno2).
  destruct (walk_or_create_table_spec dm2 r s2 2 v pd) as (s3 & dm3 & pt & f3 & E3 & R3 & X3 & N3 & T3);
    [done|done|lia|done..|].
  exists s3, dm3, pdpt, f1, s1, pd, f2, s2, pt, f3.
  split_and!; [done..| |lia|done]. by eapply extends_trans.
Qed.

(** The page-table write of [map]: everything before the bookkeeping. *)
Record map_written dm self dm' self' (r pt phys virt : Z) : Prop := {
  mw_region : region_ok self';
  mw_rest : self' = with_tables (with_next self (next self')) (tables self');
  mw_next : next self ≤ next self' ≤ next self + 3;
  mw_tree r2 : tree_ok dm r2 self → tree_ok dm' r2 self';
  mw_same w : page_of virt = page_of w → leaf self' r w = Some (mkLeaf pt phys (idx 3 w) Normal);
  mw_other w : page_of virt ≠ page_of w → leaf self' r w = leaf self r w;
  mw_mapped r2 w : tree_ok dm r2 self → is_Some (leaf self r2 w) → is_Some (leaf self' r2 w);
  mw_tables r2 d w t : tree_ok dm r2 self → (d ≤ 3)%nat → allocated self t →
    table_at self' r2 d w = Some t → table_at self r2 d w = Some t;
  mw_entry : ∃ e, ent self' pt (idx 3 virt) = Some e ∧ Table.get_addr e = phys ∧ writable e = true;
}.

Lemma map_core dm r self phys virt :
  current dm r self → next self + 3 ≤ capacity self → no_huge self r virt →
  page_addr phys → (0x1000 | virt) →
  ∃ dm' self' pt,
    map self phys virt =
      (self ← (if decide (Z.shiftr virt 51 = 0) then map_account self' r phys phys virt else Ret self');
       Ret (with_environment self (flush_tlb (environment self)), Ok tt)) ∧
    map_written dm self dm' self' r pt phys virt.
Proof.
  intros Hcur Hcap Hno Hphys Hvirt.
  destruct (map_tables_spec dm r self virt Hcur Hcap Hno)
    as (s3 & dm' & pdpt & f1 & s1 & pd & f2 & s2 & pt & f3 & E1 & E2 & E3 & Hr3 & Hext & Hn3 & Ht3).
  destruct Hcur as [Hr Hb Ht]. pose proof (ext_tree _ _ _ _ Hext r Ht) as [own Ho].
  destruct (table_at_own dm' own r s3 Ho 3 virt pt ltac:(lia) Ht3) as (pl & Hpl & _).
  destruct (update_entry_spec s3 pt (idx 3 virt) (λ pte,
    set_flags (set_addr pte (Z.land phys MASK_51_12)) (Z.lor PRESENT_FLAG RW_FLAG) true))
    as (e & s4 & He & Hok & Hup & Hr4 & Hw).
  { done. } { by eapply owned_alloc. } { apply idx_bound. }
  { intros e0 He0. rewrite land_mask_page by done. by apply mapped_entry. }
  cbv beta in Hw. rewrite land_mask_page in Hw by done.
  destruct (mapped_entry e phys Hok Hphys) as (Hok' & Hpr' & Hwr' & _ & Haddr').
  revert Hw Hok' Hpr' Hwr' Haddr'.
  generalize (set_flags (set_addr e phys) (Z.lor PRESENT_FLAG RW_FLAG) true).
  intros e' Hw Hok' Hpr' Hwr' Haddr'.
  pose proof (wrote_eq _ _ _ _ _ Hw (proj1 (idx_bound 3 virt))) as He'.
  assert (maps 3 e' = true) as Hm by (unfold maps; by rewrite Hpr').
  exists dm', s4, pt. split.
  - unfold map. unfold map_MASK_11_0.
    rewrite !decide_False by (intros Hx; apply Hx; apply (aligned_mask 12); [done|apply Hphys || done]).
    rewrite Hb. cbn [mbind outcome_bind]. rewrite E1. cbn [mbind outcome_bind].
    rewrite E2. cbn [mbind outcome_bind]. rewrite E3. cbn [mbind outcome_bind].
    change (Z.shiftr (Z.land virt (MASK PT)) (SHIFT PT)) with (idx 3 virt).
    rewrite Hup. cbn [mbind outcome_bind]. rewrite (read_entry_ent _ _ _ _ He'). cbn [mbind outcome_bind].
    by rewrite Haddr'.
  - pose proof Hw as [[ts Hts] _]. split.
    + done.
    + rewrite Hts. rewrite (ext_rest _ _ _ _ Hext). done.
    + rewrite Hts. pose proof (ext_next _ _ _ _ Hext). cbn. lia.
    + intros r2 Hr2. destruct (ext_tree _ _ _ _ Hext r2 Hr2) as [own2 Ho2]. exists own2.
      eapply owned_write; [done|done| |by rewrite Hpr'].
      intros d pl2 Hpl2 Hd. apply (owned_depth _ _ _ _ Ho2) in Hpl2.
      apply (owned_depth _ _ _ _ Ho) in Hpl. rewrite Hpl in Hpl2. simplify_eq. lia.
    + intros w Hpg. rewrite (leaf_write_same dm' own r s3 s4 pt 3 virt w e'), Hm, Haddr';
        [done|done|lia|done|done|by apply same_page_at_3|by left].
    + intros w Hpg. rewrite (leaf_write_other dm' own r s3 s4 pt 3 virt w e');
        [by eapply ext_leaf|done|done|lia|done|done|by rewrite same_page_at_3].
    + intros r2 w Hr2 Hsome. rewrite <- (ext_leaf _ _ _ _ Hext) in Hsome by done.
      eapply leaf_write_mapped; [by eapply ext_tree| |done..]. by eapply owned_depth.
    + intros r2 d w t Hr2 Hd Hal. rewrite (table_at_write_page dm' r2 s3 s4 pt (idx 3 virt) e');
        [|by eapply ext_tree|by eapply owned_depth|done|done].
      intros Htab. by destruct (ext_new _ _ _ _ Hext r2 d w t Hr2 Hd Htab).
    + by exists e'.
Qed.

Lemma current_flush dm r self :
  current dm r self → current dm r (with_environment self (flush_tlb (environment self))).
Proof.
  intros [Hr Hb Ht]. split.
  - by apply (region_ok_ext self).
  - cbn. by rewrite flush_tlb_base.
  - eapply tree_ok_same_walk; [|done]. by apply same_walk_ext.
Qed.

Lemma current_same_walk dm r self self' :
  region_ok self' → environment self' = environment self → same_walk self self' →
  current dm r self → current dm r self'.
Proof.
  intros Hr' He Hs [Hr Hb Ht]. split; [done|by rewrite He|]. by eapply tree_ok_same_walk.
Qed.

Lemma map_written_current dm r self dm' self' pt phys virt :
  current dm r self → map_written dm self dm' self' r pt phys virt → current dm' r self'.
Proof.
  intros [Hr Hb Ht] Hmw. split.
  - by eapply mw_region.
  - by rewrite (mw_rest _ _ _ _ _ _ _ _ Hmw).
  - by eapply mw_tree.
Qed.

(** What [map] does to translations, whatever its bookkeeping did to write bits. *)
Lemma map_written_translate dm r self dm' self' self'' pt phys virt w :
  current dm r self → map_written dm self dm' self' r pt phys virt → current dm' r self'' →
  same_walk self' self'' → (0x1000 | phys) →
  translate self'' w = if decide (page_of w = page_of virt) then Ret (Some (phys + w mod 0x1000))
                       else translate self w.
Proof.
  intros Hcur Hmw Hcur'' Hs Hphys. rewrite (translate_leaf dm' r) by done. rewrite <- Hs.
  case_decide as Hpg.
  - rewrite (mw_same _ _ _ _ _ _ _ _ Hmw) by done. cbn. by rewrite leaf_translation_normal.
  - rewrite (mw_other _ _ _ _ _ _ _ _ Hmw) by congruence. by rewrite (translate_leaf dm r self).
Qed.

Lemma current_root_phys dm r self : current dm r self → table_phys_addr E r = Ret (r - PSB).
Proof.
  intros [Hr Hb Ht]. apply (table_phys_addr_ok self); [done|].
  apply allocated_in_region; [done|]. by eapply tree_ok_allocated.
Qed.

(** Is the address in the half whose pages are accounted for in [mapped_pages]? *)
Definition user_half (virt : Z) : Prop := Z.shiftr virt 51 = 0.
#[global] Instance user_half_dec virt : Decision (user_half virt).
Proof. unfold user_half. apply _. Defined.

Lemma map_account_fresh dm r self phys virt :
  current dm r self → mapped_pages self !! phys = None →
  map_account self r phys phys virt =
  Ret (with_mapped_pages self
         (<[phys := mkMappedPage phys Normal 1 {[(r - PSB, virt)]}]> (mapped_pages self))).
Proof.
  intros Hcur Hmp. unfold map_account. rewrite (current_root_phys dm r self) by done.
  cbn [mbind outcome_bind]. by rewrite Hmp.
Qed.

Lemma current_mapped_pages dm r self mps :
  current dm r self → current dm r (with_mapped_pages self mps).
Proof.
  intros Hcur. apply (current_same_walk dm r self); [|done|by apply same_walk_ext|done].
  apply (region_ok_ext self); try done. apply Hcur.
Qed.

(** The bookkeeping after a fresh page has been mapped. *)
Definition fresh_mapped_pages (mps : gmap Z MappedPage) (r phys virt : Z) : gmap Z MappedPage :=
  if decide (user_half virt)
  then <[phys := mkMappedPage phys Normal 1 {[(r - PSB, virt)]}]> mps
  else mps.

Lemma map_fresh dm r self phys virt :
  current dm r self → next self + 3 ≤ capacity self → no_huge self r virt →
  page_addr phys → (0x1000 | virt) →
  (user_half virt → mapped_pages self !! phys = None) →
  ∃ s dm' pt,
    map self phys virt =
      Ret (with_environment
             (with_mapped_pages s (fresh_mapped_pages (mapped_pages self) r phys virt))
             (flush_tlb (environment self)), Ok tt) ∧
    map_written dm self dm' s r pt phys virt.
Proof.
  intros Hcur Hcap Hno Hphys Hvirt Hfree.
  destruct (map_core dm r self phys virt) as (dm' & s & pt & Heq & Hmw); [done..|].
  pose proof (map_written_current _ _ _ _ _ _ _ _ Hcur Hmw) as Hcur'.
  pose proof (mw_rest _ _ _ _ _ _ _ _ Hmw) as Hrest.
  assert (mapped_pages s = mapped_pages self) as Hmps by (by rewrite Hrest).
  assert (environment s = environment self) as Henv by (by rewrite Hrest).
  exists s, dm', pt. split; [|done]. rewrite Heq. unfold user_half, fresh_mapped_pages in *.
  destruct (decide (Z.shiftr virt 51 = 0)) as [Hu|Hu].
  - rewrite (map_account_fresh dm') by (done || (rewrite Hmps; auto)).
    rewrite decide_True by done. cbn [mbind outcome_bind]. by rewrite Hmps, <- Henv.
  - rewrite decide_False by done. rewrite <- Hmps, <- Henv. by destruct s.
Qed.

Lemma map_fresh_translates dm r self phys virt :
  current dm r self → next self + 3 ≤ capacity self → no_huge self r virt →
  page_addr phys → (0x1000 | virt) →
  (user_half virt → mapped_pages self !! phys = None) →
  ∃ self' dm',
    map self phys virt = Ret (self', Ok tt) ∧
    current dm' r self' ∧
    (∀ r2, tree_ok dm r2 self → tree_ok dm' r2 self') ∧
    (∀ w, translate self' w =
            if decide (page_of w = page_of virt) then Ret (Some (phys + w mod 0x1000))
            else translate self w) ∧
    mapped_pages self' =
      (if decide (user_half virt)
       then <[phys := mkMappedPage phys Normal 1 {[(r - PSB, virt)]}]> (mapped_pages self)
       else mapped_pages self) ∧
    page_allocator self' = page_allocator self.
Proof.
  intros Hcur Hcap Hno Hphys Hvirt Hfree.
  destruct (map_fresh dm r self phys virt) as (s & dm' & pt & Heq & Hmw); [done..|].
  pose proof (map_written_current _ _ _ _ _ _ _ _ Hcur Hmw) as Hcur'.
  pose proof (mw_rest _ _ _ _ _ _ _ _ Hmw) as Hrest.
  assert (environment s = environment self) as Henv by (by rewrite Hrest).
  eexists _, dm'. split; [exact Heq|]. rewrite <- Henv.
  set (s' := with_environment _ _).
  assert (same_walk s s') as Hs by (by apply same_walk_ext).
  assert (current dm' r s') as Hcurs 
    by exact (current_flush _ _ _ (current_mapped_pages _ _ _ _ Hcur')).
  split_and!; [done| | |done|by unfold s'; rewrite Hrest].
  - intros r2 Hr2. apply (tree_ok_same_walk _ _ s); [done|]. by eapply mw_tree.
  - intros w. eapply map_written_translate; [done..|apply Hphys].
Qed.

(** C1. Mapping a page that is not mapped yet (or any page outside the user half): [map]
    returns [Ok], the page translates to [phys] with the offset kept, every other virtual
    address translates as before, the tables of every root still form trees, and exactly
    the user half is accounted for, with one reference. *)
Theorem map_translates dm r self phys virt :
  current dm r self → next self + 3 ≤ capacity self → no_huge self r virt →
  page_addr phys → (0x1000 | virt) →
  (user_half virt → mapped_pages self !! phys = None) →
  ∃ self' dm',
    map self phys virt = Ret (self', Ok tt) ∧
    current dm' r self' ∧
    (∀ r2, tree_ok dm r2 self → tree_ok dm' r2 self') ∧
    (∀ w, translate self' w =
            if decide (page_of w = page_of virt) then Ret (Some (phys + w mod 0x1000))
            else translate self w) ∧
    mapped_pages self' =
      (if decide (user_half virt)
       then <[phys := mkMappedPage phys Normal 1 {[(r - PSB, virt)]}]> (mapped_pages self)
       else mapped_pages self) ∧
    page_allocator self' = page_allocator self.
Proof. apply map_fresh_translates. Qed.

(** ** Write permission and aliases *)

(** The leaf of [v] from root [r], with its write bit. *)
Definition leaf_writable self (r v : Z) (b : bool) : Prop :=
  ∃ l e, leaf self r v = Some l ∧ ent self (leaf_table l) (leaf_idx l) = Some e ∧ writable e = b.

(** Setting the write bit of a leaf changes nothing the walk sees. *)
Lemma update_leaf_rw dm r self v l b :
  region_ok self → tree_ok dm r self → leaf self r v = Some l →
  ∃ self' e e', update_leaf self l (λ e, set_flags e RW_FLAG b) = Ret self' ∧
    region_ok self' ∧ same_walk self self' ∧
    wrote self self' (leaf_table l) (leaf_idx l) e' ∧ writable e' = b ∧
    ent self (leaf_table l) (leaf_idx l) = Some e.
Proof.
  intros Hr [own Ho] Hl. destruct (leaf_inv _ _ _ _ Hl) as (d & t & e0 & Hd & Ht & He0 & Hm & ->).
  destruct (table_at_own dm own r self Ho d v t ltac:(lia) Ht) as (pl & Hpl & _).
  destruct (update_entry_spec self t (idx d v) (λ e, set_flags e RW_FLAG b))
    as (e & self' & He & Hok & Hup & Hr' & Hw).
  { done. } { by eapply owned_alloc. } { apply idx_bound. } { intros e1 He1. by apply set_rw_entry. }
  destruct (set_rw_entry e b Hok) as (_ & Hpr & Hwr & Hps & Ha).
  exists self', e, (set_flags e RW_FLAG b). cbn [leaf_table leaf_idx]. split_and!; try done.
  by eapply wrote_similar.
Qed.

Lemma leaf_rw_writable dm r self v l b self' :
  region_ok self → tree_ok dm r self → leaf self r v = Some l →
  update_leaf self l (λ e, set_flags e RW_FLAG b) = Ret self' → leaf_writable self' r v b.
Proof.
  intros Hr Ht Hl Hup. destruct (update_leaf_rw dm r self v l b) as (s & e & e' & Hs & _ & Hsw & Hw & Hb & _);
    [done..|]. rewrite Hup in Hs. simplify_eq. exists l, e'. split_and!; [by rewrite <- Hsw| |done].
  eapply wrote_eq; [done|]. destruct (leaf_inv _ _ _ _ Hl) as (d & t & e0 & _ & _ & _ & _ & ->). apply idx_bound.
Qed.

Lemma table_for_root dm self c :
  region_ok self → tree_ok dm (c + PSB) self → table_for_phys_addr self c = Ret (c + PSB).
Proof.
  intros Hr Ht. rewrite <- (table_for_phys_addr_ok self (c + PSB)); [by rewrite Z.add_simpl_r|done|].
  apply allocated_in_region; [done|]. by eapply tree_ok_allocated.
Qed.

(** The loop of [map] over aliases: every alias loses its write permission. *)
Definition same_or_read_only self self' : Prop :=
  ∀ t i e, 0 ≤ i → ent self t i = Some e → writable e = false →
    ∃ e', ent self' t i = Some e' ∧ writable e' = false.

Lemma map_alias_spec dm virt self a :
  region_ok self → tree_ok dm (a.1 + PSB) self → is_Some (leaf self (a.1 + PSB) virt) →
  ∃ self', map_alias virt self a = Ret self' ∧ region_ok self' ∧ same_walk self self' ∧
    self' = with_tables self (tables self') ∧ same_or_read_only self self' ∧
    leaf_writable self' (a.1 + PSB) virt false.
Proof.
  intros Hr Ht [l Hl].
  destruct (update_leaf_rw dm _ self virt l false Hr Ht Hl) as (s & e & e' & Hs & Hr' & Hsw & Hw & Hb & _).
  assert (map_alias virt self a = Ret s) as Heq.
  { unfold map_alias. rewrite (table_for_root dm) by done.
    cbn [mbind outcome_bind]. rewrite (walk_to_leaf_tree dm) by done. cbn [mbind outcome_bind].
    by rewrite Hl. }
  exists s. split_and!; try done.
  - by destruct Hw as [[ts ->] _].
  - intros t i e0 Hi He0 Hwr. destruct (decide ((t, i) = (leaf_table l, leaf_idx l))) as [[= -> ->]|Hne].
    + exists e'. split; [by eapply wrote_eq|done].
    + exists e0. split; [|done]. by rewrite (wrote_ne _ _ _ _ _ _ _ Hw).
  - exact (leaf_rw_writable dm _ self virt l false s Hr Ht Hl Hs).
Qed.

Lemma map_aliases_spec dm virt l self :
  region_ok self →
  (∀ a, a ∈ l → tree_ok dm (a.1 + PSB) self ∧ is_Some (leaf self (a.1 + PSB) virt)) →
  ∃ self', mfold (map_alias virt) l self = Ret self' ∧ region_ok self' ∧ same_walk self self' ∧
    self' = with_tables self (tables self') ∧
    ∀ a, a ∈ l → leaf_writable self' (a.1 + PSB) virt false.
Proof.
  intros Hr Hl.
  destruct (mfold_inv (map_alias virt) (λ seen s, region_ok s ∧ same_walk self s ∧
    s = with_tables self (tables s) ∧ ∀ a, a ∈ seen → leaf_writable s (a.1 + PSB) virt false) l self)
    as (self' & Hf & Hr' & Hs & Hw & Ha); [|  |by exists self'].
  { split_and!; [done|done|by destruct self|]. by intros a Ha%elem_of_nil. }
  intros seen a rest s -> (Hrs & Hsw & Hws & Hseen).
  destruct (Hl a) as [Ht Hm]; [set_solver|].
  destruct (map_alias_spec dm virt s a) as (s' & Heq & Hr' & Hsw' & Hw' & Hro & Hwa).
  { done. } { by eapply tree_ok_same_walk. } { by rewrite <- Hsw. }
  exists s'. split_and!; [done|done|by transitivity s|rewrite Hw' at 1; by rewrite Hws|].
  intros b [Hb| ->%list_elem_of_singleton]%elem_of_app; [|done].
  destruct (Hseen b Hb) as (lb & e & Hlb & He & Hwe).
  destruct (Hro (leaf_table lb) (leaf_idx lb) e) as (e' & He' & Hwe'); [|done..|].
  - destruct (leaf_inv _ _ _ _ Hlb) as (d & t & e0 & _ & _ & _ & _ & ->). apply idx_bound.
  - exists lb, e'. split_and!; [by rewrite <- Hsw'|done|done].
Qed.

Lemma elem_of_btreeset_iter (s : gset (Z * Z)) a : a ∈ btreeset_iter s ↔ a ∈ s.
Proof. unfold btreeset_iter. rewrite merge_sort_Permutation. apply elem_of_elements. Qed.

(** Every alias recorded for a page maps [virt] from its own root; the root [r] about to
    map it may not do so yet. *)
Definition aliases_map dm r self (pg : MappedPage) (virt : Z) : Prop :=
  ∀ a, a ∈ aliasing_paging_structures pg →
    tree_ok dm (a.1 + PSB) self ∧ (a.1 + PSB = r ∨ is_Some (leaf self (a.1 + PSB) virt)).

Lemma map_account_shared dm dm' r self self' pt pg phys virt :
  current dm r self → map_written dm self dm' self' r pt phys virt →
  mapped_pages self !! phys = Some pg → aliases_map dm r self pg virt →
  let pg' := mkMappedPage (mp_phys_addr pg) (mp_size pg) (wrapping_add 64 (refs pg) 1)
               ({[(r - PSB, virt)]} ∪ aliasing_paging_structures pg) in
  ∃ self'', map_account self' r phys phys virt = Ret self'' ∧ region_ok self'' ∧
    same_walk self' self'' ∧
    self'' = with_tables (with_mapped_pages self' (<[phys := pg']> (mapped_pages self))) (tables self'') ∧
    ∀ a, a ∈ aliasing_paging_structures pg' → leaf_writable self'' (a.1 + PSB) virt false.
Proof.
  intros Hcur Hmw Hpg Hal pg'. pose proof (map_written_current _ _ _ _ _ _ _ _ Hcur Hmw) as Hcur'.
  assert (mapped_pages self' = mapped_pages self) as Hmps
    by (by rewrite (mw_rest _ _ _ _ _ _ _ _ Hmw)).
  unfold map_account. rewrite (current_root_phys dm' r self') by done. cbn [mbind outcome_bind].
  rewrite Hmps, Hpg. cbv zeta. fold pg'.
  set (s := with_mapped_pages self' (<[phys := pg']> (mapped_pages self))).
  assert (same_walk self' s) as Hs by (by apply same_walk_ext).
  destruct (map_aliases_spec dm' virt (btreeset_iter (aliasing_paging_structures pg')) s)
    as (s' & Hf & Hr' & Hsw & Hrest & Hro).
  - apply (region_ok_ext self'); try done. apply Hcur'.
  - intros a Ha. apply elem_of_btreeset_iter in Ha.
    assert (tree_ok dm (a.1 + PSB) self ∧ (a.1 + PSB = r ∨ is_Some (leaf self (a.1 + PSB) virt))) as [Ht Hm].
    { apply elem_of_union in Ha as [->%elem_of_singleton|Ha]; [|by apply Hal].
      cbn. rewrite Z.sub_add. split; [apply Hcur|by left]. }
    split; [eapply tree_ok_same_walk, mw_tree; done|]. rewrite <- Hs. destruct Hm as [->|Hm].
    + by rewrite (mw_same _ _ _ _ _ _ _ _ Hmw).
    + by eapply mw_mapped.
  - exists s'. split_and!; [done|done|by transitivity s|done|].
    intros a Ha. apply Hro. by apply elem_of_btreeset_iter.
Qed.

(** C2. Mapping a page of the user half that other address spaces already map at the same
    address: [map] returns [Ok], the reference count and the alias set grow, translations
    change as for a fresh page, and every alias, old and new, is left read-only. *)
Theorem map_shares dm r self phys virt pg :
  current dm r self → next self + 3 ≤ capacity self → no_huge self r virt →
  page_addr phys → (0x1000 | virt) → user_half virt →
  mapped_pages self !! phys = Some pg → aliases_map dm r self pg virt →
  let pg' := mkMappedPage (mp_phys_addr pg) (mp_size pg) (wrapping_add 64 (refs pg) 1)
               ({[(r - PSB, virt)]} ∪ aliasing_paging_structures pg) in
  ∃ self' dm',
    map self phys virt = Ret (self', Ok tt) ∧
    current dm' r self' ∧
    (∀ w, translate self' w =
            if decide (page_of w = page_of virt) then Ret (Some (phys + w mod 0x1000))
            else translate self w) ∧
    mapped_pages self' = <[phys := pg']> (mapped_pages self) ∧
    ∀ a, a ∈ aliasing_paging_structures pg' → leaf_writable self' (a.1 + PSB) virt false.
Proof.
  intros Hcur Hcap Hno Hphys Hvirt Huser Hpg Hal pg'.
  destruct (map_core dm r self phys virt) as (dm' & s & pt & Heq & Hmw); [done..|].
  destruct (map_account_shared dm dm' r self s pt pg phys virt) as (s' & Hacc & Hr' & Hsw & Hrest & Hro);
    [done..|].
  rewrite decide_True, Hacc in Heq by done. cbn [mbind outcome_bind] in Heq.
  assert (environment s' = environment s) as Henv by (by rewrite Hrest).
  assert (current dm' r s') as Hcur'
    by (eapply current_same_walk; [..|by eapply map_written_current]; done).
  assert (same_walk s' (with_environment s' (flush_tlb (environment s')))) as Hfl by (by apply same_walk_ext).
  exists (with_environment s' (flush_tlb (environment s'))), dm'. split_and!.
  - done.
  - by apply current_flush.
  - intros w. eapply map_written_translate; [done..|by apply current_flush|by transitivity s'|apply Hphys].
  - cbn. by rewrite Hrest.
  - intros a Ha. destruct (Hro a Ha) as (l & e & Hl & He & Hwe). exists l, e.
    split_and!; [by rewrite <- Hfl|done|done].
Qed.

(** ** Unmapping a page *)

Lemma unmap_mask_aligned s v : Z.land v (unmap_mask s) = 0 ↔ (page_size_into s | v).
Proof.
  destruct s; symmetry; [apply (aligned_mask 12)|apply (aligned_mask 21)|apply (aligned_mask 30)]; done.
Qed.

(** [virt] and [w] lie in the page that leaf [l] maps. *)
Definition in_leaf (l : LeafEntry) (virt w : Z) : Prop :=
  block_of (leaf_page_size l) w = block_of (leaf_page_size l) virt.
#[global] Instance in_leaf_dec l virt w : Decision (in_leaf l virt w).
Proof. unfold in_leaf. apply _. Defined.

(** The page-table write of [unmap]: everything before the bookkeeping. *)
Record unmap_written dm self self' (r virt : Z) (l : LeafEntry) : Prop := {
  uw_region : region_ok self';
  uw_rest : self' = with_tables self (tables self');
  uw_tree r2 : tree_ok dm r2 self → tree_ok dm r2 self';
  uw_leaf w : leaf self' r w = if decide (in_leaf l virt w) then None else leaf self r w;
  uw_private r2 w : (∀ d, (d ≤ 3)%nat → table_at self r2 d w ≠ Some (leaf_table l)) →
    leaf self' r2 w = leaf self r2 w;
}.

Lemma unmap_core dm r self virt l :
  current dm r self → leaf self r virt = Some l → (page_size_into (leaf_page_size l) | virt) →
  ∃ self',
    unmap self virt =
      (self ← (if decide (Z.shiftr virt 51 = 0) then unmap_account self' l virt else Ret self');
       Ret (self, Ok tt)) ∧
    unmap_written dm self self' r virt l.
Proof.
  intros [Hr Hb Ht] Hl Hal. pose proof Ht as [own Ho].
  destruct (leaf_inv _ _ _ _ Hl) as (d & t & e & Hd & Htab & He & Hm & Heq).
  destruct (table_at_own dm own r self Ho d virt t ltac:(lia) Htab) as (pl & Hpl & _).
  destruct (update_entry_spec self t (idx d virt) (λ _, entry_default)) as (e1 & s & _ & _ & Hup & Hrs & Hw).
  { done. } { by eapply owned_alloc. } { apply idx_bound. } { done. }
  assert (leaf_page_size l = size_of d) as Hsz by (by rewrite Heq).
  exists s. split.
  - unfold unmap. rewrite Hb. cbn [mbind outcome_bind]. rewrite (walk_to_leaf_tree dm), Hl by done.
    cbn [mbind outcome_bind expect]. rewrite decide_False.
    2:{ intros Hx. apply Hx. by apply unmap_mask_aligned. }
    unfold update_leaf. rewrite Heq. cbn [leaf_table leaf_idx]. by rewrite Hup.
  - split.
    + done.
    + by destruct Hw as [[ts ->] _].
    + intros r2 [own2 Ho2]. exists own2. by eapply owned_write.
    + intros w. destruct (decide (in_leaf l virt w)) as [Hblk|Hblk]; unfold in_leaf in Hblk; rewrite Hsz in Hblk.
      * by rewrite (leaf_write_same dm own r self s t d virt w entry_default)
          by (done || (by apply same_page_at_block) || by right).
      * apply (leaf_write_other dm own r self s t d virt w entry_default); [done|done|lia|done|done|].
        rewrite same_page_at_block by done. congruence.
    + intros r2 w Hpriv. apply leaf_frame. intros d' t' Hd' Ht'. eapply wrote_ne; [done|apply idx_bound|].
      intros [= -> _]. apply (Hpriv d' Hd'). by rewrite Heq.
Qed.

Lemma unmap_written_current dm r self self' virt l :
  current dm r self → unmap_written dm self self' r virt l → current dm r self'.
Proof.
  intros [Hr Hb Ht] Huw. split.
  - by eapply uw_region.
  - by rewrite (uw_rest _ _ _ _ _ _ Huw).
  - by eapply uw_tree.
Qed.

Lemma unmap_written_translate dm r self self' self'' virt l w :
  current dm r self → unmap_written dm self self' r virt l → current dm r self'' →
  same_walk self' self'' →
  translate self'' w = if decide (in_leaf l virt w) then Ret None else translate self w.
Proof.
  intros Hcur Huw Hcur'' Hs. rewrite (translate_leaf dm r) by done. rewrite <- Hs.
  rewrite (uw_leaf _ _ _ _ _ _ Huw). case_decide; [done|]. by rewrite (translate_leaf dm r self).
Qed.

(** The bookkeeping after the only mapping of a page is gone. *)
Definition last_mapped_pages (mps : gmap Z MappedPage) (phys virt : Z) : gmap Z MappedPage :=
  if decide (user_half virt) then delete phys mps else mps.

Lemma unmap_only dm r self virt l :
  current dm r self → leaf self r virt = Some l → (page_size_into (leaf_page_size l) | virt) →
  (user_half virt → ∃ pg, mapped_pages self !! leaf_phys_addr l = Some pg ∧ refs pg ≤ 1) →
  ∃ s,
    unmap self virt =
      Ret (with_mapped_pages s (last_mapped_pages (mapped_pages self) (leaf_phys_addr l) virt), Ok tt) ∧
    unmap_written dm self s r virt l.
Proof.
  intros Hcur Hl Hal Hrefs. destruct (unmap_core dm r self virt l Hcur Hl Hal) as (s & Heq & Huw).
  pose proof (unmap_written_current _ _ _ _ _ _ Hcur Huw) as Hcur'.
  pose proof (uw_rest _ _ _ _ _ _ Huw) as Hrest.
  assert (mapped_pages s = mapped_pages self) as Hmps by (by rewrite Hrest).
  exists s. split; [|done]. rewrite Heq. unfold user_half, last_mapped_pages in *.
  destruct (decide (Z.shiftr virt 51 = 0)) as [Hu|Hu].
  - destruct (Hrefs Hu) as (pg & Hpg & Hle). rewrite decide_True by done. unfold unmap_account.
    rewrite Hmps, Hpg. cbn [mbind outcome_bind expect]. rewrite (cur_root _ _ _ Hcur').
    cbn [mbind outcome_bind]. rewrite (current_root_phys dm r s) by done. cbn [mbind outcome_bind].
    by rewrite decide_False by lia.
  - rewrite decide_False by done. rewrite <- Hmps. by destruct s.
Qed.

(** C3. Unmapping the only mapping of a page (or any page outside the user half): [unmap]
    returns [Ok], no address of the page (of its size) translates any more, every other
    address translates as before, and the page is forgotten by the bookkeeping. *)
Theorem unmap_last dm r self virt l :
  current dm r self → leaf self r virt = Some l → (page_size_into (leaf_page_size l) | virt) →
  (user_half virt → ∃ pg, mapped_pages self !! leaf_phys_addr l = Some pg ∧ refs pg ≤ 1) →
  ∃ self',
    unmap self virt = Ret (self', Ok tt) ∧
    current dm r self' ∧
    (∀ w, translate self' w = if decide (in_leaf l virt w) then Ret None else translate self w) ∧
    mapped_pages self' =
      (if decide (user_half virt) then delete (leaf_phys_addr l) (mapped_pages self)
       else mapped_pages self) ∧
    page_allocator self' = page_allocator self.
Proof.
  intros Hcur Hl Hal Hrefs. destruct (unmap_only dm r self virt l Hcur Hl Hal Hrefs) as (s & Heq & Huw).
  pose proof (unmap_written_current _ _ _ _ _ _ Hcur Huw) as Hcur'.
  eexists. split; [exact Heq|]. split_and!; [by apply current_mapped_pages| |done|].
  - intros w. eapply unmap_written_translate; [done|done|by apply current_mapped_pages|].
    by apply same_walk_ext.
  - cbn. by rewrite (uw_rest _ _ _ _ _ _ Huw).
Qed.

(** The one address space left when a page shared by two loses one of its mappings: [c] is
    the physical address of its root, and the page table that is about to be written does
    not belong to it. *)
Definition other_alias dm r self (pg : MappedPage) (virt : Z) (l : LeafEntry) (c : Z) : Prop :=
  (∃ v', aliasing_paging_structures pg ∖ {[(r - PSB, virt)]} = {[(c, v')]}) ∧
  tree_ok dm (c + PSB) self ∧ is_Some (leaf self (c + PSB) virt) ∧
  ∀ d, (d ≤ 3)%nat → table_at self (c + PSB) d virt ≠ Some (leaf_table l).

Lemma btreeset_iter_singleton (x : Z * Z) : btreeset_iter {[x]} = [x].
Proof. unfold btreeset_iter. by rewrite elements_singleton. Qed.

Lemma unmap_account_shared dm r self self' virt l pg :
  current dm r self → unmap_written dm self self' r virt l →
  mapped_pages self !! leaf_phys_addr l = Some pg → 1 < refs pg < 2 ^ 64 →
  (r - PSB, virt) ∈ aliasing_paging_structures pg →
  (refs pg = 2 → ∃ c, other_alias dm r self pg virt l c) →
  let pg' := mkMappedPage (mp_phys_addr pg) (mp_size pg) (refs pg - 1)
               (aliasing_paging_structures pg ∖ {[(r - PSB, virt)]}) in
  ∃ self'', unmap_account self' l virt = Ret self'' ∧ region_ok self'' ∧ same_walk self' self'' ∧
    self'' = with_tables (with_mapped_pages self' (<[leaf_phys_addr l := pg']> (mapped_pages self)))
               (tables self'') ∧
    (∀ c, refs pg = 2 → other_alias dm r self pg virt l c → leaf_writable self'' (c + PSB) virt true).
Proof.
  intros Hcur Huw Hpg Hrefs Hin Hother pg'. pose proof (unmap_written_current _ _ _ _ _ _ Hcur Huw) as Hcur'.
  assert (mapped_pages self' = mapped_pages self) as Hmps by (by rewrite (uw_rest _ _ _ _ _ _ Huw)).
  set (s := with_mapped_pages self' (<[leaf_phys_addr l := pg']> (mapped_pages self))).
  assert (same_walk self' s) as Hs by (by apply same_walk_ext).
  assert (region_ok s) as Hrs by (apply (region_ok_ext self'); try done; apply Hcur').
  unfold unmap_account. rewrite Hmps, Hpg. cbn [mbind outcome_bind expect].
  rewrite (cur_root _ _ _ Hcur'). cbn [mbind outcome_bind].
  rewrite (current_root_phys dm r self') by done. cbn [mbind outcome_bind].
  rewrite decide_True by lia. unfold wrapping_sub. rewrite Z.mod_small by lia. cbv zeta. fold pg'. fold s.
  rewrite (bool_decide_eq_true_2 ((r - PSB, virt) ∈ aliasing_paging_structures pg)) by done. cbn [mbind outcome_bind assert_that].
  destruct (decide (refs pg - 1 = 1)) as [Htwo|Hmore].
  2:{ exists s. split_and!; try done; try (intros; lia). }
  destruct (Hother ltac:(lia)) as (c & Hc). pose proof Hc as ([v' Hrest] & Htc & [lc Hlc] & Hpriv).
  rewrite Hrest. rewrite bool_decide_eq_true_2 by (by rewrite size_singleton).
  cbn [mbind outcome_bind assert_that]. rewrite btreeset_iter_singleton. cbn [mbind outcome_bind expect head].
  assert (tree_ok dm (c + PSB) s) as Hts by (eapply tree_ok_same_walk, uw_tree; done).
  rewrite (table_for_root dm) by done.
  cbn [mbind outcome_bind]. rewrite (walk_to_leaf_tree dm) by done. cbn [mbind outcome_bind].
  assert (leaf s (c + PSB) virt = Some lc) as Hls
    by (rewrite <- Hs, (uw_private _ _ _ _ _ _ Huw); done).
  rewrite Hls. cbn [mbind outcome_bind expect].
  destruct (update_leaf_rw dm _ s virt lc true Hrs Hts Hls) as (s' & e & e' & Hup & Hr' & Hsw & Hw & _).
  exists s'. split_and!; [done|done|by transitivity s|by destruct Hw as [[ts ->] _]|].
  intros c' _ ([v'' Hrest'] & _). rewrite Hrest in Hrest'.
  assert (c' = c) as -> by (apply singleton_inj in Hrest'; congruence).
  exact (leaf_rw_writable dm _ s virt lc true s' Hrs Hts Hls Hup).
Qed.

End spec.
