(* ===== verification/MappingCow.v ===== *)
(** * Copy on write

    [cow] gives the current address space its own copy of a shared page. *)

From S2P Require Import Prelude Physical Table Mapping MappingTree MappingSpec.

Section cow.
Context {E : Type} `{!Environment E}.
Implicit Types self : Mapper E.

#[local] Abbreviation PSB := (PAGING_STRUCTURE_BASE E).

(** ** Copying a page *)

(** The page at virtual address [v] is at physical address [p]. *)
Definition page_at self (v p : Z) : Prop :=
  ∀ i, 0 ≤ i < 0x1000 → translate self (v + i) = Ret (Some (p + i)).

(** Memory after the first [n] bytes of the page at [p] have been copied to [q]. *)
Definition copied (m m' : gmap Z Z) (p q n : Z) : Prop :=
  ∀ a, m' !! a = if decide (q ≤ a < q + n) then m !! (p + (a - q)) else m !! a.

Lemma cow_copy_byte_spec self m src dest p q i :
  page_at self src p → page_at self dest q → (p + 0x1000 ≤ q ∨ q + 0x1000 ≤ p) →
  (∀ j, 0 ≤ j < 0x1000 → is_Some (ram self !! (p + j)) ∧ is_Some (ram self !! (q + j))) →
  0 ≤ i < 0x1000 → copied (ram self) m p q i →
  ∃ m', cow_copy_byte src dest (with_ram self m) i = Ret (with_ram self m') ∧
    copied (ram self) m' p q (i + 1).
Proof.
  intros Hsrc Hdst Hdisj Hram Hi Hm. destruct (Hram i Hi) as [[x Hx] [y Hy]].
  exists (<[q + i := x]> m). split.
  - unfold cow_copy_byte, load.
    change (translate (with_ram self m)) with (translate self). rewrite Hsrc by done.
    cbn [mbind outcome_bind expect]. cbn [ram with_ram]. rewrite (Hm (p + i)), decide_False by lia.
    rewrite Hx. cbn [mbind outcome_bind expect]. unfold store.
    change (translate (with_ram self m)) with (translate self). rewrite Hdst by done.
    cbn [mbind outcome_bind expect]. cbn [ram with_ram]. by rewrite (Hm (q + i)), decide_False, Hy by lia.
  - intros a. destruct (decide (a = q + i)) as [->|].
    + rewrite lookup_insert_eq, decide_True by lia. rewrite <- Hx. f_equal. lia.
    + rewrite lookup_insert_ne by done. rewrite (Hm a).
      destruct (decide (q ≤ a < q + i)); [by rewrite decide_True by lia|by rewrite decide_False by lia].
Qed.

Lemma seqZ_split m n dn x rest :
  seqZ m n = dn ++ x :: rest → x = m + Z.of_nat (length dn) ∧ m ≤ x < m + n.
Proof.
  intros H. assert (seqZ m n !! length dn = Some x) as Hl by (by rewrite H, list_lookup_middle).
  apply lookup_seqZ in Hl. lia.
Qed.

Lemma cow_copy_spec self src dest p q :
  page_at self src p → page_at self dest q → (p + 0x1000 ≤ q ∨ q + 0x1000 ≤ p) →
  (∀ j, 0 ≤ j < 0x1000 → is_Some (ram self !! (p + j)) ∧ is_Some (ram self !! (q + j))) →
  ∃ m, cow_copy self src dest = Ret (with_ram self m) ∧ copied (ram self) m p q 0x1000.
Proof.
  intros Hsrc Hdst Hdisj Hram. unfold cow_copy.
  destruct (mfold_inv (cow_copy_byte src dest)
    (λ dn s, ∃ m, s = with_ram self m ∧ copied (ram self) m p q (Z.of_nat (length dn))) (seqZ 0 0x1000) self)
    as (s & Hs & m & -> & Hm).
  - exists (ram self). split; [by destruct self|]. intros a. by rewrite decide_False by (cbn; lia).
  - intros dn i rest s Hl (m & -> & Hm). apply seqZ_split in Hl as [-> Hi].
    destruct (cow_copy_byte_spec self m src dest p q (Z.of_nat (length dn))) as (m' & Heq & Hm'); try done.
    exists (with_ram self m'). split; [by rewrite Z.add_0_l|]. exists m'. split; [done|].
    rewrite length_app. cbn [length]. by replace (Z.of_nat (length dn + 1)) with (Z.of_nat (length dn) + 1) by lia.
  - exists m. split; [done|]. by rewrite length_seqZ in Hm.
Qed.

(** ** Addresses within a page *)

Lemma page_of_offset v i : (0x1000 | v) → 0 ≤ i < 0x1000 → page_of (v + i) = page_of v ∧ (v + i) mod 0x1000 = i.
Proof.
  intros [q ->] Hi. unfold page_of, block_of. cbn [page_size_into].
  rewrite (Z.add_comm (q * _)), Z.div_add, Z.mod_add, Z.div_mul by done.
  split; [by rewrite Z.div_small by lia|by apply Z.mod_small].
Qed.

Lemma leaf_same_page self r v w : page_of v = page_of w → leaf self r v = leaf self r w.
Proof.
  intros Hpg%same_page_at_3. unfold leaf, leaf_at.
  assert (∀ d, (d ≤ 3)%nat → idx d v = idx d w ∧ table_at self r d v = table_at self r d w) as H.
  { intros d Hd. split; [by apply Hpg|]. apply table_at_same_page. intros j Hj. apply Hpg. lia. }
  destruct (H 1%nat ltac:(lia)) as [-> ->], (H 2%nat ltac:(lia)) as [-> ->],
    (H 3%nat ltac:(lia)) as [-> ->]. done.
Qed.

Lemma leaf_phys_page r self v l : region_ok self → leaf self r v = Some l → page_addr (leaf_phys_addr l).
Proof.
  intros Hr Hl. destruct (leaf_inv _ _ _ _ Hl) as (d & t & e & _ & _ & He & _ & ->).
  apply get_addr_page. by eapply region_entries.
Qed.

Lemma page_at_leaf dm r self v l :
  current dm r self → (0x1000 | v) → leaf self r v = Some l → leaf_page_size l = Normal →
  page_at self v (leaf_phys_addr l).
Proof.
  intros Hcur Hv Hl Hn i Hi. destruct (page_of_offset v i Hv Hi) as [Hpg Hmod].
  rewrite (translate_leaf dm r), (leaf_same_page self r _ v), Hl by done. cbn [fmap option_fmap option_map].
  rewrite leaf_translation_normal, Hmod; [done|done|].
  destruct (leaf_phys_page r self v l) as [_ ?]; [apply Hcur|done|done].
Qed.

Lemma pages_disjoint p q : page_addr p → page_addr q → p ≠ q → p + 0x1000 ≤ q ∨ q + 0x1000 ≤ p.
Proof. intros [_ [a ->]] [_ [b ->]] Hne. lia. Qed.

(** ** The whole operation *)

(** What [cow] needs: [virt] is a user page shared with other address spaces, [scratch] is
    an unmapped page outside the user half, the allocator has a page [blk] to give that is
    not mapped, memory behind both pages exists, and six paging structures are left. *)
Record cow_ready dm r self (virt scratch : Z) (l : LeafEntry) (pg : MappedPage)
    (blk : Block) (pa : PageAllocator) : Prop := {
  cr_current : current dm r self;
  cr_leaf : leaf self r virt = Some l ∧ leaf_page_size l = Normal;
  cr_virt : (0x1000 | virt) ∧ user_half virt;
  cr_page : mapped_pages self !! leaf_phys_addr l = Some pg ∧ 1 < refs pg < 2 ^ 64;
  cr_alias : (r - PSB, virt) ∈ aliasing_paging_structures pg;
  cr_other : refs pg = 2 → ∃ c, other_alias dm r self pg virt l c;
  cr_scratch : (0x1000 | scratch) ∧ ¬ user_half scratch ∧ leaf self r scratch = None;
  cr_alloc : allocate (page_allocator self) 12 = Ret (Some blk, pa);
  cr_new : page_addr (Physical.get_addr blk) ∧ mapped_pages self !! Physical.get_addr blk = None;
  cr_ram j : 0 ≤ j < 0x1000 → is_Some (ram self !! (leaf_phys_addr l + j)) ∧
    is_Some (ram self !! (Physical.get_addr blk + j));
  cr_capacity : next self + 6 ≤ capacity self;
}.

Section cow_steps.
Context (dm : gmap Z nat) (r : Z) (self : Mapper E) (virt scratch : Z) (l : LeafEntry).
Context (pg : MappedPage) (blk : Block) (pa : PageAllocator).
Hypothesis Hready : cow_ready dm r self virt scratch l pg blk pa.
#[local] Abbreviation new := (Physical.get_addr blk).
#[local] Abbreviation src := (leaf_phys_addr l).

(** After the temporary mapping and the copy. *)
Record cow_mid dm1 (s : Mapper E) : Prop := {
  cm_current : current dm1 r s;
  cm_virt : leaf s r virt = Some l;
  cm_scratch : ∃ pt, leaf s r scratch = Some (mkLeaf pt new (idx 3 scratch) Normal);
  cm_rest w : page_of scratch ≠ page_of w → leaf s r w = leaf self r w;
  cm_pages : mapped_pages s = mapped_pages self;
  cm_allocator : page_allocator s = pa;
  cm_other c : other_alias dm r self pg virt l c → other_alias dm1 r s pg virt l c;
  cm_next : next s ≤ next self + 3;
  cm_length : region_length s = region_length self;
  cm_ram : ram s = ram self;
}.

Lemma current_page_allocator s p : current dm r s → current dm r (with_page_allocator s p).
Proof.
  intros Hcur. apply (current_same_walk dm r s); [|done|by apply same_walk_ext|done].
  apply (region_ok_ext s); try done. apply Hcur.
Qed.

Lemma cow_tmp_map_spec :
  ∃ s dm1, cow_tmp_map self scratch = Ret (s, blk) ∧ cow_mid dm1 s.
Proof.
  destruct Hready as [Hcur [Hl Hn] [Hv Hu] [Hpg Hrefs] Hal Hoth [Hsc [Hnu Hls]] Hall [Hnew Hfree] Hram Hcap].
  set (self0 := with_page_allocator self pa).
  assert (same_walk self self0) as Hsw0 by (by apply same_walk_ext).
  assert (page_of scratch ≠ page_of virt) as Hne.
  { intros Hpg'. rewrite (leaf_same_page self r _ _ Hpg') in Hls. congruence. }
  destruct (map_fresh dm r self0 new scratch) as (s' & dm1 & pt & Heq & Hmw).
  { by apply current_page_allocator. } { unfold capacity in *. cbn. lia. }
  { intros l'. rewrite <- Hsw0, Hls. done. } { done. } { done. } { done. }
  pose proof (map_written_current _ _ _ _ _ _ _ _ (current_page_allocator self pa Hcur) Hmw) as Hcur'.
  pose proof (mw_rest _ _ _ _ _ _ _ _ Hmw) as Hrest. pose proof (mw_next _ _ _ _ _ _ _ _ Hmw) as Hnext.
  unfold fresh_mapped_pages in Heq. rewrite decide_False in Heq by done.
  assert (environment s' = environment self0) as Henv by (by rewrite Hrest).
  rewrite <- Henv in Heq.
  set (s := with_environment (with_mapped_pages s' (mapped_pages self0)) (flush_tlb (environment s'))) in *.
  assert (same_walk s' s) as Hsw by (by apply same_walk_ext).
  exists s, dm1. split.
  { unfold cow_tmp_map. rewrite Hall. cbn [mbind outcome_bind expect]. fold self0. by rewrite Heq. }
  split; try done; try (unfold s; cbn; rewrite Hrest; done).
  - exact (current_flush _ _ _ (current_mapped_pages _ _ _ _ Hcur')).
  - by rewrite <- Hsw, (mw_other _ _ _ _ _ _ _ _ Hmw), <- Hsw0.
  - exists pt. by rewrite <- Hsw, (mw_same _ _ _ _ _ _ _ _ Hmw).
  - intros w Hw. by rewrite <- Hsw, (mw_other _ _ _ _ _ _ _ _ Hmw), <- Hsw0.
  - intros c (Hv' & Ht & Hm & Hpriv).
    assert (tree_ok dm (c + PSB) self0) as Ht0 by (by eapply tree_ok_same_walk). split_and!; [done| | |].
    + eapply tree_ok_same_walk, mw_tree; done.
    + rewrite <- Hsw. eapply mw_mapped; [done..|]. by rewrite <- Hsw0.
    + intros d Hd Htab. rewrite <- Hsw in Htab. apply (Hpriv d Hd). rewrite Hsw0.
      eapply mw_tables; [done..| |done]. destruct Hcur as [Hr Hb [own Ho]].
      destruct (leaf_inv _ _ _ _ Hl) as (d' & t & e & Hd' & Ht' & _ & _ & ->).
      destruct (table_at_own dm own r self Ho d' virt t ltac:(lia) Ht') as (pl & Hpl & _).
      by apply (owned_alloc _ _ _ _ Ho) in Hpl.
  - cbn in Hnext |- *. lia.
Qed.

Lemma current_ram dm1 s m : current dm1 r s → current dm1 r (with_ram s m).
Proof.
  intros Hcur. apply (current_same_walk dm1 r s); [|done|by apply same_walk_ext|done].
  apply (region_ok_ext s); try done. apply Hcur.
Qed.

(** The page after [cow]. *)
Definition left_page : MappedPage :=
  mkMappedPage (mp_phys_addr pg) (mp_size pg) (refs pg - 1)
    (aliasing_paging_structures pg ∖ {[(r - PSB, virt)]}).

(** Unmapping the shared page and the scratch page. *)
Lemma cow_unmaps dm1 s m :
  cow_mid dm1 s →
  ∃ s3 s4, unmap (with_ram s m) virt = Ret (s3, Ok tt) ∧ unmap s3 scratch = Ret (s4, Ok tt) ∧
    current dm1 r s4 ∧ leaf s4 r virt = None ∧
    (∀ w, page_of w ≠ page_of virt → leaf s4 r w = leaf self r w) ∧
    mapped_pages s4 = <[src := left_page]> (mapped_pages self) ∧
    page_allocator s4 = pa ∧ next s4 = next s ∧ region_length s4 = region_length s ∧ ram s4 = m.
Proof.
  intros [Hcur1 Hlv [pt Hls] Hrest Hpages Hpa Hother Hnext Hlen Hram1].
  destruct Hready as [_ [_ Hn] [Hv Hu] [Hpg Hrefs] Hal Hoth [Hsc [Hnu Hls0]] _ _ _ _].
  assert (same_walk s (with_ram s m)) as Hsw by (by apply same_walk_ext).
  pose proof (current_ram dm1 s m Hcur1) as Hcur2.
  assert (leaf (with_ram s m) r virt = Some l) as Hl2 by (by rewrite <- Hsw).
  destruct (unmap_core dm1 r (with_ram s m) virt l Hcur2 Hl2) as (s3' & Heq3 & Huw3); [by rewrite Hn|].
  destruct (unmap_account_shared dm1 r (with_ram s m) s3' virt l pg)
    as (s3 & Hacc & Hr3 & Hsw3 & Hrest3 & _); [done|done|cbn; by rewrite Hpages|done|done| |].
  { intros H2. destruct (Hoth H2) as (c & Hc). exists c.
    destruct (Hother c Hc) as (? & ? & ? & Hpriv). split_and!; try done.
    - eapply tree_ok_same_walk; done.
    - intros d Hd. rewrite <- Hsw. by apply Hpriv. }
  rewrite decide_True, Hacc in Heq3 by done. cbn [mbind outcome_bind] in Heq3.
  pose proof (uw_rest _ _ _ _ _ _ Huw3) as Hrs3.
  assert (current dm1 r s3) as Hcur3.
  { eapply (current_same_walk dm1 r s3'); [done|by rewrite Hrest3|done|]. by eapply unmap_written_current. }
  assert (∀ w, leaf s3 r w = if decide (in_leaf l virt w) then None else leaf s r w) as Hleaf3.
  { intros w. rewrite <- Hsw3, (uw_leaf _ _ _ _ _ _ Huw3). done. }
  assert (page_of scratch ≠ page_of virt) as Hne.
  { intros Hpg'. rewrite <- (leaf_same_page s r _ _ Hpg'), Hls in Hlv. injection Hlv as <-.
    rewrite (leaf_same_page self r _ _ Hpg') in Hls0. destruct Hready as [_ [? _] _ _ _ _ _ _ _ _ _]. congruence. }
  assert (∀ w, in_leaf l virt w ↔ page_of w = page_of virt) as Hin by (intros w; unfold in_leaf; by rewrite Hn).
  assert (leaf s3 r scratch = Some (mkLeaf pt new (idx 3 scratch) Normal)) as Hls3.
  { rewrite Hleaf3, decide_False; [done|]. by rewrite Hin. }
  destruct (unmap_only dm1 r s3 scratch _ Hcur3 Hls3) as (s4 & Heq4 & Huw4); [done|done|].
  unfold last_mapped_pages in Heq4. rewrite decide_False in Heq4 by done.
  pose proof (uw_rest _ _ _ _ _ _ Huw4) as Hrs4.
  eexists s3, _. split; [done|]. split; [exact Heq4|].
  assert (same_walk s4 (with_mapped_pages s4 (mapped_pages s3))) as Hsw4 by (by apply same_walk_ext).
  assert (∀ w, leaf (with_mapped_pages s4 (mapped_pages s3)) r w =
    if decide (page_of w = page_of scratch) then None else leaf s3 r w) as Hleaf4.
  { intros w. rewrite <- Hsw4. exact (uw_leaf _ _ _ _ _ _ Huw4 w). }
  split_and!.
  - by eapply current_mapped_pages, unmap_written_current.
  - rewrite Hleaf4, decide_False by done. rewrite Hleaf3, decide_True; [done|]. by apply Hin.
  - intros w Hw. rewrite Hleaf4. case_decide as Hws.
    + by rewrite (leaf_same_page self r w scratch).
    + rewrite Hleaf3, decide_False by (by rewrite Hin). by apply Hrest.
  - cbn. rewrite Hrest3. cbn. by rewrite Hpages.
  - cbn. rewrite Hrs4. cbn. rewrite Hrest3. cbn. by rewrite Hrs3.
  - cbn. rewrite Hrs4. cbn. rewrite Hrest3. cbn. by rewrite Hrs3.
  - cbn. rewrite Hrs4. cbn. rewrite Hrest3. cbn. by rewrite Hrs3.
  - cbn. rewrite Hrs4. cbn. rewrite Hrest3. cbn. by rewrite Hrs3.
Qed.

Lemma cow_precheck :
  cow self virt scratch =
    ('(self, new_page) ← cow_tmp_map self scratch;
     self ← cow_copy self virt scratch;
     '(self, r) ← unmap self virt;
     match r with
     | Err e => Ret (self, Err e)
     | Ok _ =>
         '(self, r) ← unmap self scratch;
         match r with
         | Err e => Ret (self, Err e)
         | Ok _ => map self (Physical.get_addr new_page) virt
         end
     end).
Proof.
  destruct Hready as [[Hr Hb Ht] [Hl Hn] _ [Hpg Hrefs] _ _ _ _ _ _ _].
  unfold cow. rewrite Hb. cbn [mbind outcome_bind]. rewrite (walk_to_leaf_tree dm), Hl by done.
  cbn [mbind outcome_bind expect]. rewrite Hn, Hpg. cbn [mbind outcome_bind expect].
  by rewrite bool_decide_eq_true_2 by lia.
Qed.
End cow_steps.

(** C5. Copy on write: [cow] returns [Ok]; the faulting page is now backed by the page
    taken from the allocator, whose bytes are those of the shared page; every other virtual
    address, the scratch page included, translates as before and no other byte of memory
    changes; the shared page loses one reference and the new one has exactly one. *)
Theorem cow_copies dm r self virt scratch l pg blk pa :
  cow_ready dm r self virt scratch l pg blk pa →
  let new := Physical.get_addr blk in
  let src := leaf_phys_addr l in
  ∃ self' dm',
    cow self virt scratch = Ret (self', Ok tt) ∧
    current dm' r self' ∧
    (∀ w, translate self' w =
            if decide (page_of w = page_of virt) then Ret (Some (new + w mod 0x1000))
            else translate self w) ∧
    copied (ram self) (ram self') src new 0x1000 ∧
    mapped_pages self' =
      <[new := mkMappedPage new Normal 1 {[(r - PSB, virt)]}]>
        (<[src := left_page r virt pg]> (mapped_pages self)) ∧
    page_allocator self' = pa.
Proof.
  intros Hready new src. pose proof Hready as [Hcur [Hl Hn] [Hv Hu] [Hpg Hrefs] _ _ [Hsc [Hnu Hls0]] _ [Hnew Hfree] Hram Hcap].
  destruct (cow_tmp_map_spec dm r self virt scratch l pg blk pa Hready) as (s1 & dm1 & Htmp & Hmid).
  pose proof Hmid as [Hcur1 Hlv [pt1 Hls] _ _ _ _ Hnx Hln Hram1].
  assert (src ≠ new) as Hne by (intros Heq; unfold src, new in *; congruence).
  destruct (cow_copy_spec s1 virt scratch src new) as (m & Hcopy & Hm).
  { by eapply page_at_leaf. } { exact (page_at_leaf dm1 r s1 scratch _ Hcur1 Hsc Hls eq_refl). }
  { apply pages_disjoint; [|done|done]. eapply leaf_phys_page; [apply Hcur|done]. }
  { by rewrite Hram1. }
  destruct (cow_unmaps dm r self virt scratch l pg blk pa Hready dm1 s1 m Hmid)
    as (s3 & s4 & Hun1 & Hun2 & Hcur4 & Hlv4 & Hrest4 & Hpg4 & Hpa4 & Hnx4 & Hln4 & Hram4).
  destruct (map_fresh dm1 r s4 new virt) as (s5 & dm5 & pt & Heq & Hmw); try done.
  { unfold capacity in *. rewrite Hnx4, Hln4, Hln. lia. }
  { intros l'. by rewrite Hlv4. }
  { intros _. rewrite Hpg4, lookup_insert_ne by done. done. }
  pose proof (mw_rest _ _ _ _ _ _ _ _ Hmw) as Hrest5.
  assert (environment s5 = environment s4) as Henv5 by (by rewrite Hrest5).
  rewrite <- Henv5 in Heq.
  pose proof (map_written_current _ _ _ _ _ _ _ _ Hcur4 Hmw) as Hcur5.
  set (mps := fresh_mapped_pages (mapped_pages s4) r new virt) in *.
  pose proof (current_flush _ _ _ (current_mapped_pages _ _ _ mps Hcur5)) as Hcurf.
  eexists _, dm5. split; [|split; [exact Hcurf|split_and!]].
  - rewrite (cow_precheck dm r self virt scratch l pg blk pa Hready), Htmp. cbn [mbind outcome_bind].
    rewrite Hcopy. cbn [mbind outcome_bind]. rewrite Hun1. cbn [mbind outcome_bind].
    rewrite Hun2. cbn [mbind outcome_bind]. exact Heq.
  - intros w. rewrite (map_written_translate dm1 r s4 dm5 s5 _ pt new virt w Hcur4 Hmw Hcurf);
      [|by apply same_walk_ext|apply Hnew].
    case_decide as Hpgw; [done|].
    by rewrite (translate_leaf dm1 r s4), Hrest4, (translate_leaf dm r self).
  - cbn. rewrite Hrest5. cbn. by rewrite Hram4, <- Hram1.
  - cbn. unfold mps, fresh_mapped_pages. by rewrite decide_True, Hpg4.
  - cbn. rewrite Hrest5. cbn. done.
Qed.
End cow.
