(* ===== verification/MappingExamples.v ===== *)
(** * The page mapper on concrete memories

    Executable checks of the mapper's invariant, and concrete runs of [map], [fork],
    [unmap] and [cow] that instantiate the theorems of MappingSpec and MappingCow. *)

From S2P Require Import Prelude Physical Table Mapping MappingTree MappingSpec MappingCow.

Section check.
Context {E : Type} `{!Environment E}.
Implicit Types self : Mapper E.

#[local] Abbreviation PSB := (PAGING_STRUCTURE_BASE E).

Definition check_table self (t : Z) : bool :=
  match tables self !! t with
  | Some tb => bool_decide (length (entries tb) = ENTRY_COUNT)
  | None => false
  end.

Definition check_blank self (t : Z) : bool :=
  forallb (λ i, match ent self t i with
                | Some e => bytes e =? 0
                | None => false
                end) (seqZ 0 512).

Definition check_region self : bool :=
  bool_decide (0 ≤ PSB ≤ base self) &&
  bool_decide ((base self - PSB) mod 0x1000 = 0) &&
  bool_decide (base self - PSB + region_length self ≤ 2 ^ 52) &&
  bool_decide (base self + region_length self ≤ 2 ^ 64) &&
  bool_decide (0 ≤ next self ≤ capacity self) &&
  forallb (λ n, check_table self (base self + n * 0x1000)) (seqZ 0 (capacity self)) &&
  forallb (λ '(_, tb), forallb (λ e, (0 <=? bytes e) && (bytes e <? 0x10000000000000000)) (entries tb))
    (map_to_list (tables self)) &&
  forallb (λ n, check_blank self (base self + n * 0x1000))
    (seqZ (next self) (capacity self - next self)).

Lemma forallb_seqZ (f : Z → bool) m n i :
  forallb f (seqZ m n) = true → m ≤ i < m + n → f i = true.
Proof. intros H Hi. rewrite forallb_forall in H. apply H, list_elem_of_In, elem_of_seqZ. lia. Qed.

Lemma check_region_ok self : check_region self = true → region_ok self.
Proof.
  unfold check_region. rewrite !andb_true_iff, !bool_decide_eq_true.
  intros [[[[[[[Hpsb Hbase] He1] He2] Hn] Htab] Hents] Hblank]. split; try done.
  - by apply Z.mod_divide.
  - intros t (n & Hn' & ->). apply (forallb_seqZ _ _ _ n) in Htab; [|lia].
    unfold check_table in Htab. destruct (tables self !! _) as [tb|]; [|done].
    apply bool_decide_eq_true in Htab. eauto.
  - intros t i e He. unfold ent in He. apply bind_Some in He as (tb & Htb & He).
    rewrite forallb_forall in Hents. specialize (Hents (t, tb)). cbv beta in Hents.
    assert (forallb (λ e, (0 <=? bytes e) && (bytes e <? 0x10000000000000000)) (entries tb) = true) as Hf
      by (apply Hents, list_elem_of_In, elem_of_map_to_list, Htb).
    rewrite forallb_forall in Hf.
    assert ((0 <=? bytes e) && (bytes e <? 0x10000000000000000) = true) as Hb
      by (by eapply Hf, list_elem_of_In, list_elem_of_lookup_2).
    unfold entry_ok, fits. lia.
  - intros t i (n & Hn' & ->) Hna Hi.
    apply (forallb_seqZ _ _ _ n) in Hblank.
    + cbv beta in Hblank. unfold check_blank in Hblank. apply (forallb_seqZ _ _ _ i) in Hblank; [|lia].
      cbv beta in Hblank. destruct (ent self (base self + n * 0x1000) i) as [[b]|]; [|done].
      apply Z.eqb_eq in Hblank. cbn in Hblank. by subst.
    + destruct (decide (n < next self)); [|lia]. exfalso. apply Hna. exists n. split; [lia|done].
Qed.

#[local] Instance place_eq_dec : EqDecision place.
Proof. solve_decision. Defined.

Definition check_owned (dm : gmap Z nat) (own : gmap Z (nat * place)) (r : Z) self : bool :=
  bool_decide (own !! r = Some (0%nat, Root)) &&
  forallb (λ '(t, (d, pl)),
    bool_decide (dm !! t = Some d) &&
    bool_decide ((t - base self) mod 0x1000 = 0) &&
    bool_decide (0 ≤ (t - base self) / 0x1000 < next self) &&
    forallb (λ i, match ent self t i with
                  | Some e =>
                      implb (bool_decide (d < 3)%nat && points d e)
                        (bool_decide (own !! child (E := E) e = Some (S d, Under t i))) &&
                      implb (negb (present e)) (negb (page_sized e))
                  | None => true
                  end) (seqZ 0 512))
    (map_to_list own).

Lemma check_owned_ok dm own r self : check_owned dm own r self = true → owned dm own r self.
Proof.
  unfold check_owned. rewrite andb_true_iff, bool_decide_eq_true, forallb_forall.
  intros [Hroot Hall].
  assert (∀ t d pl, own !! t = Some (d, pl) → dm !! t = Some d ∧ allocated self t ∧
    ∀ i e, 0 ≤ i < 512 → ent self t i = Some e →
      ((d < 3)%nat → points d e → own !! child (E := E) e = Some (S d, Under t i)) ∧
      (present e = false → page_sized e = false)) as H.
  { intros t d pl Ht. specialize (Hall (t, (d, pl))). cbv beta iota in Hall.
    rewrite !andb_true_iff, !bool_decide_eq_true in Hall.
    destruct Hall as [[[Hd Hmod] Hn] Hents]; [by apply list_elem_of_In, elem_of_map_to_list|].
    split_and!; [done| |].
    - exists ((t - base self) / 0x1000). split; [done|].
      pose proof (Z.div_mod (t - base self) 0x1000). lia.
    - intros i e Hi He. apply (forallb_seqZ _ _ _ i) in Hents; [|lia].
      cbv beta in Hents. rewrite He in Hents.
      apply andb_true_iff in Hents as [H1 H2]. split.
      + intros Hlt Hp. rewrite bool_decide_eq_true_2 in H1 by done.
        destruct (points d e); [|done]. by apply bool_decide_eq_true in H1.
      + intros Hp. rewrite Hp in H2. by destruct (page_sized e). }
  split.
  - done.
  - intros t d pl Ht. by apply (H t d pl).
  - intros t [d pl] Ht. by apply (H t d pl).
  - intros t d pl i e Ht Hd Hi He Hp. by apply (proj2 (proj2 (H t d pl Ht))).
  - intros t [d pl] i e Ht Hi He. by apply (proj2 (proj2 (H t d pl Ht)) i e).
Qed.

(** The tables reachable from [t], a table at depth [d] (of [3 - n]). *)
Fixpoint explore (n d : nat) self (t : Z) (pl : place) : gmap Z (nat * place) :=
  <[t := (d, pl)]>
    match n with
    | O => ∅
    | S n =>
        foldr (λ i acc, match ent self t i with
                        | Some e => if points d e then explore n (S d) self (child (E := E) e) (Under t i) ∪ acc
                                    else acc
                        | None => acc
                        end) ∅ (seqZ 0 512)
    end.

Definition own_of self (r : Z) : gmap Z (nat * place) := explore 3 0 self r Root.

Lemma check_tree dm r self : check_owned dm (own_of self r) r self = true → tree_ok dm r self.
Proof. intros H. exists (own_of self r). by apply check_owned_ok. Qed.
End check.

(** ** A small machine

    Fourteen paging structures at 2 MiB, of which the first is the root; no page is mapped,
    and one page, at 0x801000, is free. *)

Definition from_ret {A} (d : A) (m : outcome A) : A :=
  match m with
  | Ret a => a
  | Panic _ => d
  end.

Definition is_ret {A} (m : outcome A) : bool :=
  match m with
  | Ret _ => true
  | Panic _ => false
  end.

Lemma from_ret_eq {A} (d : A) (m : outcome A) : is_ret m = true → m = Ret (from_ret d m).
Proof. by destruct m. Qed.

Definition ex_base : Z := PAGING_STRUCTURE_BASE_ADDR + 0x200000.
Definition ex_scratch : Z := 0xffffffffc0000000.

Definition ex_blank : Mapper X86_64BareMetal :=
  mkMapper ex_base (14 * 0x1000) 1 ∅
    (mkPageAllocator ({[0x801000]} :: replicate 7 ∅))
    (mkBareMetal 0x200000 0)
    (list_to_map ((λ n, (ex_base + n * 0x1000, table_default)) <$> seqZ 0 14))
    ∅.

(** A page mapped at 0x1000, and the same after a fork. *)
Definition ex_mapped : Mapper X86_64BareMetal :=
  fst (from_ret (ex_blank, Ok tt) (map ex_blank 0x800000 0x1000)).
Definition ex_forked : Mapper X86_64BareMetal * Z :=
  from_ret (ex_blank, 0) (fork ex_mapped ex_base).

Definition ex_dm (self : Mapper X86_64BareMetal) (roots : list Z) : gmap Z nat :=
  foldr (λ r acc, (fst <$> own_of self r) ∪ acc) ∅ roots.

Definition ex_check (self : Mapper X86_64BareMetal) (roots : list Z) : bool :=
  check_region self &&
  forallb (λ r, check_owned (ex_dm self roots) (own_of self r) r self) roots.

Lemma ex_check_ok self roots r :
  ex_check self roots = true → paging_structure_base (environment self) = Ret r → r ∈ roots →
  current (ex_dm self roots) r self ∧ ∀ r2, r2 ∈ roots → tree_ok (ex_dm self roots) r2 self.
Proof.
  unfold ex_check. rewrite andb_true_iff, forallb_forall. intros [Hr Ho] Hb Hin.
  assert (∀ r2, r2 ∈ roots → tree_ok (ex_dm self roots) r2 self) as Ht
    by (intros r2 Hr2; apply check_tree, Ho; by apply list_elem_of_In).
  split; [|done]. split; [by apply check_region_ok|done|by apply Ht].
Qed.

Definition ex_child : Z := snd ex_forked + PAGING_STRUCTURE_BASE_ADDR.

Lemma ex_blank_check : ex_check ex_blank [ex_base] = true.
Proof. vm_compute. reflexivity. Qed.
Lemma ex_mapped_check : ex_check ex_mapped [ex_base] = true.
Proof. vm_compute. reflexivity. Qed.
Lemma ex_forked_check : ex_check ex_forked.1 [ex_base; ex_child] = true.
Proof. vm_compute. reflexivity. Qed.

Lemma ex_mapped_root : paging_structure_base (environment ex_mapped) = Ret ex_base.
Proof. vm_compute. reflexivity. Qed.
Lemma ex_forked_root : paging_structure_base (environment ex_forked.1) = Ret ex_base.
Proof. vm_compute. reflexivity. Qed.

Lemma ex_blank_ok : current (ex_dm ex_blank [ex_base]) ex_base ex_blank.
Proof.
  refine (proj1 (ex_check_ok ex_blank [ex_base] ex_base ex_blank_check _ _)); [reflexivity|].
  by apply list_elem_of_singleton.
Qed.

Lemma ex_mapped_ok : current (ex_dm ex_mapped [ex_base]) ex_base ex_mapped.
Proof.
  refine (proj1 (ex_check_ok ex_mapped [ex_base] ex_base ex_mapped_check ex_mapped_root _)).
  by apply list_elem_of_singleton.
Qed.

Lemma ex_forked_ok :
  current (ex_dm ex_forked.1 [ex_base; ex_child]) ex_base ex_forked.1 ∧
  tree_ok (ex_dm ex_forked.1 [ex_base; ex_child]) ex_child ex_forked.1.
Proof.
  destruct (ex_check_ok ex_forked.1 [ex_base; ex_child] ex_base ex_forked_check ex_forked_root)
    as [H1 H2]; [by apply list_elem_of_here|].
  split; [exact H1|]. apply H2. apply list_elem_of_further. by apply list_elem_of_singleton.
Qed.

(** ** The theorems on the machine *)

Lemma ex_blank_leaf : leaf ex_blank ex_base 0x1000 = None.
Proof. vm_compute. reflexivity. Qed.

Lemma page_addr_check a : bool_decide (0 ≤ a < 2 ^ 52) && bool_decide (a mod 0x1000 = 0) = true → page_addr a.
Proof.
  rewrite andb_true_iff, !bool_decide_eq_true. intros [Ha Hm]. split; [done|]. by apply Z.mod_divide.
Qed.

Lemma map_translates_witness :
  ∃ self' dm', map ex_blank 0x800000 0x1000 = Ret (self', Ok tt) ∧ current dm' ex_base self' ∧
    translate self' 0x1234 = Ret (Some 0x800234) ∧ translate self' 0x2234 = translate ex_blank 0x2234.
Proof.
  destruct (map_translates (ex_dm ex_blank [ex_base]) ex_base ex_blank 0x800000 0x1000)
    as (self' & dm' & Heq & Hcur & _ & Htr & _).
  - exact ex_blank_ok.
  - vm_compute. discriminate.
  - intros l. rewrite ex_blank_leaf. discriminate.
  - apply page_addr_check. reflexivity.
  - by exists 1.
  - intros _. vm_compute. reflexivity.
  - exists self', dm'. split; [exact Heq|]. split; [exact Hcur|].
    split; rewrite Htr; reflexivity.
Defined.

Definition ex_leaf : LeafEntry := default (mkLeaf 0 0 0 Normal) (leaf ex_mapped ex_base 0x1000).

Lemma ex_mapped_leaf : leaf ex_mapped ex_base 0x1000 = Some ex_leaf.
Proof. vm_compute. reflexivity. Qed.

Lemma unmap_last_witness :
  ∃ self', unmap ex_mapped 0x1000 = Ret (self', Ok tt) ∧ translate self' 0x1234 = Ret None ∧
    mapped_pages self' = delete (leaf_phys_addr ex_leaf) (mapped_pages ex_mapped).
Proof.
  destruct (unmap_last (ex_dm ex_mapped [ex_base]) ex_base ex_mapped 0x1000 ex_leaf)
    as (self' & Heq & _ & Htr & Hmp & _).
  - exact ex_mapped_ok.
  - exact ex_mapped_leaf.
  - by exists 1.
  - intros _. exists (mkMappedPage 0x800000 Normal 1 {[(0x200000, 0x1000)]}).
    split; [vm_compute; reflexivity|cbn; lia].
  - exists self'. split; [exact Heq|]. split; [rewrite Htr; reflexivity|]. exact Hmp.
Defined.

Definition ex_forked_leaf : LeafEntry :=
  default (mkLeaf 0 0 0 Normal) (leaf ex_forked.1 ex_base 0x1000).
Definition ex_pg : MappedPage :=
  default (mkMappedPage 0 Normal 0 ∅) (mapped_pages ex_forked.1 !! leaf_phys_addr ex_forked_leaf).
Definition ex_forked_dm : gmap Z nat := ex_dm ex_forked.1 [ex_base; ex_child].

Lemma ex_forked_leaf_eq : leaf ex_forked.1 ex_base 0x1000 = Some ex_forked_leaf.
Proof. vm_compute. reflexivity. Qed.
Lemma ex_forked_size : leaf_page_size ex_forked_leaf = Normal.
Proof. vm_compute. reflexivity. Qed.
Lemma ex_forked_pg : mapped_pages ex_forked.1 !! leaf_phys_addr ex_forked_leaf = Some ex_pg.
Proof. vm_compute. reflexivity. Qed.
Lemma ex_pg_refs : refs ex_pg = 2.
Proof. vm_compute. reflexivity. Qed.
Lemma ex_forked_alias : (ex_base - PAGING_STRUCTURE_BASE X86_64BareMetal, 0x1000) ∈ aliasing_paging_structures ex_pg.
Proof. apply (bool_decide_eq_true_1 _). vm_compute. reflexivity. Qed.

Lemma ex_forked_private :
  forallb (λ d, negb (bool_decide (table_at ex_forked.1 ex_child d 0x1000 = Some (leaf_table ex_forked_leaf))))
    [0; 1; 2; 3]%nat = true.
Proof. vm_compute. reflexivity. Qed.

Lemma ex_forked_other :
  other_alias ex_forked_dm ex_base ex_forked.1 ex_pg 0x1000 ex_forked_leaf (snd ex_forked).
Proof.
  split_and!.
  - exists 0x1000. vm_compute. reflexivity.
  - exact (proj2 ex_forked_ok).
  - eexists. vm_compute. reflexivity.
  - intros d Hd Ht. pose proof ex_forked_private as Hf. rewrite forallb_forall in Hf.
    specialize (Hf d). rewrite bool_decide_eq_true_2 in Hf by exact Ht.
    assert (In d [0; 1; 2; 3]%nat) as Hin by (cbn; lia). by apply Hf in Hin.
Qed.


(** The parent has unmapped the page the child still maps. *)
Definition ex_unmapped : Mapper X86_64BareMetal :=
  fst (from_ret (ex_blank, Ok tt) (unmap ex_forked.1 0x1000)).
Definition ex_unmapped_pg : MappedPage :=
  default (mkMappedPage 0 Normal 0 ∅) (mapped_pages ex_unmapped !! 0x800000).
Definition ex_unmapped_dm : gmap Z nat := ex_dm ex_unmapped [ex_base; ex_child].

Lemma ex_unmapped_check : ex_check ex_unmapped [ex_base; ex_child] = true.
Proof. vm_compute. reflexivity. Qed.
Lemma ex_unmapped_root : paging_structure_base (environment ex_unmapped) = Ret ex_base.
Proof. vm_compute. reflexivity. Qed.
Lemma ex_unmapped_leaf : leaf ex_unmapped ex_base 0x1000 = None.
Proof. vm_compute. reflexivity. Qed.
Lemma ex_unmapped_pg_eq : mapped_pages ex_unmapped !! 0x800000 = Some ex_unmapped_pg.
Proof. vm_compute. reflexivity. Qed.
Lemma ex_unmapped_aliases :
  aliasing_paging_structures ex_unmapped_pg = {[(ex_child - PAGING_STRUCTURE_BASE_ADDR, 0x1000)]}.
Proof. vm_compute. reflexivity. Qed.

Lemma ex_unmapped_ok :
  current ex_unmapped_dm ex_base ex_unmapped ∧ tree_ok ex_unmapped_dm ex_child ex_unmapped.
Proof.
  destruct (ex_check_ok ex_unmapped [ex_base; ex_child] ex_base ex_unmapped_check ex_unmapped_root)
    as [H1 H2]; [by apply list_elem_of_here|].
  split; [exact H1|]. apply H2. apply list_elem_of_further. by apply list_elem_of_singleton.
Qed.

Lemma ex_unmapped_map_aliases :
  aliases_map ex_unmapped_dm ex_base ex_unmapped ex_unmapped_pg 0x1000.
Proof.
  intros a. rewrite ex_unmapped_aliases. intros ->%elem_of_singleton. cbn [fst].
  change (PAGING_STRUCTURE_BASE X86_64BareMetal) with PAGING_STRUCTURE_BASE_ADDR. rewrite Z.sub_add.
  split; [exact (proj2 ex_unmapped_ok)|]. right. eexists. vm_compute. reflexivity.
Qed.

Lemma map_shares_witness :
  ∃ self', map ex_unmapped 0x800000 0x1000 = Ret (self', Ok tt) ∧
    translate self' 0x1234 = Ret (Some 0x800234) ∧ leaf_writable self' ex_child 0x1000 false.
Proof.
  destruct (map_shares ex_unmapped_dm ex_base ex_unmapped 0x800000 0x1000 ex_unmapped_pg)
    as (self' & dm' & Heq & _ & Htr & _ & Hro).
  - exact (proj1 ex_unmapped_ok).
  - vm_compute. discriminate.
  - intros l. rewrite ex_unmapped_leaf. discriminate.
  - apply page_addr_check. reflexivity.
  - by exists 1.
  - reflexivity.
  - exact ex_unmapped_pg_eq.
  - exact ex_unmapped_map_aliases.
  - exists self'. split; [exact Heq|]. split; [rewrite Htr; reflexivity|].
    pose proof (Hro (ex_child - PAGING_STRUCTURE_BASE_ADDR, 0x1000)) as Hr. cbn [fst] in Hr.
    change (PAGING_STRUCTURE_BASE X86_64BareMetal) with PAGING_STRUCTURE_BASE_ADDR in Hr.
    rewrite Z.sub_add in Hr. apply Hr.
    apply elem_of_union_r. rewrite ex_unmapped_aliases. by apply elem_of_singleton.
Defined.

(** Two pages of memory. *)
Definition ex_ram : gmap Z Z := list_to_map ((λ i, (0x800000 + i, i mod 251)) <$> seqZ 0 0x2000).

Lemma ex_ram_lookup i : 0 ≤ i < 0x2000 → ex_ram !! (0x800000 + i) = Some (i mod 251).
Proof.
  intros Hi. unfold ex_ram. apply elem_of_list_to_map.
  - rewrite <- list_fmap_compose. apply NoDup_fmap_2; [|apply NoDup_seqZ].
    intros a b Hab. cbn in Hab. lia.
  - apply list_elem_of_fmap. exists i. split; [done|]. apply elem_of_seqZ. lia.
Qed.

(** The forked machine with that memory. *)
Definition ex_cow : Mapper X86_64BareMetal := with_ram ex_forked.1 ex_ram.

Lemma same_walk_ram (self : Mapper X86_64BareMetal) m : same_walk self (with_ram self m).
Proof. by apply same_walk_ext. Qed.

Lemma ex_cow_same_walk : same_walk ex_forked.1 ex_cow.
Proof. exact (same_walk_ram ex_forked.1 ex_ram). Qed.

Lemma ex_cow_other :
  other_alias ex_forked_dm ex_base ex_cow ex_pg 0x1000 ex_forked_leaf (snd ex_forked).
Proof.
  destruct ex_forked_other as (Hv & Ht & Hm & Hp). split_and!.
  - exact Hv.
  - exact (tree_ok_same_walk _ _ _ _ ex_cow_same_walk Ht).
  - rewrite <- ex_cow_same_walk. exact Hm.
  - intros d Hd. rewrite <- ex_cow_same_walk. exact (Hp d Hd).
Qed.

Lemma ex_forked_phys : leaf_phys_addr ex_forked_leaf = 0x800000.
Proof. vm_compute. reflexivity. Qed.
Lemma ex_forked_scratch : leaf ex_forked.1 ex_base ex_scratch = None.
Proof. vm_compute. reflexivity. Qed.
Lemma ex_forked_alloc :
  allocate (page_allocator ex_forked.1) 12 = Ret (Some (mkBlock 0x801000 12), mkPageAllocator (replicate 8 ∅)).
Proof. vm_compute. reflexivity. Qed.
Lemma ex_forked_free : mapped_pages ex_forked.1 !! 0x801000 = None.
Proof. vm_compute. reflexivity. Qed.
Lemma ex_forked_room : bool_decide (next ex_forked.1 + 6 ≤ capacity ex_forked.1) = true.
Proof. vm_compute. reflexivity. Qed.

Lemma cow_ready_ram dm r (self : Mapper X86_64BareMetal) m virt scratch l pg blk pa :
  current dm r self → leaf self r virt = Some l ∧ leaf_page_size l = Normal →
  (0x1000 | virt) ∧ user_half virt →
  mapped_pages self !! leaf_phys_addr l = Some pg ∧ 1 < refs pg < 2 ^ 64 →
  (r - PAGING_STRUCTURE_BASE X86_64BareMetal, virt) ∈ aliasing_paging_structures pg →
  (∃ c, other_alias dm r (with_ram self m) pg virt l c) →
  (0x1000 | scratch) ∧ ¬ user_half scratch ∧ leaf self r scratch = None →
  allocate (page_allocator self) 12 = Ret (Some blk, pa) →
  page_addr (Physical.get_addr blk) ∧ mapped_pages self !! Physical.get_addr blk = None →
  (∀ j, 0 ≤ j < 0x1000 → is_Some (m !! (leaf_phys_addr l + j)) ∧ is_Some (m !! (Physical.get_addr blk + j))) →
  next self + 6 ≤ capacity self →
  cow_ready dm r (with_ram self m) virt scratch l pg blk pa.
Proof. intros. split; try done. by apply current_ram. Qed.

Lemma ex_cow_ready :
  cow_ready ex_forked_dm ex_base ex_cow 0x1000 ex_scratch ex_forked_leaf ex_pg
    (mkBlock 0x801000 12) (mkPageAllocator (replicate 8 ∅)).
Proof.
  apply cow_ready_ram.
  - exact (proj1 ex_forked_ok).
  - exact (conj ex_forked_leaf_eq ex_forked_size).
  - split; [by exists 1|reflexivity].
  - split; [exact ex_forked_pg|]. rewrite ex_pg_refs. lia.
  - exact ex_forked_alias.
  - eexists. exact ex_cow_other.
  - split_and!; [by apply Z.mod_divide|discriminate|exact ex_forked_scratch].
  - exact ex_forked_alloc.
  - split; [apply page_addr_check; reflexivity|exact ex_forked_free].
  - intros j Hj. rewrite ex_forked_phys. cbn [Physical.get_addr addr].
    replace (0x801000 + j) with (0x800000 + (0x1000 + j)) by lia.
    rewrite !ex_ram_lookup by lia. split; eexists; reflexivity.
  - exact (bool_decide_eq_true_1 _ ex_forked_room).
Qed.

Lemma cow_copies_witness :
  ∃ self', cow ex_cow 0x1000 ex_scratch = Ret (self', Ok tt) ∧
    translate self' 0x1234 = Ret (Some 0x801234) ∧
    ram self' !! 0x801234 = ram ex_cow !! (leaf_phys_addr ex_forked_leaf + 0x234).
Proof.
  destruct (cow_copies ex_forked_dm ex_base ex_cow 0x1000 ex_scratch ex_forked_leaf ex_pg
              (mkBlock 0x801000 12) (mkPageAllocator (replicate 8 ∅)) ex_cow_ready)
    as (self' & dm' & Heq & _ & Htr & Hram & _).
  exists self'. split; [exact Heq|]. split; [rewrite Htr; reflexivity|].
  unfold copied in Hram. specialize (Hram 0x801234). rewrite decide_True in Hram by (cbn; lia). exact Hram.
Defined.
