(* ===== verification/MappingLimits.v ===== *)
(** * Initialisation, error paths and limits of the page mapper

    [new_mapper] establishes the invariant of MappingTree; the remaining theorems are the
    behaviours callers have to avoid or that the mapper gets wrong. *)

From S2P Require Import Prelude Physical Table Mapping MappingTree MappingSpec MappingExamples.

(** ** Zeroing *)

Lemma ldiff_ones_64 b : fits 64 b → Z.ldiff b (Z.ones 64) = 0.
Proof.
  intros [Hb Hlt]. destruct (decide (b = 0)) as [->|]; [done|].
  apply Z.ldiff_ones_r_low; [done|]. apply Z.log2_lt_pow2; lia.
Qed.

Lemma zero_entry_inside lo hi a e :
  entry_ok e → lo ≤ a → a + 8 ≤ hi → zero_entry lo hi a e = entry_default.
Proof.
  intros He Hlo Hhi. unfold zero_entry.
  change (seqZ 0 8) with [0; 1; 2; 3; 4; 5; 6; 7]. cbn [foldl].
  rewrite !decide_True by lia. cbn [bytes]. rewrite !Z.ldiff_ldiff_l.
  unfold entry_default. f_equal. by apply ldiff_ones_64.
Qed.

Lemma zero_entry_below lo hi a e : a + 8 ≤ lo → zero_entry lo hi a e = e.
Proof.
  intros Hlo. unfold zero_entry. change (seqZ 0 8) with [0; 1; 2; 3; 4; 5; 6; 7]. cbn [foldl].
  by rewrite !decide_False by lia.
Qed.

Lemma zero_entry_ok lo hi a e : entry_ok e → entry_ok (zero_entry lo hi a e).
Proof.
  unfold zero_entry. generalize (seqZ 0 8). intros l. revert e.
  induction l as [|k l IH]; intros e He; [done|]. cbn [foldl]. apply IH. case_decide; [|done].
  unfold entry_ok in *. cbn [bytes]. apply fits_testbit; [apply Z.ldiff_nonneg; left; apply He|done|].
  intros i Hi. rewrite Z.ldiff_spec. by rewrite (testbit_fits 64) by done.
Qed.

Section limits.
Context {E : Type} `{!Environment E}.
Implicit Types self : Mapper E.

#[local] Abbreviation PSB := (PAGING_STRUCTURE_BASE E).

(** The [i]-th entry of the table at [t] in raw memory. *)
Definition mem_entry (ts : gmap Z PagingStruct) (t i : Z) : option PagingStructEntry :=
  tb ← ts !! t; entries tb !! Z.to_nat i.

Lemma mem_entry_zeroes lo hi ts t i :
  0 ≤ i → mem_entry (write_zeroes lo hi ts) t i = zero_entry lo hi (t + 8 * i) <$> mem_entry ts t i.
Proof.
  intros Hi. unfold mem_entry, write_zeroes. rewrite map_lookup_imap.
  destruct (ts !! t) as [tb|]; [|done]. cbn. rewrite list_lookup_imap.
  by rewrite Z2Nat.id by done.
Qed.

(** C39. [Mapper::new] on a region whose tables exist returns a mapper that satisfies the
    region invariant: the boot tables keep their entries, every later table is empty, and
    no page is accounted for. *)
Theorem new_mapper_region base length pa env ts m :
  0 ≤ PSB ≤ base → (0x1000 | base - PSB) → base - PSB + length ≤ 2 ^ 52 → base + length ≤ 2 ^ 64 →
  BOOT_PAGE_TABLE_COUNT * 0x1000 < length →
  (∀ n, 0 ≤ n < length / 0x1000 → ∃ tb, ts !! (base + n * 0x1000) = Some tb ∧
     List.length (entries tb) = ENTRY_COUNT) →
  (∀ t i e, mem_entry ts t i = Some e → entry_ok e) →
  ∃ self, new_mapper base length BOOT_PAGE_TABLE_COUNT pa env ts m = Ret self ∧
    region_ok (E := E) self ∧ mapped_pages self = ∅ ∧
    (∀ n i, 0 ≤ n < BOOT_PAGE_TABLE_COUNT → 0 ≤ i < 512 →
       ent self (base + n * 0x1000) i = mem_entry ts (base + n * 0x1000) i) ∧
    (∀ n i, BOOT_PAGE_TABLE_COUNT ≤ n < length / 0x1000 → 0 ≤ i < 512 →
       ent self (base + n * 0x1000) i = Some entry_default).
Proof.
  unfold BOOT_PAGE_TABLE_COUNT. intros Hpsb Hbase He1 He2 Hlen Htab Hents.
  assert (7 ≤ length / 0x1000) as Hcap by (apply Z.div_le_lower_bound; lia).
  pose proof (Z.mul_div_le length 0x1000 ltac:(lia)) as Hdiv.
  set (ts' := write_zeroes (base + 7 * 0x1000) (base + 7 * 0x1000 + (length - 7 * 0x1000)) ts).
  set (self := mkMapper (E := E) base length 7 ∅ pa env ts' m).
  assert (∀ t i, 0 ≤ i → ent self t i =
    zero_entry (base + 7 * 0x1000) (base + 7 * 0x1000 + (length - 7 * 0x1000)) (t + 8 * i) <$>
    mem_entry ts t i) as Hent by (intros t i Hi; by apply mem_entry_zeroes).
  assert (∀ n i, 7 ≤ n < length / 0x1000 → 0 ≤ i < 512 →
            ent self (base + n * 0x1000) i = Some entry_default) as Hblank.
  { intros n i Hn Hi. rewrite Hent by lia. destruct (Htab n ltac:(lia)) as (tb & Htb & Hl).
    destruct (lookup_lt_is_Some_2 (entries tb) (Z.to_nat i)) as [e He];
      [rewrite Hl; unfold ENTRY_COUNT; lia|].
    assert (mem_entry ts (base + n * 0x1000) i = Some e) as Hm by (unfold mem_entry; by rewrite Htb).
    rewrite Hm. cbn [fmap option_fmap option_map]. f_equal. apply zero_entry_inside; [by eapply Hents|lia|lia]. }
  exists self. split_and!; [| |done| |done].
  - unfold new_mapper, BOOT_PAGE_TABLE_COUNT. rewrite checked_add_ok by lia. cbn [mbind outcome_bind].
    by rewrite checked_sub_ok by lia.
  - split; try done.
    + intros t (n & Hn & ->). cbn. unfold ts', write_zeroes. rewrite map_lookup_imap.
      destruct (Htab n Hn) as (tb & -> & Hl). eexists. split; [done|]. cbn. by rewrite length_imap.
    + intros t i e. rewrite ent_max, Hent by lia. intros (e0 & He0 & ->)%fmap_Some.
      apply zero_entry_ok. by eapply Hents.
    + intros t i (n & Hn & ->) Hna Hi. apply Hblank; [|done]. split; [|apply Hn].
      destruct (decide (n < 7)); [|lia]. exfalso. apply Hna. exists n. cbn. split; [lia|done].
  - intros n i Hn Hi. rewrite Hent by lia.
    destruct (mem_entry ts (base + n * 0x1000) i) as [e|]; [|done]. cbn [fmap option_fmap option_map]. f_equal.
    apply zero_entry_below. lia.
Qed.

(** ** Error paths *)

Lemma misaligned_mask v : ¬ (0x1000 | v) → Z.land v map_MASK_11_0 ≠ 0.
Proof. intros Hv Hm. apply Hv. by apply (aligned_mask 12). Qed.


(** [alloc_page_at] on an address that is not page aligned has already taken a page
    from the allocator when [map] refuses the address: the caller gets an error and the
    page is gone. *)
Theorem alloc_page_at_misaligned_leaks self virt blk pa :
  allocate (page_allocator self) 12 = Ret (Some blk, pa) → (0x1000 | Physical.get_addr blk) →
  ¬ (0x1000 | virt) →
  alloc_page_at self virt = Ret (with_page_allocator self pa, Err (MisalignedAddress virt Normal)).
Proof.
  intros Hall Hblk Hv. unfold alloc_page_at. rewrite Hall. cbn [mbind outcome_bind].
  unfold map. rewrite decide_False by (intros Hx; apply Hx; by apply (aligned_mask 12)).
  by rewrite decide_True by (by apply misaligned_mask).
Qed.

(** [new_table] does not look at the length of the region: once every table has been
    handed out it returns an address past its end, and goes on counting. *)
Theorem new_table_overruns self :
  fits 64 (base self) → fits 64 (next self + 1) → capacity self ≤ next self → 0 ≤ next self →
  base self + next self * 0x1000 < 2 ^ 64 → (0x1000 | region_length self) →
  ∃ table, new_table self = Ret (with_next self (next self + 1), table) ∧
    base self + region_length self ≤ table ∧ ¬ in_region self table.
Proof.
  intros Hb Hn Hcap Hpos Hend [q Hq]. exists (base self + next self * 0x1000).
  assert (capacity self = q) as Hc by (unfold capacity; rewrite Hq; by apply Z.div_mul).
  split_and!.
  - unfold new_table, wrapping_add. rewrite Z.mod_small by done. by rewrite checked_add_ok.
  - lia.
  - intros (n & Hn' & Heq). lia.
Qed.
End limits.

(** ** Witnesses *)

Lemma new_mapper_region_witness :
  ∃ self, new_mapper ex_base (14 * 0x1000) BOOT_PAGE_TABLE_COUNT Physical.new (mkBareMetal 0x200000 0)
      (tables ex_mapped) ∅ = Ret self ∧
    region_ok self ∧ ent self (ex_base + 8 * 0x1000) 1 = Some entry_default.
Proof.
  pose proof (cur_region _ _ _ ex_mapped_ok) as Hr.
  destruct (new_mapper_region (E := X86_64BareMetal) ex_base (14 * 0x1000) Physical.new
    (mkBareMetal 0x200000 0) (tables ex_mapped) ∅) as (self & Heq & Hreg & _ & _ & Hblank).
  - split; discriminate.
  - by apply Z.mod_divide.
  - discriminate.
  - discriminate.
  - reflexivity.
  - intros n Hn. apply (region_tables _ Hr). by exists n.
  - intros t i e He. by apply (region_entries _ Hr t i).
  - exists self. split; [exact Heq|]. split; [exact Hreg|].
    apply Hblank; [|lia]. split; [discriminate|reflexivity].
Defined.

Lemma ex_mapped_leaf_inside : leaf ex_mapped ex_base 0x1234 = Some ex_leaf.
Proof. vm_compute. reflexivity. Qed.


Lemma alloc_page_at_misaligned_leaks_witness :
  alloc_page_at ex_blank 0x1234 =
  Ret (with_page_allocator ex_blank (mkPageAllocator (replicate 8 ∅)), Err (MisalignedAddress 0x1234 Normal)).
Proof.
  apply (alloc_page_at_misaligned_leaks ex_blank 0x1234 (mkBlock 0x801000 12)).
  - vm_compute. reflexivity.
  - by apply Z.mod_divide.
  - intros Hd. apply Z.mod_divide in Hd; [discriminate|done].
Defined.

Lemma new_table_overruns_witness :
  ∃ self' table, new_table (with_next ex_blank 14) = Ret (self', table) ∧
    ¬ in_region (with_next ex_blank 14) table.
Proof.
  destruct (new_table_overruns (with_next ex_blank 14)) as (table & Heq & _ & Hout).
  - split; [discriminate|reflexivity].
  - split; [discriminate|reflexivity].
  - discriminate.
  - discriminate.
  - reflexivity.
  - by apply Z.mod_divide.
  - eexists _, table. split; [exact Heq|exact Hout].
Defined.

(** ** Fork and bit 12 *)

(** [recursively_clone] sets a table's address and then ORs in the source entry's
    flags; [ALL_FLAGS] contains bit 12, which in a table pointer is an address bit, so the
    cloned pointer is the new table's address with bit 12 of the source pointer added. *)
Theorem clone_pointer_address (e src : PagingStructEntry) dst_table_addr :
  entry_ok e → page_addr dst_table_addr →
  Table.get_addr (set_flags (set_flags (set_addr e dst_table_addr) (get_flags src ALL_FLAGS) true) RW_FLAG true) =
  Z.lor dst_table_addr (Z.land (Table.get_addr src) 0x1000).
Proof.
  intros He Hd. unfold Table.get_addr at 1. apply Z.bits_inj'. intros i Hi.
  rewrite Z.land_spec, Z.lor_spec, Z.land_spec. fold (entry_bit
    (set_flags (set_flags (set_addr e dst_table_addr) (get_flags src ALL_FLAGS) true) RW_FLAG true) i).
  rewrite !set_flags_lor_bit, set_addr_bit by done. rewrite testbit_MASK_51_12.
  unfold get_flags, Table.get_addr. rewrite !Z.land_spec, testbit_MASK_51_12.
  destruct (decide (12 ≤ i < 52)) as [Hin|Hout].
  - rewrite bool_decide_eq_true_2 by done.
    assert (Z.testbit RW_FLAG i = false) as -> by (apply (testbit_fits 2); [done|done|lia]).
    assert (Z.testbit ALL_FLAGS i = Z.testbit 0x1000 i) as ->; [|btauto].
    destruct (decide (i = 12)) as [->|]; [done|].
    rewrite (testbit_fits 13 ALL_FLAGS), (testbit_fits 13 0x1000); done || lia.
  - rewrite bool_decide_eq_false_2 by done. rewrite !andb_false_r. cbn [orb andb].
    rewrite orb_false_r. symmetry. rewrite <- (land_mask_page dst_table_addr) by done.
    by rewrite Z.land_spec, testbit_MASK_51_12, bool_decide_eq_false_2, andb_false_r by done.
Qed.

Lemma clone_pointer_address_witness :
  Table.get_addr (set_flags (set_flags (set_addr entry_default 0x208000)
    (get_flags (mkEntry 0x203003) ALL_FLAGS) true) RW_FLAG true) = 0x209000.
Proof.
  rewrite (clone_pointer_address entry_default (mkEntry 0x203003) 0x208000).
  - reflexivity.
  - split; [discriminate|reflexivity].
  - apply page_addr_check. reflexivity.
Defined.

(** Two pages in two page tables, forked; [switch] loads the child's root. *)
Definition ex_two : Mapper X86_64BareMetal :=
  fst (from_ret (ex_blank, Ok tt) (map ex_mapped 0x801000 0x201000)).
Definition ex_two_forked : Mapper X86_64BareMetal * Z := from_ret (ex_blank, 0) (fork ex_two ex_base).
Definition switch (self : Mapper X86_64BareMetal) (new_cr3 : Z) : Mapper X86_64BareMetal :=
  with_environment self (mkBareMetal new_cr3 (tlb_flushes (environment self))).

(** A fork whose child sees the wrong memory: the parent maps 0x1000 to the page at
    0x800000 and 0x201000 to the page at 0x801000; in the child both addresses lead to the
    page at 0x801000, because the pointer to its first page table was cloned with bit 12 of
    the parent's pointer. *)
Theorem fork_child_sees_wrong_page :
  translate ex_two 0x1000 = Ret (Some 0x800000) ∧
  translate ex_two 0x201000 = Ret (Some 0x801000) ∧
  (∃ child cr3, fork ex_two ex_base = Ret (child, cr3) ∧
     translate child 0x1000 = Ret (Some 0x800000) ∧
     translate (switch child cr3) 0x1000 = Ret (Some 0x801000) ∧
     translate (switch child cr3) 0x201000 = Ret (Some 0x801000)).
Proof.
  split; [vm_compute; reflexivity|]. split; [vm_compute; reflexivity|].
  exists ex_two_forked.1, ex_two_forked.2.
  split; [rewrite <- surjective_pairing; apply from_ret_eq; vm_compute; reflexivity|].
  split; [vm_compute; reflexivity|]. split; vm_compute; reflexivity.
Qed.
