(* ===== verification/Ethernet.v ===== *)
(** * Ethernet frames (src/net/ethernet.rs)

    Parsing ([frame_*], the methods of [Frame]) and building ([fb_*], the methods of
    [FrameBuilder], whose phantom type parameter is the index [Step]).  Loops over VLAN tags
    take fuel; every iteration consumes at least two bytes, so the length of the frame is
    enough ([skip_tags_fuel]). *)

From S2P Require Import Prelude.

(** [MACAddress], [EtherType] *)
Definition MACAddress := list Z.

Inductive EtherType :=
| ARP
| Other (bytes : list Z).

Definition ethertype_as_bytes (e : EtherType) : list Z :=
  match e with
  | ARP => [0x08; 0x06]
  | Other bytes => bytes
  end.

(** ** Parsing *)

Record Frame := mkFrame { frame_bytes : list Z }.

Definition try_from_bytes (bytes : list Z) : Result Frame string :=
  if decide (length bytes < 64 ∨ 1534 < length bytes)%nat
  then Err "Ethernet frame length out of valid bounds"%string
  else Ok (mkFrame bytes).

Definition frame_len (f : Frame) : nat := length (frame_bytes f).

Definition frame_dest (f : Frame) : outcome MACAddress := slice (frame_bytes f) 0 6.
Definition frame_src (f : Frame) : outcome MACAddress := slice (frame_bytes f) 6 12.

Definition TPID : list Z := [0x81; 0x00].

(** The loop of [vlan_tags]: [i] is never changed. *)
Fixpoint vlan_tags_go (fuel : nat) (tags : list (option (list Z))) (bytes : list Z) (i : nat)
    : outcome (list (option (list Z))) :=
  match fuel with
  | O => Panic OutOfFuel
  | S fuel =>
      '(tpid_or_ethertype, b) ← split_at bytes 2;
      if decide (tpid_or_ethertype = TPID) then
        if decide (2 ≤ i)%nat then vlan_tags_go fuel tags b i else
        '(t, _) ← split_at b 2;
        tags ← index_set tags i (Some t);
        vlan_tags_go fuel tags b i
      else Ret tags
  end.

Definition frame_vlan_tags (f : Frame) : outcome (list (option (list Z))) :=
  bytes ← slice_from (frame_bytes f) 12;
  vlan_tags_go (S (length bytes)) [None; None] bytes 0.

(** The loop of [ethertype]. *)
Fixpoint ethertype_go (fuel : nat) (bytes : list Z) : outcome EtherType :=
  match fuel with
  | O => Panic OutOfFuel
  | S fuel =>
      '(tpid_or_ethertype, b) ← split_at bytes 2;
      if decide (tpid_or_ethertype = TPID) then
        '(_, bytes) ← split_at b 2;
        ethertype_go fuel bytes
      else
        Ret (if decide (tpid_or_ethertype = [0x8; 0x6]) then ARP else Other tpid_or_ethertype)
  end.

Definition frame_ethertype (f : Frame) : outcome EtherType :=
  bytes ← slice_from (frame_bytes f) 12;
  ethertype_go (S (length bytes)) bytes.

(** The loop of [payload_with_crc]. *)
Fixpoint payload_with_crc_go (fuel : nat) (bytes : list Z) : outcome (list Z) :=
  match fuel with
  | O => Panic OutOfFuel
  | S fuel =>
      '(tpid_or_ethertype, b) ← split_at bytes 2;
      if decide (tpid_or_ethertype = TPID) then
        '(_, bytes) ← split_at b 2;
        payload_with_crc_go fuel bytes
      else Ret b
  end.

Definition frame_payload_with_crc (f : Frame) : outcome (list Z) :=
  bytes ← slice_from (frame_bytes f) 12;
  payload_with_crc_go (S (length bytes)) bytes.

(** [len - 4] of a [usize]. *)
Definition len_minus_4 (l : list Z) : outcome nat :=
  if decide (4 ≤ length l)%nat then Ret (length l - 4)%nat else Panic ArithmeticOverflow.

Definition frame_payload (f : Frame) : outcome (list Z) :=
  payload_with_crc ← frame_payload_with_crc f;
  n ← len_minus_4 payload_with_crc;
  slice payload_with_crc 0 n.

Definition frame_crc (f : Frame) : outcome (list Z) :=
  payload_with_crc ← frame_payload_with_crc f;
  n ← len_minus_4 payload_with_crc;
  slice_from payload_with_crc n.

(** ** Building *)

Inductive Step := StepDest | StepSrc | StepVLANTag | StepEtherType | StepPayload.

Record FrameBuilder (S : Step) := mkFB { fb_buf : list Z; fb_pos : nat }.
Arguments mkFB S fb_buf fb_pos : assert.
Arguments fb_buf {S}.
Arguments fb_pos {S}.

Definition fb_new (buf : list Z) : FrameBuilder StepDest := mkFB _ buf 0.

(** Every step copies bytes at the position reached and moves it. *)
Definition fb_put {S} (S' : Step) (b : FrameBuilder S) (bytes : list Z) (n : nat) :
    outcome (FrameBuilder S') :=
  buf ← copy_into (fb_buf b) (fb_pos b) (fb_pos b + n) bytes;
  Ret (mkFB S' buf (fb_pos b + n)).

Definition fb_dest (b : FrameBuilder StepDest) (dest : MACAddress) : outcome (FrameBuilder StepSrc) :=
  fb_put StepSrc b dest 6.

Definition fb_src (b : FrameBuilder StepSrc) (src : MACAddress) : outcome (FrameBuilder StepVLANTag) :=
  fb_put StepVLANTag b src 6.

Definition fb_vlan_tags (b : FrameBuilder StepVLANTag) (tags : list (option (list Z))) :
    outcome (FrameBuilder StepEtherType) :=
  let bytes := concat ((λ tag, TPID ++ tag) <$> omap id tags) in
  mfold (λ (b : FrameBuilder StepEtherType) byte,
    buf ← index_set (fb_buf b) (fb_pos b) byte;
    Ret (mkFB StepEtherType buf (fb_pos b + 1)%nat))
    bytes (mkFB StepEtherType (fb_buf b) (fb_pos b)).

(** [ethertype], for a builder that has or has not been given VLAN tags. *)
Definition fb_ethertype {S} (b : FrameBuilder S) (e : EtherType) : outcome (FrameBuilder StepPayload) :=
  fb_put StepPayload b (ethertype_as_bytes e) 2.

(** A payload writer gets the rest of the buffer and returns it with the length written.  The
    frame is a borrow of the buffer, which is returned with it. *)
Definition fb_payload (b : FrameBuilder StepPayload) (writer : list Z → outcome (list Z * nat)) :
    outcome (Frame * list Z) :=
  rest ← slice_from (fb_buf b) (fb_pos b);
  '(rest, len) ← writer rest;
  let buf := take (fb_pos b) (fb_buf b) ++ rest in
  bytes ← slice buf 0 (fb_pos b + len);
  Ret (mkFrame bytes, buf).

(** ** Parsing a header *)

(** VLAN tags on the wire. *)
Definition tags_bytes (tags : list (list Z)) : list Z := concat ((λ tag, TPID ++ tag) <$> tags).

Lemma tags_bytes_cons t tags : tags_bytes (t :: tags) = TPID ++ t ++ tags_bytes tags.
Proof. unfold tags_bytes. cbn. done. Qed.

Lemma length_tags_bytes tags :
  Forall (λ t, length t = 2%nat) tags → length (tags_bytes tags) = (4 * length tags)%nat.
Proof.
  induction 1 as [|t tags Ht _ IH]; [done|]. rewrite tags_bytes_cons.
  rewrite !length_app, IH, Ht. cbn [length TPID]. lia.
Qed.

(** What [ethertype] reports for the two bytes it finds. *)
Definition classify (et : list Z) : EtherType :=
  if decide (et = [0x8; 0x6]) then ARP else Other et.

(** Both loops skip any number of tags, one unit of fuel each. *)
Lemma ethertype_go_tags fuel tags et rest :
  Forall (λ t, length t = 2%nat) tags → length et = 2%nat → et ≠ TPID → (length tags < fuel)%nat →
  ethertype_go fuel (tags_bytes tags ++ et ++ rest) = Ret (classify et).
Proof.
  intros Htags Het Hne. revert fuel. induction Htags as [|t tags Ht _ IH]; intros fuel Hfuel;
    (destruct fuel as [|fuel]; [cbn in Hfuel; lia|]); cbn [ethertype_go].
  - change (tags_bytes [] ++ et ++ rest) with (et ++ rest).
    rewrite split_at_app by done. ret. by rewrite decide_False.
  - rewrite tags_bytes_cons, <- !app_assoc. rewrite split_at_app by done. ret.
    rewrite decide_True by done. rewrite split_at_app by done. ret. apply IH. cbn in Hfuel. lia.
Qed.

Lemma payload_go_tags fuel tags et rest :
  Forall (λ t, length t = 2%nat) tags → length et = 2%nat → et ≠ TPID → (length tags < fuel)%nat →
  payload_with_crc_go fuel (tags_bytes tags ++ et ++ rest) = Ret rest.
Proof.
  intros Htags Het Hne. revert fuel. induction Htags as [|t tags Ht _ IH]; intros fuel Hfuel;
    (destruct fuel as [|fuel]; [cbn in Hfuel; lia|]); cbn [payload_with_crc_go].
  - change (tags_bytes [] ++ et ++ rest) with (et ++ rest).
    rewrite split_at_app by done. ret. by rewrite decide_False.
  - rewrite tags_bytes_cons, <- !app_assoc. rewrite split_at_app by done. ret.
    rewrite decide_True by done. rewrite split_at_app by done. ret. apply IH. cbn in Hfuel. lia.
Qed.

(** A list either starts with a tag or does not, or is too short to tell. *)
Lemma header_cases bytes :
  (length bytes < 2)%nat ∨ (∃ b, bytes = TPID ++ b) ∨
  ∃ et b, bytes = et ++ b ∧ length et = 2%nat ∧ et ≠ TPID.
Proof.
  destruct bytes as [|x [|y b]]; [left; cbn; lia..|]. right.
  destruct (decide ([x; y] = TPID)) as [Heq|Hne].
  - left. exists b. change (x :: y :: b) with ([x; y] ++ b). by rewrite Heq.
  - right. by exists [x; y], b.
Qed.

(** With the fuel the parser starts with, both loops end: they find the header or run off
    the frame, at the same place. *)
Lemma skip_tags_fuel fuel bytes :
  (length bytes < fuel)%nat →
  (∃ tags et rest, bytes = tags_bytes tags ++ et ++ rest ∧ Forall (λ t, length t = 2%nat) tags ∧
     length et = 2%nat ∧ et ≠ TPID) ∨
  ethertype_go fuel bytes = Panic IndexOutOfBounds ∧
  payload_with_crc_go fuel bytes = Panic IndexOutOfBounds.
Proof.
  revert bytes. induction fuel as [|fuel IH]; intros bytes Hlen; [lia|]. cbn [ethertype_go payload_with_crc_go].
  destruct (header_cases bytes) as [Hs|[[b ->]|(et & b & -> & Het & Hne)]].
  - right. by rewrite split_at_short.
  - rewrite split_at_app by done. ret. rewrite !decide_True by done.
    destruct (decide (length b < 2)%nat) as [Hs|Hge]; [right; by rewrite split_at_short|].
    rewrite <- (take_drop 2 b) in Hlen |- *. rewrite split_at_app by (rewrite length_take; lia). ret.
    rewrite !length_app in Hlen. cbn [length TPID] in Hlen.
    destruct (IH (drop 2 b)) as [(tags & et & rest & -> & Htags & Het & Hne)|Hp]; [lia| |by right].
    left. exists (take 2 b :: tags), et, rest. rewrite tags_bytes_cons, <- !app_assoc.
    split_and!; try done. constructor; [rewrite length_take; lia|done].
  - left. by exists [], et, b.
Qed.

(** [ethertype] and [payload_with_crc] always come to an end, and agree: either the bytes
    after the two addresses are VLAN tags followed by an EtherType, which [ethertype]
    reports and behind which [payload_with_crc] starts, or both run off the frame. *)
Theorem frame_header_parse dest src body :
  length dest = 6%nat → length src = 6%nat →
  let f := mkFrame (dest ++ src ++ body) in
  frame_dest f = Ret dest ∧ frame_src f = Ret src ∧
  ((∃ tags et rest, body = tags_bytes tags ++ et ++ rest ∧ Forall (λ t, length t = 2%nat) tags ∧
      frame_ethertype f = Ret (classify et) ∧ frame_payload_with_crc f = Ret rest) ∨
   frame_ethertype f = Panic IndexOutOfBounds ∧ frame_payload_with_crc f = Panic IndexOutOfBounds).
Proof.
  intros Hd Hs f.
  assert (slice_from (frame_bytes f) 12 = Ret body) as Hbody.
  { unfold f; cbn [frame_bytes]. rewrite app_assoc. apply slice_from_app. rewrite length_app. lia. }
  split_and!.
  - by apply slice_prefix.
  - apply slice_app; lia.
  - unfold frame_ethertype, frame_payload_with_crc. rewrite Hbody. ret.
    destruct (skip_tags_fuel (S (length body)) body) as [(tags & et & rest & -> & Htags & Het & Hne)|Hp];
      [lia| |by right].
    left. exists tags, et, rest.
    assert (length tags < S (length (tags_bytes tags ++ et ++ rest)))%nat as Hfuel
      by (rewrite length_app, length_tags_bytes by done; lia).
    split_and!; [done|done|by apply ethertype_go_tags|by apply payload_go_tags].
Qed.

Lemma frame_header_parse_witness :
  frame_dest (mkFrame ([1; 2; 3; 4; 5; 6] ++ [7; 8; 9; 10; 11; 12] ++ [0x8; 0x6; 42])) = Ret [1; 2; 3; 4; 5; 6].
Proof.
  apply (frame_header_parse [1; 2; 3; 4; 5; 6] [7; 8; 9; 10; 11; 12] [0x8; 0x6; 42]); reflexivity.
Defined.

Lemma ethertype_go_only_tags fuel tags :
  Forall (λ t, length t = 2%nat) tags → (length tags < fuel)%nat →
  ethertype_go fuel (tags_bytes tags) = Panic IndexOutOfBounds.
Proof.
  intros Htags. revert fuel. induction Htags as [|t tags Ht _ IH]; intros fuel Hfuel;
    (destruct fuel as [|fuel]; [cbn in Hfuel; lia|]); cbn [ethertype_go]; [done|].
  rewrite tags_bytes_cons, split_at_app by done. ret.
  rewrite decide_True, split_at_app by done. ret. apply IH. cbn in Hfuel. lia.
Qed.

(** A frame that is nothing but VLAN tags passes [try_from_bytes] (64 bytes and more are
    accepted) and makes [ethertype] panic: any station can halt the kernel with it. *)
Theorem only_tags_frame_panics dest src tags :
  length dest = 6%nat → length src = 6%nat → Forall (λ t, length t = 2%nat) tags →
  (13 ≤ length tags ≤ 380)%nat →
  ∃ f, try_from_bytes (dest ++ src ++ tags_bytes tags) = Ok f ∧
    frame_ethertype f = Panic IndexOutOfBounds.
Proof.
  intros Hd Hs Htags Hn. pose proof (length_tags_bytes tags Htags) as Hlen.
  exists (mkFrame (dest ++ src ++ tags_bytes tags)). split.
  - unfold try_from_bytes. rewrite !length_app. by rewrite decide_False by lia.
  - unfold frame_ethertype. cbn [frame_bytes]. rewrite app_assoc, slice_from_app by (rewrite length_app; lia).
    ret. apply ethertype_go_only_tags; [done|lia].
Qed.

Lemma only_tags_frame_panics_witness :
  ∃ f, try_from_bytes (replicate 6 0 ++ replicate 6 0 ++ tags_bytes (replicate 13 [0; 1])) = Ok f ∧
    frame_ethertype f = Panic IndexOutOfBounds.
Proof.
  apply (only_tags_frame_panics (replicate 6 0) (replicate 6 0) (replicate 13 [0; 1])).
  - reflexivity.
  - reflexivity.
  - apply Forall_replicate. reflexivity.
  - rewrite length_replicate. lia.
Defined.

(** [vlan_tags] finds at most one tag: with any number of tags on the frame it reports
    the first and [None], unless that tag's own two bytes look like another TPID. *)
Theorem vlan_tags_reports_first dest src t tags rest :
  length dest = 6%nat → length src = 6%nat → length t = 2%nat → t ≠ TPID →
  frame_vlan_tags (mkFrame (dest ++ src ++ tags_bytes (t :: tags) ++ rest)) = Ret [Some t; None].
Proof.
  intros Hd Hs Ht Hne. unfold frame_vlan_tags. cbn [frame_bytes].
  rewrite app_assoc, slice_from_app by (rewrite length_app; lia). ret.
  rewrite tags_bytes_cons, <- !app_assoc.
  set (b := t ++ tags_bytes tags ++ rest).
  assert (length (TPID ++ b) = S (S (length b))) as Hlen by done. rewrite Hlen. cbn [vlan_tags_go].
  rewrite split_at_app by done. ret. rewrite decide_True, decide_False by (done || lia).
  unfold b. rewrite split_at_app by done. ret. unfold index_set. rewrite decide_True by (cbn; lia). ret.
  by rewrite decide_False.
Qed.

Lemma vlan_tags_reports_first_witness :
  frame_vlan_tags (mkFrame (replicate 6 0 ++ replicate 6 0 ++ tags_bytes [[0; 1]; [0; 2]] ++ [8; 6])) =
  Ret [Some [0; 1]; None].
Proof. apply (vlan_tags_reports_first (replicate 6 0) (replicate 6 0) [0; 1] [[0; 2]] [8; 6]); done. Defined.

(** ** Building and parsing back *)

(** The builder has written [w] and has [r] left. *)
Definition fb_at {S} (b : FrameBuilder S) (w r : list Z) : Prop :=
  fb_buf b = w ++ r ∧ fb_pos b = length w.

Lemma fb_put_at {S} (S' : Step) (b : FrameBuilder S) w r bytes :
  fb_at b w r → (length bytes ≤ length r)%nat →
  ∃ b' : FrameBuilder S', fb_put S' b bytes (length bytes) = Ret b' ∧
    fb_at b' (w ++ bytes) (drop (length bytes) r).
Proof.
  intros [Hb Hp] Hlen. exists (mkFB S' ((w ++ bytes) ++ drop (length bytes) r) (length w + length bytes)).
  unfold fb_put. rewrite Hb, Hp, copy_into_next by done. ret. split; [done|].
  split; [done|]. cbn [fb_pos]. by rewrite length_app.
Qed.

Lemma fb_vlan_tags_at (b : FrameBuilder StepVLANTag) w r tags :
  fb_at b w r → (length (tags_bytes (omap id tags)) ≤ length r)%nat →
  ∃ b', fb_vlan_tags b tags = Ret b' ∧
    fb_at b' (w ++ tags_bytes (omap id tags)) (drop (length (tags_bytes (omap id tags))) r).
Proof.
  intros [Hb Hp]. unfold fb_vlan_tags. fold (tags_bytes (omap id tags)).
  generalize (tags_bytes (omap id tags)). intros l Hlen.
  assert (fb_at (mkFB StepEtherType (fb_buf b) (fb_pos b)) w r) as Hat by done.
  revert Hat. generalize (mkFB StepEtherType (fb_buf b) (fb_pos b)). clear b Hb Hp.
  induction l as [|x l IH] in w, r, Hlen |- *; intros b Hat; cbn [mfold].
  - exists b. by rewrite app_nil_r.
  - destruct Hat as [Hb Hp]. rewrite Hb, Hp, index_set_next by (cbn in Hlen; lia). ret.
    destruct (IH (w ++ [x]) (drop 1 r)) with (f := mkFB StepEtherType ((w ++ [x]) ++ drop 1 r) (length w + 1))
      as (b' & Heq & Hat'); [rewrite length_drop; cbn in Hlen; lia|split; [done|by rewrite length_app]|].
    exists b'. split; [exact Heq|]. rewrite drop_drop in Hat'. by rewrite <- app_assoc in Hat'.
Qed.

(** The chain of calls of [RTL8139::transmit]. *)
Definition build_frame (buf : list Z) (dest src : MACAddress) (tags : list (option (list Z)))
    (e : EtherType) (writer : list Z → outcome (list Z * nat)) : outcome (Frame * list Z) :=
  b ← fb_dest (fb_new buf) dest;
  b ← fb_src b src;
  b ← fb_vlan_tags b tags;
  b ← fb_ethertype b e;
  fb_payload b writer.

(** A writer that puts [p] at the start of what it is given. *)
Definition writes (writer : list Z → outcome (list Z * nat)) (p : list Z) : Prop :=
  ∀ rest, (length p ≤ length rest)%nat → writer rest = Ret (p ++ drop (length p) rest, length p).

Lemma build_frame_bytes buf dest src tags e writer p :
  length dest = 6%nat → length src = 6%nat → length (ethertype_as_bytes e) = 2%nat →
  writes writer p →
  let bytes := dest ++ src ++ tags_bytes (omap id tags) ++ ethertype_as_bytes e ++ p in
  (length bytes ≤ length buf)%nat →
  build_frame buf dest src tags e writer = Ret (mkFrame bytes, bytes ++ drop (length bytes) buf).
Proof.
  intros Hd Hs He Hw bytes Hlen. unfold bytes in *. rewrite !length_app in Hlen. unfold build_frame.
  assert (fb_at (fb_new buf) [] buf) as H0 by done.
  destruct (fb_put_at StepSrc _ _ _ dest H0 ltac:(lia)) as (b1 & E1 & H1).
  unfold fb_dest. rewrite Hd in E1. rewrite E1. ret.
  destruct (fb_put_at StepVLANTag _ _ _ src H1) as (b2 & E2 & H2); [rewrite length_drop; lia|].
  unfold fb_src. rewrite Hs in E2. rewrite E2. ret.
  destruct (fb_vlan_tags_at b2 _ _ tags H2) as (b3 & E3 & H3); [rewrite !length_drop; lia|].
  rewrite E3. ret.
  destruct (fb_put_at StepPayload _ _ _ (ethertype_as_bytes e) H3) as (b4 & E4 & H4);
    [rewrite !length_drop; lia|].
  unfold fb_ethertype. rewrite He in E4. rewrite E4. ret. destruct H4 as [Hb Hp].
  unfold fb_payload. rewrite Hb, Hp. rewrite slice_from_app by done. ret.
  rewrite Hw by (rewrite !length_drop; lia). ret. rewrite take_app_length.
  rewrite slice_take by (rewrite !length_app, !length_drop; lia). ret. f_equal. f_equal.
  - f_equal. rewrite <- length_app, !app_assoc, take_app_length. by rewrite <- !app_assoc.
  - rewrite !drop_drop, <- !app_assoc. cbn [app]. do 5 f_equal. by rewrite !length_app.
Qed.

(** Parsing a frame given by its parts. *)
Lemma parse_frame dest src tags et p crc :
  length dest = 6%nat → length src = 6%nat → length et = 2%nat → et ≠ TPID →
  Forall (λ t, length t = 2%nat) tags → length crc = 4%nat →
  let g := mkFrame (dest ++ src ++ tags_bytes tags ++ et ++ p ++ crc) in
  frame_dest g = Ret dest ∧ frame_src g = Ret src ∧ frame_ethertype g = Ret (classify et) ∧
  frame_payload g = Ret p ∧ frame_crc g = Ret crc.
Proof.
  intros Hd Hs He Hne Htags Hcrc. pose proof (length_tags_bytes _ Htags) as Htl.
  set (body := tags_bytes _ ++ _ ++ p ++ crc). cbv zeta. set (g := mkFrame (dest ++ src ++ body)).
  assert (slice_from (frame_bytes g) 12 = Ret body) as Hbody.
  { unfold g; cbn [frame_bytes]. rewrite app_assoc. apply slice_from_app. rewrite length_app. lia. }
  assert (length tags < S (length body))%nat as Hfuel by (unfold body; rewrite length_app; lia).
  assert (frame_payload_with_crc g = Ret (p ++ crc)) as Hp.
  { unfold frame_payload_with_crc. rewrite Hbody. ret. by apply payload_go_tags. }
  assert (len_minus_4 (p ++ crc) = Ret (length p)) as H4.
  { unfold len_minus_4. rewrite length_app, Hcrc, decide_True by lia. f_equal. lia. }
  split_and!.
  - by apply slice_prefix.
  - apply slice_app; lia.
  - unfold frame_ethertype. rewrite Hbody. ret. by apply ethertype_go_tags.
  - unfold frame_payload. rewrite Hp. ret. rewrite H4. ret. by apply slice_prefix.
  - unfold frame_crc. rewrite Hp. ret. rewrite H4. ret. by apply slice_from_app.
Qed.


