(* ===== verification/Arp.v ===== *)
(** * ARP packets (src/net/arp.rs)

    The accessors of [ARP] ([arp_*]), the typestate builder [ARPBuilder] ([ab_*], indexed by
    its step) and [reply_writer]. *)

From S2P Require Import Prelude Ethernet.

(** [enum Opcode] and its conversions *)
Inductive Opcode := Request | Reply | Unknown.

Definition opcode_from_u16 (value : Z) : Opcode :=
  if decide (value = 1) then Request else if decide (value = 2) then Reply else Unknown.

Definition u16_from_opcode (value : Opcode) : Z :=
  match value with
  | Request => 1
  | Reply => 2
  | Unknown => 0
  end.

(** ** Parsing *)

Record ARPPacket := mkARP { arp_bytes : list Z }.

Definition arp_from_bytes (bytes : list Z) : ARPPacket := mkARP bytes.
Definition arp_len (p : ARPPacket) : nat := length (arp_bytes p).

Definition arp_hardware_address_space (p : ARPPacket) : outcome Z :=
  bytes ← slice (arp_bytes p) 0 2; from_be16 bytes.
Definition arp_protocol_address_space (p : ARPPacket) : outcome Z :=
  bytes ← slice (arp_bytes p) 2 4; from_be16 bytes.
Definition arp_hardware_address_length (p : ARPPacket) : outcome Z := index (arp_bytes p) 4.
Definition arp_protocol_address_length (p : ARPPacket) : outcome Z := index (arp_bytes p) 5.
Definition arp_opcode (p : ARPPacket) : outcome Z :=
  bytes ← slice (arp_bytes p) 6 8; from_be16 bytes.

Definition arp_sender_hardware_address (p : ARPPacket) : outcome (list Z) :=
  hlen ← arp_hardware_address_length p;
  slice (arp_bytes p) 8 (8 + Z.to_nat hlen).

Definition arp_sender_protocol_address (p : ARPPacket) : outcome (list Z) :=
  hlen ← arp_hardware_address_length p;
  plen ← arp_protocol_address_length p;
  let start := (8 + Z.to_nat hlen)%nat in
  slice (arp_bytes p) start (start + Z.to_nat plen).

Definition arp_target_hardware_address (p : ARPPacket) : outcome (list Z) :=
  hlen ← arp_hardware_address_length p;
  plen ← arp_protocol_address_length p;
  let start := (8 + Z.to_nat hlen + Z.to_nat plen)%nat in
  slice (arp_bytes p) start (start + Z.to_nat hlen).

Definition arp_target_protocol_address (p : ARPPacket) : outcome (list Z) :=
  hlen ← arp_hardware_address_length p;
  plen ← arp_protocol_address_length p;
  let start := (8 + Z.to_nat hlen + Z.to_nat plen + Z.to_nat hlen)%nat in
  slice (arp_bytes p) start (start + Z.to_nat plen).

(** ** Building *)

Inductive ArpStep :=
| HardwareAddressSpace | ProtocolAddressSpace | HardwareAddressLength | ProtocolAddressLength
| StepOpcode | SenderHardwareAddress | SenderProtocolAddress | TargetHardwareAddress
| TargetProtocolAddress | Built.

Record ARPBuilder (S : ArpStep) := mkAB { ab_buf : list Z; ab_pos : nat }.
Arguments mkAB S ab_buf ab_pos : assert.
Arguments ab_buf {S}.
Arguments ab_pos {S}.

Definition ab_new (buf : list Z) : ARPBuilder HardwareAddressSpace := mkAB _ buf 0.

(** [buf[pos..pos + n].copy_from_slice(bytes); pos += n] *)
Definition ab_put {S} (S' : ArpStep) (b : ARPBuilder S) (bytes : list Z) (n : nat) :
    outcome (ARPBuilder S') :=
  buf ← copy_into (ab_buf b) (ab_pos b) (ab_pos b + n) bytes;
  Ret (mkAB S' buf (ab_pos b + n)).

(** [buf[pos] = byte; pos += 1] *)
Definition ab_put_byte {S} (S' : ArpStep) (b : ARPBuilder S) (byte : Z) : outcome (ARPBuilder S') :=
  buf ← index_set (ab_buf b) (ab_pos b) byte;
  Ret (mkAB S' buf (ab_pos b + 1)).

Definition ab_hardware_address_space (b : ARPBuilder HardwareAddressSpace) (space : Z) :=
  ab_put ProtocolAddressSpace b (be16 space) 2.
Definition ab_protocol_address_space (b : ARPBuilder ProtocolAddressSpace) (space : Z) :=
  ab_put HardwareAddressLength b (be16 space) 2.
Definition ab_hardware_address_length (b : ARPBuilder HardwareAddressLength) (length : Z) :=
  ab_put_byte ProtocolAddressLength b length.
Definition ab_protocol_address_length (b : ARPBuilder ProtocolAddressLength) (length : Z) :=
  ab_put_byte StepOpcode b length.
Definition ab_opcode (b : ARPBuilder StepOpcode) (opcode : Opcode) :=
  ab_put SenderHardwareAddress b (be16 (u16_from_opcode opcode)) 2.
Definition ab_sender_hardware_address (b : ARPBuilder SenderHardwareAddress) (address : list Z) :=
  ab_put SenderProtocolAddress b address (length address).
Definition ab_sender_protocol_address (b : ARPBuilder SenderProtocolAddress) (address : list Z) :=
  ab_put TargetHardwareAddress b address (length address).
Definition ab_target_hardware_address (b : ARPBuilder TargetHardwareAddress) (address : list Z) :=
  ab_put TargetProtocolAddress b address (length address).

(** The last step returns the packet, and the buffer it lives in. *)
Definition ab_target_protocol_address (b : ARPBuilder TargetProtocolAddress) (address : list Z) :
    outcome (ARPPacket * list Z) :=
  b ← ab_put Built b address (length address);
  bytes ← slice (ab_buf b) 0 (ab_pos b);
  Ret (mkARP bytes, ab_buf b).

(** The closure [reply_writer] returns. *)
Definition reply_writer (recv_bytes : list Z) (sha : MACAddress) (buf : list Z) : outcome (list Z * nat) :=
  let request := arp_from_bytes recv_bytes in
  space ← arp_hardware_address_space request;
  b ← ab_hardware_address_space (ab_new buf) space;
  space ← arp_protocol_address_space request;
  b ← ab_protocol_address_space b space;
  hlen ← arp_hardware_address_length request;
  b ← ab_hardware_address_length b hlen;
  plen ← arp_protocol_address_length request;
  b ← ab_protocol_address_length b plen;
  b ← ab_opcode b Reply;
  b ← ab_sender_hardware_address b sha;
  tpa ← arp_target_protocol_address request;
  b ← ab_sender_protocol_address b tpa;
  sha ← arp_sender_hardware_address request;
  b ← ab_target_hardware_address b sha;
  tpa ← arp_target_protocol_address request;
  '(arp, buf) ← ab_target_protocol_address b tpa;
  Ret (buf, arp_len arp).

(** ** Packets as records *)

Record packet := mkPacket {
  p_htype : Z; p_ptype : Z; p_hlen : Z; p_plen : Z; p_op : Z;
  p_sha : list Z; p_spa : list Z; p_tha : list Z; p_tpa : list Z;
}.

Definition packet_ok (p : packet) : Prop :=
  fits 16 (p_htype p) ∧ fits 16 (p_ptype p) ∧ fits 8 (p_hlen p) ∧ fits 8 (p_plen p) ∧ fits 16 (p_op p) ∧
  length (p_sha p) = Z.to_nat (p_hlen p) ∧ length (p_spa p) = Z.to_nat (p_plen p) ∧
  length (p_tha p) = Z.to_nat (p_hlen p) ∧ length (p_tpa p) = Z.to_nat (p_plen p).

Definition packet_bytes (p : packet) : list Z :=
  be16 (p_htype p) ++ be16 (p_ptype p) ++ [p_hlen p] ++ [p_plen p] ++ be16 (p_op p) ++
  p_sha p ++ p_spa p ++ p_tha p ++ p_tpa p.

Lemma length_packet_bytes p :
  packet_ok p →
  length (packet_bytes p) = (8 + 2 * Z.to_nat (p_hlen p) + 2 * Z.to_nat (p_plen p))%nat.
Proof.
  intros (_ & _ & _ & _ & _ & H1 & H2 & H3 & H4). unfold packet_bytes.
  rewrite !length_app, H1, H2, H3, H4. cbn [length be16]. lia.
Qed.

(** The fixed part of the header, whatever follows. *)
Lemma packet_header p rest :
  packet_ok p →
  let a := mkARP (packet_bytes p ++ rest) in
  arp_hardware_address_space a = Ret (p_htype p) ∧ arp_protocol_address_space a = Ret (p_ptype p) ∧
  arp_hardware_address_length a = Ret (p_hlen p) ∧ arp_protocol_address_length a = Ret (p_plen p) ∧
  arp_opcode a = Ret (p_op p).
Proof.
  intros (H1 & H2 & _ & _ & H5 & _). unfold packet_bytes. cbv zeta. rewrite <- !app_assoc. split_and!.
  - unfold arp_hardware_address_space. cbn [arp_bytes].
    rewrite slice_prefix by done. by apply from_be16_be16.
  - unfold arp_protocol_address_space. cbn [arp_bytes].
    rewrite (slice_app (be16 (p_htype p)) (be16 (p_ptype p))) by done. by apply from_be16_be16.
  - done.
  - done.
  - unfold arp_opcode, slice. cbn [arp_bytes]. rewrite decide_True by (rewrite !length_app; cbn; lia).
    by apply from_be16_be16.
Qed.

Definition packet_head (p : packet) : list Z :=
  be16 (p_htype p) ++ be16 (p_ptype p) ++ [p_hlen p] ++ [p_plen p] ++ be16 (p_op p).

Lemma packet_bytes_head p rest :
  packet_bytes p ++ rest = packet_head p ++ p_sha p ++ p_spa p ++ p_tha p ++ p_tpa p ++ rest.
Proof. unfold packet_bytes, packet_head. by rewrite <- !app_assoc. Qed.

(** The addresses. *)
Lemma packet_addresses p rest :
  packet_ok p →
  let a := mkARP (packet_bytes p ++ rest) in
  arp_sender_hardware_address a = Ret (p_sha p) ∧ arp_sender_protocol_address a = Ret (p_spa p) ∧
  arp_target_hardware_address a = Ret (p_tha p) ∧ arp_target_protocol_address a = Ret (p_tpa p).
Proof.
  intros Hp a. destruct (packet_header p rest Hp) as (_ & _ & Hh & Hl & _). fold a in Hh, Hl.
  destruct Hp as (_ & _ & _ & _ & _ & H1 & H2 & H3 & H4).
  assert (length (packet_head p) = 8%nat) as H8 by done.
  unfold arp_sender_hardware_address, arp_sender_protocol_address, arp_target_hardware_address,
    arp_target_protocol_address. rewrite Hh, Hl. ret. unfold a; cbn [arp_bytes].
  rewrite packet_bytes_head. split_and!.
  - apply slice_app; lia.
  - rewrite app_assoc. apply slice_app; rewrite !length_app; lia.
  - rewrite 2!app_assoc. apply slice_app; rewrite !length_app; lia.
  - rewrite 3!app_assoc. apply slice_app; rewrite !length_app; lia.
Qed.

(** Parsing a well-formed ARP packet, whatever the lengths of its addresses and whatever
    padding follows it, gives back every field. *)
Theorem arp_parse_packet p padding :
  packet_ok p →
  let a := arp_from_bytes (packet_bytes p ++ padding) in
  arp_hardware_address_space a = Ret (p_htype p) ∧ arp_protocol_address_space a = Ret (p_ptype p) ∧
  arp_hardware_address_length a = Ret (p_hlen p) ∧ arp_protocol_address_length a = Ret (p_plen p) ∧
  arp_opcode a = Ret (p_op p) ∧
  arp_sender_hardware_address a = Ret (p_sha p) ∧ arp_sender_protocol_address a = Ret (p_spa p) ∧
  arp_target_hardware_address a = Ret (p_tha p) ∧ arp_target_protocol_address a = Ret (p_tpa p).
Proof.
  intros Hp a. destruct (packet_header p padding Hp) as (H1 & H2 & H3 & H4 & H5).
  destruct (packet_addresses p padding Hp) as (H6 & H7 & H8 & H9). by split_and!.
Qed.

Definition ex_request : packet :=
  mkPacket 1 0x800 6 4 1 [1; 2; 3; 4; 5; 6] [192; 168; 16; 1] [0; 0; 0; 0; 0; 0] [192; 168; 16; 40].

Lemma ex_request_ok : packet_ok ex_request.
Proof. split_and!; done. Qed.

Lemma arp_parse_packet_witness :
  packet_ok ex_request ∧
  arp_target_protocol_address (arp_from_bytes (packet_bytes ex_request ++ [0; 0])) = Ret [192; 168; 16; 40].
Proof.
  split; [exact ex_request_ok|].
  apply (arp_parse_packet ex_request [0; 0] ex_request_ok).
Defined.

(** ** The builder *)

Definition ab_at {S} (b : ARPBuilder S) (w r : list Z) : Prop :=
  ab_buf b = w ++ r ∧ ab_pos b = length w.

Lemma ab_put_at {S} (S' : ArpStep) (b : ARPBuilder S) w r bytes n :
  ab_at b w r → n = length bytes → (n ≤ length r)%nat →
  ∃ b' : ARPBuilder S', ab_put S' b bytes n = Ret b' ∧ ab_at b' (w ++ bytes) (drop n r).
Proof.
  intros [Hb Hp] -> Hlen. exists (mkAB S' ((w ++ bytes) ++ drop (length bytes) r) (length w + length bytes)).
  unfold ab_put. rewrite Hb, Hp, copy_into_next by done. ret. split; [done|].
  split; [done|]. cbn [ab_pos]. by rewrite length_app.
Qed.

Lemma ab_put_byte_at {S} (S' : ArpStep) (b : ARPBuilder S) w r x :
  ab_at b w r → (1 ≤ length r)%nat →
  ∃ b' : ARPBuilder S', ab_put_byte S' b x = Ret b' ∧ ab_at b' (w ++ [x]) (drop 1 r).
Proof.
  intros [Hb Hp] Hlen. exists (mkAB S' ((w ++ [x]) ++ drop 1 r) (length w + 1)).
  unfold ab_put_byte. rewrite Hb, Hp, index_set_next by lia. ret. split; [done|].
  split; [done|]. cbn [ab_pos]. by rewrite length_app.
Qed.

(** The chain of calls of [reply_writer], for any fields. *)
Definition build_arp (buf : list Z) (htype ptype hlen plen : Z) (op : Opcode) (sha spa tha tpa : list Z) :
    outcome (list Z * nat) :=
  b ← ab_hardware_address_space (ab_new buf) htype;
  b ← ab_protocol_address_space b ptype;
  b ← ab_hardware_address_length b hlen;
  b ← ab_protocol_address_length b plen;
  b ← ab_opcode b op;
  b ← ab_sender_hardware_address b sha;
  b ← ab_sender_protocol_address b spa;
  b ← ab_target_hardware_address b tha;
  '(arp, buf) ← ab_target_protocol_address b tpa;
  Ret (buf, arp_len arp).

Lemma build_arp_writes htype ptype hlen plen op sha spa tha tpa :
  let p := mkPacket htype ptype hlen plen (u16_from_opcode op) sha spa tha tpa in
  writes (λ buf, build_arp buf htype ptype hlen plen op sha spa tha tpa) (packet_bytes p).
Proof.
  intros p rest Hlen. unfold packet_bytes in Hlen. cbn in Hlen. rewrite !length_app in Hlen.
  cbn [length] in Hlen. unfold build_arp.
  assert (ab_at (ab_new rest) [] rest) as H0 by done.
  destruct (ab_put_at ProtocolAddressSpace _ _ _ (be16 htype) 2 H0) as (b1 & E1 & H1); [done|lia|].
  unfold ab_hardware_address_space. rewrite E1. ret.
  destruct (ab_put_at HardwareAddressLength _ _ _ (be16 ptype) 2 H1) as (b2 & E2 & H2); [done|len|].
  unfold ab_protocol_address_space. rewrite E2. ret.
  destruct (ab_put_byte_at ProtocolAddressLength _ _ _ hlen H2) as (b3 & E3 & H3); [len|].
  unfold ab_hardware_address_length. rewrite E3. ret.
  destruct (ab_put_byte_at StepOpcode _ _ _ plen H3) as (b4 & E4 & H4); [len|].
  unfold ab_protocol_address_length. rewrite E4. ret.
  destruct (ab_put_at SenderHardwareAddress _ _ _ (be16 (u16_from_opcode op)) 2 H4) as (b5 & E5 & H5); [done|len|].
  unfold ab_opcode. rewrite E5. ret.
  destruct (ab_put_at SenderProtocolAddress _ _ _ sha _ H5 eq_refl) as (b6 & E6 & H6); [len|].
  unfold ab_sender_hardware_address. rewrite E6. ret.
  destruct (ab_put_at TargetHardwareAddress _ _ _ spa _ H6 eq_refl) as (b7 & E7 & H7); [len|].
  unfold ab_sender_protocol_address. rewrite E7. ret.
  destruct (ab_put_at TargetProtocolAddress _ _ _ tha _ H7 eq_refl) as (b8 & E8 & H8); [len|].
  unfold ab_target_hardware_address. rewrite E8. ret.
  destruct (ab_put_at Built _ _ _ tpa _ H8 eq_refl) as (b9 & E9 & H9); [len|].
  unfold ab_target_protocol_address. rewrite E9. ret. destruct H9 as [Hb Hp]. rewrite Hb, Hp.
  rewrite slice_prefix by done. ret. unfold arp_len. cbn [arp_bytes].
  rewrite !drop_drop.
  replace (packet_bytes p) with
    (((((((((([] ++ be16 htype) ++ be16 ptype) ++ [hlen]) ++ [plen]) ++ be16 (u16_from_opcode op)) ++ sha) ++
      spa) ++ tha) ++ tpa)) by (unfold packet_bytes; cbn [p_htype p_ptype p_hlen p_plen p_op p_sha p_spa p_tha p_tpa p]; by rewrite <- !app_assoc).
  f_equal. f_equal. f_equal. f_equal. len.
Qed.

(** ** Replies *)

(** The reply [reply_writer] composes for request [q]. *)
Definition reply_packet (q : packet) (mac : MACAddress) : packet :=
  mkPacket (p_htype q) (p_ptype q) (p_hlen q) (p_plen q) 2 mac (p_tpa q) (p_sha q) (p_tpa q).

Lemma reply_writer_eq q padding mac buf :
  packet_ok q →
  reply_writer (packet_bytes q ++ padding) mac buf =
  build_arp buf (p_htype q) (p_ptype q) (p_hlen q) (p_plen q) Reply mac (p_tpa q) (p_sha q) (p_tpa q).
Proof.
  intros Hq. destruct (packet_header q padding Hq) as (H1 & H2 & H3 & H4 & _).
  destruct (packet_addresses q padding Hq) as (H6 & _ & _ & H9).
  unfold reply_writer, arp_from_bytes, build_arp. rewrite H1, H2, H3, H4, H6, H9. ret. done.
Qed.

(** The ARP reply: for a well-formed request the writer fills in our hardware address, the
    address that was asked for, and the asker's hardware address; its target protocol
    address is the address that was asked for again, not the asker's.  For six-byte hardware
    addresses the reply is itself well formed. *)
Theorem reply_writer_writes q padding mac :
  packet_ok q → length mac = 6%nat →
  writes (reply_writer (packet_bytes q ++ padding) mac) (packet_bytes (reply_packet q mac)) ∧
  (p_hlen q = 6 → packet_ok (reply_packet q mac)).
Proof.
  intros Hq Hmac. split.
  - intros rest Hlen. rewrite reply_writer_eq by done. by apply (build_arp_writes _ _ _ _ Reply).
  - intros H6. destruct q, Hq as (H1 & H2 & H3 & H4 & H5 & H7 & H8 & H9 & H10). cbn in *. subst.
    by split_and!.
Qed.

Lemma reply_writer_writes_witness :
  packet_ok (reply_packet ex_request [9; 9; 9; 9; 9; 9]) ∧
  reply_writer (packet_bytes ex_request ++ replicate 18 0) [9; 9; 9; 9; 9; 9] (replicate 30 0) =
  Ret ([0; 1; 8; 0; 6; 4; 0; 2; 9; 9; 9; 9; 9; 9; 192; 168; 16; 40; 1; 2; 3; 4; 5; 6; 192; 168; 16; 40; 0; 0],
       28%nat).
Proof.
  destruct (reply_writer_writes ex_request (replicate 18 0) [9; 9; 9; 9; 9; 9] ex_request_ok eq_refl)
    as [Hw Hok].
  split; [exact (Hok eq_refl)|].
  rewrite (Hw (replicate 30 0)); [reflexivity|]. rewrite length_replicate. cbn. lia.
Defined.

(** The accessors trust the length bytes of the packet: when the addresses they announce
    do not fit, [target_protocol_address], which is called on every ARP frame, panics. *)
Theorem arp_long_addresses_panic bytes hlen plen :
  bytes !! 4%nat = Some hlen → bytes !! 5%nat = Some plen →
  (length bytes < 8 + 2 * Z.to_nat hlen + 2 * Z.to_nat plen)%nat →
  arp_target_protocol_address (arp_from_bytes bytes) = Panic IndexOutOfBounds.
Proof.
  intros Hh Hp Hlen. unfold arp_target_protocol_address, arp_hardware_address_length,
    arp_protocol_address_length, index. cbn [arp_bytes arp_from_bytes]. rewrite Hh, Hp. ret.
  apply slice_panics. lia.
Qed.

Lemma arp_long_addresses_panic_witness :
  arp_target_protocol_address (arp_from_bytes ([0; 1; 8; 0; 255; 4; 0; 1] ++ replicate 38 0)) =
  Panic IndexOutOfBounds.
Proof. apply (arp_long_addresses_panic _ 255 4); [done|done|]. cbn. lia. Defined.
