(* ===== verification/Text.v ===== *)
(** * The texts the program prints (the [Display] implementations and the format strings)

    A text is the list of its bytes.  [display] and [lower_hex] are the formatting of unsigned
    integers by [core::fmt]: no sign, no padding, most significant digit first.  [debug_str] is
    its [{:?}] of an ASCII string. *)

From S2P Require Import Prelude Ethernet.
From Stdlib Require Ascii String.

Definition text (s : string) : list Z := (λ c, Z.of_N (Ascii.N_of_ascii c)) <$> String.list_ascii_of_string s.
Arguments text s%_string.

(** ** Integers *)

Definition digit_char (d : Z) : Z := if decide (d < 10) then 48 + d else 87 + d.

Fixpoint digits_go (fuel : nat) (b n : Z) (acc : list Z) : list Z :=
  match fuel with
  | O => acc
  | S fuel =>
      let acc := n mod b :: acc in
      if decide (n / b = 0) then acc else digits_go fuel b (n / b) acc
  end.

(** A 64-bit number has at most 64 digits in any base. *)
Definition digits (b n : Z) : list Z := digits_go 64 b n [].

(** [{}] and [{:x}]. *)
Definition display (n : Z) : list Z := digit_char <$> digits 10 n.
Definition lower_hex (n : Z) : list Z := digit_char <$> digits 16 n.

(** [{:p}] *)
Definition pointer (a : Z) : list Z := text "0x" ++ lower_hex a.

(** [{:?}] of a string. *)
Definition debug_char (c : Z) : list Z :=
  if decide (c = 34) then text "\" ++ [34]
  else if decide (c = 92) then text "\\"
  else if decide (c = 9) then text "\t"
  else if decide (c = 10) then text "\n"
  else if decide (c = 13) then text "\r"
  else if decide (c = 0) then text "\0"
  else if decide (c < 32 ∨ c = 127) then text "\u{" ++ lower_hex c ++ text "}"
  else [c].

Definition debug_str (s : list Z) : list Z := [34] ++ concat (debug_char <$> s) ++ [34].

(** [writeln!] ends the line. *)
Definition line (s : list Z) : list Z := s ++ [10].

(** ** [Display] of the program's types *)

(** [MACAddress] *)
Fixpoint colons (l : list (list Z)) : list Z :=
  match l with
  | [] => []
  | [x] => x
  | x :: l => x ++ 58 :: colons l
  end.

Definition mac_fmt (m : MACAddress) : list Z := colons (lower_hex <$> take 6 m).

(** [EtherType] *)
Definition ethertype_fmt (e : EtherType) : outcome (list Z) :=
  match e with
  | ARP => Ret (text "ARP")
  | Other bytes =>
      b0 ← index bytes 0;
      b1 ← index bytes 1;
      Ret (text "0x" ++ lower_hex b0 ++ lower_hex b1)
  end.

(** ** Numbers can be read back *)

Definition value (b : Z) (ds : list Z) : Z := foldl (λ x d, x * b + d) 0 ds.

Definition char_digit (c : Z) : option Z :=
  if decide (48 ≤ c < 58) then Some (c - 48) else if decide (97 ≤ c < 103) then Some (c - 87) else None.

Fixpoint read_digits (s : list Z) : option (list Z) :=
  match s with
  | [] => Some []
  | c :: s => d ← char_digit c; ds ← read_digits s; Some (d :: ds)
  end.

Definition read_hex (s : list Z) : option Z := value 16 <$> read_digits s.

(** The parts between the colons. *)
Fixpoint split_colons (s : list Z) : list (list Z) :=
  match s with
  | [] => [[]]
  | c :: s =>
      if decide (c = 58) then [] :: split_colons s
      else match split_colons s with
           | [] => [[c]]
           | x :: l => (c :: x) :: l
           end
  end.

Fixpoint read_all (l : list (list Z)) : option (list Z) :=
  match l with
  | [] => Some []
  | s :: l => n ← read_hex s; ns ← read_all l; Some (n :: ns)
  end.

Definition read_mac (s : list Z) : option (list Z) := read_all (split_colons s).

Lemma digits_go_value fuel b n acc : 1 < b → 0 ≤ n < b ^ Z.of_nat fuel →
  foldl (λ x d, x * b + d) 0 (digits_go fuel b n acc) = foldl (λ x d, x * b + d) n acc.
Proof.
  intros Hb. revert n acc. induction fuel as [|fuel IH]; intros n acc Hn; cbn [digits_go].
  - change (b ^ Z.of_nat 0) with 1 in Hn. by replace n with 0 by lia.
  - rewrite Nat2Z.inj_succ, Z.pow_succ_r in Hn by lia. pose proof (Z.div_mod n b).
    case_decide as Hd; cbn [foldl].
    + f_equal. lia.
    + rewrite IH; [cbn [foldl]; f_equal; lia|].
      split; [apply Z.div_pos; lia|apply Z.div_lt_upper_bound; lia].
Qed.

Lemma digits_go_range fuel b n acc : 1 < b → Forall (λ d, 0 ≤ d < b) acc →
  Forall (λ d, 0 ≤ d < b) (digits_go fuel b n acc).
Proof.
  intros Hb. revert n acc. induction fuel as [|fuel IH]; intros n acc Hacc; cbn [digits_go]; [done|].
  pose proof (Z.mod_pos_bound n b). case_decide; [|apply IH]; (constructor; [lia|done]).
Qed.

Lemma digits_value b n : 1 < b → 0 ≤ n < 2 ^ 64 → value b (digits b n) = n.
Proof.
  intros Hb Hn. unfold value, digits. rewrite digits_go_value; [done|done|].
  split; [lia|]. eapply Z.lt_le_trans; [apply Hn|]. apply Z.pow_le_mono_l. lia.
Qed.

Lemma digits_range b n : 1 < b → Forall (λ d, 0 ≤ d < b) (digits b n).
Proof. intros Hb. by apply digits_go_range. Qed.

Lemma char_digit_char d : 0 ≤ d < 16 → char_digit (digit_char d) = Some d.
Proof.
  intros Hd. unfold char_digit, digit_char. destruct (decide (d < 10)).
  - rewrite decide_True by lia. f_equal. lia.
  - rewrite (decide_False (P := 48 ≤ _ < 58)), decide_True by lia. f_equal. lia.
Qed.

Lemma read_digit_chars ds : Forall (λ d, 0 ≤ d < 16) ds → read_digits (digit_char <$> ds) = Some ds.
Proof.
  induction 1 as [|d ds Hd _ IH]; [done|]. rewrite fmap_cons. cbn [read_digits].
  rewrite char_digit_char, IH by done. done.
Qed.

Lemma read_lower_hex n : 0 ≤ n < 2 ^ 64 → read_hex (lower_hex n) = Some n.
Proof.
  intros Hn. unfold read_hex, lower_hex. rewrite read_digit_chars by (by apply digits_range).
  change (Some (value 16 (digits 16 n)) = Some n). by rewrite digits_value.
Qed.

(** Digits have no colon in them. *)
Lemma lower_hex_colon n : Forall (λ c, c ≠ 58) (lower_hex n).
Proof.
  unfold lower_hex. apply Forall_fmap. eapply Forall_impl; [by apply (digits_range 16 n)|].
  intros d Hd. unfold digit_char. cbn. case_decide; lia.
Qed.

Lemma split_colons_word s : Forall (λ c, c ≠ 58) s → split_colons s = [s].
Proof. induction 1 as [|c s Hc _ IH]; [done|]. cbn [split_colons]. by rewrite decide_False, IH by done. Qed.

Lemma split_colons_app s rest : Forall (λ c, c ≠ 58) s → split_colons (s ++ 58 :: rest) = s :: split_colons rest.
Proof.
  induction 1 as [|c s Hc _ IH]; [done|]. cbn [split_colons app]. by rewrite decide_False, IH by done.
Qed.

Lemma split_join l : l ≠ [] → Forall (Forall (λ c, c ≠ 58)) l → split_colons (colons l) = l.
Proof.
  intros Hl H. induction H as [|s l Hs _ IH]; [done|]. destruct l as [|s' l]; [by apply split_colons_word|].
  change (colons (s :: s' :: l)) with (s ++ 58 :: colons (s' :: l)). rewrite split_colons_app by done. by rewrite IH.
Qed.

Lemma read_all_hex ns : Forall (fits 64) ns → read_all (lower_hex <$> ns) = Some ns.
Proof.
  induction 1 as [|n ns Hn _ IH]; [done|]. rewrite fmap_cons. cbn [read_all].
  rewrite read_lower_hex, IH by exact Hn. done.
Qed.

(** A hardware address can be read back from what [Display] prints: six numbers in
    hexadecimal, without leading zeroes, with colons between them.  No two addresses print
    alike. *)
Theorem mac_display_roundtrip (m : MACAddress) : length m = 6%nat → Forall (fits 8) m → read_mac (mac_fmt m) = Some m.
Proof.
  intros Hlen Hm. unfold read_mac, mac_fmt. rewrite take_ge by lia. rewrite split_join.
  - apply read_all_hex. eapply Forall_impl; [exact Hm|]. unfold fits. intros n. lia.
  - by destruct m.
  - apply Forall_fmap, Forall_forall. intros n _. apply lower_hex_colon.
Qed.

Lemma mac_display_roundtrip_witness :
  mac_fmt [0x52; 0x54; 0; 0x12; 0x34; 0x5] = text "52:54:0:12:34:5" ∧
  read_mac (text "52:54:0:12:34:5") = Some [0x52; 0x54; 0; 0x12; 0x34; 0x5].
Proof.
  split; [reflexivity|]. apply (mac_display_roundtrip [0x52; 0x54; 0; 0x12; 0x34; 0x5]); [reflexivity|].
  repeat (apply Forall_cons_2; [unfold fits; lia|]). apply Forall_nil_2.
Defined.

(** The two bytes of an EtherType are printed side by side without padding: IPv4, [0x0800],
    prints as [0x80], and different types print alike. *)
Lemma ethertype_display_ambiguous :
  ethertype_fmt (Other [0x08; 0x00]) = Ret (text "0x80") ∧
  ethertype_fmt (Other [0x12; 0x03]) = Ret (text "0x123") ∧ ethertype_fmt (Other [0x01; 0x23]) = Ret (text "0x123").
Proof. by vm_compute. Qed.

(** Decimal numbers are digits only, and at least one. *)
Lemma display_chars n : Forall (λ c, 48 ≤ c < 58) (display n).
Proof.
  unfold display. apply Forall_fmap. eapply Forall_impl; [by apply (digits_range 10 n)|].
  intros d [? ?]. change (48 ≤ digit_char d < 58). unfold digit_char. rewrite decide_True by lia. lia.
Qed.

Lemma digits_go_length fuel b n acc : (length (digits_go fuel b n acc) ≤ fuel + length acc)%nat.
Proof.
  revert n acc. induction fuel as [|fuel IH]; intros n acc; cbn [digits_go]; [lia|].
  case_decide; [cbn; lia|]. specialize (IH (n / b) (n mod b :: acc)). cbn [length] in IH. lia.
Qed.

Lemma display_length n : (length (display n) ≤ 64)%nat.
Proof. unfold display, digits. rewrite length_fmap. pose proof (digits_go_length 64 10 n []). cbn in *. lia. Qed.

Lemma lower_hex_chars n : Forall (λ c, 48 ≤ c < 103) (lower_hex n) ∧ (length (lower_hex n) ≤ 64)%nat.
Proof.
  split.
  - unfold lower_hex. apply Forall_fmap. eapply Forall_impl; [by apply (digits_range 16 n)|].
    intros d [? ?]. change (48 ≤ digit_char d < 103). unfold digit_char. case_decide; lia.
  - unfold lower_hex, digits. rewrite length_fmap. pose proof (digits_go_length 64 16 n []). cbn in *. lia.
Qed.
