(* ===== verification/Semaphore.v ===== *)
(** * Counting semaphores (src/locking/semaphore.rs)

    [Semaphore] has the fields of the source.  Its operations are cut where other tasks can
    run: [wait] and [signal] try to update the count and, failing that, queue the caller and
    block it in one step, because both happen under the scheduler lock with interrupts
    disabled (the kernel runs on one CPU); popping a queue and waking the popped task are
    steps of their own.  [world] is a semaphore shared by a list of tasks, each somewhere in
    an operation, and [sem_step] lets any task take its next step.  The theorems are about
    every interleaving. *)

From S2P Require Import Prelude.

(** Tasks are numbered; the handle of the source is the number. *)
Abbreviation TaskHandle := nat (only parsing).

Record Semaphore := mkSemaphore {
  count : Z;
  max : Z;
  waiting : list TaskHandle;
  releasing : list TaskHandle;
}.

Definition sem_new (init max : Z) : outcome Semaphore :=
  _ ← assert_that (bool_decide (init ≤ max)) (AssertionFailed "init <= max");
  Ret (mkSemaphore init max [] []).

(** The closures given to [try_update]. *)
Definition try_decrement (s : Semaphore) : option Semaphore :=
  if decide (0 < count s) then Some (mkSemaphore (count s - 1) (max s) (waiting s) (releasing s)) else None.
Definition try_increment (s : Semaphore) : option Semaphore :=
  if decide (count s < max s) then Some (mkSemaphore (count s + 1) (max s) (waiting s) (releasing s)) else None.

(** [pop_front] of the two queues. *)
Definition pop_releasing (s : Semaphore) : option TaskHandle * Semaphore :=
  match releasing s with
  | [] => (None, s)
  | t :: l => (Some t, mkSemaphore (count s) (max s) (waiting s) l)
  end.
Definition pop_waiting (s : Semaphore) : option TaskHandle * Semaphore :=
  match waiting s with
  | [] => (None, s)
  | t :: l => (Some t, mkSemaphore (count s) (max s) l (releasing s))
  end.

(** ** Where a task can be *)

Inductive pc :=
| Idle                          (* not in an operation *)
| WaitTry                       (* [wait]: at the head of its loop *)
| WaitBlocked                   (* [wait]: queued in [waiting] and not runnable *)
| WaitPop                       (* [wait], [try_wait]: count taken, about to pop [releasing] *)
| WaitWake (t : TaskHandle)     (* ... about to wake [t] *)
| SignalTry
| SignalBlocked
| SignalPop
| SignalWake (t : TaskHandle).

#[global] Instance pc_eq_dec : EqDecision pc.
Proof. solve_decision. Defined.

Record world := mkWorld { sem : Semaphore; tasks : list pc }.

(** [Scheduler::wake]: a blocked task goes back to the head of its loop. *)
Definition wake (t : TaskHandle) (ts : list pc) : list pc :=
  match ts !! t with
  | Some WaitBlocked => <[t := WaitTry]> ts
  | Some SignalBlocked => <[t := SignalTry]> ts
  | _ => ts
  end.

(** One step of [wait], by task [me]. *)
Definition wait_step (me : TaskHandle) (p : pc) (w : world) : option world :=
  match p with
  | WaitTry =>
      match try_decrement (sem w) with
      | Some s => Some (mkWorld s (<[me := WaitPop]> (tasks w)))
      | None =>
          let s := sem w in
          Some (mkWorld (mkSemaphore (count s) (max s) (waiting s ++ [me]) (releasing s))
                  (<[me := WaitBlocked]> (tasks w)))
      end
  | WaitPop =>
      match pop_releasing (sem w) with
      | (Some t, s) => Some (mkWorld s (<[me := WaitWake t]> (tasks w)))
      | (None, s) => Some (mkWorld s (<[me := Idle]> (tasks w)))
      end
  | WaitWake t => Some (mkWorld (sem w) (wake t (<[me := Idle]> (tasks w))))
  | _ => None
  end.

(** One step of [signal]. *)
Definition signal_step (me : TaskHandle) (p : pc) (w : world) : option world :=
  match p with
  | SignalTry =>
      match try_increment (sem w) with
      | Some s => Some (mkWorld s (<[me := SignalPop]> (tasks w)))
      | None =>
          let s := sem w in
          Some (mkWorld (mkSemaphore (count s) (max s) (waiting s) (releasing s ++ [me]))
                  (<[me := SignalBlocked]> (tasks w)))
      end
  | SignalPop =>
      match pop_waiting (sem w) with
      | (Some t, s) => Some (mkWorld s (<[me := SignalWake t]> (tasks w)))
      | (None, s) => Some (mkWorld s (<[me := Idle]> (tasks w)))
      end
  | SignalWake t => Some (mkWorld (sem w) (wake t (<[me := Idle]> (tasks w))))
  | _ => None
  end.

(** The first step of [try_wait] and [try_signal], with the value they return; the rest of
    a successful call is that of [wait] and [signal]. *)
Definition try_wait_start (me : TaskHandle) (w : world) : bool * world :=
  match try_decrement (sem w) with
  | Some s => (true, mkWorld s (<[me := WaitPop]> (tasks w)))
  | None => (false, w)
  end.
Definition try_signal_start (me : TaskHandle) (w : world) : bool * world :=
  match try_increment (sem w) with
  | Some s => (true, mkWorld s (<[me := SignalPop]> (tasks w)))
  | None => (false, w)
  end.

(** Any task may take its next step; an idle one may call any operation. *)
Inductive sem_step : world → world → Prop :=
| step_wait me p w w' : tasks w !! me = Some p → wait_step me p w = Some w' → sem_step w w'
| step_signal me p w w' : tasks w !! me = Some p → signal_step me p w = Some w' → sem_step w w'
| step_call_wait me w : tasks w !! me = Some Idle →
    sem_step w (mkWorld (sem w) (<[me := WaitTry]> (tasks w)))
| step_call_signal me w : tasks w !! me = Some Idle →
    sem_step w (mkWorld (sem w) (<[me := SignalTry]> (tasks w)))
| step_try_wait me w : tasks w !! me = Some Idle → sem_step w (snd (try_wait_start me w))
| step_try_signal me w : tasks w !! me = Some Idle → sem_step w (snd (try_signal_start me w)).

(** All tasks idle, on a fresh semaphore. *)
Definition sem_initial (w : world) : Prop :=
  (∃ init max, 0 ≤ init ∧ sem_new init max = Ret (sem w)) ∧ Forall (λ p, p = Idle) (tasks w).

Definition sem_reachable (w : world) : Prop := ∃ w0, sem_initial w0 ∧ rtc sem_step w0 w.

(** ** Counting tasks *)

Definition is_b (b : bool) : Z := if b then 1 else 0.

Fixpoint cnt (f : pc → bool) (l : list pc) : Z :=
  match l with
  | [] => 0
  | p :: l => is_b (f p) + cnt f l
  end.

Lemma cnt_insert f l i a b :
  l !! i = Some a → cnt f (<[i := b]> l) = cnt f l - is_b (f a) + is_b (f b).
Proof.
  revert i. induction l as [|x l IH]; intros [|i] Hi; cbn in Hi; try done.
  - injection Hi as ->. cbn. lia.
  - change (<[S i := b]> (x :: l)) with (x :: <[i := b]> l). cbn [cnt]. rewrite (IH i Hi). lia.
Qed.

Lemma cnt_nonneg f l : 0 ≤ cnt f l.
Proof. induction l as [|x l IH]; cbn; [lia|]. unfold is_b. destruct (f x); lia. Qed.

Lemma cnt_pos f l : 0 < cnt f l → ∃ i p, l !! i = Some p ∧ f p = true.
Proof.
  induction l as [|x l IH]; cbn; [lia|]. destruct (f x) eqn:Hx.
  - intros _. by exists 0%nat, x.
  - intros H. destruct IH as (i & p & Hi & Hp); [unfold is_b in H; lia|]. by exists (S i), p.
Qed.

(** ** One side of the semaphore

    The invariant of a queue: who is in it, who is being woken, and that nobody is both.
    [B] is where tasks of the queue are, [W t] is where the task about to wake [t] is. *)

Class Side (B : pc) (W : TaskHandle → pc) : Prop := {
  W_B t : W t ≠ B;
  W_inj t t' : W t = W t' → t = t';
}.

#[global] Instance wait_is_side : Side WaitBlocked SignalWake.
Proof. split; [done|by intros ?? [=]]. Qed.
#[global] Instance release_is_side : Side SignalBlocked WaitWake.
Proof. split; [done|by intros ?? [=]]. Qed.

Section side.
Context (B : pc) (W : TaskHandle → pc) `{!Side B W}.

(** A waker is not a blocked task. *)
Lemma W_not_B t : Some (W t) = Some B → False.
Proof. intros [=H]. by apply (W_B t). Qed.

Ltac clash := exfalso; solve [eapply W_not_B; eauto].
Ltac apart := first [done|apply W_B|apply not_eq_sym, W_B].

Record side_ok (q : list TaskHandle) (ts : list pc) : Prop := {
  side_in t : t ∈ q → ts !! t = Some B;
  side_nodup : NoDup q;
  side_wake i t : ts !! i = Some (W t) → ts !! t = Some B ∧ t ∉ q;
  side_waker i j t : ts !! i = Some (W t) → ts !! j = Some (W t) → i = j;
  side_blocked t : ts !! t = Some B → t ∈ q ∨ ∃ i, ts !! i = Some (W t);
}.

Definition neutral (p : pc) : Prop := p ≠ B ∧ ∀ t, p ≠ W t.

Lemma lookup_other (ts : list pc) me p n i x :
  ts !! me = Some p → <[me := n]> ts !! i = Some x → x ≠ n → i ≠ me ∧ ts !! i = Some x.
Proof.
  intros Hme Hi Hne. destruct (decide (i = me)) as [->|].
  - rewrite list_lookup_insert_eq in Hi by (by eapply lookup_lt_Some). congruence.
  - by rewrite list_lookup_insert_ne in Hi.
Qed.

Lemma lookup_keep (ts : list pc) me p n i x :
  ts !! me = Some p → ts !! i = Some x → x ≠ p → <[me := n]> ts !! i = Some x.
Proof.
  intros Hme Hi Hne. rewrite list_lookup_insert_ne; [done|]. intros ->. congruence.
Qed.

Lemma side_neutral q ts me p n :
  side_ok q ts → ts !! me = Some p → neutral p → neutral n → side_ok q (<[me := n]> ts).
Proof.
  intros [Hin Hnd Hw Hwi Hb] Hme [HpB HpW] [HnB HnW]. split.
  - intros t Ht. eapply lookup_keep; [done|by apply Hin|congruence].
  - done.
  - intros i t Hi. apply (lookup_other _ _ _ _ _ _ Hme) in Hi as [_ Hi]; [|apart].
    destruct (Hw i t Hi) as [HB ?]. split; [|apart]. eapply lookup_keep; [done..|congruence].
  - intros i j t Hi Hj. apply (lookup_other _ _ _ _ _ _ Hme) in Hi as [_ Hi]; [|apart].
    apply (lookup_other _ _ _ _ _ _ Hme) in Hj as [_ Hj]; [|apart]. by eapply Hwi.
  - intros t Ht. apply (lookup_other _ _ _ _ _ _ Hme) in Ht as [_ Ht]; [|congruence].
    destruct (Hb t Ht) as [?|[i Hi]]; [by left|right]. exists i. by eapply lookup_keep.
Qed.

Lemma side_enqueue q ts me p :
  side_ok q ts → ts !! me = Some p → neutral p → side_ok (q ++ [me]) (<[me := B]> ts).
Proof.
  intros [Hin Hnd Hw Hwi Hb] Hme [HpB HpW].
  assert (<[me := B]> ts !! me = Some B) as Hnew
    by (apply list_lookup_insert_eq; by eapply lookup_lt_Some).
  assert (me ∉ q) as Hnq by (intros Hq; apply Hin in Hq; congruence).
  split.
  - intros t [Ht| ->%list_elem_of_singleton]%elem_of_app; [|apart].
    eapply lookup_keep; [done|by apply Hin|congruence].
  - apply NoDup_app. split_and!; [done| |apply NoDup_singleton]. intros x Hx ->%list_elem_of_singleton. done.
  - intros i t Hi. apply (lookup_other _ _ _ _ _ _ Hme) in Hi as [_ Hi]; [|apart].
    destruct (Hw i t Hi) as [HB Hnt]. split; [eapply lookup_keep; [done..|congruence]|].
    intros [?| ->%list_elem_of_singleton]%elem_of_app; [done|]. congruence.
  - intros i j t Hi Hj. apply (lookup_other _ _ _ _ _ _ Hme) in Hi as [_ Hi]; [|apart].
    apply (lookup_other _ _ _ _ _ _ Hme) in Hj as [_ Hj]; [|apart]. by eapply Hwi.
  - intros t Ht. destruct (decide (t = me)) as [->|Hne]; [left; set_solver|].
    rewrite list_lookup_insert_ne in Ht by done. destruct (Hb t Ht) as [?|[i Hi]]; [left; set_solver|right].
    exists i. by eapply lookup_keep.
Qed.

Lemma side_pop q ts me p t :
  side_ok (t :: q) ts → ts !! me = Some p → neutral p → side_ok q (<[me := W t]> ts).
Proof.
  intros [Hin Hnd Hw Hwi Hb] Hme [HpB HpW]. apply NoDup_cons in Hnd as [Hnt Hnd].
  assert (ts !! t = Some B) as Ht by (apply Hin; set_solver).
  assert (<[me := W t]> ts !! me = Some (W t)) as Hnew
    by (apply list_lookup_insert_eq; by eapply lookup_lt_Some).
  assert (∀ i u, <[me := W t]> ts !! i = Some (W u) → (i = me ∧ u = t) ∨ (i ≠ me ∧ u ≠ t ∧ ts !! i = Some (W u)))
    as Hcase.
  { intros i u Hi. destruct (decide (i = me)) as [->|Hne].
    - left. rewrite Hnew in Hi. split; [done|]. by simplify_eq; apply W_inj.
    - rewrite list_lookup_insert_ne in Hi by done. right. split_and!; [done| |done].
      intros ->. apply Hw in Hi as [_ Hnq]. set_solver. }
  split.
  - intros u Hu. eapply lookup_keep; [done|apply Hin; set_solver|congruence].
  - done.
  - intros i u [[-> ->]|(Hne & Hut & Hi)]%Hcase.
    + split; [eapply lookup_keep; [done..|congruence]|done].
    + destruct (Hw i u Hi) as [HB Hnu]. split; [eapply lookup_keep; [done..|congruence]|set_solver].
  - intros i j u [[-> ->]|(Hne & Hut & Hi)]%Hcase [[-> ?]|(Hne' & Hut' & Hj)]%Hcase; try done.
    by eapply Hwi.
  - intros u Hu. apply (lookup_other _ _ _ _ _ _ Hme) in Hu as [_ Hu]; [|apart].
    destruct (decide (u = t)) as [->|Hne]; [right; eauto|].
    destruct (Hb u Hu) as [Hq|[i Hi]].
    + left. set_solver.
    + right. exists i. by eapply lookup_keep.
Qed.

(** The waker goes on, the woken task leaves the blocked state. *)
Lemma side_woken q ts me t n m :
  side_ok q ts → ts !! me = Some (W t) → neutral n → neutral m →
  <[me := n]> ts !! t = Some B ∧ side_ok q (<[t := m]> (<[me := n]> ts)).
Proof.
  intros [Hin Hnd Hw Hwi Hb] Hme [HnB HnW] [HmB HmW]. destruct (Hw me t Hme) as [Ht Hnt].
  assert (t ≠ me) as Htm by (intros ->; rewrite Hme in Ht; clash).
  assert (<[me := n]> ts !! t = Some B) as Ht' by (by rewrite list_lookup_insert_ne).
  assert (∀ i x, <[t := m]> (<[me := n]> ts) !! i = Some x → x ≠ n → x ≠ m →
    i ≠ t ∧ i ≠ me ∧ ts !! i = Some x) as Hcase.
  { intros i x Hi Hxn Hxm. apply (lookup_other _ _ _ _ _ _ Ht') in Hi as [Hit Hi]; [|apart].
    apply (lookup_other _ _ _ _ _ _ Hme) in Hi as [Him Hi]; done. }
  assert (∀ i x, ts !! i = Some x → i ≠ t → i ≠ me → <[t := m]> (<[me := n]> ts) !! i = Some x) as Hback.
  { intros i x Hi Hit Him. by rewrite !list_lookup_insert_ne by done. }
  split; [done|]. split.
  - intros u Hu. apply Hback; [by apply Hin|by intros ->|]. intros ->.
    apply Hin in Hu. rewrite Hme in Hu. clash.
  - done.
  - intros i u Hi. apply Hcase in Hi as (Hit & Him & Hi); [|done..]. destruct (Hw i u Hi) as [HB Hnu].
    split; [|apart]. apply Hback; [done| |intros ->; rewrite Hme in HB; clash].
    intros ->. apply Him. by eapply Hwi.
  - intros i j u Hi Hj. apply Hcase in Hi as (_ & _ & Hi); [|done..].
    apply Hcase in Hj as (_ & _ & Hj); [|done..]. by eapply Hwi.
  - intros u Hu. apply Hcase in Hu as (Hut & Hum & Hu); [|congruence..].
    destruct (Hb u Hu) as [?|[i Hi]]; [by left|right]. exists i. apply Hback; [done| |].
    + intros ->. rewrite Ht in Hi. clash.
    + intros ->. rewrite Hme in Hi. simplify_eq. apply Hut. by apply (W_inj (B:=B) (W:=W)).
Qed.
End side.

(** ** The invariant *)

(** Tasks that will let a waiter take the count, or take it themselves. *)
Definition helps_waiters (p : pc) : bool :=
  match p with
  | SignalPop | SignalWake _ | WaitTry => true
  | _ => false
  end.
Definition helps_releasers (p : pc) : bool :=
  match p with
  | WaitPop | WaitWake _ | SignalTry => true
  | _ => false
  end.

Abbreviation wait_side := (side_ok WaitBlocked SignalWake).
Abbreviation release_side := (side_ok SignalBlocked WaitWake).

Record sem_inv (w : world) : Prop := {
  inv_count : 0 ≤ count (sem w) ≤ max (sem w);
  inv_wait : wait_side (waiting (sem w)) (tasks w);
  inv_release : release_side (releasing (sem w)) (tasks w);
  inv_waiters : waiting (sem w) ≠ [] → count (sem w) ≤ cnt helps_waiters (tasks w);
  inv_releasers : releasing (sem w) ≠ [] →
    max (sem w) - count (sem w) ≤ cnt helps_releasers (tasks w);
}.

(** [neutral] is decided by the constructor. *)
Ltac neutral := solve [split; [discriminate|intros; discriminate]].

(** A step that moves [me] between places neutral to both sides and changes the count. *)
Lemma inv_move w me p n c :
  sem_inv w → tasks w !! me = Some p →
  neutral WaitBlocked SignalWake p → neutral WaitBlocked SignalWake n →
  neutral SignalBlocked WaitWake p → neutral SignalBlocked WaitWake n →
  0 ≤ c ≤ max (sem w) →
  (waiting (sem w) ≠ [] → c - count (sem w) ≤ is_b (helps_waiters n) - is_b (helps_waiters p)) →
  (releasing (sem w) ≠ [] → count (sem w) - c ≤ is_b (helps_releasers n) - is_b (helps_releasers p)) →
  sem_inv (mkWorld (mkSemaphore c (max (sem w)) (waiting (sem w)) (releasing (sem w)))
             (<[me := n]> (tasks w))).
Proof.
  intros [Hc Hw Hr Hlw Hlr] Hme Hp1 Hn1 Hp2 Hn2 Hc' Hdw Hdr. split; cbn [sem tasks count max waiting releasing].
  - done.
  - by eapply side_neutral.
  - by eapply side_neutral.
  - intros Hne. rewrite (cnt_insert _ _ _ _ _ Hme). specialize (Hlw Hne). specialize (Hdw Hne). lia.
  - intros Hne. rewrite (cnt_insert _ _ _ _ _ Hme). specialize (Hlr Hne). specialize (Hdr Hne). lia.
Qed.

(** A task found no unit and queues itself, on either side. *)
Lemma inv_wait_blocks w me :
  sem_inv w → tasks w !! me = Some WaitTry → count (sem w) ≤ 0 →
  sem_inv (mkWorld (mkSemaphore (count (sem w)) (max (sem w)) (waiting (sem w) ++ [me]) (releasing (sem w)))
             (<[me := WaitBlocked]> (tasks w))).
Proof.
  intros [Hc Hw Hr Hlw Hlr] Hme H0. split; cbn [sem tasks count max waiting releasing].
  - done.
  - eapply side_enqueue; [apply _|done|done|neutral].
  - eapply side_neutral; [done|done|neutral|neutral].
  - intros _. pose proof (cnt_nonneg helps_waiters (<[me := WaitBlocked]> (tasks w))). lia.
  - intros Hne. rewrite (cnt_insert _ _ _ _ _ Hme). specialize (Hlr Hne). cbn. lia.
Qed.

Lemma inv_signal_blocks w me :
  sem_inv w → tasks w !! me = Some SignalTry → max (sem w) ≤ count (sem w) →
  sem_inv (mkWorld (mkSemaphore (count (sem w)) (max (sem w)) (waiting (sem w)) (releasing (sem w) ++ [me]))
             (<[me := SignalBlocked]> (tasks w))).
Proof.
  intros [Hc Hw Hr Hlw Hlr] Hme H0. split; cbn [sem tasks count max waiting releasing].
  - done.
  - eapply side_neutral; [done|done|neutral|neutral].
  - eapply side_enqueue; [apply _|done|done|neutral].
  - intros Hne. rewrite (cnt_insert _ _ _ _ _ Hme). specialize (Hlw Hne). cbn. lia.
  - intros _. pose proof (cnt_nonneg helps_releasers (<[me := SignalBlocked]> (tasks w))). lia.
Qed.

(** Popping a queue. *)
Lemma inv_pop_waiting w me t l :
  sem_inv w → tasks w !! me = Some SignalPop → waiting (sem w) = t :: l →
  sem_inv (mkWorld (mkSemaphore (count (sem w)) (max (sem w)) l (releasing (sem w)))
             (<[me := SignalWake t]> (tasks w))).
Proof.
  intros [Hc Hw Hr Hlw Hlr] Hme Hq. rewrite Hq in Hw, Hlw.
  split; cbn [sem tasks count max waiting releasing].
  - done.
  - eapply side_pop; [apply _|done|done|neutral].
  - eapply side_neutral; [done|done|neutral|neutral].
  - intros _. rewrite (cnt_insert _ _ _ _ _ Hme). cbn. specialize (Hlw ltac:(done)). lia.
  - intros Hne. rewrite (cnt_insert _ _ _ _ _ Hme). specialize (Hlr Hne). cbn. lia.
Qed.

Lemma inv_pop_releasing w me t l :
  sem_inv w → tasks w !! me = Some WaitPop → releasing (sem w) = t :: l →
  sem_inv (mkWorld (mkSemaphore (count (sem w)) (max (sem w)) (waiting (sem w)) l)
             (<[me := WaitWake t]> (tasks w))).
Proof.
  intros [Hc Hw Hr Hlw Hlr] Hme Hq. rewrite Hq in Hr, Hlr.
  split; cbn [sem tasks count max waiting releasing].
  - done.
  - eapply side_neutral; [done|done|neutral|neutral].
  - eapply side_pop; [apply _|done|done|neutral].
  - intros Hne. rewrite (cnt_insert _ _ _ _ _ Hme). specialize (Hlw Hne). cbn. lia.
  - intros _. rewrite (cnt_insert _ _ _ _ _ Hme). cbn. specialize (Hlr ltac:(done)). lia.
Qed.

(** Waking. *)
Lemma inv_signal_wakes w me t :
  sem_inv w → tasks w !! me = Some (SignalWake t) →
  sem_inv (mkWorld (sem w) (wake t (<[me := Idle]> (tasks w)))).
Proof.
  intros [Hc Hw Hr Hlw Hlr] Hme.
  destruct (side_woken WaitBlocked SignalWake _ _ me t Idle WaitTry Hw Hme)
    as [Ht Hw']; [neutral..|].
  unfold wake. rewrite Ht. split; cbn [sem tasks]; [done|done| | |].
  - eapply side_neutral; [|exact Ht|neutral|neutral]. eapply side_neutral; [done|done|neutral|neutral].
  - intros Hne. rewrite (cnt_insert _ _ _ _ _ Ht), (cnt_insert _ _ _ _ _ Hme). specialize (Hlw Hne). cbn. lia.
  - intros Hne. rewrite (cnt_insert _ _ _ _ _ Ht), (cnt_insert _ _ _ _ _ Hme). specialize (Hlr Hne). cbn. lia.
Qed.

Lemma inv_wait_wakes w me t :
  sem_inv w → tasks w !! me = Some (WaitWake t) →
  sem_inv (mkWorld (sem w) (wake t (<[me := Idle]> (tasks w)))).
Proof.
  intros [Hc Hw Hr Hlw Hlr] Hme.
  destruct (side_woken SignalBlocked WaitWake _ _ me t Idle SignalTry Hr Hme)
    as [Ht Hr']; [neutral..|].
  unfold wake. rewrite Ht. split; cbn [sem tasks]; [done| |done| |].
  - eapply side_neutral; [|exact Ht|neutral|neutral]. eapply side_neutral; [done|done|neutral|neutral].
  - intros Hne. rewrite (cnt_insert _ _ _ _ _ Ht), (cnt_insert _ _ _ _ _ Hme). specialize (Hlw Hne). cbn. lia.
  - intros Hne. rewrite (cnt_insert _ _ _ _ _ Ht), (cnt_insert _ _ _ _ _ Hme). specialize (Hlr Hne). cbn. lia.
Qed.

(** [inv_move] where the semaphore is rebuilt from its own fields. *)
Lemma inv_goto w me p n :
  sem_inv w → tasks w !! me = Some p →
  neutral WaitBlocked SignalWake p → neutral WaitBlocked SignalWake n →
  neutral SignalBlocked WaitWake p → neutral SignalBlocked WaitWake n →
  (waiting (sem w) ≠ [] → is_b (helps_waiters p) ≤ is_b (helps_waiters n)) →
  (releasing (sem w) ≠ [] → is_b (helps_releasers p) ≤ is_b (helps_releasers n)) →
  sem_inv (mkWorld (sem w) (<[me := n]> (tasks w))).
Proof.
  intros Hi Hme ???? Hw Hr. pose proof (inv_count w Hi).
  destruct w as [[c m wq rq] ts]; cbn [sem tasks count max waiting releasing] in *.
  eapply (inv_move (mkWorld (mkSemaphore c m wq rq) ts) me p n c Hi Hme); try done.
  - intros Hne. specialize (Hw Hne). cbn. lia.
  - intros Hne. specialize (Hr Hne). cbn. lia.
Qed.

Lemma inv_take w me p s :
  sem_inv w → tasks w !! me = Some p → (p = WaitTry ∨ p = Idle) → try_decrement (sem w) = Some s →
  sem_inv (mkWorld s (<[me := WaitPop]> (tasks w))).
Proof.
  intros Hi Hme Hp Hd. pose proof (inv_count w Hi). unfold try_decrement in Hd.
  destruct (decide _); [|done]. injection Hd as <-.
  destruct Hp as [->| ->]; (eapply inv_move; [done|done|neutral..|lia| |]); cbn; lia.
Qed.

Lemma inv_give w me p s :
  sem_inv w → tasks w !! me = Some p → (p = SignalTry ∨ p = Idle) → try_increment (sem w) = Some s →
  sem_inv (mkWorld s (<[me := SignalPop]> (tasks w))).
Proof.
  intros Hi Hme Hp Hd. pose proof (inv_count w Hi). unfold try_increment in Hd.
  destruct (decide _); [|done]. injection Hd as <-.
  destruct Hp as [->| ->]; (eapply inv_move; [done|done|neutral..|lia| |]); cbn; lia.
Qed.

Lemma inv_wait_step w me p w' :
  sem_inv w → tasks w !! me = Some p → wait_step me p w = Some w' → sem_inv w'.
Proof.
  intros Hi Hme. destruct p; cbn [wait_step]; try done.
  - destruct (try_decrement (sem w)) as [s|] eqn:Hd; intros [= <-].
    + eapply inv_take; eauto.
    + apply inv_wait_blocks; [done..|]. unfold try_decrement in Hd. destruct (decide _); [done|lia].
  - unfold pop_releasing. destruct (releasing (sem w)) as [|t l] eqn:Hq; intros [= <-].
    + eapply inv_goto; [done|done|neutral..|done|]. by rewrite Hq.
    + by apply inv_pop_releasing.
  - intros [= <-]. by apply inv_wait_wakes.
Qed.

Lemma inv_signal_step w me p w' :
  sem_inv w → tasks w !! me = Some p → signal_step me p w = Some w' → sem_inv w'.
Proof.
  intros Hi Hme. destruct p; cbn [signal_step]; try done.
  - destruct (try_increment (sem w)) as [s|] eqn:Hd; intros [= <-].
    + eapply inv_give; eauto.
    + apply inv_signal_blocks; [done..|]. unfold try_increment in Hd. destruct (decide _); [done|lia].
  - unfold pop_waiting. destruct (waiting (sem w)) as [|t l] eqn:Hq; intros [= <-].
    + eapply inv_goto; [done|done|neutral..| |done]. by rewrite Hq.
    + eapply inv_pop_waiting; eauto.
  - intros [= <-]. by apply inv_signal_wakes.
Qed.

Lemma inv_step w w' : sem_inv w → sem_step w w' → sem_inv w'.
Proof.
  intros Hi Hst. revert Hi.
  destruct Hst as [me p v v' Hme Hs|me p v v' Hme Hs|me v Hme|me v Hme|me v Hme|me v Hme]; intros Hi.
  - by eapply inv_wait_step.
  - by eapply inv_signal_step.
  - eapply inv_goto; [done|done|neutral..| |]; cbn; lia.
  - eapply inv_goto; [done|done|neutral..| |]; cbn; lia.
  - unfold try_wait_start. destruct (try_decrement (sem v)) eqn:Hd; [|done]. eapply inv_take; eauto.
  - unfold try_signal_start. destruct (try_increment (sem v)) eqn:Hd; [|done]. eapply inv_give; eauto.
Qed.

Lemma side_idle B W ts : B ≠ Idle → (∀ t, W t ≠ Idle) → Forall (λ p, p = Idle) ts → side_ok B W [] ts.
Proof.
  intros HB HW Hts.
  assert (∀ i x, ts !! i = Some x → x = Idle) as Hidle by (intros i x Hi; by eapply (Forall_lookup_1 _ _ _ _ Hts Hi)).
  split.
  - by intros t ?%not_elem_of_nil.
  - constructor.
  - intros i t Hi%Hidle. by destruct (HW t).
  - intros i j t Hi%Hidle. by destruct (HW t).
  - by intros t Ht%Hidle.
Qed.

Lemma inv_initial w : sem_initial w → sem_inv w.
Proof.
  intros [(i & m & Hi & Hn) Hts]. unfold sem_new in Hn.
  destruct (bool_decide_reflect (i ≤ m)) as [Hm|]; [|done]. cbn in Hn.
  destruct w as [s ts]. cbn in Hn, Hts. injection Hn as <-.
  split; cbn [sem tasks count max waiting releasing]; [done|by apply side_idle..|done|done].
Qed.

Lemma inv_reachable w : sem_reachable w → sem_inv w.
Proof.
  intros (w0 & H0%inv_initial & Hs). revert H0. induction Hs as [w|w1 w2 w3 Hs _ IH]; [done|].
  intros H. apply IH. by eapply inv_step.
Qed.

(** ** The theorems *)

Lemma blocked_waiter_helped w t :
  sem_inv w → tasks w !! t = Some WaitBlocked → 0 < count (sem w) →
  ∃ i p, tasks w !! i = Some p ∧ helps_waiters p = true.
Proof.
  intros Hi Ht Hc. destruct (side_blocked _ _ _ _ (inv_wait _ Hi) t Ht) as [Hq|[i Hw]]; [|by exists i, (SignalWake t)].
  apply cnt_pos. assert (waiting (sem w) ≠ []) as Hne by (intros E; rewrite E in Hq; by apply not_elem_of_nil in Hq).
  pose proof (inv_waiters _ Hi Hne). lia.
Qed.

Lemma blocked_releaser_helped w t :
  sem_inv w → tasks w !! t = Some SignalBlocked → count (sem w) < max (sem w) →
  ∃ i p, tasks w !! i = Some p ∧ helps_releasers p = true.
Proof.
  intros Hi Ht Hc. destruct (side_blocked _ _ _ _ (inv_release _ Hi) t Ht) as [Hq|[i Hw]]; [|by exists i, (WaitWake t)].
  apply cnt_pos. assert (releasing (sem w) ≠ []) as Hne by (intros E; rewrite E in Hq; by apply not_elem_of_nil in Hq).
  pose proof (inv_releasers _ Hi Hne). lia.
Qed.

(** A waker and its target, in two steps: the target is woken and takes a unit. *)
Lemma waker_runs w i t :
  sem_inv w → tasks w !! i = Some (SignalWake t) → 0 < count (sem w) →
  ∃ w', rtc sem_step w w' ∧ tasks w' !! t = Some WaitPop ∧ count (sem w') = count (sem w) - 1.
Proof.
  intros Hi Hw Hc.
  destruct (side_woken WaitBlocked SignalWake _ _ i t Idle WaitTry (inv_wait _ Hi) Hw) as [Ht _]; [neutral..|].
  set (w1 := mkWorld (sem w) (<[t := WaitTry]> (<[i := Idle]> (tasks w)))).
  assert (tasks w1 !! t = Some WaitTry) as Ht1
    by (apply list_lookup_insert_eq; by eapply lookup_lt_Some).
  exists (mkWorld (mkSemaphore (count (sem w) - 1) (max (sem w)) (waiting (sem w)) (releasing (sem w)))
            (<[t := WaitPop]> (tasks w1))).
  split_and!; [|apply list_lookup_insert_eq; by eapply lookup_lt_Some|done].
  eapply rtc_l; [|eapply rtc_once].
  - apply (step_signal i (SignalWake t) w w1 Hw). cbn [signal_step]. unfold wake. by rewrite Ht.
  - apply (step_wait t WaitTry w1 _ Ht1). cbn [wait_step]. unfold try_decrement. by rewrite decide_True.
Qed.

(** C10. No lost wake-up: in every reachable state of every interleaving the count is within
    its bounds; a task blocked in [wait] while units are available is about to get one, since
    some task is between taking or giving a unit and waking (or retrying); and
    symmetrically for [signal] when there is room. *)
Theorem sem_no_lost_wakeup w :
  sem_reachable w →
  0 ≤ count (sem w) ≤ max (sem w) ∧
  (∀ t, tasks w !! t = Some WaitBlocked → 0 < count (sem w) →
    ∃ i p, tasks w !! i = Some p ∧ helps_waiters p = true) ∧
  (∀ t, tasks w !! t = Some SignalBlocked → count (sem w) < max (sem w) →
    ∃ i p, tasks w !! i = Some p ∧ helps_releasers p = true).
Proof.
  intros Hi%inv_reachable. split_and!; try apply (inv_count _ Hi); intros.
  - by eapply blocked_waiter_helped.
  - by eapply blocked_releaser_helped.
Qed.

(** C11. A blocked waiter is in the queue once, or has exactly one waker, never both; when
    every task is idle or blocked, waiters are blocked only at count 0 and releasers only at
    the maximum. *)
Theorem sem_blocked_accounted w :
  sem_reachable w →
  (∀ t, tasks w !! t = Some WaitBlocked →
    NoDup (waiting (sem w)) ∧
    ((t ∈ waiting (sem w) ∧ (∀ i, tasks w !! i ≠ Some (SignalWake t))) ∨
     ((t ∉ waiting (sem w)) ∧ (∃ i, tasks w !! i = Some (SignalWake t) ∧
                                 (∀ j, tasks w !! j = Some (SignalWake t) → j = i))))) ∧
  (Forall (λ p, p = Idle ∨ p = WaitBlocked ∨ p = SignalBlocked) (tasks w) →
    (∀ t, tasks w !! t = Some WaitBlocked → count (sem w) = 0) ∧
    (∀ t, tasks w !! t = Some SignalBlocked → count (sem w) = max (sem w))).
Proof.
  intros Hi%inv_reachable. pose proof (inv_count _ Hi) as Hc. split.
  - intros t Ht. destruct (inv_wait _ Hi) as [Hin Hnd Hw Hwi Hb]. split; [done|].
    destruct (decide (t ∈ waiting (sem w))) as [Hq|Hq].
    + left. split; [done|]. intros i Hi'. by destruct (Hw i t Hi').
    + right. split; [done|]. destruct (Hb t Ht) as [?|[i Hi']]; [done|]. exists i. split; [done|].
      intros j Hj. by eapply Hwi.
  - intros Hq. split; intros t Ht.
    + destruct (decide (0 < count (sem w))) as [H|]; [exfalso|lia].
      destruct (blocked_waiter_helped w t Hi Ht H) as (i & p & Hp & Hh).
      by destruct (Forall_lookup_1 _ _ _ _ Hq Hp) as [->|[->| ->]].
    + destruct (decide (count (sem w) < max (sem w))) as [H|]; [exfalso|lia].
      destruct (blocked_releaser_helped w t Hi Ht H) as (i & p & Hp & Hh).
      by destruct (Forall_lookup_1 _ _ _ _ Hq Hp) as [->|[->| ->]].
Qed.

(** C12. A blocked waiter does not stop the others: whenever units are available, the
    tasks that can run have a run in which some waiter takes one. *)
Theorem sem_waiter_progress w t :
  sem_reachable w → tasks w !! t = Some WaitBlocked → 0 < count (sem w) →
  ∃ w' i, rtc sem_step w w' ∧ tasks w' !! i = Some WaitPop ∧ count (sem w') = count (sem w) - 1.
Proof.
  intros Hi%inv_reachable Ht Hc.
  destruct (side_blocked _ _ _ _ (inv_wait _ Hi) t Ht) as [Hq|[i Hw]];
    [|destruct (waker_runs w i t Hi Hw Hc) as (w' & ?); eauto].
  destruct (blocked_waiter_helped w t Hi Ht Hc) as (i & p & Hp & Hh). destruct p; try done.
  - exists (mkWorld (mkSemaphore (count (sem w) - 1) (max (sem w)) (waiting (sem w)) (releasing (sem w)))
              (<[i := WaitPop]> (tasks w))), i.
    split_and!; [|apply list_lookup_insert_eq; by eapply lookup_lt_Some|done].
    apply rtc_once, (step_wait i WaitTry _ _ Hp). cbn [wait_step]. unfold try_decrement. by rewrite decide_True.
  - destruct (waiting (sem w)) as [|u l] eqn:Hl; [by apply not_elem_of_nil in Hq|].
    set (w1 := mkWorld (mkSemaphore (count (sem w)) (max (sem w)) l (releasing (sem w)))
                 (<[i := SignalWake u]> (tasks w))).
    assert (sem_step w w1) as Hs.
    { apply (step_signal i SignalPop _ _ Hp). cbn [signal_step]. unfold pop_waiting. by rewrite Hl. }
    destruct (waker_runs w1 i u) as (w' & Hr & Hu & Hk);
      [by eapply inv_step|apply list_lookup_insert_eq; by eapply lookup_lt_Some|done|].
    exists w', u. split_and!; [by eapply rtc_l|done|done].
  - destruct (waker_runs w i t0 Hi Hp Hc) as (w' & ?); eauto.
Qed.

(** *** Witnesses: task 0 waits on an empty semaphore and blocks, task 1 signals. *)

Definition ex_sem_start : world := mkWorld (mkSemaphore 0 1 [] []) [Idle; Idle].
Definition ex_blocked : world := mkWorld (mkSemaphore 0 1 [0%nat] []) [WaitBlocked; Idle].
Definition ex_signalled : world := mkWorld (mkSemaphore 1 1 [0%nat] []) [WaitBlocked; SignalPop].

Lemma ex_blocked_reachable : sem_reachable ex_blocked.
Proof.
  exists ex_sem_start. split.
  - split; [by exists 0, 1|repeat constructor].
  - eapply rtc_l; [apply (step_call_wait 0%nat); reflexivity|].
    apply rtc_once, (step_wait 0%nat WaitTry); reflexivity.
Qed.

Lemma ex_signalled_reachable : sem_reachable ex_signalled.
Proof.
  destruct ex_blocked_reachable as (w0 & H0 & Hr). exists w0. split; [done|].
  etrans; [exact Hr|]. apply rtc_once.
  exact (step_try_signal 1%nat ex_blocked eq_refl).
Qed.

Lemma sem_no_lost_wakeup_witness : ∃ i p, tasks ex_signalled !! i = Some p ∧ helps_waiters p = true.
Proof.
  destruct (sem_no_lost_wakeup ex_signalled ex_signalled_reachable) as (_ & H & _).
  apply (H 0%nat); reflexivity.
Defined.

Lemma sem_blocked_accounted_witness : count (sem ex_blocked) = 0.
Proof.
  destruct (sem_blocked_accounted ex_blocked ex_blocked_reachable) as [_ H].
  refine (proj1 (H _) 0%nat eq_refl). constructor; [by right; left|]. constructor; [by left|]. constructor.
Defined.

Lemma sem_waiter_progress_witness :
  ∃ w' i, rtc sem_step ex_signalled w' ∧ tasks w' !! i = Some WaitPop ∧ count (sem w') = 0.
Proof. apply (sem_waiter_progress ex_signalled 0%nat ex_signalled_reachable); reflexivity. Defined.
