(* ===== verification/Spinlock.v ===== *)
(** * Locks that disable interrupts (src/locking/spinlock.rs)

    [WithSpinLock::lock] saves and clears the interrupt flag and takes a [spin::Mutex]; the
    guard's [drop] releases the mutex with [drop_in_place] and restores the flag, after which
    the compiler's drop glue drops the field [inner] again and so releases the mutex a second
    time, now possibly with interrupts on.

    [cpu] is the one processor the kernel runs on: the interrupt flag, the mutexes that are
    locked, the running task and where every task is.  [spin_step] runs the current task, or
    preempts it when interrupts are enabled.  Guards are dropped in the reverse of the order
    they were taken, as the scopes of the source do. *)

From S2P Require Import Prelude.

(** A [spin::Mutex] is named by a number; the guard remembers the flag. *)
Record Guard := mkGuard { g_inner : nat; g_was_enabled : bool }.

(** Where a task is; [gs] are the guards it holds, the latest first. *)
Inductive stage :=
| Runs (gs : list Guard)
| Spins (g : Guard) (gs : list Guard)       (* [lock], after [disable_interrupts] *)
| Released (g : Guard) (gs : list Guard)    (* [drop], after [drop_in_place] *)
| Restored (g : Guard) (gs : list Guard).   (* [drop] returned, before the drop glue *)

Record cpu := mkCpu {
  interrupt_flag : bool;
  locked : gset nat;
  running : nat;
  stages : list stage;
}.

Definition goto (c : cpu) (f : bool) (l : gset nat) (s : stage) : cpu :=
  mkCpu f l (running c) (<[running c := s]> (stages c)).

(** [WithSpinLock::lock] up to the spinning, and the end of the spinning. *)
Definition lock_start (m : nat) (c : cpu) (gs : list Guard) : cpu :=
  goto c false (locked c) (Spins (mkGuard m (interrupt_flag c)) gs).
Definition lock_acquire (g : Guard) (c : cpu) (gs : list Guard) : option cpu :=
  if decide (g_inner g ∈ locked c) then None
  else Some (goto c (interrupt_flag c) ({[g_inner g]} ∪ locked c) (Runs (g :: gs))).

(** [Drop::drop], and the drop glue that follows it. *)
Definition drop_release (g : Guard) (c : cpu) (gs : list Guard) : cpu :=
  goto c (interrupt_flag c) (locked c ∖ {[g_inner g]}) (Released g gs).
Definition drop_restore (g : Guard) (c : cpu) (gs : list Guard) : cpu :=
  goto c (if g_was_enabled g then true else interrupt_flag c) (locked c) (Restored g gs).
Definition drop_glue (g : Guard) (c : cpu) (gs : list Guard) : cpu :=
  goto c (interrupt_flag c) (locked c ∖ {[g_inner g]}) (Runs gs).

(** One step of the current task. *)
Inductive task_step (c : cpu) : cpu → Prop :=
| do_lock m gs : stages c !! running c = Some (Runs gs) → task_step c (lock_start m c gs)
| do_acquire g gs c' : stages c !! running c = Some (Spins g gs) →
    lock_acquire g c gs = Some c' → task_step c c'
| do_release g gs : stages c !! running c = Some (Runs (g :: gs)) → task_step c (drop_release g c gs)
| do_restore g gs : stages c !! running c = Some (Released g gs) → task_step c (drop_restore g c gs)
| do_glue g gs : stages c !! running c = Some (Restored g gs) → task_step c (drop_glue g c gs).

(** The timer interrupt switches tasks; a task switched out with interrupts enabled resumes
    with interrupts enabled. *)
Inductive spin_step (c : cpu) : cpu → Prop :=
| spin_task c' : task_step c c' → spin_step c c'
| spin_preempt j : interrupt_flag c = true → is_Some (stages c !! j) →
    spin_step c (mkCpu true (locked c) j (stages c)).

Definition spin_initial (c : cpu) : Prop :=
  interrupt_flag c = true ∧ locked c = ∅ ∧ is_Some (stages c !! running c) ∧
  Forall (λ s, s = Runs []) (stages c).

(** The mutexes a task believes it holds. *)
Definition held (s : stage) : list nat :=
  match s with
  | Runs gs | Spins _ gs | Released _ gs | Restored _ gs => g_inner <$> gs
  end.

(** The mutexes it may still release. *)
Definition releases (s : stage) : list nat :=
  match s with
  | Runs gs | Spins _ gs => g_inner <$> gs
  | Released g gs | Restored g gs => g_inner <$> (g :: gs)
  end.

(** ** The invariant *)

(** The guards of a task that began with interrupts enabled: only the first one taken found
    them so. *)
Fixpoint nested (gs : list Guard) : Prop :=
  match gs with
  | [] => True
  | [g] => g_was_enabled g = true
  | g :: gs => g_was_enabled g = false ∧ nested gs
  end.

(** What the flag is at each stage. *)
Definition stage_ok (f : bool) (s : stage) : Prop :=
  match s with
  | Runs [] => f = true
  | Runs gs => f = false ∧ nested gs
  | Spins g gs | Released g gs => f = false ∧ nested (g :: gs)
  | Restored g [] => f = true
  | Restored g gs => f = false ∧ nested (g :: gs)
  end.

Definition at_rest (s : stage) : Prop := match s with Runs [] | Restored _ [] => True | _ => False end.

Record spin_inv (c : cpu) : Prop := {
  inv_current : ∃ s, stages c !! running c = Some s ∧ stage_ok (interrupt_flag c) s ∧
                     locked c = list_to_set (held s) ∧ NoDup (releases s);
  inv_others i s : stages c !! i = Some s → i ≠ running c → at_rest s;
}.

Lemma nested_cons g gs : nested (g :: gs) → nested gs.
Proof. destruct gs; cbn; [done|by intros [_ ?]]. Qed.

Lemma at_rest_held s : at_rest s → held s = [].
Proof. destruct s as [[]| |? []|? []]; done. Qed.

Lemma stage_ok_rest s : stage_ok true s → at_rest s.
Proof. destruct s as [[]|? []|? []|? []]; cbn; naive_solver. Qed.

Lemma rest_stage_ok s : at_rest s → stage_ok true s.
Proof. destruct s as [[]| |? []|? []]; done. Qed.

(** A step of the current task: what has to hold of its new stage. *)
Lemma spin_inv_goto c f l s s' :
  spin_inv c → stages c !! running c = Some s →
  stage_ok f s' → l = list_to_set (held s') → NoDup (releases s') →
  spin_inv (goto c f l s').
Proof.
  intros [_ Ho] Hs Hok Hl Hnd. split; cbn [goto interrupt_flag locked running stages].
  - exists s'. split; [apply list_lookup_insert_eq; by eapply lookup_lt_Some|done].
  - intros i s0 Hi Hne. rewrite list_lookup_insert_ne in Hi by done. by eapply Ho.
Qed.

Lemma inv_current_stage c s :
  spin_inv c → stages c !! running c = Some s →
  stage_ok (interrupt_flag c) s ∧ locked c = list_to_set (held s) ∧ NoDup (releases s).
Proof. intros [(s0 & Hs0 & ?) _] Hs. rewrite Hs in Hs0. by simplify_eq. Qed.

Lemma difference_not_in (x : nat) l : NoDup (x :: l) → (list_to_set l : gset nat) ∖ {[x]} = list_to_set l.
Proof. intros [Hx _]%NoDup_cons. rewrite <- (elem_of_list_to_set (C:=gset nat)) in Hx. set_solver. Qed.

Lemma difference_head (x : nat) l :
  NoDup (x :: l) → (list_to_set (x :: l) : gset nat) ∖ {[x]} = list_to_set l.
Proof. intros Hnd. rewrite <- (difference_not_in x l Hnd). cbn. set_solver. Qed.

Lemma spin_inv_task c c' : spin_inv c → task_step c c' → spin_inv c'.
Proof.
  intros Hi Hst. destruct Hst as [m gs Hs|g gs c' Hs Ha|g gs Hs|g gs Hs|g gs Hs];
    destruct (inv_current_stage c _ Hi Hs) as (Hok & Hl & Hnd); (eapply spin_inv_goto; [done..| | |]) || idtac.
  - destruct gs as [|g gs]; cbn in Hok |- *; [by rewrite Hok|]. by destruct Hok as [-> ?].
  - done.
  - done.
  - unfold lock_acquire in Ha. destruct (decide _) as [|Hni]; [done|]. injection Ha as <-.
    rewrite Hl in Hni. rewrite elem_of_list_to_set in Hni.
    eapply spin_inv_goto; [done|done|done|by rewrite Hl|cbn; by constructor].
  - by destruct gs.
  - cbn in Hl, Hnd |- *. rewrite Hl. by apply difference_head.
  - done.
  - destruct Hok as [-> Hn]. destruct gs as [|g' gs]; cbn in *; [by rewrite Hn|]. by destruct Hn as [-> ?].
  - done.
  - done.
  - destruct gs as [|g' gs]; cbn in Hok |- *; [done|]. destruct Hok as [-> [_ ?]]. done.
  - cbn in Hl, Hnd |- *. rewrite Hl. by apply difference_not_in.
  - by apply NoDup_cons in Hnd as [_ ?].
Qed.

Lemma spin_inv_step c c' : spin_inv c → spin_step c c' → spin_inv c'.
Proof.
  intros Hi [c1 Hs|j Hf [s Hj]]; [by eapply spin_inv_task|].
  destruct Hi as [(s0 & Hs0 & Hok & Hl & Hnd) Ho]. rewrite Hf in Hok. apply stage_ok_rest in Hok.
  assert (at_rest s) as Hr.
  { destruct (decide (j = running c)) as [->|Hne]; [by rewrite Hs0 in Hj; simplify_eq|by eapply Ho]. }
  split; cbn [interrupt_flag locked running stages].
  - exists s. split_and!; [done|by apply rest_stage_ok| |].
    + by rewrite Hl, (at_rest_held _ Hok), (at_rest_held _ Hr).
    + destruct s as [[]| |? []|? []]; try done; cbn; [constructor|apply NoDup_singleton].
  - intros i s' Hi Hne. destruct (decide (i = running c)) as [->|]; [by rewrite Hs0 in Hi; simplify_eq|by eapply Ho].
Qed.

Definition spin_reachable (c : cpu) : Prop := ∃ c0, spin_initial c0 ∧ rtc spin_step c0 c.

Lemma spin_inv_reachable c : spin_reachable c → spin_inv c.
Proof.
  intros (c0 & (Hf & Hl & [s Hs] & Hall) & Hr).
  assert (∀ i s, stages c0 !! i = Some s → s = Runs []) as Hruns
    by (intros i s' Hi; by eapply (Forall_lookup_1 _ _ _ _ Hall Hi)).
  assert (spin_inv c0) as Hinv.
  { split.
    - pose proof (Hruns _ _ Hs) as ->. exists (Runs []). split_and!; [done|exact Hf|exact Hl|constructor].
    - intros i s' Hi _. by rewrite (Hruns _ _ Hi). }
  clear -Hr Hinv. induction Hr as [|c1 c2 c3 H12 _ IH]; [done|]. apply IH. by eapply spin_inv_step.
Qed.

(** C13. Mutual exclusion on the one processor, for every interleaving: a task that holds a
    guard is the running one and has interrupts disabled, so no two tasks hold the same
    mutex; the mutexes that are locked are exactly those held, in spite of the second
    release by the drop glue; and a task that spins on a locked mutex holds it itself. *)
Theorem spinlock_exclusion c :
  spin_reachable c →
  (∀ i s, stages c !! i = Some s → held s ≠ [] → i = running c ∧ interrupt_flag c = false) ∧
  (∀ i j s s' m, stages c !! i = Some s → stages c !! j = Some s' → m ∈ held s → m ∈ held s' → i = j) ∧
  (∀ m, m ∈ locked c ↔ ∃ i s, stages c !! i = Some s ∧ m ∈ held s) ∧
  (∀ g gs, stages c !! running c = Some (Spins g gs) → lock_acquire g c gs = None →
    g_inner g ∈ g_inner <$> gs).
Proof.
  intros [(s0 & Hs0 & Hok & Hl & Hnd) Ho]%spin_inv_reachable.
  assert (∀ i s, stages c !! i = Some s → held s ≠ [] → i = running c) as Hrun.
  { intros i s Hi Hne. destruct (decide (i = running c)); [done|]. by destruct Hne; eapply at_rest_held, Ho. }
  split_and!.
  - intros i s Hi Hne. split; [by eapply Hrun|]. rewrite (Hrun i s Hi Hne), Hs0 in Hi. simplify_eq.
    destruct (interrupt_flag c) eqn:Hf; [|done]. by destruct Hne; apply at_rest_held, stage_ok_rest.
  - intros i j s s' m Hi Hj Hm Hm'.
    rewrite (Hrun i s), (Hrun j s'); [done|done|..|done|]; intros E; rewrite E in *; by eapply not_elem_of_nil.
  - intros m. rewrite Hl, elem_of_list_to_set. split; [eauto|].
    intros (i & s & Hi & Hm). rewrite (Hrun i s Hi) in Hi by (intros E; rewrite E in Hm; by eapply not_elem_of_nil).
    by rewrite Hs0 in Hi; simplify_eq.
  - intros g gs Hs Ha. rewrite Hs0 in Hs. simplify_eq. unfold lock_acquire in Ha.
    destruct (decide _) as [Hin|]; [|done]. by rewrite Hl, elem_of_list_to_set in Hin.
Qed.

(** Two tasks; task 0 holds mutex 7. *)
Definition ex_cpu : cpu := mkCpu true ∅ 0 [Runs []; Runs []].
Definition ex_cpu_holding : cpu := mkCpu false {[7%nat]} 0 [Runs [mkGuard 7 true]; Runs []].

Lemma ex_cpu_reachable : spin_reachable ex_cpu_holding.
Proof.
  exists ex_cpu. split.
  - split_and!; [done|done|by eexists|repeat constructor].
  - eapply rtc_l; [apply spin_task, (do_lock _ 7%nat []); reflexivity|].
    apply rtc_once, spin_task, (do_acquire _ (mkGuard 7 true) []); vm_compute; reflexivity.
Qed.

Lemma spinlock_exclusion_witness : interrupt_flag ex_cpu_holding = false.
Proof.
  destruct (spinlock_exclusion ex_cpu_holding ex_cpu_reachable) as [H _].
  apply (H 0%nat (Runs [mkGuard 7 true])); [reflexivity|discriminate].
Defined.

(** *** The second release matters as soon as a holder is switched out

    [unsafe_step] also lets the running task give up the processor while it holds a guard,
    as a blocking call under a guard would. *)
Inductive unsafe_step (c : cpu) : cpu → Prop :=
| unsafe_spin c' : spin_step c c' → unsafe_step c c'
| unsafe_yield j : is_Some (stages c !! j) → unsafe_step c (mkCpu true (locked c) j (stages c)).

(** Were a task to block while it holds a guard, the second release of another task would
    unlock its mutex: a state is reached in which a task holds a mutex that is not locked. *)
Theorem blocking_holder_loses_mutex :
  ∃ c m, rtc unsafe_step ex_cpu c ∧ stages c !! 1%nat = Some (Runs [mkGuard m true]) ∧ m ∉ locked c.
Proof.
  exists (mkCpu true ∅ 0 [Runs []; Runs [mkGuard 7 true]]), 7%nat.
  split_and!; [|reflexivity|set_solver].
  eapply rtc_l; [apply unsafe_spin, spin_task, (do_lock _ 7%nat []); reflexivity|].
  eapply rtc_l; [apply unsafe_spin, spin_task, (do_acquire _ (mkGuard 7 true) []); vm_compute; reflexivity|].
  eapply rtc_l; [apply unsafe_spin, spin_task, (do_release _ (mkGuard 7 true) []); reflexivity|].
  eapply rtc_l; [apply unsafe_spin, spin_task, (do_restore _ (mkGuard 7 true) []); reflexivity|].
  eapply rtc_l; [apply unsafe_spin, (spin_preempt _ 1%nat); [reflexivity|by eexists]|].
  eapply rtc_l; [apply unsafe_spin, spin_task, (do_lock _ 7%nat []); reflexivity|].
  eapply rtc_l; [apply unsafe_spin, spin_task, (do_acquire _ (mkGuard 7 true) []); vm_compute; reflexivity|].
  eapply rtc_l; [apply (unsafe_yield _ 0%nat); by eexists|].
  eapply rtc_l; [apply unsafe_spin, spin_task, (do_glue _ (mkGuard 7 true) []); reflexivity|].
  vm_compute. apply rtc_refl.
Qed.
