(* ===== verification/Malloc.v ===== *)
(** * The kernel heap (src/mm/malloc.rs)

    [KernelAllocator] is a bump allocator: [alloc] rounds the head up to the next multiple of
    the alignment and moves it past the block, [dealloc] does nothing.  The theorem is about
    any sequence of requests: the blocks are aligned, above the bottom of the heap and
    pairwise disjoint, and the allocator does not fail while the requests fit the address
    space. *)

From S2P Require Import Prelude.

(** [arch::x86_64::mm::KERNEL_BASE]. *)
Definition KERNEL_BASE : Z := 0xffff800000000000.

Record KernelAllocator := mkKernelAllocator { heap_bottom : Z; head : Z }.

(** [alloc::Layout]. *)
Record Layout := mkLayout { layout_size : Z; layout_align : Z }.

(** [Layout] only holds non-zero alignments. *)
Definition layout_ok (l : Layout) : Prop := 0 ≤ layout_size l ∧ 0 < layout_align l.

Definition kernel_allocator_new : KernelAllocator :=
  let bottom := KERNEL_BASE + Z.shiftl 1 29 in mkKernelAllocator bottom bottom.

Definition kalloc (a : KernelAllocator) (l : Layout) : outcome (KernelAllocator * Z) :=
  if decide (head a = 0) then Ret (a, 0) else
  let (size, align) := l in
  h ← checked_mul 64 (head a / align) align;
  h ← checked_add 64 h align;
  h' ← checked_add 64 h size;
  Ret (mkKernelAllocator (heap_bottom a) h', h).

Definition dealloc (a : KernelAllocator) (ptr : Z) (l : Layout) : KernelAllocator := a.

(** ** One request *)

Lemma kalloc_spec a l a' p :
  0 < head a → layout_ok l → kalloc a l = Ret (a', p) →
  (layout_align l | p) ∧ head a < p ∧ p ≤ head a + layout_align l ∧
  head a' = p + layout_size l ∧ head a' < 2 ^ 64 ∧ heap_bottom a' = heap_bottom a.
Proof.
  intros Ha [Hs Hal] H. unfold kalloc in H. rewrite decide_False in H by lia.
  destruct l as [s al]. cbn [layout_size layout_align] in *.
  monad_inv. repeat match goal with
  | H : checked_add _ _ _ = Ret _ |- _ => apply checked_add_Ret_inv in H as [? ?]
  | H : checked_mul _ _ _ = Ret _ |- _ => apply checked_mul_Ret_inv in H as [? ?]
  end. subst. cbn [head heap_bottom].
  pose proof (Z.div_mod (head a) al ltac:(lia)). pose proof (Z.mod_pos_bound (head a) al Hal).
  split_and!; try lia. exists (head a / al + 1). lia.
Qed.

Lemma kalloc_fits a l :
  0 < head a → layout_ok l → head a + layout_align l + layout_size l < 2 ^ 64 →
  ∃ a' p, kalloc a l = Ret (a', p).
Proof.
  intros Ha [Hs Hal] Hfit. unfold kalloc. rewrite decide_False by lia.
  destruct l as [s al]. cbn [layout_size layout_align] in *.
  pose proof (Z.div_mod (head a) al ltac:(lia)). pose proof (Z.mod_pos_bound (head a) al Hal).
  rewrite checked_mul_ok by lia. ret. checked. eauto.
Qed.

(** ** Sequences of requests *)

Definition block := (Z * Z)%type. (* address, size *)

Fixpoint kalloc_all (a : KernelAllocator) (ls : list Layout) : outcome (KernelAllocator * list Z) :=
  match ls with
  | [] => Ret (a, [])
  | l :: ls =>
      '(a, p) ← kalloc a l;
      '(a, ps) ← kalloc_all a ls;
      Ret (a, p :: ps)
  end.

(** [a] and [b] do not overlap, and [a] is below. *)
Definition below (a b : block) : Prop := a.1 + a.2 ≤ b.1.

Lemma kalloc_all_spec ls : ∀ a a' ps,
  0 < head a → Forall layout_ok ls → kalloc_all a ls = Ret (a', ps) →
  head a ≤ head a' ∧ heap_bottom a' = heap_bottom a ∧
  Forall2 (λ l p, (layout_align l | p) ∧ head a < p ∧ p + layout_size l ≤ head a') ls ps ∧
  StronglySorted below (zip ps (layout_size <$> ls)).
Proof.
  induction ls as [|l ls IH]; intros a a' ps Ha Hls H; cbn [kalloc_all] in H.
  { monad_inv. split_and!; [lia|done|constructor|constructor]. }
  apply Forall_cons in Hls as [Hl Hls]. apply bind_Ret_inv in H as ([a1 p] & Hp & H).
  apply bind_Ret_inv in H as ([a2 ps'] & Hps & H). monad_inv.
  destruct (kalloc_spec _ _ _ _ Ha Hl Hp) as (Hdiv & Hlt & Hle & Hh & _ & Hb).
  destruct Hl as [Hs _].
  destruct (IH a1 a' ps' ltac:(lia) Hls Hps) as (Hmono & Hb' & Hall & Hsorted).
  split_and!; [lia|congruence| |].
  - constructor; [split_and!; [done|lia|lia]|].
    eapply Forall2_impl; [exact Hall|]. intros ?? (?&?&?). split_and!; [done|lia|lia].
  - cbn. constructor; [done|]. apply Forall_forall. intros [q s] Hq%elem_of_zip_l.
    apply list_elem_of_lookup in Hq as [i Hi].
    destruct (Forall2_lookup_r _ _ _ _ _ Hall Hi) as (l' & _ & _ & ? & _). unfold below. cbn. lia.
Qed.

(** C14. Blocks handed out by the kernel heap: every block is aligned and above the bottom of
    the heap, and later blocks start after earlier ones end, so no two overlap; requests
    succeed as long as sizes and alignments fit below the end of the address space. *)
Theorem kalloc_disjoint ls :
  Forall layout_ok ls →
  (∀ a' ps, kalloc_all kernel_allocator_new ls = Ret (a', ps) →
    Forall2 (λ l p, (layout_align l | p) ∧ heap_bottom a' < p ∧ p + layout_size l ≤ head a') ls ps ∧
    StronglySorted below (zip ps (layout_size <$> ls))) ∧
  (∀ a l, 0 < head a → layout_ok l → head a + layout_align l + layout_size l < 2 ^ 64 →
    ∃ a' p, kalloc a l = Ret (a', p)).
Proof.
  intros Hls. split; [|apply kalloc_fits].
  intros a' ps H. assert (0 < head kernel_allocator_new) as H0 by (vm_compute; done).
  destruct (kalloc_all_spec _ _ _ _ H0 Hls H) as (_ & Hb & Hall & Hsorted).
  split; [|done]. rewrite Hb. exact Hall.
Qed.

(** The first two task structures of the kernel. *)
Lemma kalloc_disjoint_witness :
  StronglySorted below [(0xffff800020002000, 0x2000); (0xffff800020006000, 0x2000)].
Proof.
  destruct (kalloc_disjoint [mkLayout 0x2000 0x2000; mkLayout 0x2000 0x2000]) as [H _];
    [repeat constructor; cbn; lia|].
  apply (H (mkKernelAllocator 0xffff800020000000 0xffff800020008000)
           [0xffff800020002000; 0xffff800020006000]). vm_compute. reflexivity.
Defined.
