(* ===== verification/Io.v ===== *)
(** * Device registers

    [Hardware] is what the kernel sees of the machine: ports ([arch/x86_64/port.rs]) and
    memory-mapped registers ([read_volatile] and [write_volatile]).  Reads change the state
    too, since many registers do on being read.  The devices are not part of the program, so
    the state is a parameter of the drivers.  [io] is the monad the drivers are written in:
    a panic, or a result and the next state of the machine. *)

From S2P Require Import Prelude.

(** Widths are in bytes. *)
Class Hardware (W : Type) := {
  hw_in : Z → Z → W → Z * W;          (* width, port *)
  hw_out : Z → Z → Z → W → W;         (* width, port, data *)
  hw_read : Z → Z → W → Z * W;        (* width, address *)
  hw_write : Z → Z → Z → W → W;       (* width, address, data *)
}.

Definition io (W A : Type) : Type := W → outcome (A * W).

#[global] Instance io_ret {W} : MRet (io W) := λ A a w, Ret (a, w).
#[global] Instance io_bind {W} : MBind (io W) := λ A B f m w,
  match m w with
  | Ret (a, w') => f a w'
  | Panic p => Panic p
  end.

(** Code that does not touch the hardware. *)
Definition pure {W A} (m : outcome A) : io W A := λ w,
  match m with
  | Ret a => Ret (a, w)
  | Panic p => Panic p
  end.

Fixpoint io_fold {W A B} (f : B → A → io W B) (l : list A) (b : B) : io W B :=
  match l with
  | [] => mret b
  | a :: l => b' ← f b a; io_fold f l b'
  end.

Section ports.
Context {W : Type} `{Hardware W}.

Definition inb (port : Z) : io W Z := λ w, Ret (hw_in 1 port w).
Definition outb (port data : Z) : io W () := λ w, Ret (tt, hw_out 1 port data w).
Definition inw (port : Z) : io W Z := λ w, Ret (hw_in 2 port w).
Definition outw (port data : Z) : io W () := λ w, Ret (tt, hw_out 2 port data w).
Definition inl (port : Z) : io W Z := λ w, Ret (hw_in 4 port w).
Definition outl (port data : Z) : io W () := λ w, Ret (tt, hw_out 4 port data w).

Definition read_volatile (width addr : Z) : io W Z := λ w, Ret (hw_read width addr w).
Definition write_volatile (width addr data : Z) : io W () := λ w, Ret (tt, hw_write width addr data w).
End ports.

(** Running a bind whose first action is known. *)
Lemma io_bind_Ret {W A B} (m : io W A) (f : A → io W B) w a w' :
  m w = Ret (a, w') → (m ≫= f) w = f a w'.
Proof. intros E. unfold mbind, io_bind. by rewrite E. Qed.

Lemma io_bind_inv {W A B} (m : io W A) (f : A → io W B) w r :
  (m ≫= f) w = Ret r → ∃ a w', m w = Ret (a, w') ∧ f a w' = Ret r.
Proof. unfold mbind, io_bind. destruct (m w) as [[a w']|]; [eauto|done]. Qed.

Lemma io_fold_app {W A B} (f : B → A → io W B) l1 l2 b w :
  io_fold f (l1 ++ l2) b w = (io_fold f l1 b ≫= io_fold f l2) w.
Proof.
  revert b w. induction l1 as [|a l1 IH]; intros b w; cbn; [done|].
  unfold mbind, io_bind. destruct (f b a w) as [[b' w']|]; [|done]. apply IH.
Qed.

(** Loop rule. *)
Lemma io_fold_inv {W A B} (f : B → A → io W B) (I : list A → B → W → Prop) l b0 w0 :
  I [] b0 w0 →
  (∀ done x rest b w, l = done ++ x :: rest → I done b w →
     ∃ b' w', f b x w = Ret (b', w') ∧ I (done ++ [x]) b' w') →
  ∃ b' w', io_fold f l b0 w0 = Ret (b', w') ∧ I l b' w'.
Proof.
  intros H0 Hstep.
  enough (∀ todo done b w, l = done ++ todo → I done b w →
            ∃ b' w', io_fold f todo b w = Ret (b', w') ∧ I l b' w') as H by (by apply (H l [] b0)).
  induction todo as [|x rest IH]; intros dn b w Hl HI; cbn.
  - rewrite app_nil_r in Hl. subst. unfold mret, io_ret. eauto.
  - destruct (Hstep dn x rest b w Hl HI) as (b' & w' & E & HI').
    rewrite (io_bind_Ret _ _ _ _ _ E). apply (IH (dn ++ [x])); [by rewrite <- app_assoc|done].
Qed.

(** [io_run] executes reads and writes of a known machine. *)
Ltac io_run :=
  cbn [mbind io_bind mret io_ret pure inb outb inw outw inl outl read_volatile write_volatile].
