(* ===== verification/Clock.v ===== *)
(** * The system clock (src/kernel/clock.rs)

    [Clock] keeps the time in nanoseconds and a map from times to callbacks.  A callback is a
    value of the type [F]; [clock_tick] returns the callbacks it runs, in order.  The clock
    source, which [get_tick] asks for the time, is an argument here; [Hpet] has the one the
    kernel uses. *)

From S2P Require Import Prelude.

Record Clock (F : Type) := mkClock { ticks : Z; callbacks : gmap Z F }.
Arguments mkClock {F}.
Arguments ticks {F}.
Arguments callbacks {F}.

Section clock.
Context {F : Type}.
Implicit Types self : Clock F.

Definition clock_new : Clock F := mkClock 0 ∅.

(** The keys at or before [now], in the order of the map's iterator. *)
Definition to_run self (now : Z) : list Z :=
  filter (λ k, k ≤ now) (btree_iter (dom (callbacks self))).

(** [for &k in to_run.iter() { if let Some(f) = self.callbacks.remove(&k) { f(now) } }] *)
Fixpoint run_callbacks (ks : list Z) (cbs : gmap Z F) : gmap Z F * list (Z * F) :=
  match ks with
  | [] => (cbs, [])
  | k :: ks =>
      match cbs !! k with
      | Some f => let '(cbs, ran) := run_callbacks ks (delete k cbs) in (cbs, (k, f) :: ran)
      | None => run_callbacks ks cbs
      end
  end.

Definition clock_tick self (increment : Z) : Clock F * list (Z * F) :=
  let now := wrapping_add 64 (ticks self) increment in
  let '(cbs, ran) := run_callbacks (to_run self now) (callbacks self) in
  (mkClock now cbs, ran).

(** [now] is what the clock source reports. *)
Definition get_tick self (now : Z) : Clock F * Z := (mkClock now (callbacks self), now).

Definition callback_at self (ns : Z) (f : F) : Clock F :=
  mkClock (ticks self) (<[ns := f]> (callbacks self)).

(** The loop of [sleep]: [samples] are the successive values of [ticks] it loads, one before
    each [hlt].  The result is how many times it halts, if the samples last. *)
Fixpoint sleep_loop (until : Z) (samples : list Z) : option nat :=
  match samples with
  | [] => None
  | t :: ts => if decide (t < until) then S <$> sleep_loop until ts else Some 0%nat
  end.

(** [sleep]: [clock] is [None] before the clock is set up. *)
Definition busy_sleep (clock : option (list Z)) (ms : Z) : outcome (option nat) :=
  match clock with
  | None => Panic (ExplicitPanic "system clock is uninitialized")
  | Some [] => Ret None
  | Some (start :: samples) =>
      d ← checked_mul 64 ms 1000000;
      until ← checked_add 64 start d;
      Ret (sleep_loop until samples)
  end.

(** ** What [tick] runs *)

Lemma run_callbacks_spec ks : ∀ cbs cbs' ran,
  NoDup ks → (∀ k, k ∈ ks → is_Some (cbs !! k)) → run_callbacks ks cbs = (cbs', ran) →
  ran.*1 = ks ∧ (∀ k f, (k, f) ∈ ran → cbs !! k = Some f) ∧
  (∀ k, cbs' !! k = if decide (k ∈ ks) then None else cbs !! k).
Proof.
  induction ks as [|k ks IH]; intros cbs cbs' ran Hnd Hin H; cbn [run_callbacks] in H.
  { simplify_eq. split_and!; [done|by intros ?? ?%not_elem_of_nil|done]. }
  apply NoDup_cons in Hnd as [Hk Hnd]. destruct (Hin k) as [f Hf]; [set_solver|]. rewrite Hf in H.
  destruct (run_callbacks ks (delete k cbs)) as [c r] eqn:Hr. simplify_eq.
  destruct (IH (delete k cbs) cbs' r Hnd) as (H1 & H2 & H3); [|done|].
  { intros j Hj. rewrite lookup_delete_ne by set_solver. apply Hin. set_solver. }
  split_and!.
  - cbn. by rewrite H1.
  - intros j g [E|Hj]%elem_of_cons; [by simplify_eq|].
    apply H2 in Hj. by apply lookup_delete_Some in Hj as [_ ?].
  - intros j. rewrite H3. destruct (decide (j ∈ ks)), (decide (j ∈ k :: ks)); try done; [set_solver| |].
    + assert (j = k) as -> by set_solver. by rewrite lookup_delete_eq.
    + rewrite lookup_delete_ne; [done|]. set_solver.
Qed.

Lemma clock_tick_spec self increment self' ran :
  clock_tick self increment = (self', ran) →
  let now := wrapping_add 64 (ticks self) increment in
  ticks self' = now ∧
  (∀ k f, (k, f) ∈ ran ↔ callbacks self !! k = Some f ∧ k ≤ now) ∧
  StronglySorted Z.lt (ran.*1) ∧
  (∀ k, callbacks self' !! k = if decide (k ≤ now) then None else callbacks self !! k).
Proof.
  intros H. cbn zeta. unfold clock_tick in H. set (now := wrapping_add 64 (ticks self) increment) in *.
  destruct (run_callbacks _ _) as [cbs r] eqn:Hr. simplify_eq.
  assert (∀ k, k ∈ to_run self now ↔ is_Some (callbacks self !! k) ∧ k ≤ now) as Hto.
  { intros k. unfold to_run. rewrite list_elem_of_filter, elem_of_btree_iter, elem_of_dom. tauto. }
  destruct (run_callbacks_spec _ _ _ _ (NoDup_filter _ _ (btree_iter_NoDup _)) ltac:(by intros k [? _]%Hto) Hr)
    as (H1 & H2 & H3).
  split_and!; [done| | |].
  - intros k f. split.
    + intros Hkf. split; [by apply H2|]. apply (list_elem_of_fmap_2 fst) in Hkf. rewrite H1 in Hkf. by apply Hto in Hkf as [_ ?].
    + intros [Hk Hle]. assert (k ∈ ran.*1) as Hin by (rewrite H1; apply Hto; eauto).
      apply list_elem_of_fmap_1 in Hin as ([k' f'] & -> & Hkf). cbn in *. pose proof (H2 _ _ Hkf). by simplify_eq.
  - rewrite H1. apply sorted_NoDup_lt.
    + apply StronglySorted_filter, btree_iter_sorted.
    + apply NoDup_filter, btree_iter_NoDup.
  - intros k. cbn. rewrite H3. destruct (callbacks self !! k) as [f|] eqn:Hk.
    + destruct (decide (k ∈ _)) as [Hin|Hin], (decide (k ≤ now)) as [|Hn]; try done.
      * by apply Hto in Hin as [_ ?].
      * destruct Hin. apply Hto. eauto.
    + by repeat case_decide.
Qed.

(** C24. A tick runs exactly the callbacks that are due, each once, in the order of their
    times, and keeps exactly the others. *)
Theorem clock_tick_runs_due self increment self' ran :
  clock_tick self increment = (self', ran) →
  let now := wrapping_add 64 (ticks self) increment in
  ticks self' = now ∧
  (∀ k f, (k, f) ∈ ran ↔ callbacks self !! k = Some f ∧ k ≤ now) ∧
  StronglySorted Z.lt (ran.*1) ∧
  (∀ k, callbacks self' !! k = if decide (k ≤ now) then None else callbacks self !! k).
Proof. apply clock_tick_spec. Qed.

(** [callback_at] with a time that already has a callback drops that callback: of two tasks
    that sleep until the same nanosecond, one is never woken. *)
Theorem callback_at_same_time_drops self ns f g increment self' ran :
  clock_tick (callback_at (callback_at self ns f) ns g) increment = (self', ran) →
  ∀ h, (ns, h) ∈ ran → h = g.
Proof.
  intros (_ & Hran & _)%clock_tick_spec h [Hh _]%Hran. cbn [callbacks callback_at] in Hh.
  rewrite lookup_insert_eq in Hh. by simplify_eq.
Qed.

(** [sleep] returns: once a sample shows the time, the loop ends, and not before. *)
Theorem sleep_loop_ends until samples n :
  sleep_loop until samples = Some n ↔
  (∃ t, samples !! n = Some t ∧ until ≤ t) ∧ (∀ i t, (i < n)%nat → samples !! i = Some t → t < until).
Proof.
  revert n. induction samples as [|t ts IH]; intros n; cbn [sleep_loop].
  { split; [done|]. by intros [(t & Ht & _) _]. }
  destruct (decide (t < until)) as [Hlt|Hge].
  - rewrite fmap_Some. setoid_rewrite IH. split.
    + intros (m & [Hx Hb] & ->). split; [done|]. intros [|i] u Hi; [cbn; intros [= <-]; done|].
      cbn. apply Hb. lia.
    + intros [(u & Hu & Hle) Hb]. destruct n as [|n]; [cbn in Hu; simplify_eq; lia|].
      exists n. split; [|done]. split; [by exists u|]. intros i v Hi Hv. by apply (Hb (S i) v); [lia|].
  - split.
    + intros [= <-]. split; [exists t; cbn; split; [done|lia]|]. intros i u Hi. lia.
    + intros [_ Hb]. destruct n as [|n]; [done|]. exfalso. specialize (Hb 0%nat t ltac:(lia) eq_refl). lia.
Qed.
End clock.

Lemma clock_tick_runs_due_witness :
  let c := mkClock 10 {[5 := 1%nat; 15 := 2%nat; 40 := 3%nat]} in
  clock_tick c 10 = (mkClock 20 {[40 := 3%nat]}, [(5, 1%nat); (15, 2%nat)]) ∧ (15, 2%nat) ∈ [(5, 1%nat); (15, 2%nat)].
Proof.
  assert (clock_tick (mkClock 10 {[5 := 1%nat; 15 := 2%nat; 40 := 3%nat]}) 10 =
          (mkClock 20 {[40 := 3%nat]}, [(5, 1%nat); (15, 2%nat)])) as E by (vm_compute; reflexivity).
  split; [exact E|]. apply (clock_tick_runs_due _ _ _ _ E). split; [reflexivity|]. vm_compute. discriminate.
Defined.
