(* ===== verification/Task.v ===== *)
(** * Tasks and the task list (src/kernel/sched/task.rs)

    [TaskList] has the fields of the source; a [Box<Task>] is the address of the task
    structure, and [boxes] is the memory the boxes own, so that [_current_task], which finds
    the structure by masking the stack pointer, reads the same memory as the list.  The
    [BinaryHeap] of the standard library is any type of the class [Heap] that satisfies
    [HeapLaws]: which of several equal elements [pop] returns is not specified.

    The operations of [TaskList] are here; [Sched] has those of the scheduler. *)

From S2P Require Import Prelude Malloc Table Mapping.

(** ** Task structures *)

Definition KERNEL_STACK_SIZE : Z := 0x2000.
Definition TASK_STRUCT_MASK : Z := Z.lxor (KERNEL_STACK_SIZE - 1) 0xffffffffffffffff.

(** [TaskInfo] is 56 bytes: seven words, the last of which holds the flags and the
    interrupt state. *)
Definition TASK_INFO_SIZE : Z := 56.
Definition ACTUAL_STACK_SIZE : Z := KERNEL_STACK_SIZE - TASK_INFO_SIZE.
Definition stack_len : nat := Z.to_nat ACTUAL_STACK_SIZE.

Lemma stack_len_eq : Z.of_nat stack_len = ACTUAL_STACK_SIZE.
Proof. unfold stack_len. by rewrite Z2Nat.id. Qed.

#[global] Opaque stack_len.

Record Registers := mkRegisters { stack_top : Z; r_cr3 : Z }.

(** [TaskFlags] wraps a [u32]. *)
Definition is_runnable (flags : Z) : bool := bool_decide (Z.land flags 1 ≠ 0).
Definition set_is_runnable (flags : Z) (b : bool) : Z :=
  if b then Z.lor flags 1 else Z.land flags (bnot 32 1).

Record TaskInfo := mkTaskInfo {
  task_id : Z;
  registers : Registers;
  last_scheduled : Z;
  run_until : Z;
  total_runtime : Z;
  flags : Z;
  interrupt_enabled : bool;
}.

Record Task := mkTask { info : TaskInfo; stack : list Z }.

(** [Ord for TaskInfo]: the order of the runtimes, reversed, so that the heap's greatest
    element is the task that ran least. *)
Definition task_cmp (a b : TaskInfo) : comparison := CompOpp (Z.compare (total_runtime a) (total_runtime b)).

(** Updates of single fields. *)
Definition set_last_scheduled (i : TaskInfo) (x : Z) : TaskInfo :=
  mkTaskInfo (task_id i) (registers i) x (run_until i) (total_runtime i) (flags i) (interrupt_enabled i).
Definition set_info_run_until (i : TaskInfo) (x : Z) : TaskInfo :=
  mkTaskInfo (task_id i) (registers i) (last_scheduled i) x (total_runtime i) (flags i) (interrupt_enabled i).
Definition set_total_runtime (i : TaskInfo) (x : Z) : TaskInfo :=
  mkTaskInfo (task_id i) (registers i) (last_scheduled i) (run_until i) x (flags i) (interrupt_enabled i).
Definition set_info_flags (i : TaskInfo) (x : Z) : TaskInfo :=
  mkTaskInfo (task_id i) (registers i) (last_scheduled i) (run_until i) (total_runtime i) x (interrupt_enabled i).
Definition set_task_id (i : TaskInfo) (x : Z) : TaskInfo :=
  mkTaskInfo x (registers i) (last_scheduled i) (run_until i) (total_runtime i) (flags i) (interrupt_enabled i).
Definition set_stack_top (i : TaskInfo) (x : Z) : TaskInfo :=
  mkTaskInfo (task_id i) (mkRegisters x (r_cr3 (registers i))) (last_scheduled i) (run_until i)
    (total_runtime i) (flags i) (interrupt_enabled i).
Definition set_interrupt_enabled (i : TaskInfo) (b : bool) : TaskInfo :=
  mkTaskInfo (task_id i) (registers i) (last_scheduled i) (run_until i) (total_runtime i) (flags i) b.

(** ** Priority queues *)

Class Heap (H : Type) := {
  heap_new : H;
  heap_push : TaskInfo → H → H;
  heap_pop : H → option (TaskInfo * H);
  heap_retain : (TaskInfo → bool) → H → H;
  heap_elems : H → list TaskInfo;
}.

Class HeapLaws (H : Type) `{Heap H} : Prop := {
  elems_new : heap_elems (heap_new : H) = [];
  elems_push x (h : H) : heap_elems (heap_push x h) ≡ₚ x :: heap_elems h;
  elems_pop_None (h : H) : heap_pop h = None → heap_elems h = [];
  elems_pop (h h' : H) x : heap_pop h = Some (x, h') →
    heap_elems h ≡ₚ x :: heap_elems h' ∧ ∀ y, y ∈ heap_elems h' → task_cmp y x ≠ Gt;
  elems_retain f (h : H) : heap_elems (heap_retain f h) ≡ₚ filter (λ x, f x = true) (heap_elems h);
}.

(** A list as a priority queue: [pop] takes the first of the greatest elements. *)
Fixpoint pop_max (l : list TaskInfo) : option (TaskInfo * list TaskInfo) :=
  match l with
  | [] => None
  | x :: l =>
      match pop_max l with
      | None => Some (x, [])
      | Some (y, l') =>
          match task_cmp y x with
          | Gt => Some (y, x :: l')
          | _ => Some (x, l)
          end
      end
  end.

#[global] Instance list_heap : Heap (list TaskInfo) := {
  heap_new := [];
  heap_push := cons;
  heap_pop := pop_max;
  heap_retain f := filter (λ x, f x = true);
  heap_elems l := l;
}.

Lemma task_cmp_le a b : task_cmp a b ≠ Gt ↔ total_runtime b ≤ total_runtime a.
Proof. unfold task_cmp. destruct (Z.compare_spec (total_runtime a) (total_runtime b)); cbn; split; done || lia. Qed.

#[global] Instance list_heap_laws : HeapLaws (list TaskInfo).
Proof.
  split; try done.
  - intros l. destruct l as [|x l]; [done|]. cbn. destruct (pop_max l) as [[y l']|]; [|done].
    by destruct (task_cmp y x).
  - intros l. cbn. induction l as [|x l IH]; intros l' z; cbn; [done|].
    destruct (pop_max l) as [[y l1]|] eqn:Hp.
    + destruct (IH l1 y eq_refl) as [Hl Hmax].
      assert (∀ w, w ∈ l → task_cmp w y ≠ Gt) as Hmax'.
      { intros w Hw. rewrite Hl in Hw. apply elem_of_cons in Hw as [->|Hw]; [apply task_cmp_le; lia|auto]. }
      destruct (task_cmp y x) eqn:Hc; intros [= <- <-].
      1, 2: split; [done|]; intros w Hw%Hmax'; rewrite task_cmp_le in *;
            assert (task_cmp y x ≠ Gt) as Hyx%task_cmp_le by congruence; lia.
      split; [rewrite Hl; apply Permutation_swap|].
      intros w [->|Hw]%elem_of_cons; [|auto]. apply task_cmp_le.
      destruct (decide (task_cmp y x ≠ Gt)) as [|Hn]; [congruence|].
      rewrite task_cmp_le in Hn. lia.
    + intros [= <- <-]. destruct l as [|w l]; [split; [done|by intros ? ?%not_elem_of_nil]|]. cbn in Hp. destruct (pop_max l) as [[? ?]|]; [|done].
      by destruct (task_cmp _ _).
Qed.

(** ** The task list *)

Record TaskList (H : Type) := mkTaskList {
  next_task_id : Z;
  current : option Z;
  tasks : gmap Z Z;
  schedulable : H;
  boxes : gmap Z Task;
}.
Arguments mkTaskList {H}.
Arguments next_task_id {H}.
Arguments current {H}.
Arguments tasks {H}.
Arguments schedulable {H}.
Arguments boxes {H}.

Section operations.
Context {H : Type} `{Heap H}.
Implicit Types self : TaskList H.

Definition task_list_new : TaskList H := mkTaskList 0 None ∅ heap_new ∅.

(** Writing a task structure, and the queue. *)
Definition write_box self (a : Z) (t : Task) : TaskList H :=
  mkTaskList (next_task_id self) (current self) (tasks self) (schedulable self) (<[a := t]> (boxes self)).
Definition set_schedulable self (h : H) : TaskList H :=
  mkTaskList (next_task_id self) (current self) (tasks self) h (boxes self).
Definition set_current self (id : Z) : TaskList H :=
  mkTaskList (next_task_id self) (Some id) (tasks self) (schedulable self) (boxes self).

(** [self.tasks.get(&id).expect(msg)]. *)
Definition task_of self (id : Z) (msg : string) : outcome (Z * Task) :=
  a ← expect (tasks self !! id) (ExpectFailed msg);
  t ← expect (boxes self !! a) InvalidDeref;
  Ret (a, t).

Definition update_info self (a : Z) (t : Task) (i : TaskInfo) : TaskList H := write_box self a (mkTask i (stack t)).

Definition set_current_task self (id now : Z) : outcome (TaskList H) :=
  let self := set_current self id in
  '(a, t) ← task_of self id "The task set as current must exist";
  Ret (update_info self a t (set_last_scheduled (info t) now)).

Definition get self (id : Z) : option Z :=
  _ ← tasks self !! id; Some id.

Definition get_ptr self (id : Z) : outcome Z :=
  '(a, _) ← task_of self id "Task must exist for handle!"; Ret a.

Definition update_runtime self (id timestamp : Z) : outcome (TaskList H) :=
  let task_count := Z.of_nat (size (tasks self)) in
  '(a, t) ← task_of self id "Task must exist for handle!";
  delta ← checked_sub timestamp (last_scheduled (info t));
  delta ← checked_mul 64 delta task_count;
  total ← checked_add 64 (total_runtime (info t)) delta;
  let i := set_total_runtime (info t) total in
  let self := update_info self a t i in
  if is_runnable (flags i) then Ret (set_schedulable self (heap_push i (schedulable self))) else Ret self.

Definition get_run_until self (id : Z) : outcome Z :=
  '(_, t) ← task_of self id "Task must exist for handle"; Ret (run_until (info t)).

Definition SCHED_LATENCY : Z := 20000000.

Definition set_run_until self (id begin_at : Z) : outcome (TaskList H) :=
  let len := Z.of_nat (size (tasks self)) in
  '(a, t) ← task_of self id "Task must exist for handle";
  until ← checked_add 64 begin_at (SCHED_LATENCY / len);
  Ret (update_info self a t (set_info_run_until (info t) until)).

Definition set_runnable self (id : Z) (runnable : bool) : outcome (TaskList H) :=
  let self := set_schedulable self (heap_retain (λ x, bool_decide (task_id x ≠ id)) (schedulable self)) in
  '(a, t) ← task_of self id "Task with issued handle must exist";
  let i := set_info_flags (info t) (set_is_runnable (flags (info t)) runnable) in
  let self := update_info self a t i in
  if runnable then Ret (set_schedulable self (heap_push i (schedulable self))) else Ret self.

Definition tl_next self : option Z * TaskList H :=
  match heap_pop (schedulable self) with
  | None => (None, self)
  | Some (x, h) => (Some (task_id x), set_schedulable self h)
  end.

Definition create_task self (a : Z) (t : Task) : outcome (TaskList H * Z) :=
  let id := next_task_id self in
  let t := mkTask (set_task_id (info t) id) (stack t) in
  n ← checked_add 64 (next_task_id self) 1;
  Ret (mkTaskList n (current self) (<[id := a]> (tasks self)) (schedulable self) (<[a := t]> (boxes self)), id).

(** [_current_task]: the task structure is at the bottom of the region the stack pointer is
    in. *)
Definition _current_task self (rsp : Z) : outcome (Z * Task) :=
  let a := Z.land rsp TASK_STRUCT_MASK in
  t ← expect (boxes self !! a) InvalidDeref;
  Ret (a, t).

Definition current_task self (rsp : Z) : outcome Z :=
  '(_, t) ← _current_task self rsp; Ret (task_id (info t)).

Definition set_resume_interrupts self (rsp : Z) (enabled : bool) : outcome (TaskList H) :=
  '(a, t) ← _current_task self rsp;
  Ret (update_info self a t (set_interrupt_enabled (info t) enabled)).

Definition resume_interrupts self (rsp : Z) : outcome bool :=
  '(_, t) ← _current_task self rsp; Ret (interrupt_enabled (info t)).

(** The idle task runs on the boot stack, whose structure is at [boot_stack]; [rsp] and [cr3]
    are read from the processor, [enabled] is [interrupts_enabled()]. *)
Definition init_idle_task self (boot_stack rsp cr3 now : Z) (enabled : bool) : outcome (TaskList H) :=
  t ← expect (boxes self !! boot_stack) InvalidDeref;
  let i := mkTaskInfo 0 (mkRegisters rsp cr3) now 0 0 1 enabled in
  '(self, id) ← create_task self boot_stack (mkTask i (stack t));
  Ret (set_current self id).

(** [new_task] allocates the structure and forks the address space; [entry_point] is the
    address of the assembly routine [_task_entry], [uninit] what the fresh memory holds in
    the field that is not assigned. *)
Definition new_task (entry_point uninit : Z) self (heap : KernelAllocator)
    (mapper : Mapper X86_64BareMetal) (rsp entry : Z) :
    outcome (TaskList H * KernelAllocator * Mapper X86_64BareMetal * Z) :=
  cur ← current_task self rsp;
  '(_, cur) ← task_of self cur "New task creation attempted before boot task initialization.";
  '(heap, ptr) ← kalloc heap (mkLayout KERNEL_STACK_SIZE KERNEL_STACK_SIZE);
  base ← checked_add 64 (r_cr3 (registers (info cur))) PAGING_STRUCTURE_BASE_ADDR;
  '(mapper, cr3) ← fork mapper base;
  let i := mkTaskInfo uninit (mkRegisters 0 cr3) 0 uninit 0 1 true in
  let n := stack_len in
  st ← copy_into (replicate n 0) (n - 8) n (to_le_bytes 8 entry_point);
  st ← copy_into st (n - 24) (n - 16) (to_le_bytes 8 entry);
  '(self, id) ← create_task self ptr (mkTask i st);
  '(a, t) ← task_of self id "Newly created Task must exist!";
  st ← copy_into (stack t) (n - 16) (n - 8) (to_le_bytes 8 id);
  _ ← index st (n - 8 - 48);
  let i := set_stack_top (info t) (a + TASK_INFO_SIZE + (ACTUAL_STACK_SIZE - 8 - 8 * 6)) in
  let self := write_box self a (mkTask i st) in
  Ret (set_schedulable self (heap_push i (schedulable self)), heap, mapper, id).
End operations.
