(* ===== verification/Sched.v ===== *)
(** * The scheduler (src/kernel/sched/mod.rs)

    The methods of [SchedulerGuard], on the task list of [Task]; the stack pointer, the time
    and the interrupt flag they read from the hardware are arguments.  [switch] ends with the
    pointers it passes to [_do_switch] (see [Switch]).

    [task_list_ok] is the invariant: the queue holds each runnable task that is not running
    exactly once, with its current runtime, and nothing else.  [view] is the abstract state
    of a task, and the theorems state what each operation does to it. *)

From S2P Require Import Prelude Malloc Table Mapping Task Clock.

Section scheduler.
Context {H : Type} `{Heap H}.
Implicit Types self : TaskList H.

(** [sched::lock]: the interrupt state found is recorded in the running task. *)
Definition sched_lock self (rsp : Z) (was_enabled : bool) : outcome (TaskList H) :=
  set_resume_interrupts self rsp was_enabled.

(** [Drop for SchedulerGuard]: whether interrupts are enabled afterwards. *)
Definition sched_unlock self (rsp : Z) : outcome bool := resume_interrupts self rsp.

Definition switch self (rsp now : Z) : outcome (TaskList H * Z * Z) :=
  switch_from ← current_task self rsp;
  self ← update_runtime self switch_from now;
  '(self, switch_to) ←
    match tl_next self with
    | (Some id, self) => Ret (self, id)
    | (None, self) => id ← expect (get self 0) (ExpectFailed "Kernel task 0 must exist."); Ret (self, id)
    end;
  self ← set_current_task self switch_to now;
  self ← set_run_until self switch_to now;
  from_ptr ← get_ptr self switch_from;
  to_ptr ← get_ptr self switch_to;
  Ret (self, from_ptr, to_ptr).

(** [sleep]: [tick] is what the clock source reports; the callback wakes the task. *)
Definition sleep self (clock : option (Clock Z)) (rsp ns tick now : Z) :
    outcome (TaskList H * Clock Z * Z * Z) :=
  match clock with
  | Some clock =>
      let '(clock, t) := get_tick clock tick in
      until ← checked_add 64 t ns;
      task ← current_task self rsp;
      self ← set_runnable self task false;
      let clock := callback_at clock until task in
      '(self, from_ptr, to_ptr) ← switch self rsp now;
      Ret (self, clock, from_ptr, to_ptr)
  | None => Panic (ExplicitPanic "system clock is uninitialized")
  end.

Definition wake self (task : Z) : outcome (TaskList H) := set_runnable self task true.

Definition block self (rsp now : Z) : outcome (TaskList H * Z * Z) :=
  task ← current_task self rsp;
  self ← set_runnable self task false;
  switch self rsp now.

Definition check_runtime self (rsp now : Z) (was_enabled : bool) : outcome (TaskList H * option (Z * Z)) :=
  self ← sched_lock self rsp was_enabled;
  id ← current_task self rsp;
  until ← get_run_until self id;
  if decide (until ≤ now) then
    '(self, from_ptr, to_ptr) ← switch self rsp now; Ret (self, Some (from_ptr, to_ptr))
  else Ret (self, None).

Definition sched_init self (boot_stack rsp cr3 now : Z) (was_enabled : bool) : outcome (TaskList H * Z * Z) :=
  self ← sched_lock self rsp was_enabled;
  self ← init_idle_task self boot_stack rsp cr3 now false;
  switch self rsp now.

(** ** The abstract state *)

Definition lookup_task self (id : Z) : option Task := a ← tasks self !! id; boxes self !! a.

(** Whether a task is runnable, and its runtime. *)
Definition view_info (i : TaskInfo) : bool * Z := (is_runnable (flags i), total_runtime i).
Definition view self (id : Z) : option (bool * Z) := (view_info ∘ info) <$> lookup_task self id.

(** Every box holds the task of its index. *)
Definition boxes_ok self : Prop :=
  ∀ id a, tasks self !! id = Some a → ∃ t, boxes self !! a = Some t ∧ task_id (info t) = id.

(** The queue [q] holds the runnable tasks of [v] other than [out]. *)
Record queue_ok (q : list TaskInfo) (v : Z → option (bool * Z)) (out : option Z) : Prop := {
  queue_nodup : NoDup (task_id <$> q);
  queue_live x : x ∈ q → v (task_id x) = Some (true, total_runtime x);
  queue_full id rt : v id = Some (true, rt) → id ∈ task_id <$> q ∨ out = Some id;
  queue_out c : out = Some c → c ∉ task_id <$> q;
}.

Record task_list_ok self : Prop := {
  ok_boxes : boxes_ok self;
  ok_idle : is_Some (tasks self !! 0);
  ok_bound id : is_Some (tasks self !! id) → 0 ≤ id < next_task_id self;
  ok_current : ∃ c, current self = Some c ∧ is_Some (tasks self !! c);
  ok_queue : queue_ok (heap_elems (schedulable self)) (view self) (current self);
}.

(** The running task is the one the list says, and its structure is where the stack is. *)
Definition runs self (rsp c : Z) : Prop :=
  current self = Some c ∧ tasks self !! c = Some (Z.land rsp TASK_STRUCT_MASK).

(** ** The queue *)

#[global] Instance queue_ok_perm : Proper ((≡ₚ) ==> (=) ==> (=) ==> iff) queue_ok.
Proof.
  intros q q' Hq v _ <- o _ <-. split; intros [H1 H2 H3 H4]; split.
  - by rewrite <- Hq.
  - intros x Hx. apply H2. by rewrite Hq.
  - intros id rt Hv. rewrite <- Hq. by eapply H3.
  - intros c Hc. rewrite <- Hq. by apply H4.
  - by rewrite Hq.
  - intros x Hx. apply H2. by rewrite <- Hq.
  - intros id rt Hv. rewrite Hq. by eapply H3.
  - intros c Hc. rewrite Hq. by apply H4.
Qed.

Lemma queue_ok_view q v v' out : queue_ok q v out → (∀ id, v' id = v id) → queue_ok q v' out.
Proof.
  intros [H1 H2 H3 H4] Hv. split; [done| | |done].
  - intros x Hx. rewrite Hv. auto.
  - intros id rt. rewrite Hv. apply H3.
Qed.

(** The running task stops: it joins the queue if it can run on. *)
Lemma queue_push q v v' c x :
  queue_ok q v (Some c) → task_id x = c → v' c = Some (view_info x) →
  (∀ id, id ≠ c → v' id = v id) →
  queue_ok (if is_runnable (flags x) then x :: q else q) v' None.
Proof.
  intros [H1 H2 H3 H4] Hx Hc Hv.
  assert (∀ y, y ∈ q → task_id y ≠ c) as Hne.
  { intros y Hy Hy'. apply (H4 c eq_refl). rewrite <- Hy'. by apply list_elem_of_fmap_2. }
  unfold view_info in Hc. destruct (is_runnable (flags x)).
  - split; [| | |done].
    + cbn. constructor; [rewrite Hx; by apply H4|done].
    + intros y [->|Hy]%elem_of_cons; [by rewrite Hx|]. rewrite Hv by auto. auto.
    + intros id rt Hid. left. cbn. destruct (decide (id = c)) as [->|Hn]; [rewrite Hx; set_solver|].
      rewrite Hv in Hid by done. destruct (H3 _ _ Hid) as [?|?]; [set_solver|congruence].
  - split; [done| | |done].
    + intros y Hy. rewrite Hv by auto. auto.
    + intros id rt Hid. left. destruct (decide (id = c)) as [->|Hn]; [congruence|].
      rewrite Hv in Hid by done. destruct (H3 _ _ Hid) as [?|?]; [done|congruence].
Qed.

(** The first of the queue runs. *)
Lemma queue_pop x q v : queue_ok (x :: q) v None → queue_ok q v (Some (task_id x)).
Proof.
  intros [H1 H2 H3 _]. cbn in H1. apply NoDup_cons in H1 as [Hn H1]. split; [done| | |by intros ? [= <-]].
  - intros y Hy. apply H2. set_solver.
  - intros id rt Hid. apply H3 in Hid as [[->|?]%elem_of_cons|?]; auto; done.
Qed.

Lemma queue_empty v c : queue_ok [] v None → queue_ok [] v (Some c).
Proof.
  intros [_ _ H3 _]. split; [constructor|by intros ? ?%not_elem_of_nil| |by intros ? ? ?%not_elem_of_nil].
  intros id rt Hid. by apply H3 in Hid as [?%not_elem_of_nil|?].
Qed.

(** [set_runnable]: the entry of [id] is dropped, and put back if [b]. *)
Lemma queue_set q v v' out id b x :
  queue_ok q v out → (b = true → out ≠ Some id) → task_id x = id →
  v' id = Some (b, total_runtime x) → (∀ j, j ≠ id → v' j = v j) →
  let q' := filter (λ y, bool_decide (task_id y ≠ id) = true) q in
  queue_ok (if b then x :: q' else q') v' out.
Proof.
  intros [H1 H2 H3 H4] Hout Hx Hid Hv q'.
  assert (∀ y, y ∈ q' ↔ task_id y ≠ id ∧ y ∈ q) as Hq'.
  { intros y. unfold q'. by rewrite list_elem_of_filter, bool_decide_eq_true. }
  assert (∀ j, j ∈ task_id <$> q' ↔ j ≠ id ∧ j ∈ task_id <$> q) as Hids.
  { intros j. rewrite !list_elem_of_fmap. split.
    - intros (y & -> & Hy%Hq'). naive_solver.
    - intros (Hj & y & -> & Hy). exists y. split; [done|]. by apply Hq'. }
  assert (NoDup (task_id <$> q')) as Hnd.
  { clear -H1. unfold q'. induction q as [|y q IH]; [constructor|]. cbn in H1. apply NoDup_cons in H1 as [Hy Hq].
    rewrite filter_cons. destruct (decide _); [|auto]. cbn. constructor; [|auto].
    intros (z & Hz & [_ Hin]%list_elem_of_filter)%list_elem_of_fmap. apply Hy. rewrite Hz. by apply list_elem_of_fmap_2. }
  assert (∀ y, y ∈ q' → v' (task_id y) = Some (true, total_runtime y)) as Hlive.
  { intros y [Hn Hy]%Hq'. rewrite Hv by done. auto. }
  destruct b; split.
  - cbn. constructor; [|done]. rewrite Hids, Hx. naive_solver.
  - intros y [->|Hy]%elem_of_cons; [by rewrite Hx|auto].
  - intros j rt Hj. destruct (decide (j = id)) as [->|Hn]; [left; cbn; rewrite Hx; set_solver|].
    rewrite Hv in Hj by done. destruct (H3 _ _ Hj) as [Hin|?]; [left|by right].
    cbn. apply elem_of_cons. right. by apply Hids.
  - intros c Hc. cbn. rewrite elem_of_cons, Hids, Hx. intros [->|[_ Hin]]; [by apply Hout|by eapply H4].
  - done.
  - done.
  - intros j rt Hj. destruct (decide (j = id)) as [->|Hn]; [congruence|].
    rewrite Hv in Hj by done. destruct (H3 _ _ Hj) as [Hin|?]; [left|by right]. by apply Hids.
  - intros c Hc. rewrite Hids. intros [_ Hin]. by eapply H4.
Qed.
End scheduler.

(** ** Task structures *)

Section operations.
Context {H : Type} `{!Heap H, !HeapLaws H}.
Implicit Types self : TaskList H.

(** The part of the invariant that does not mention the queue. *)
Record list_ok self : Prop := {
  l_boxes : boxes_ok self;
  l_idle : is_Some (tasks self !! 0);
  l_bound id : is_Some (tasks self !! id) → 0 ≤ id < next_task_id self;
}.

(** Same tasks, same boxes' owners, same running task. *)
Definition same_tasks self self' : Prop :=
  tasks self' = tasks self ∧ next_task_id self' = next_task_id self.

Lemma task_of_Ret self id msg a t :
  task_of self id msg = Ret (a, t) ↔ tasks self !! id = Some a ∧ boxes self !! a = Some t.
Proof. unfold task_of. destruct (tasks self !! id) as [b|]; cbn; [|naive_solver]. destruct (boxes self !! b) eqn:Hb; cbn; naive_solver. Qed.

Lemma lookup_task_Some self id t :
  lookup_task self id = Some t ↔ ∃ a, tasks self !! id = Some a ∧ boxes self !! a = Some t.
Proof. unfold lookup_task. destruct (tasks self !! id); cbn; naive_solver. Qed.

(** What a write to the box of [id] does. *)
Record wrote self id (t : Task) (i : TaskInfo) self' : Prop := {
  w_tasks : same_tasks self self';
  w_ok : list_ok self → list_ok self';
  w_lookup j : list_ok self → lookup_task self' j =
    if decide (j = id) then Some (mkTask i (stack t)) else lookup_task self j;
}.

Lemma w_view self id t i self' j :
  wrote self id t i self' → list_ok self →
  view self' j = if decide (j = id) then Some (view_info i) else view self j.
Proof. intros Hw Hok. unfold view. rewrite (w_lookup _ _ _ _ _ Hw j Hok). by destruct (decide (j = id)). Qed.

Lemma update_info_wrote self id a t i :
  tasks self !! id = Some a → task_id i = id → wrote self id t i (update_info self a t i).
Proof.
  intros Ha Hi.
  assert (boxes_ok self → ∀ j, lookup_task (update_info self a t i) j =
            if decide (j = id) then Some (mkTask i (stack t)) else lookup_task self j) as Hl.
  { intros Hb j. unfold lookup_task. cbn. destruct (decide (j = id)) as [->|Hne].
    - rewrite Ha. cbn. by rewrite lookup_insert_eq.
    - destruct (tasks self !! j) as [b|] eqn:Hj; cbn; [|done]. rewrite lookup_insert_ne; [done|].
      intros ->. destruct (Hb _ _ Ha) as (? & ? & ?), (Hb _ _ Hj) as (? & ? & ?). congruence. }
  split.
  - done.
  - intros [Hb ? ?]. split; [|done|done]. intros j b Hj. cbn in *. destruct (decide (a = b)) as [<-|Hne].
    + rewrite lookup_insert_eq. eexists. split; [done|]. cbn. rewrite Hi.
      destruct (Hb _ _ Ha) as (? & ? & ?), (Hb _ _ Hj) as (? & ? & ?). congruence.
    + rewrite lookup_insert_ne by done. eauto.
  - intros j [Hb ? ?]. by apply Hl.
Qed.

Lemma wrote_schedulable self id t i self' h :
  wrote self id t i self' → wrote self id t i (set_schedulable self' h).
Proof. intros [H1 H2 H3]. split; [done| |done]. intros [? ? ?]%H2. by split. Qed.

Lemma box_task_id self id a t :
  list_ok self → tasks self !! id = Some a → boxes self !! a = Some t → task_id (info t) = id.
Proof. intros [Hb _ _] Ha Ht. destruct (Hb _ _ Ha) as (? & ? & ?). congruence. Qed.

Lemma view_Some self id a t :
  tasks self !! id = Some a → boxes self !! a = Some t → view self id = Some (view_info (info t)).
Proof. intros Ha Ht. unfold view, lookup_task. rewrite Ha. cbn. by rewrite Ht. Qed.

(** ** Operations on the list *)

Lemma update_runtime_spec self id now self' :
  list_ok self → update_runtime self id now = Ret self' →
  ∃ t i, lookup_task self id = Some t ∧ last_scheduled (info t) ≤ now ∧
    i = set_total_runtime (info t)
          (total_runtime (info t) + (now - last_scheduled (info t)) * Z.of_nat (size (tasks self))) ∧
    wrote self id t i self' ∧ current self' = current self ∧
    heap_elems (schedulable self') ≡ₚ
      (if is_runnable (flags i) then i :: heap_elems (schedulable self) else heap_elems (schedulable self)).
Proof.
  intros Hok Hu. unfold update_runtime in Hu. apply bind_Ret_inv in Hu as ([a t] & Ht & Hu).
  apply task_of_Ret in Ht as [Ha Ht]. apply bind_Ret_inv in Hu as (d & [Hd ->]%checked_sub_Ret_inv & Hu).
  apply bind_Ret_inv in Hu as (d & [_ ->]%checked_mul_Ret_inv & Hu).
  apply bind_Ret_inv in Hu as (tot & [_ ->]%checked_add_Ret_inv & Hu).
  exists t, (set_total_runtime (info t)
               (total_runtime (info t) + (now - last_scheduled (info t)) * Z.of_nat (size (tasks self)))).
  pose proof (box_task_id _ _ _ _ Hok Ha Ht) as Hid.
  split_and!; [apply lookup_task_Some; eauto|done|done|..];
    destruct (is_runnable _); monad_inv; try done.
  - by apply wrote_schedulable, update_info_wrote.
  - by apply update_info_wrote.
  - cbn. by rewrite elems_push.
Qed.

Lemma set_runnable_spec self id b self' :
  list_ok self → set_runnable self id b = Ret self' →
  ∃ t i, lookup_task self id = Some t ∧
    i = set_info_flags (info t) (set_is_runnable (flags (info t)) b) ∧
    wrote self id t i self' ∧ current self' = current self ∧
    let q := filter (λ y, bool_decide (task_id y ≠ id) = true) (heap_elems (schedulable self)) in
    heap_elems (schedulable self') ≡ₚ (if b then i :: q else q).
Proof.
  intros Hok Hs. unfold set_runnable in Hs. apply bind_Ret_inv in Hs as ([a t] & Ht & Hs).
  apply task_of_Ret in Ht as [Ha Ht]. cbn in Ha, Ht.
  exists t, (set_info_flags (info t) (set_is_runnable (flags (info t)) b)).
  pose proof (box_task_id _ _ _ _ Hok Ha Ht) as Hid.
  assert (∀ h i, task_id i = id → wrote self id t i (update_info (set_schedulable self h) a t i)) as Hw.
  { intros h i Hi. destruct (update_info_wrote self id a t i Ha Hi) as [H1 H2 H3].
    split; [done| |done]. intros [? ? ?]%H2. by split. }
  split_and!; [apply lookup_task_Some; eauto|done|..]; destruct b; monad_inv; try done.
  - by apply wrote_schedulable, Hw.
  - by apply Hw.
  - cbn. rewrite elems_push, elems_retain. done.
  - cbn. rewrite elems_retain. done.
Qed.

(** [set_current_task] and [set_run_until] change neither the views nor the queue. *)
Lemma set_current_task_spec self id now self' :
  list_ok self → set_current_task self id now = Ret self' →
  ∃ t, lookup_task self id = Some t ∧ wrote self id t (set_last_scheduled (info t) now) self' ∧
    current self' = Some id ∧ schedulable self' = schedulable self.
Proof.
  intros Hok Hs. unfold set_current_task in Hs. apply bind_Ret_inv in Hs as ([a t] & Ht & Hs).
  apply task_of_Ret in Ht as [Ha Ht]. cbn in Ha, Ht. monad_inv. exists t.
  pose proof (box_task_id _ _ _ _ Hok Ha Ht) as Hid.
  split_and!; [apply lookup_task_Some; eauto| |done|done].
  destruct (update_info_wrote self id a t (set_last_scheduled (info t) now) Ha Hid) as [H1 H2 H3].
  split; [done| |done]. intros [? ? ?]%H2. by split.
Qed.

Lemma set_run_until_spec self id now self' :
  list_ok self → set_run_until self id now = Ret self' →
  ∃ t, lookup_task self id = Some t ∧
    wrote self id t (set_info_run_until (info t) (now + SCHED_LATENCY / Z.of_nat (size (tasks self)))) self' ∧
    current self' = current self ∧ schedulable self' = schedulable self.
Proof.
  intros Hok Hs. unfold set_run_until in Hs. apply bind_Ret_inv in Hs as ([a t] & Ht & Hs).
  apply task_of_Ret in Ht as [Ha Ht]. apply bind_Ret_inv in Hs as (u & [_ ->]%checked_add_Ret_inv & Hs). monad_inv.
  exists t. pose proof (box_task_id _ _ _ _ Hok Ha Ht) as Hid.
  split_and!; [apply lookup_task_Some; eauto|by apply update_info_wrote|done|done].
Qed.

(** A write that changes neither the flags nor the runtime. *)
Lemma wrote_same_view self id t i self' :
  list_ok self → lookup_task self id = Some t → wrote self id t i self' →
  view_info i = view_info (info t) → ∀ j, view self' j = view self j.
Proof.
  intros Hok Ht Hw Hi j. rewrite (w_view _ _ _ _ _ j Hw Hok). destruct (decide (j = id)) as [->|]; [|done].
  unfold view. rewrite Ht. cbn. by rewrite Hi.
Qed.

(** [next]: the queue's least runtime, or nothing runnable. *)
Lemma next_spec self v :
  queue_ok (heap_elems (schedulable self)) v None →
  match tl_next self with
  | (Some id, self') =>
      (∃ h, self' = set_schedulable self h) ∧
      queue_ok (heap_elems (schedulable self')) v (Some id) ∧
      ∃ rt, v id = Some (true, rt) ∧ ∀ j rt', v j = Some (true, rt') → rt ≤ rt'
  | (None, self') =>
      self' = self ∧ heap_elems (schedulable self) = [] ∧ ∀ j rt, v j ≠ Some (true, rt)
  end.
Proof.
  intros Hq. unfold tl_next. destruct (heap_pop (schedulable self)) as [[x h]|] eqn:Hp.
  - apply elems_pop in Hp as [Hperm Hmin]. rewrite Hperm in Hq. split_and!; [eauto| |].
    + cbn. by apply queue_pop.
    + exists (total_runtime x). split; [apply (queue_live _ _ _ Hq); set_solver|].
      intros j rt' Hj. destruct (queue_full _ _ _ Hq _ _ Hj) as [Hin|]; [|done].
      apply list_elem_of_fmap in Hin as (y & -> & Hy). pose proof (queue_live _ _ _ Hq _ Hy) as Hy'.
      rewrite Hy' in Hj. simplify_eq. apply elem_of_cons in Hy as [->|Hy]; [lia|].
      apply task_cmp_le. by apply Hmin.
  - apply elems_pop_None in Hp. split_and!; [done|done|]. intros j rt Hj. rewrite Hp in Hq.
    by destruct (queue_full _ _ _ Hq _ _ Hj) as [?%not_elem_of_nil|?].
Qed.

Lemma task_list_ok_split self :
  task_list_ok self ↔ list_ok self ∧ (∃ c, current self = Some c ∧ is_Some (tasks self !! c)) ∧
    queue_ok (heap_elems (schedulable self)) (view self) (current self).
Proof. split; [intros [? ? ? ? ?]; split_and!; done|intros ([? ? ?] & ? & ?); by split]. Qed.

Lemma current_task_runs self rsp c :
  list_ok self → runs self rsp c → current_task self rsp = Ret c.
Proof.
  intros [Hb _ _] [_ Ha]. unfold current_task, _current_task. destruct (Hb _ _ Ha) as (t & -> & Hid).
  cbn. by rewrite Hid.
Qed.
End operations.

(** ** Switching *)

Section switching.
Context {H : Type} `{!Heap H, !HeapLaws H}.
Implicit Types self : TaskList H.

(** What belongs to the tasks themselves: saved registers, interrupt state, stack. *)
Definition own_part (t : Task) : Registers * bool * list Z :=
  (registers (info t), interrupt_enabled (info t), stack t).
Definition kept self self' : Prop := ∀ id, own_part <$> lookup_task self' id = own_part <$> lookup_task self id.

Lemma wrote_kept self id t i self' :
  list_ok self → lookup_task self id = Some t → wrote self id t i self' →
  registers i = registers (info t) → interrupt_enabled i = interrupt_enabled (info t) → kept self self'.
Proof.
  intros Hok Ht Hw Hr Hi j. rewrite (w_lookup _ _ _ _ _ Hw j Hok). destruct (decide (j = id)) as [->|]; [|done].
  rewrite Ht. unfold own_part. cbn. by rewrite Hr, Hi.
Qed.

(** The choice of [switch]: a runnable task of least runtime, or the idle task when no task
    is runnable. *)
Definition picks (v : Z → option (bool * Z)) (to : Z) : Prop :=
  (∃ rt, v to = Some (true, rt) ∧ ∀ id rt', v id = Some (true, rt') → rt ≤ rt') ∨
  (to = 0 ∧ ∀ id rt, v id ≠ Some (true, rt)).

(** The runtime of a task that stops running at [now]. *)
Definition charged (t : Task) (n : nat) (now : Z) : Z :=
  total_runtime (info t) + (now - last_scheduled (info t)) * Z.of_nat n.

Record switched self (c : Z) (t : Task) (now : Z) self' (to from_ptr to_ptr : Z) : Prop := {
  sw_ok : task_list_ok self';
  sw_current : current self' = Some to;
  sw_tasks : tasks self' = tasks self;
  sw_next : next_task_id self' = next_task_id self;
  sw_from : tasks self !! c = Some from_ptr;
  sw_to : tasks self !! to = Some to_ptr;
  sw_view id : view self' id =
    if decide (id = c) then Some (is_runnable (flags (info t)), charged t (size (tasks self)) now)
    else view self id;
  sw_picks : picks (view self') to;
  sw_time : ∃ t', lookup_task self' to = Some t' ∧ last_scheduled (info t') = now ∧
    run_until (info t') = now + SCHED_LATENCY / Z.of_nat (size (tasks self));
  sw_kept : kept self self';
}.

Lemma get_ptr_Ret self id a : get_ptr self id = Ret a → tasks self !! id = Some a.
Proof. intros E. unfold get_ptr in E. apply bind_Ret_inv in E as ([b t] & [Hb _]%task_of_Ret & E). by monad_inv. Qed.

(** The pick leaves the list as it was, up to the queue. *)
Lemma pick_spec self self' to :
  list_ok self → queue_ok (heap_elems (schedulable self)) (view self) None →
  match tl_next self with
  | (Some id, self1) => Ret (self1, id)
  | (None, self1) => id ← expect (get self1 0) (ExpectFailed "Kernel task 0 must exist."); Ret (self1, id)
  end = Ret (self', to) →
  list_ok self' ∧ tasks self' = tasks self ∧ boxes self' = boxes self ∧
  queue_ok (heap_elems (schedulable self')) (view self) (Some to) ∧ picks (view self) to.
Proof.
  intros Hok Hq E. pose proof (next_spec self (view self) Hq) as Hn. destruct (tl_next self) as [[id|] self1].
  - monad_inv. destruct Hn as ((h & ->) & Hq' & Hp). destruct Hok as [? ? ?].
    split_and!; [by split|done|done|done|by left].
  - destruct Hn as (-> & Hq0 & Hnone). unfold get in E. destruct (tasks self !! 0); [|done]. cbn in E. monad_inv.
    split_and!; [done..| |by right]. rewrite Hq0 in *. by apply queue_empty.
Qed.

Lemma pick_next self self' to :
  match tl_next self with
  | (Some id, self1) => Ret (self1, id)
  | (None, self1) => id ← expect (get self1 0) (ExpectFailed "Kernel task 0 must exist."); Ret (self1, id)
  end = Ret (self', to) → next_task_id self' = next_task_id self.
Proof.
  unfold tl_next. destruct (heap_pop (schedulable self)) as [[x h]|]; intros E; [by monad_inv|].
  apply bind_Ret_inv in E as (? & _ & E). by monad_inv.
Qed.

Lemma switch_spec self rsp now c self' from_ptr to_ptr :
  task_list_ok self → runs self rsp c → switch self rsp now = Ret (self', from_ptr, to_ptr) →
  ∃ t to, lookup_task self c = Some t ∧ last_scheduled (info t) ≤ now ∧
    switched self c t now self' to from_ptr to_ptr.
Proof.
  intros (Hok & Hcur & Hq)%task_list_ok_split Hr E. unfold switch in E.
  rewrite (current_task_runs self rsp c Hok Hr) in E. cbn [mbind outcome_bind] in E.
  apply bind_Ret_inv in E as (s1 & H1 & E).
  destruct (update_runtime_spec _ _ _ _ Hok H1) as (t & i & Ht & Hle & Hi & Hw1 & Hc1 & Hq1).
  pose proof (w_ok _ _ _ _ _ Hw1 Hok) as Hok1. destruct (w_tasks _ _ _ _ _ Hw1) as [Ht1 Hn1].
  destruct Hr as [Hc _]. rewrite Hc in Hq.
  assert (queue_ok (heap_elems (schedulable s1)) (view s1) None) as Hqn.
  { rewrite Hq1. eapply queue_push; [exact Hq| | |].
    - apply lookup_task_Some in Ht as (a & Ha & Hb). subst i. cbn. by apply (box_task_id self c a t).
    - rewrite (w_view _ _ _ _ _ c Hw1 Hok). by rewrite decide_True.
    - intros id Hne. rewrite (w_view _ _ _ _ _ id Hw1 Hok). by rewrite decide_False. }
  apply bind_Ret_inv in E as ([s2 to] & H2 & E).
  destruct (pick_spec s1 s2 to Hok1 Hqn H2) as (Hok2 & Ht2 & Hb2 & Hq2 & Hpick).
  apply bind_Ret_inv in E as (s3 & H3 & E).
  destruct (set_current_task_spec _ _ _ _ Hok2 H3) as (u & Hu & Hw3 & Hc3 & Hq3).
  pose proof (w_ok _ _ _ _ _ Hw3 Hok2) as Hok3. destruct (w_tasks _ _ _ _ _ Hw3) as [Ht3 Hn3].
  apply bind_Ret_inv in E as (s4 & H4 & E).
  destruct (set_run_until_spec _ _ _ _ Hok3 H4) as (u' & Hu' & Hw4 & Hc4 & Hq4).
  pose proof (w_ok _ _ _ _ _ Hw4 Hok3) as Hok4. destruct (w_tasks _ _ _ _ _ Hw4) as [Ht4 Hn4].
  apply bind_Ret_inv in E as (fp & Hfp%get_ptr_Ret & E). apply bind_Ret_inv in E as (tp & Htp%get_ptr_Ret & E).
  monad_inv. exists t, to. split_and!; [done|done|].
  assert (tasks self' = tasks self) as Htt by congruence. rewrite Htt in Hfp, Htp.
  assert (∀ j, view self' j = view s1 j) as Hview.
  { intros j. rewrite (wrote_same_view s3 to u' _ self' Hok3 Hu' Hw4 eq_refl).
    rewrite (wrote_same_view s2 to u _ s3 Hok2 Hu Hw3 eq_refl). unfold view, lookup_task. by rewrite Ht2, Hb2. }
  split.
  - apply task_list_ok_split. split_and!; [done| |].
    + exists to. rewrite Hc4, Hc3, Htt. eauto.
    + rewrite Hq4, Hq3, Hc4, Hc3. by eapply queue_ok_view.
  - congruence.
  - done.
  - pose proof (pick_next _ _ _ H2). congruence.
  - done.
  - done.
  - intros id. rewrite Hview. rewrite (w_view _ _ _ _ _ id Hw1 Hok). by destruct (decide (id = c)).
  - destruct Hpick as [(rt & Hrt & Hmin)|[-> Hnone]].
    + left. exists rt. rewrite Hview. split; [done|]. intros id rt'. rewrite Hview. apply Hmin.
    + right. split; [done|]. intros id rt. rewrite Hview. apply Hnone.
  - rewrite (w_lookup _ _ _ _ _ Hw3 to Hok2), decide_True in Hu' by done. simplify_eq.
    eexists. rewrite (w_lookup _ _ _ _ _ Hw4 to Hok3), decide_True by done. split; [done|].
    cbn. split; [done|]. by rewrite Ht3, Ht2, Ht1.
  - intros id.
    rewrite (wrote_kept s3 to u' _ self' Hok3 Hu' Hw4 eq_refl eq_refl id).
    rewrite (wrote_kept s2 to u _ s3 Hok2 Hu Hw3 eq_refl eq_refl id).
    rewrite <- (wrote_kept self c t _ s1 Hok Ht Hw1 eq_refl eq_refl id).
    unfold lookup_task. by rewrite Ht2, Hb2.
Qed.

(** [switch] does not panic while the time does not run backwards and the accounts fit 64
    bits. *)
Lemma switch_total self rsp now c t :
  task_list_ok self → runs self rsp c → lookup_task self c = Some t →
  0 ≤ total_runtime (info t) → last_scheduled (info t) ≤ now →
  charged t (size (tasks self)) now < 2 ^ 64 → now + SCHED_LATENCY < 2 ^ 64 →
  ∃ self' from_ptr to_ptr, switch self rsp now = Ret (self', from_ptr, to_ptr).
Proof.
  intros (Hok & _ & Hq)%task_list_ok_split Hr Ht Hrt Hlast Hfit Hnow. unfold charged in Hfit. unfold switch.
  rewrite (current_task_runs self rsp c Hok Hr). cbn [mbind outcome_bind].
  apply lookup_task_Some in Ht as (a & Ha & Hb).
  assert (∃ s1, update_runtime self c now = Ret s1) as [s1 H1].
  { unfold update_runtime. rewrite (proj2 (task_of_Ret self c _ a t) (conj Ha Hb)). ret.
    rewrite checked_sub_ok by done. ret. rewrite checked_mul_ok by lia. ret. rewrite checked_add_ok by done. ret.
    destruct (is_runnable _); eauto. }
  rewrite H1. ret. destruct (update_runtime_spec _ _ _ _ Hok H1) as (t' & i & Ht' & _ & Hi & Hw1 & Hc1 & Hq1).
  pose proof (w_ok _ _ _ _ _ Hw1 Hok) as Hok1. destruct (w_tasks _ _ _ _ _ Hw1) as [Ht1 _].
  assert (queue_ok (heap_elems (schedulable s1)) (view s1) None) as Hqn.
  { rewrite Hq1. destruct Hr as [Hc _]. rewrite Hc in Hq. eapply queue_push; [exact Hq| | |].
    - subst i. cbn. apply lookup_task_Some in Ht' as (a' & Ha' & Hb'). by apply (box_task_id self c a' t').
    - rewrite (w_view _ _ _ _ _ c Hw1 Hok). by rewrite decide_True.
    - intros id Hne. rewrite (w_view _ _ _ _ _ id Hw1 Hok). by rewrite decide_False. }
  assert (∃ s2 to, match tl_next s1 with
    | (Some id, self1) => Ret (self1, id)
    | (None, self1) => id ← expect (get self1 0) (ExpectFailed "Kernel task 0 must exist."); Ret (self1, id)
    end = Ret (s2, to) ∧ is_Some (tasks s1 !! to)) as (s2 & to & H2 & [b Hto]).
  { pose proof (next_spec s1 _ Hqn) as Hn. destruct (tl_next s1) as [[id|] s2].
    - exists s2, id. split; [done|]. destruct Hn as (_ & _ & rt & Hv & _). unfold view, lookup_task in Hv.
      destruct (tasks s1 !! id); [eauto|done].
    - destruct Hn as (-> & _). destruct (l_idle _ Hok1) as [b0 H0]. unfold get. rewrite H0. cbn. eauto. }
  rewrite H2. cbn [mbind outcome_bind]. destruct (pick_spec s1 s2 to Hok1 Hqn H2) as (Hok2 & Ht2 & Hb2 & _ & _).
  rewrite <- Ht2 in Hto. destruct (l_boxes _ Hok2 _ _ Hto) as (u & Hu & _).
  assert (∃ s3, set_current_task s2 to now = Ret s3) as [s3 H3].
  { unfold set_current_task. rewrite (proj2 (task_of_Ret (set_current s2 to) to _ b u) (conj Hto Hu)). ret. eauto. }
  rewrite H3. ret. destruct (set_current_task_spec _ _ _ _ Hok2 H3) as (? & _ & Hw3 & _ & _).
  pose proof (w_ok _ _ _ _ _ Hw3 Hok2) as Hok3. destruct (w_tasks _ _ _ _ _ Hw3) as [Ht3 _].
  rewrite <- Ht3 in Hto. destruct (l_boxes _ Hok3 _ _ Hto) as (u3 & Hu3 & _).
  assert (∃ s4, set_run_until s3 to now = Ret s4) as [s4 H4].
  { unfold set_run_until. rewrite (proj2 (task_of_Ret s3 to _ b u3) (conj Hto Hu3)). ret.
    rewrite checked_add_ok; [ret; eauto|].
    assert (SCHED_LATENCY / Z.of_nat (size (tasks s3)) ≤ SCHED_LATENCY) by (apply div_le_self; [done|lia]). lia. }
  rewrite H4. ret. destruct (set_run_until_spec _ _ _ _ Hok3 H4) as (? & _ & Hw4 & _ & _).
  pose proof (w_ok _ _ _ _ _ Hw4 Hok3) as Hok4. destruct (w_tasks _ _ _ _ _ Hw4) as [Ht4 _].
  assert (tasks s4 = tasks self) as Htt by congruence. rewrite <- Ht4 in Hto. rewrite <- Htt in Ha.
  destruct (l_boxes _ Hok4 _ _ Hto) as (u4 & Hu4 & _). destruct (l_boxes _ Hok4 _ _ Ha) as (u5 & Hu5 & _).
  unfold get_ptr. rewrite (proj2 (task_of_Ret s4 c _ a u5) (conj Ha Hu5)). ret.
  rewrite (proj2 (task_of_Ret s4 to _ b u4) (conj Hto Hu4)). ret. eauto.
Qed.

(** ** Waking and blocking *)

Lemma set_is_runnable_spec f b : is_runnable (set_is_runnable f b) = b.
Proof.
  unfold is_runnable, set_is_runnable. destruct b.
  - apply bool_decide_eq_true. rewrite Z.land_lor_distr_l. intros E. by apply Z.lor_eq_0_iff in E as [_ ?].
  - apply bool_decide_eq_false. intros E. apply E. rewrite <- Z.land_assoc.
    replace (Z.land (bnot 32 1) 1) with 0 by done. apply Z.land_0_r.
Qed.

Lemma set_runnable_ok self id b self' :
  task_list_ok self → (b = true → current self ≠ Some id) → set_runnable self id b = Ret self' →
  task_list_ok self' ∧ current self' = current self ∧ tasks self' = tasks self ∧
  next_task_id self' = next_task_id self ∧ kept self self' ∧
  ∃ rt, view self id = Some (is_runnable (default 0 (flags ∘ info <$> lookup_task self id)), rt) ∧
    ∀ j, view self' j = if decide (j = id) then Some (b, rt) else view self j.
Proof.
  intros (Hok & Hcur & Hq)%task_list_ok_split Hne E.
  destruct (set_runnable_spec _ _ _ _ Hok E) as (t & i & Ht & Hi & Hw & Hc & Hqe).
  pose proof (w_ok _ _ _ _ _ Hw Hok) as Hok'. destruct (w_tasks _ _ _ _ _ Hw) as [Htt Hnn].
  assert (view_info i = (b, total_runtime (info t))) as Hvi.
  { subst i. unfold view_info. cbn. by rewrite set_is_runnable_spec. }
  split_and!; [|done|done|done| |].
  - apply task_list_ok_split. split_and!; [done|by rewrite Hc, Htt|]. rewrite Hqe, Hc.
    eapply queue_set; [exact Hq|exact Hne| | |].
    + apply lookup_task_Some in Ht as (a & Ha & Hb). subst i. cbn. by apply (box_task_id self id a t).
    + rewrite (w_view _ _ _ _ _ id Hw Hok), decide_True by done. rewrite Hvi. by subst i.
    + intros j Hj. rewrite (w_view _ _ _ _ _ j Hw Hok). by rewrite decide_False.
  - eapply wrote_kept; [done|done|done|by subst i|by subst i].
  - exists (total_runtime (info t)). split.
    + unfold view. rewrite Ht. done.
    + intros j. rewrite (w_view _ _ _ _ _ j Hw Hok). by rewrite Hvi.
Qed.

Lemma runs_kept self self' rsp c :
  runs self rsp c → current self' = current self → tasks self' = tasks self → runs self' rsp c.
Proof. unfold runs. by intros ? -> ->. Qed.

(** What a blocking operation leaves: the task that called it is not runnable. *)
Record blocked self (c : Z) self' (to : Z) : Prop := {
  bl_ok : task_list_ok self';
  bl_current : current self' = Some to;
  bl_tasks : tasks self' = tasks self ∧ next_task_id self' = next_task_id self;
  bl_view_c : ∃ rt, view self' c = Some (false, rt);
  bl_view id : id ≠ c → view self' id = view self id;
  bl_picks : picks (view self') to;
  bl_kept : kept self self';
}.

Lemma block_then_switch self rsp now c self1 self' from_ptr to_ptr :
  task_list_ok self → runs self rsp c → set_runnable self c false = Ret self1 →
  switch self1 rsp now = Ret (self', from_ptr, to_ptr) → ∃ to, blocked self c self' to.
Proof.
  intros Hok Hr H1 H2.
  destruct (set_runnable_ok self c false self1 Hok ltac:(done) H1)
    as (Hok1 & Hc1 & Ht1 & Hn1 & Hk1 & rt & _ & Hv1).
  destruct (switch_spec _ _ _ _ _ _ _ Hok1 (runs_kept _ _ _ _ Hr Hc1 Ht1) H2) as (t & to & Ht & _ & Hs).
  exists to. split.
  - apply (sw_ok _ _ _ _ _ _ _ _ Hs).
  - apply (sw_current _ _ _ _ _ _ _ _ Hs).
  - rewrite (sw_tasks _ _ _ _ _ _ _ _ Hs), (sw_next _ _ _ _ _ _ _ _ Hs). done.
  - rewrite (sw_view _ _ _ _ _ _ _ _ Hs), decide_True by done.
    assert (view self1 c = Some (false, rt)) as Hv by (rewrite Hv1; by rewrite decide_True).
    unfold view in Hv. rewrite Ht in Hv. unfold view_info in Hv. cbn in Hv. injection Hv as -> _. eauto.
  - intros id Hne. rewrite (sw_view _ _ _ _ _ _ _ _ Hs), decide_False by done.
    rewrite Hv1. by rewrite decide_False.
  - apply (sw_picks _ _ _ _ _ _ _ _ Hs).
  - intros id. rewrite (sw_kept _ _ _ _ _ _ _ _ Hs id). apply Hk1.
Qed.

Lemma block_spec self rsp now c self' from_ptr to_ptr :
  task_list_ok self → runs self rsp c → block self rsp now = Ret (self', from_ptr, to_ptr) →
  ∃ to, blocked self c self' to.
Proof.
  intros Hok Hr E. unfold block in E.
  rewrite (current_task_runs self rsp c) in E by (by apply task_list_ok_split in Hok as (? & _)).
  cbn [mbind outcome_bind] in E. apply bind_Ret_inv in E as (s1 & H1 & E). by eapply block_then_switch.
Qed.

Lemma sleep_spec self clock rsp ns tick now c self' clock' from_ptr to_ptr :
  task_list_ok self → runs self rsp c →
  sleep self (Some clock) rsp ns tick now = Ret (self', clock', from_ptr, to_ptr) →
  clock' = mkClock tick (<[tick + ns := c]> (callbacks clock)) ∧ ∃ to, blocked self c self' to.
Proof.
  intros Hok Hr E. unfold sleep in E. cbn [get_tick] in E.
  apply bind_Ret_inv in E as (u & [_ ->]%checked_add_Ret_inv & E).
  rewrite (current_task_runs self rsp c) in E by (by apply task_list_ok_split in Hok as (? & _)).
  cbn [mbind outcome_bind] in E. apply bind_Ret_inv in E as (s1 & H1 & E).
  apply bind_Ret_inv in E as ([[s2 f] t] & H2 & E). monad_inv. split; [done|]. by eapply block_then_switch.
Qed.

Lemma sched_lock_spec self rsp c b self' :
  task_list_ok self → runs self rsp c → sched_lock self rsp b = Ret self' →
  task_list_ok self' ∧ current self' = current self ∧ tasks self' = tasks self ∧
  next_task_id self' = next_task_id self ∧ (∀ j, view self' j = view self j) ∧
  ∃ t, lookup_task self' c = Some t ∧ interrupt_enabled (info t) = b.
Proof.
  intros (Hok & Hcur & Hq)%task_list_ok_split [Hc Ha] E. unfold sched_lock, set_resume_interrupts, _current_task in E.
  destruct (l_boxes _ Hok _ _ Ha) as (t & Hb & Hid). rewrite Hb in E. cbn in E. monad_inv.
  assert (lookup_task self (task_id (info t)) = Some t) as Hl by (apply lookup_task_Some; eauto).
  pose proof (update_info_wrote self _ _ t (set_interrupt_enabled (info t) b) Ha eq_refl) as Hw.
  pose proof (wrote_same_view _ _ _ _ _ Hok Hl Hw eq_refl) as Hv.
  split_and!; [|done|done|done|done|].
  - apply task_list_ok_split. split_and!; [by apply (w_ok _ _ _ _ _ Hw)|done|]. by eapply queue_ok_view.
  - eexists. rewrite (w_lookup _ _ _ _ _ Hw _ Hok), decide_True by done. done.
Qed.
End switching.
