(* ===== verification/SchedSpec.v ===== *)
(** * The scheduler's theorems

    [kernel] is the task list with the heap the task structures come from; [kernel_step] lets
    the running task call any operation of the scheduler, or be preempted.  The invariant
    holds in every state reachable from [sched_init]; [switch] always runs a task of least
    runtime; new tasks are laid out so that the first switch to them enters
    [_task_entry] (continued in [Switch]). *)

From S2P Require Import Prelude Malloc Table Mapping Task Clock Sched.

(** ** The stack of a new task *)

(** The image [new_task] builds: zeroes, the entry point in the slot of [rbx], the id in the
    slot of [rbp] and the return address. *)
Definition new_stack (entry_point entry id : Z) : list Z :=
  replicate (stack_len - 24) 0 ++ to_le_bytes 8 entry ++ to_le_bytes 8 id ++ to_le_bytes 8 entry_point.

Lemma stack_len_ge : (56 ≤ stack_len)%nat.
Proof. pose proof stack_len_eq as H. change ACTUAL_STACK_SIZE with 8136 in H. lia. Qed.

Lemma length_new_stack ep e id : length (new_stack ep e id) = stack_len.
Proof. pose proof stack_len_ge. unfold new_stack. len. Qed.

(** Zeroes cut at the slots. *)
Lemma replicate_cut (n : nat) : (24 ≤ n)%nat →
  replicate n 0 = replicate (n - 24) 0 ++ replicate 8 0 ++ replicate 8 0 ++ replicate 8 0.
Proof. intros Hn. rewrite <- !replicate_add. f_equal. lia. Qed.

Lemma new_stack_writes ep e id :
  let n := stack_len in
  ∃ st1 st2,
    copy_into (replicate n 0) (n - 8) n (to_le_bytes 8 ep) = Ret st1 ∧
    copy_into st1 (n - 24) (n - 16) (to_le_bytes 8 e) = Ret st2 ∧
    copy_into st2 (n - 16) (n - 8) (to_le_bytes 8 id) = Ret (new_stack ep e id) ∧
    length st2 = n.
Proof.
  intros n. pose proof stack_len_ge. unfold new_stack. fold n in H |- *. clearbody n.
  rewrite (replicate_cut n) by lia. set (z := replicate (n - 24) 0).
  assert (length z = (n - 24)%nat) as Hz by (unfold z; len).
  exists (z ++ replicate 8 0 ++ replicate 8 0 ++ to_le_bytes 8 ep),
         (z ++ to_le_bytes 8 e ++ replicate 8 0 ++ to_le_bytes 8 ep).
  split_and!.
  - rewrite !app_assoc. rewrite <- (app_nil_r (_ ++ replicate 8 0)) at 1. rewrite <- (app_assoc _ (replicate 8 0) []).
    rewrite (copy_into_app _ (replicate 8 0) []); [by rewrite app_nil_r|len..].
  - apply copy_into_app; len.
  - rewrite (app_assoc z (to_le_bytes 8 e)), (app_assoc z (to_le_bytes 8 e)). apply copy_into_app; len.
  - len.
Qed.

(** ** The kernel *)

Record kernel (H : Type) := mkKernel { k_list : TaskList H; k_heap : KernelAllocator }.
Arguments mkKernel {H}.
Arguments k_list {H}.
Arguments k_heap {H}.

Section kernel.
Context {H : Type} `{!Heap H, !HeapLaws H}.
Implicit Types k : kernel H.

(** Task structures are aligned regions below the head of the heap. *)
Record kernel_ok k : Prop := {
  k_ok : task_list_ok (k_list k);
  k_head : 0 < head (k_heap k);
  k_region id a : tasks (k_list k) !! id = Some a →
    (KERNEL_STACK_SIZE | a) ∧ a + KERNEL_STACK_SIZE ≤ head (k_heap k);
}.

(** [created k id t k']: a runnable task [t] was added, nothing else changed. *)
Record created k (id : Z) (t : Task) k' : Prop := {
  cr_ok : kernel_ok k';
  cr_id : id = next_task_id (k_list k) ∧ next_task_id (k_list k') = id + 1;
  cr_current : current (k_list k') = current (k_list k);
  cr_new : tasks (k_list k) !! id = None;
  cr_lookup j : lookup_task (k_list k') j = if decide (j = id) then Some t else lookup_task (k_list k) j;
  cr_runnable : view_info (info t) = (true, 0);
}.

(** The structure of a new task at address [ptr]. *)
Definition fresh_task (ep uninit e id ptr cr3 : Z) : Task :=
  mkTask (mkTaskInfo id (mkRegisters (ptr + KERNEL_STACK_SIZE - 56) cr3) 0 uninit 0 1 true) (new_stack ep e id).

Lemma fresh_address k id a ptr l heap' :
  kernel_ok k → tasks (k_list k) !! id = Some a → layout_ok l →
  kalloc (k_heap k) l = Ret (heap', ptr) → a ≠ ptr.
Proof.
  intros Hk Ha Hl E. destruct (k_region k Hk id a Ha) as [_ Hle].
  destruct (kalloc_spec _ _ _ _ (k_head k Hk) Hl E) as (_ & Hlt & _).
  assert (0 < KERNEL_STACK_SIZE) by done. lia.
Qed.

(** Adding a task to the list and the queue. *)
Lemma add_task_created k (heap' : KernelAllocator) (ptr : Z) ep uninit e cr3 :
  let id := next_task_id (k_list k) in
  let t := fresh_task ep uninit e id ptr cr3 in
  let self := k_list k in
  kernel_ok k → kalloc (k_heap k) (mkLayout KERNEL_STACK_SIZE KERNEL_STACK_SIZE) = Ret (heap', ptr) →
  created k id t (mkKernel (mkTaskList (id + 1) (current self) (<[id := ptr]> (tasks self))
    (heap_push (info t) (schedulable self)) (<[ptr := t]> (boxes self))) heap').
Proof.
  intros id t self Hk E.
  assert (layout_ok (mkLayout KERNEL_STACK_SIZE KERNEL_STACK_SIZE)) as Hl by (split; done).
  destruct (kalloc_spec _ _ _ _ (k_head k Hk) Hl E) as (Hdiv & Hlt & _ & Hh & _ & _). cbn in Hdiv, Hh.
  destruct (proj1 (task_list_ok_split _) (k_ok k Hk)) as ([Hb Hi Hbd] & (c & Hc & Hcs) & Hq). fold self in Hb, Hi, Hbd, Hc, Hcs, Hq.
  assert (tasks self !! id = None) as Hnew.
  { destruct (tasks self !! id) eqn:Hx; [|done]. assert (is_Some (tasks self !! id)) as Hs by (by eexists).
    apply Hbd in Hs. unfold id, self in Hs. lia. }
  assert (∀ j a, tasks self !! j = Some a → a ≠ ptr) as Hfresh by (intros j a Ha; by eapply fresh_address).
  assert (∀ j, lookup_task (mkTaskList (id + 1) (current self) (<[id := ptr]> (tasks self))
    (heap_push (info t) (schedulable self)) (<[ptr := t]> (boxes self))) j =
      if decide (j = id) then Some t else lookup_task self j) as Hlk.
  { intros j. unfold lookup_task. cbn [tasks boxes]. destruct (decide (j = id)) as [->|Hne].
    - rewrite lookup_insert_eq. cbn. apply lookup_insert_eq.
    - rewrite lookup_insert_ne by done. destruct (tasks self !! j) as [a|] eqn:Hj; cbn; [|done].
      rewrite lookup_insert_ne; [done|]. apply not_eq_sym. by eapply Hfresh. }
  assert (∀ j, view (mkTaskList (id + 1) (current self) (<[id := ptr]> (tasks self))
    (heap_push (info t) (schedulable self)) (<[ptr := t]> (boxes self))) j =
      if decide (j = id) then Some (true, 0) else view self j) as Hv.
  { intros j. unfold view. rewrite Hlk. by destruct (decide (j = id)). }
  split; cbn [k_list next_task_id current tasks]; [|done|done|done|exact Hlk|done].
  split; cbn [k_list k_heap].
  - apply task_list_ok_split. split_and!.
    + split; cbn [tasks next_task_id].
      * intros j a Hj. cbn [tasks boxes] in *. destruct (decide (j = id)) as [->|Hne].
        -- rewrite lookup_insert_eq in Hj. simplify_eq. rewrite lookup_insert_eq. eauto.
        -- rewrite lookup_insert_ne in Hj by done. rewrite lookup_insert_ne by (apply not_eq_sym; by eapply Hfresh). auto.
      * destruct (decide (0 = id)) as [<-|]; [rewrite lookup_insert_eq; eauto|by rewrite lookup_insert_ne].
      * intros j. destruct (decide (j = id)) as [->|Hne].
        -- intros _. destruct Hi as [a0 Ha0]. assert (0 ≤ 0 < id) by (apply Hbd; eauto). lia.
        -- rewrite lookup_insert_ne by done. intros Hj%Hbd. unfold id, self in *. lia.
    + exists c. cbn [current tasks]. split; [done|]. rewrite lookup_insert_ne; [done|]. intros ->. rewrite Hnew in Hcs. by destruct Hcs.
    + cbn [schedulable current]. rewrite elems_push, Hc. rewrite Hc in Hq.
      assert (c ≠ id) as Hcid by (intros ->; rewrite Hnew in Hcs; by destruct Hcs).
      assert (view self id = None) as Hvn by (unfold view, lookup_task; by rewrite Hnew).
      assert (id ∉ task_id <$> heap_elems (schedulable self)) as Hnq.
      { intros (x & Hx & Hin)%list_elem_of_fmap. apply (queue_live _ _ _ Hq) in Hin. rewrite <- Hx in Hin. congruence. }
      destruct Hq as [H1 H2 H3 H4]. split.
      * cbn [fmap list_fmap]. constructor; done.
      * intros x [->|Hx]%elem_of_cons; (etrans; [apply Hv|]).
        -- by rewrite decide_True.
        -- rewrite decide_False; [by apply H2|]. intros Hx'. apply Hnq. rewrite <- Hx'. by apply list_elem_of_fmap_2.
      * intros j rt Hj. pose proof (eq_trans (eq_sym (Hv j)) Hj) as Hj'. clear Hj. destruct (decide (j = id)) as [->|Hne].
        -- left. apply elem_of_cons. by left.
        -- destruct (H3 _ _ Hj') as [?|?]; [left; apply elem_of_cons; by right|by right].
      * intros c' [= <-]. cbn [fmap list_fmap]. intros [->|?]%elem_of_cons; [done|]. by eapply H4.
  - rewrite Hh. pose proof (k_head k Hk). assert (0 < KERNEL_STACK_SIZE) by done. lia.
  - intros j a. cbn [tasks]. destruct (decide (j = id)) as [->|Hne].
    + rewrite lookup_insert_eq. intros [= <-]. split; [done|]. rewrite Hh. lia.
    + rewrite lookup_insert_ne by done. intros Hj. destruct (k_region k Hk j a Hj). split; [done|].
      rewrite Hh. assert (0 < KERNEL_STACK_SIZE) by done. lia.
Qed.

Lemma create_task_eq (self : TaskList H) a t :
  next_task_id self + 1 < 2 ^ 64 →
  create_task self a t = Ret (mkTaskList (next_task_id self + 1) (current self) (<[next_task_id self := a]> (tasks self))
    (schedulable self) (<[a := mkTask (set_task_id (info t) (next_task_id self)) (stack t)]> (boxes self)), next_task_id self).
Proof. intros Hn. unfold create_task. by rewrite (bind_Ret _ _ _ (checked_add_ok _ _ _ Hn)). Qed.

Lemma new_task_eq ep uninit k mapper rsp e c t mapper' cr3 heap' ptr :
  kernel_ok k → runs (k_list k) rsp c → lookup_task (k_list k) c = Some t →
  kalloc (k_heap k) (mkLayout KERNEL_STACK_SIZE KERNEL_STACK_SIZE) = Ret (heap', ptr) →
  r_cr3 (registers (info t)) + PAGING_STRUCTURE_BASE_ADDR < 2 ^ 64 →
  fork mapper (r_cr3 (registers (info t)) + PAGING_STRUCTURE_BASE_ADDR) = Ret (mapper', cr3) →
  next_task_id (k_list k) + 1 < 2 ^ 64 →
  let id := next_task_id (k_list k) in
  let self := k_list k in
  new_task ep uninit self (k_heap k) mapper rsp e =
    Ret (mkTaskList (id + 1) (current self) (<[id := ptr]> (tasks self))
           (heap_push (info (fresh_task ep uninit e id ptr cr3)) (schedulable self))
           (<[ptr := fresh_task ep uninit e id ptr cr3]> (boxes self)), heap', mapper', id).
Proof.
  intros Hk Hr Ht Hall Hcr Hf Hn id self. unfold new_task.
  destruct (proj1 (task_list_ok_split _) (k_ok k Hk)) as (Hok & _). fold self in Hok, Hr, Ht |- *.
  apply lookup_task_Some in Ht as (a & Ha & Hb).
  destruct (new_stack_writes ep e id) as (st1 & st2 & H1 & H2 & H3 & Hlen).
  rewrite (bind_Ret _ _ _ (current_task_runs self rsp c Hok Hr)).
  rewrite (bind_Ret _ _ _ (proj2 (task_of_Ret self c _ a t) (conj Ha Hb))).
  rewrite (bind_Ret _ _ _ Hall), (bind_Ret _ _ _ (checked_add_ok _ _ _ Hcr)), (bind_Ret _ _ _ Hf).
  rewrite (bind_Ret _ _ _ H1), (bind_Ret _ _ _ H2).
  rewrite (bind_Ret _ _ _ (create_task_eq self ptr _ Hn)). cbv beta iota.
  rewrite (bind_Ret _ _ _ (proj2 (task_of_Ret _ id _ ptr _) (conj (lookup_insert_eq _ _ _) (lookup_insert_eq _ _ _)))).
  cbv beta iota. cbn [stack info]. change (next_task_id self) with id. rewrite (bind_Ret _ _ _ H3).
  destruct (lookup_lt_is_Some_2 (new_stack ep e id) (stack_len - 8 - 48)) as [x Hx].
  { rewrite length_new_stack. pose proof stack_len_ge. lia. }
  rewrite (bind_Ret _ _ _ (proj2 (index_Ret_inv _ _ _) Hx)).
  unfold write_box, set_schedulable. cbn [next_task_id current tasks schedulable boxes].
  rewrite insert_insert_eq. unfold fresh_task. cbn [info].
  replace (ptr + TASK_INFO_SIZE + (ACTUAL_STACK_SIZE - 8 - 8 * 6)) with (ptr + KERNEL_STACK_SIZE - 56)
    by (unfold ACTUAL_STACK_SIZE; lia). reflexivity.
Qed.
End kernel.

(** ** Reachable states *)

Section reachable.
Context {H : Type} `{!Heap H, !HeapLaws H}.
Implicit Types k : kernel H.

Lemma new_task_inv ep uninit k mapper rsp e c l heap' mapper' id :
  kernel_ok k → runs (k_list k) rsp c →
  new_task ep uninit (k_list k) (k_heap k) mapper rsp e = Ret (l, heap', mapper', id) →
  ∃ cr3 ptr, kalloc (k_heap k) (mkLayout KERNEL_STACK_SIZE KERNEL_STACK_SIZE) = Ret (heap', ptr) ∧
    id = next_task_id (k_list k) ∧
    l = mkTaskList (id + 1) (current (k_list k)) (<[id := ptr]> (tasks (k_list k)))
          (heap_push (info (fresh_task ep uninit e id ptr cr3)) (schedulable (k_list k)))
          (<[ptr := fresh_task ep uninit e id ptr cr3]> (boxes (k_list k))).
Proof.
  intros Hk Hr E. pose proof E as E0. unfold new_task in E0.
  destruct (proj1 (task_list_ok_split _) (k_ok k Hk)) as (Hok & _).
  rewrite (current_task_runs _ rsp c Hok Hr) in E0. cbn [mbind outcome_bind] in E0.
  apply bind_Ret_inv in E0 as ([a t] & [Ha Hb]%task_of_Ret & E0).
  apply bind_Ret_inv in E0 as ([h p] & Hall & E0).
  apply bind_Ret_inv in E0 as (b & [Hlt ->]%checked_add_Ret_inv & E0).
  apply bind_Ret_inv in E0 as ([m cr3] & Hf & E0).
  apply bind_Ret_inv in E0 as (st1 & _ & E0). apply bind_Ret_inv in E0 as (st2 & _ & E0).
  apply bind_Ret_inv in E0 as ([l2 id2] & Hcr & _). unfold create_task in Hcr.
  apply bind_Ret_inv in Hcr as (n & [Hn _]%checked_add_Ret_inv & _).
  rewrite (new_task_eq ep uninit k mapper rsp e c t m cr3 h p Hk Hr) in E; [|apply lookup_task_Some; eauto|done..].
  injection E as <- <- _ <-. exists cr3, p. split; [exact Hall|]. split; reflexivity.
Qed.

Lemma new_task_created ep uninit k mapper rsp e c l heap' mapper' id :
  kernel_ok k → runs (k_list k) rsp c →
  new_task ep uninit (k_list k) (k_heap k) mapper rsp e = Ret (l, heap', mapper', id) →
  ∃ t, created k id t (mkKernel l heap').
Proof.
  intros Hk Hr E. destruct (new_task_inv _ _ _ _ _ _ _ _ _ _ _ Hk Hr E) as (cr3 & ptr & Hall & -> & ->).
  eexists. apply add_task_created; [exact Hk|exact Hall].
Qed.

(** One operation of the running task [c], whose stack pointer is [rsp]. *)
Inductive kernel_step (ep uninit : Z) k : kernel H → Prop :=
| ks_lock rsp c b l : runs (k_list k) rsp c → sched_lock (k_list k) rsp b = Ret l →
    kernel_step ep uninit k (mkKernel l (k_heap k))
| ks_switch rsp c now l f t : runs (k_list k) rsp c → switch (k_list k) rsp now = Ret (l, f, t) →
    kernel_step ep uninit k (mkKernel l (k_heap k))
| ks_timer rsp c now b l r : runs (k_list k) rsp c → check_runtime (k_list k) rsp now b = Ret (l, r) →
    kernel_step ep uninit k (mkKernel l (k_heap k))
| ks_block rsp c now l f t : runs (k_list k) rsp c → block (k_list k) rsp now = Ret (l, f, t) →
    kernel_step ep uninit k (mkKernel l (k_heap k))
| ks_sleep clock rsp c ns tick now l clock' f t : runs (k_list k) rsp c →
    sleep (k_list k) (Some clock) rsp ns tick now = Ret (l, clock', f, t) →
    kernel_step ep uninit k (mkKernel l (k_heap k))
| ks_wake id l : current (k_list k) ≠ Some id → wake (k_list k) id = Ret l →
    kernel_step ep uninit k (mkKernel l (k_heap k))
| ks_new_task mapper rsp c e l heap mapper' id : runs (k_list k) rsp c →
    new_task ep uninit (k_list k) (k_heap k) mapper rsp e = Ret (l, heap, mapper', id) →
    kernel_step ep uninit k (mkKernel l heap).

(** After [sched_init] on the boot stack. *)
Definition kernel_boot k : Prop := ∃ t0 rsp cr3 now b f t,
  let boot := Z.land rsp TASK_STRUCT_MASK in
  (KERNEL_STACK_SIZE | boot) ∧ boot + KERNEL_STACK_SIZE ≤ head (k_heap k) ∧ 0 < head (k_heap k) ∧
  sched_init (mkTaskList 0 None ∅ heap_new {[boot := t0]}) boot rsp cr3 now b = Ret (k_list k, f, t).

Definition kernel_reachable (ep uninit : Z) k : Prop :=
  ∃ k0, kernel_boot k0 ∧ rtc (kernel_step ep uninit) k0 k.

(** An operation that leaves the boxes where they are. *)
Lemma kernel_ok_same k l :
  kernel_ok k → task_list_ok l → tasks l = tasks (k_list k) → kernel_ok (mkKernel l (k_heap k)).
Proof. intros Hk Hl Ht. split; [done|apply (k_head k Hk)|]. cbn [k_list]. rewrite Ht. apply (k_region k Hk). Qed.

Lemma kernel_ok_step ep uninit k k' : kernel_ok k → kernel_step ep uninit k k' → kernel_ok k'.
Proof.
  intros Hk Hs. pose proof (k_ok k Hk) as Hok.
  destruct Hs as [rsp c b l Hr E|rsp c now l f t Hr E|rsp c now b l r Hr E|rsp c now l f t Hr E
                 |clock rsp c ns tick now l clock' f t Hr E|id l Hne E|mapper rsp c e l heap mapper' id Hr E].
  - destruct (sched_lock_spec _ _ _ _ _ Hok Hr E) as (? & _ & ? & _). by apply kernel_ok_same.
  - destruct (switch_spec _ _ _ _ _ _ _ Hok Hr E) as (u & to & _ & _ & Hs).
    apply kernel_ok_same; [done|by destruct Hs..].
  - unfold check_runtime in E. apply bind_Ret_inv in E as (l1 & H1 & E).
    destruct (sched_lock_spec _ _ _ _ _ Hok Hr H1) as (Hok1 & Hc1 & Ht1 & _).
    pose proof (kernel_ok_same k l1 Hk Hok1 Ht1) as Hk1. pose proof (runs_kept _ _ _ _ Hr Hc1 Ht1) as Hr1.
    apply bind_Ret_inv in E as (i & _ & E). apply bind_Ret_inv in E as (u & _ & E).
    destruct (decide _); [|by monad_inv]. apply bind_Ret_inv in E as ([[l2 f] t] & H2 & E). monad_inv.
    destruct (switch_spec _ _ _ _ _ _ _ Hok1 Hr1 H2) as (u' & to & _ & _ & Hs).
    apply (kernel_ok_same (mkKernel l1 (k_heap k))); [done|by destruct Hs..].
  - destruct (block_spec _ _ _ _ _ _ _ Hok Hr E) as [to [? _ [? _] _ _ _ _]]. by apply kernel_ok_same.
  - destruct (sleep_spec _ _ _ _ _ _ _ _ _ _ _ Hok Hr E) as (_ & to & [? _ [? _] _ _ _ _]). by apply kernel_ok_same.
  - destruct (set_runnable_ok _ _ _ _ Hok ltac:(done) E) as (? & _ & ? & _). by apply kernel_ok_same.
  - destruct (new_task_created _ _ _ _ _ _ _ _ _ _ _ Hk Hr E) as [t [? _ _ _ _ _]]. done.
Qed.

(** The idle task runs, and is the only one. *)
Lemma sched_init_boots k t0 rsp cr3 now b f t :
  let boot := Z.land rsp TASK_STRUCT_MASK in
  (KERNEL_STACK_SIZE | boot) → boot + KERNEL_STACK_SIZE ≤ head (k_heap k) → 0 < head (k_heap k) →
  sched_init (mkTaskList 0 None ∅ heap_new {[boot := t0]}) boot rsp cr3 now b = Ret (k_list k, f, t) →
  kernel_ok k ∧ runs (k_list k) rsp 0 ∧ next_task_id (k_list k) = 1.
Proof.
  intros boot Hdiv Hle Hpos E. unfold sched_init in E.
  apply bind_Ret_inv in E as (l1 & H1 & E). unfold sched_lock, set_resume_interrupts, _current_task in H1.
  fold boot in H1. cbn [boxes] in H1. rewrite lookup_singleton_eq in H1. cbn [mbind outcome_bind expect] in H1. injection H1 as <-.
  apply bind_Ret_inv in E as (l2 & H2 & E). unfold init_idle_task in H2. cbn [boxes update_info write_box] in H2.
  rewrite lookup_insert_eq in H2. cbn [mbind outcome_bind expect] in H2. unfold create_task in H2.
  cbn [next_task_id] in H2. rewrite checked_add_ok in H2 by done. cbn [mbind outcome_bind] in H2. injection H2 as <-.
  set (l2 := set_current _ 0) in E.
  assert (runs l2 rsp 0) as Hr by (split; [done|]; cbn; apply lookup_insert_eq).
  assert (task_list_ok l2) as Hok2.
  { apply task_list_ok_split. split_and!.
    - split.
      + intros id a. cbn. intros [[<- <-]|[_ ?]]%lookup_insert_Some; [|done].
        rewrite lookup_insert_eq. eauto.
      + cbn. rewrite lookup_insert_eq. eauto.
      + intros id. cbn. intros [a [[<- _]|[_ ?]]%lookup_insert_Some]; [lia|done].
    - exists 0. split; [done|]. cbn. rewrite lookup_insert_eq. eauto.
    - cbn [l2 set_current schedulable]. rewrite elems_new. split.
      + constructor.
      + by intros ? ?%not_elem_of_nil.
      + intros id rt. unfold view, lookup_task. cbn. destruct (decide (id = 0)) as [->|]; [by right|].
        by rewrite lookup_insert_ne.
      + by intros ? _ ?%not_elem_of_nil. }
  destruct (switch_spec _ _ _ _ _ _ _ Hok2 Hr E) as (u & to & _ & _ & Hs).
  pose proof (sw_tasks _ _ _ _ _ _ _ _ Hs) as Ht. pose proof (sw_to _ _ _ _ _ _ _ _ Hs) as Hto. split_and!.
  - split; [by destruct Hs|done|]. intros id a. rewrite Ht. cbn.
    intros [[_ <-]|[_ ?]]%lookup_insert_Some; [|done]. done.
  - apply (runs_kept l2); [done| |done]. rewrite (sw_current _ _ _ _ _ _ _ _ Hs).
    cbn in Hto. apply lookup_insert_Some in Hto as [[<- _]|[_ ?]]; done.
  - by rewrite (sw_next _ _ _ _ _ _ _ _ Hs).
Qed.

Lemma kernel_ok_boot k : kernel_boot k → kernel_ok k.
Proof. intros (t0 & rsp & cr3 & now & b & f & t & Hdiv & Hle & Hpos & E). by eapply sched_init_boots. Qed.

Lemma kernel_ok_reachable ep uninit k : kernel_reachable ep uninit k → kernel_ok k.
Proof.
  intros (k0 & H0%kernel_ok_boot & Hs). induction Hs as [|k1 k2 k3 H12 _ IH]; [done|].
  apply IH. by eapply kernel_ok_step.
Qed.
End reachable.

(** ** The theorems *)

Section theorems.
Context {H : Type} `{!Heap H, !HeapLaws H}.
Implicit Types k : kernel H.


(** C16. What [switch] does: while the time does not run backwards and the accounts fit 64
    bits it returns; the task it leaves is charged its time multiplied by the number of
    tasks, no other account changes, and the task it enters has the least runtime of all
    runnable tasks, or is the idle task when none is runnable; tasks keep their saved
    registers, interrupt states and stacks. *)
Theorem switch_least_runtime k rsp now c t :
  kernel_ok k → runs (k_list k) rsp c → lookup_task (k_list k) c = Some t →
  0 ≤ total_runtime (info t) → last_scheduled (info t) ≤ now →
  charged t (size (tasks (k_list k))) now < 2 ^ 64 → now + SCHED_LATENCY < 2 ^ 64 →
  ∃ l from_ptr to_ptr to, switch (k_list k) rsp now = Ret (l, from_ptr, to_ptr) ∧
    current l = Some to ∧ tasks l !! c = Some from_ptr ∧ tasks l !! to = Some to_ptr ∧
    view l c = Some (is_runnable (flags (info t)), charged t (size (tasks (k_list k))) now) ∧
    (∀ id, id ≠ c → view l id = view (k_list k) id) ∧ picks (view l) to ∧
    kept (k_list k) l ∧ kernel_ok (mkKernel l (k_heap k)).
Proof.
  intros Hk Hr Ht H0 H1 H2 H3.
  destruct (switch_total _ _ _ _ _ (k_ok k Hk) Hr Ht H0 H1 H2 H3) as (l & f & p & E).
  destruct (switch_spec _ _ _ _ _ _ _ (k_ok k Hk) Hr E) as (t' & to & Ht' & _ & Hs).
  rewrite Ht in Ht'. injection Ht' as <-. exists l, f, p, to.
  pose proof (sw_tasks _ _ _ _ _ _ _ _ Hs) as Htt. split_and!.
  - done.
  - apply (sw_current _ _ _ _ _ _ _ _ Hs).
  - rewrite Htt. apply (sw_from _ _ _ _ _ _ _ _ Hs).
  - rewrite Htt. apply (sw_to _ _ _ _ _ _ _ _ Hs).
  - rewrite (sw_view _ _ _ _ _ _ _ _ Hs). by rewrite decide_True.
  - intros id Hne. rewrite (sw_view _ _ _ _ _ _ _ _ Hs). by rewrite decide_False.
  - apply (sw_picks _ _ _ _ _ _ _ _ Hs).
  - apply (sw_kept _ _ _ _ _ _ _ _ Hs).
  - apply kernel_ok_same; [done|apply (sw_ok _ _ _ _ _ _ _ _ Hs)|done].
Qed.

End theorems.
