(* ===== verification/Switch.v ===== *)
(** * The context switch (src/arch/x86_64/task_switch.s, sched/task.rs)

    [_do_switch] saves the callee-saved registers on the stack of the task it leaves, changes
    stack and address space, and restores those of the task it enters.  Stack memory is the
    [stack] array of the task structures, read and written through addresses, as the
    instructions do; [stack_top] and [cr3] are the fields at offsets 8 and 16.

    The theorems: a switch away and back restores every register and returns to the caller;
    the first switch to a new task enters [_task_entry], which calls [task_entry] with the
    task's id and entry point on a stack from which [current_task] finds the task. *)

From S2P Require Import Prelude Malloc Table Mapping Task Sched SchedSpec.

(** The registers the routine uses. *)
Record cpu_regs := mkRegs {
  rsp : Z; rbx : Z; rbp : Z; r12 : Z; r13 : Z; r14 : Z; r15 : Z;
  cr3_reg : Z; rip : Z;
}.

(** Where the task structures are. *)
Abbreviation memory := (gmap Z Task).

(** The structure whose region an address is in, and the place in its stack array. *)
Definition stack_slot (m : memory) (x : Z) : outcome (Z * Task * nat) :=
  let a := Z.land x TASK_STRUCT_MASK in
  t ← expect (m !! a) InvalidDeref;
  let o := x - a - TASK_INFO_SIZE in
  if decide (0 ≤ o) then Ret (a, t, Z.to_nat o) else Panic InvalidDeref.

Definition stack_write (m : memory) (x v : Z) : outcome memory :=
  '(a, t, o) ← stack_slot m x;
  st ← copy_into (stack t) o (o + 8) (to_le_bytes 8 v);
  Ret (<[a := mkTask (info t) st]> m).

Definition stack_read (m : memory) (x : Z) : outcome Z :=
  '(_, t, o) ← stack_slot m x;
  bs ← slice (stack t) o (o + 8);
  Ret (from_le_bytes bs).

(** [pushq] of each value in turn; [popq] [n] times. *)
Fixpoint push_all (m : memory) (sp : Z) (vs : list Z) : outcome (memory * Z) :=
  match vs with
  | [] => Ret (m, sp)
  | v :: vs => m ← stack_write m (sp - 8) v; push_all m (sp - 8) vs
  end.

Fixpoint pop_all (m : memory) (sp : Z) (n : nat) : outcome (list Z * Z) :=
  match n with
  | O => Ret ([], sp)
  | S n => v ← stack_read m sp; '(vs, sp) ← pop_all m (sp + 8) n; Ret (v :: vs, sp)
  end.

(** [_do_switch(from, to, _)], entered by a [call]: [rsp] points at the return address. *)
Definition do_switch (m : memory) (from to : Z) (r : cpu_regs) : outcome (memory * cpu_regs) :=
  '(m, sp) ← push_all m (rsp r) [rbp r; rbx r; r12 r; r13 r; r14 r; r15 r];
  tf ← expect (m !! from) InvalidDeref;
  let m := <[from := mkTask (set_stack_top (info tf) sp) (stack tf)]> m in
  tt ← expect (m !! to) InvalidDeref;
  '(vs, sp) ← pop_all m (stack_top (registers (info tt))) 7;
  match vs with
  | [v15; v14; v13; v12; vbx; vbp; ret] =>
      Ret (m, mkRegs sp vbx vbp v12 v13 v14 v15 (r_cr3 (registers (info tt))) ret)
  | _ => Panic Unreachable
  end.

(** [_task_entry]: moves its arguments and calls [task_entry(task_id, entry, scheduler)]; the
    call pushes the address after it. *)
Definition task_entry_call (m : memory) (after : Z) (r : cpu_regs) : outcome (memory * Z * Z * Z) :=
  m ← stack_write m (rsp r - 8) after;
  Ret (m, rsp r - 8, rbp r, rbx r). (* memory, stack pointer, task_id, entry *)

(** ** Regions *)

Lemma mask_spec x : 0 ≤ x < 2 ^ 64 → Z.land x TASK_STRUCT_MASK = x / KERNEL_STACK_SIZE * KERNEL_STACK_SIZE.
Proof.
  intros Hx. change TASK_STRUCT_MASK with (bnot 64 (Z.ones 13)). rewrite land_bnot by lia.
  rewrite Z.ldiff_ones_r, Z.shiftl_mul_pow2, Z.shiftr_div_pow2 by lia. done.
Qed.

(** Every address of an aligned region is masked to its start. *)
Lemma mask_region a o :
  (KERNEL_STACK_SIZE | a) → 0 ≤ a → a + KERNEL_STACK_SIZE ≤ 2 ^ 64 → 0 ≤ o < KERNEL_STACK_SIZE →
  Z.land (a + o) TASK_STRUCT_MASK = a.
Proof.
  intros [q ->] Ha Hfit Ho. rewrite mask_spec by lia. rewrite Z.div_add_l by done.
  rewrite Z.div_small by done. lia.
Qed.

(** A region in memory: an aligned structure with its whole stack. *)
Record region (m : memory) (a : Z) (t : Task) : Prop := {
  rg_lookup : m !! a = Some t;
  rg_aligned : (KERNEL_STACK_SIZE | a);
  rg_nonneg : 0 ≤ a;
  rg_fits : a + KERNEL_STACK_SIZE ≤ 2 ^ 64;
  rg_length : Z.of_nat (length (stack t)) = ACTUAL_STACK_SIZE;
}.

(** The word at offset [o] of the stack array. *)
Definition word (t : Task) (o : Z) : outcome Z :=
  bs ← slice (stack t) (Z.to_nat o) (Z.to_nat o + 8); Ret (from_le_bytes bs).

Lemma stack_slot_region m a t o :
  region m a t → 0 ≤ o < ACTUAL_STACK_SIZE → stack_slot m (a + TASK_INFO_SIZE + o) = Ret (a, t, Z.to_nat o).
Proof.
  intros [Hl Hal Hn Hf _] Ho. unfold stack_slot, ACTUAL_STACK_SIZE in *. change TASK_INFO_SIZE with 56 in *.
  replace (a + 56 + o) with (a + (56 + o)) by lia. rewrite mask_region by (done || lia). rewrite Hl. ret.
  rewrite decide_True by lia. do 2 f_equal. lia.
Qed.

Lemma stack_read_region m a t o :
  region m a t → 0 ≤ o < ACTUAL_STACK_SIZE → stack_read m (a + TASK_INFO_SIZE + o) = word t o.
Proof. intros Hr Ho. unfold stack_read. by rewrite (stack_slot_region _ _ _ _ Hr Ho). Qed.

(** Writing a word: it can be read back, and the words beside it keep their values. *)
Lemma stack_write_region m a t o v :
  region m a t → 0 ≤ o → o + 8 ≤ ACTUAL_STACK_SIZE → 0 ≤ v < 2 ^ 64 →
  ∃ t', stack_write m (a + TASK_INFO_SIZE + o) v = Ret (<[a := t']> m) ∧
    region (<[a := t']> m) a t' ∧ info t' = info t ∧ word t' o = Ret v ∧
    ∀ o', 0 ≤ o' → o' + 8 ≤ o ∨ o + 8 ≤ o' → word t' o' = word t o'.
Proof.
  intros Hr Ho Ho8 Hv. pose proof Hr as [Hl Hal Hn Hf Hlen]. unfold stack_write.
  rewrite (stack_slot_region _ _ _ _ Hr) by lia. ret.
  destruct (copy_into (stack t) (Z.to_nat o) (Z.to_nat o + 8) (to_le_bytes 8 v)) as [st|] eqn:E.
  2: { unfold copy_into in E. rewrite decide_True in E by lia. rewrite decide_True in E by len. done. }
  ret. exists (mkTask (info t) st). split_and!.
  - done.
  - split; [apply lookup_insert_eq|done..|]. cbn [stack]. by rewrite (length_copy_into _ _ _ _ _ E).
  - done.
  - unfold word. cbn [stack]. rewrite (slice_copied _ _ _ _ _ E). ret. by rewrite from_to_le_bytes.
  - intros o' Ho' Hd. unfold word. cbn [stack]. rewrite (slice_kept _ _ _ _ _ _ _ E); [done|]. lia.
Qed.

(** The words of a stack from offset [o] up. *)
Fixpoint words (t : Task) (o : Z) (vs : list Z) : Prop :=
  match vs with
  | [] => True
  | v :: vs => word t o = Ret v ∧ words t (o + 8) vs
  end.

Lemma words_kept t t' o vs :
  0 ≤ o → (∀ o', o ≤ o' → word t' o' = word t o') → words t o vs → words t' o vs.
Proof.
  revert o. induction vs as [|v vs IH]; intros o Ho Hw; [done|]. intros [H1 H2]. split.
  - by rewrite Hw by lia.
  - apply IH; [lia| |done]. intros o' Ho'. apply Hw. lia.
Qed.

(** Pushing values leaves them above the new stack pointer, below what was there. *)
Lemma push_all_region vs : ∀ m a t o rest,
  region m a t → words t o rest → Forall (fits 64) vs →
  o ≤ ACTUAL_STACK_SIZE → 0 ≤ o - 8 * Z.of_nat (length vs) →
  ∃ t', push_all m (a + TASK_INFO_SIZE + o) vs =
          Ret (<[a := t']> m, a + TASK_INFO_SIZE + (o - 8 * Z.of_nat (length vs))) ∧
    region (<[a := t']> m) a t' ∧ info t' = info t ∧
    words t' (o - 8 * Z.of_nat (length vs)) (reverse vs ++ rest).
Proof.
  induction vs as [|v vs IH]; intros m a t o rest Hr Hw Hvs Ho Hroom.
  { exists t. cbn [push_all length]. rewrite (insert_id m a t) by apply (rg_lookup _ _ _ Hr).
    split_and!; [do 2 f_equal; lia|done|done|]. by replace (o - 8 * Z.of_nat 0) with o by lia. }
  apply Forall_cons in Hvs as [Hv Hvs]. cbn [length] in Hroom.
  destruct (stack_write_region m a t (o - 8) v Hr) as (t1 & E & Hr1 & Hi1 & Hw1 & Hk1); [lia|lia|done|].
  cbn [push_all]. replace (a + TASK_INFO_SIZE + o - 8) with (a + TASK_INFO_SIZE + (o - 8)) by lia. rewrite E. ret.
  destruct (IH (<[a := t1]> m) a t1 (o - 8) (v :: rest) Hr1) as (t2 & E2 & Hr2 & Hi2 & Hw2); [|done|lia|lia|].
  { split; [done|]. replace (o - 8 + 8) with o by lia. eapply words_kept; [lia| |exact Hw].
    intros o' Ho'. apply Hk1; lia. }
  exists t2. rewrite E2. rewrite insert_insert_eq in Hr2 |- *. cbn [length].
  replace (o - 8 * Z.of_nat (S (length vs))) with (o - 8 - 8 * Z.of_nat (length vs)) by lia.
  split_and!; [done|done|congruence|]. rewrite reverse_cons, <- app_assoc. done.
Qed.

Lemma pop_all_region vs : ∀ m a t o,
  region m a t → words t o vs → 0 ≤ o → o + 8 * Z.of_nat (length vs) ≤ ACTUAL_STACK_SIZE →
  pop_all m (a + TASK_INFO_SIZE + o) (length vs) = Ret (vs, a + TASK_INFO_SIZE + (o + 8 * Z.of_nat (length vs))).
Proof.
  induction vs as [|v vs IH]; intros m a t o Hr Hw Ho Hfit; cbn [pop_all length].
  { do 2 f_equal. lia. }
  destruct Hw as [Hv Hw]. cbn [length] in Hfit. rewrite (stack_read_region _ _ t) by (done || lia). rewrite Hv. ret.
  replace (a + TASK_INFO_SIZE + o + 8) with (a + TASK_INFO_SIZE + (o + 8)) by lia.
  rewrite (IH m a t) by (done || lia). ret. do 2 f_equal. lia.
Qed.

(** ** Tasks that run and tasks that are suspended *)

(** Registers as [_do_switch] would resume them from the structure at [a]. *)
Definition suspended (m : memory) (a : Z) (r : cpu_regs) : Prop := ∃ t o,
  region m a t ∧ 0 ≤ o ∧ o + 56 ≤ ACTUAL_STACK_SIZE ∧
  stack_top (registers (info t)) = a + TASK_INFO_SIZE + o ∧
  rsp r = a + TASK_INFO_SIZE + (o + 56) ∧ cr3_reg r = r_cr3 (registers (info t)) ∧
  words t o [r15 r; r14 r; r13 r; r12 r; rbx r; rbp r; rip r].

(** A task that called [_do_switch]: [ret] is on top of its stack, and there is room for the
    six registers. *)
Definition calling (m : memory) (a : Z) (r : cpu_regs) (ret : Z) : Prop := ∃ t o,
  region m a t ∧ 48 ≤ o ∧ o + 8 ≤ ACTUAL_STACK_SIZE ∧ rsp r = a + TASK_INFO_SIZE + o ∧
  word t o = Ret ret ∧ Forall (fits 64) [rbp r; rbx r; r12 r; r13 r; r14 r; r15 r] ∧
  cr3_reg r = r_cr3 (registers (info t)).

(** What it gets back when it is resumed: its registers, after the return. *)
Definition returned (r : cpu_regs) (ret : Z) : cpu_regs :=
  mkRegs (rsp r + 8) (rbx r) (rbp r) (r12 r) (r13 r) (r14 r) (r15 r) (cr3_reg r) ret.

Lemma suspended_lookup m m' a r : m' !! a = m !! a → suspended m a r → suspended m' a r.
Proof.
  intros E (t & o & [? ? ? ? ?] & Hrest). exists t, o. split; [|done]. split; try done. by rewrite E.
Qed.

Lemma pop_suspended m a r :
  suspended m a r → ∃ t, m !! a = Some t ∧ r_cr3 (registers (info t)) = cr3_reg r ∧
    pop_all m (stack_top (registers (info t))) 7 =
      Ret ([r15 r; r14 r; r13 r; r12 r; rbx r; rbp r; rip r], rsp r).
Proof.
  intros (t & o & Hr & Ho & Hfit & Htop & Hsp & Hcr & Hw). exists t. split_and!; [apply (rg_lookup _ _ _ Hr)|done|].
  rewrite Htop, Hsp. apply (pop_all_region _ m a t o Hr Hw); cbn; lia.
Qed.

(** One switch: the task left is suspended with what it will get back, the task entered
    resumes with what it had. *)
Lemma do_switch_spec m from to r ret r' :
  calling m from r ret → suspended m to r' → from ≠ to →
  ∃ m', do_switch m from to r = Ret (m', r') ∧ suspended m' from (returned r ret) ∧
    ∀ b, b ≠ from → m' !! b = m !! b.
Proof.
  intros (t & o & Hr & Ho & Hfit & Hsp & Hret & Hregs & Hcr) Hto Hne. unfold do_switch. rewrite Hsp.
  destruct (push_all_region [rbp r; rbx r; r12 r; r13 r; r14 r; r15 r] m from t o [ret] Hr)
    as (t1 & -> & Hr1 & Hi1 & Hw1); [done|done|lia|cbn; lia|]. ret. rewrite lookup_insert_eq. ret.
  rewrite insert_insert_eq. cbn [length] in *. replace (o - 8 * Z.of_nat 6) with (o - 48) in * by lia.
  set (t2 := mkTask _ _). set (m' := <[from := t2]> m).
  assert (∀ b, b ≠ from → m' !! b = m !! b) as Hother by (intros b Hb; by apply lookup_insert_ne).
  assert (suspended m' from (returned r ret)) as Hsus.
  { exists t2, (o - 48). destruct Hr1 as [_ ? ? ? ?]. split_and!; cbn; try lia.
    - split; [apply lookup_insert_eq|done..].
    - by rewrite Hi1.
    - exact Hw1. }
  destruct (pop_suspended m' to r') as (tt & Htt & Hcr' & Hpop).
  { eapply suspended_lookup; [|exact Hto]. by apply Hother, not_eq_sym. }
  rewrite Htt. ret. rewrite Hpop. ret. exists m'. split_and!; [|done|done]. rewrite Hcr'. by destruct r'.
Qed.

(** C18. A switch away and back: a task that calls [_do_switch] and is later switched to, with
    its structure untouched in between, returns from the call with its stack pointer past the
    return address and every callee-saved register and its page table as it left them. *)
Theorem switch_away_and_back m from to r ret r' :
  calling m from r ret → suspended m to r' → from ≠ to →
  ∃ m1, do_switch m from to r = Ret (m1, r') ∧
    (∀ m2 c r2 ret2, m2 !! from = m1 !! from → calling m2 c r2 ret2 → c ≠ from →
      ∃ m3, do_switch m2 c from r2 = Ret (m3, returned r ret) ∧ suspended m3 c (returned r2 ret2)).
Proof.
  intros Hcall Hto Hne. destruct (do_switch_spec _ _ _ _ _ _ Hcall Hto Hne) as (m1 & E & Hsus & _).
  exists m1. split; [done|]. intros m2 c r2 ret2 Hm2 Hcall2 Hne2.
  destruct (do_switch_spec m2 c from r2 ret2 (returned r ret) Hcall2) as (m3 & E3 & Hs3 & _); [|done|].
  - by eapply suspended_lookup.
  - by exists m3.
Qed.

(** ** New tasks *)

Lemma words_bytes vs : ∀ pre i,
  Forall (fits 64) vs → words (mkTask i (pre ++ flat_map (to_le_bytes 8) vs)) (Z.of_nat (length pre)) vs.
Proof.
  induction vs as [|v vs IH]; intros pre i Hvs; [done|]. apply Forall_cons in Hvs as [Hv Hvs]. split.
  - unfold word. cbn [stack flat_map]. rewrite Nat2Z.id.
    rewrite (slice_app pre (to_le_bytes 8 v)) by len. ret. by rewrite from_to_le_bytes.
  - cbn [flat_map]. rewrite app_assoc.
    replace (Z.of_nat (length pre) + 8) with (Z.of_nat (length (pre ++ to_le_bytes 8 v))) by len. by apply IH.
Qed.

Lemma new_stack_words ep e id :
  new_stack ep e id = replicate (stack_len - 56) 0 ++ flat_map (to_le_bytes 8) [0; 0; 0; 0; e; id; ep].
Proof.
  pose proof stack_len_ge. unfold new_stack. cbn [flat_map]. rewrite app_nil_r.
  change (to_le_bytes 8 0) with (replicate 8 0). rewrite !app_assoc. rewrite <- !replicate_add.
  replace (stack_len - 56 + 8 + 8 + 8 + 8)%nat with (stack_len - 24)%nat by lia. by rewrite <- !app_assoc.
Qed.

(** A fresh structure is suspended at [_task_entry]. *)
Lemma fresh_task_suspended m ptr ep uninit e id cr3 :
  m !! ptr = Some (fresh_task ep uninit e id ptr cr3) → (KERNEL_STACK_SIZE | ptr) → 0 ≤ ptr →
  ptr + KERNEL_STACK_SIZE ≤ 2 ^ 64 → fits 64 ep → fits 64 e → fits 64 id →
  suspended m ptr (mkRegs (ptr + KERNEL_STACK_SIZE) e id 0 0 0 0 cr3 ep).
Proof.
  intros Hm Hal Hn Hfit Hep He Hid. exists (fresh_task ep uninit e id ptr cr3), (ACTUAL_STACK_SIZE - 56).
  assert (Z.of_nat (length (stack (fresh_task ep uninit e id ptr cr3))) = ACTUAL_STACK_SIZE) as Hlen.
  { cbn [fresh_task stack]. rewrite length_new_stack. apply stack_len_eq. }
  assert (ACTUAL_STACK_SIZE = KERNEL_STACK_SIZE - 56 ∧ KERNEL_STACK_SIZE = 8192) as [HA HK] by done.
  split_and!; [by split|lia|lia| | |done|].
  - cbn [fresh_task info registers stack_top]. change TASK_INFO_SIZE with 56. lia.
  - cbn [rsp]. change TASK_INFO_SIZE with 56. lia.
  - unfold fresh_task. rewrite new_stack_words. cbn [r15 r14 r13 r12 rbx rbp rip].
    replace (ACTUAL_STACK_SIZE - 56) with (Z.of_nat (length (replicate (stack_len - 56) 0 : list Z))).
    + assert (fits 64 0) by done. apply words_bytes. repeat (apply Forall_cons_2; [done|]). apply Forall_nil_2.
    + pose proof stack_len_ge. pose proof stack_len_eq. rewrite length_replicate. lia.
Qed.

(** C19. The first switch to a new task: it enters [_task_entry], which calls [task_entry]
    with the id and the entry point that were given to [new_task]; the stack pointer is then
    in the task's own region, so that [current_task] returns the new id, and the task starts
    with interrupts enabled. *)
Theorem new_task_starts {H : Type} `{!Heap H, !HeapLaws H} ep uninit (k : kernel H) mapper sp0 e c
    l heap' mapper' id from r ret after :
  kernel_ok k → runs (k_list k) sp0 c → tasks (k_list k) !! c = Some from →
  new_task ep uninit (k_list k) (k_heap k) mapper sp0 e = Ret (l, heap', mapper', id) →
  fits 64 ep → fits 64 e → fits 64 id → fits 64 after → calling (boxes l) from r ret →
  ∃ ptr m1 r1 m2 t, tasks l !! id = Some ptr ∧
    do_switch (boxes l) from ptr r = Ret (m1, r1) ∧ rip r1 = ep ∧
    task_entry_call m1 after r1 = Ret (m2, ptr + KERNEL_STACK_SIZE - 8, id, e) ∧
    m2 !! Z.land (ptr + KERNEL_STACK_SIZE - 8) TASK_STRUCT_MASK = Some t ∧
    task_id (info t) = id ∧ interrupt_enabled (info t) = true.
Proof.
  intros Hk Hr Hfrom E Hep He Hid Hafter Hcall.
  destruct (new_task_inv _ _ _ _ _ _ _ _ _ _ _ Hk Hr E) as (cr3 & ptr & Hall & -> & ->).
  set (id := next_task_id (k_list k)) in *. cbn [tasks boxes] in *.
  assert (layout_ok (mkLayout KERNEL_STACK_SIZE KERNEL_STACK_SIZE)) as Hl by (split; done).
  destruct (kalloc_spec _ _ _ _ (k_head k Hk) Hl Hall) as (Hal & Hlt & _ & Hh & Hmax & _). cbn in Hal, Hh.
  pose proof (k_head k Hk) as Hpos. pose proof (fresh_address k c from ptr _ _ Hk Hfrom Hl Hall) as Hne.
  set (m := <[ptr := _]> (boxes (k_list k))) in *.
  assert (suspended m ptr (mkRegs (ptr + KERNEL_STACK_SIZE) e id 0 0 0 0 cr3 ep)) as Hsus
    by (apply (fresh_task_suspended _ _ _ uninit); [apply lookup_insert_eq|done|lia|lia|done..]).
  destruct (do_switch_spec m from ptr r ret _ Hcall Hsus Hne) as (m1 & E1 & _ & Hm1).
  assert (m1 !! ptr = Some (fresh_task ep uninit e id ptr cr3)) as Hp1
    by (rewrite Hm1 by (by apply not_eq_sym); apply lookup_insert_eq).
  assert (ACTUAL_STACK_SIZE = KERNEL_STACK_SIZE - 56 ∧ KERNEL_STACK_SIZE = 8192) as [HA HK] by done.
  assert (region m1 ptr (fresh_task ep uninit e id ptr cr3)) as Hrg.
  { split; [done|done|lia|lia|]. cbn [fresh_task stack]. rewrite length_new_stack. apply stack_len_eq. }
  destruct (stack_write_region m1 ptr _ (ACTUAL_STACK_SIZE - 8) after Hrg) as (t & Ew & _ & Hi & _); [lia|lia|done|].
  exists ptr, m1, (mkRegs (ptr + KERNEL_STACK_SIZE) e id 0 0 0 0 cr3 ep), (<[ptr := t]> m1), t.
  split_and!; [apply lookup_insert_eq|done|done| | | |].
  - unfold task_entry_call. cbn [rsp rbp rbx].
    replace (ptr + KERNEL_STACK_SIZE - 8) with (ptr + TASK_INFO_SIZE + (ACTUAL_STACK_SIZE - 8))
      by (change TASK_INFO_SIZE with 56; lia). rewrite Ew. done.
  - replace (ptr + KERNEL_STACK_SIZE - 8) with (ptr + (KERNEL_STACK_SIZE - 8)) by lia.
    rewrite mask_region by (done || lia). apply lookup_insert_eq.
  - by rewrite Hi.
  - by rewrite Hi.
Qed.
