(* ===== verification/SchedExamples.v ===== *)
(** * Witnesses for the scheduler's theorems

    A kernel that has just run [sched_init] on a boot stack at [0x2000], with a small heap
    above it, and the task created next. *)

From S2P Require Import Prelude Malloc Table Mapping Task Clock Sched SchedSpec Switch.

Ltac fits_concrete := apply (bool_decide_eq_true_1 (fits _ _)); vm_compute; reflexivity.
Ltac fits_all := repeat (apply Forall_cons_2; [fits_concrete|]); apply Forall_nil_2.

Definition ex_sp : Z := 0x3f00.
Definition ex_info : TaskInfo := mkTaskInfo 0 (mkRegisters ex_sp 0x200000) 1000 20001000 0 1 false.
Definition ex_boot_stack : list Z := replicate stack_len 0.

(** The task list [sched_init] leaves at time 1000. *)
Definition ex_list : TaskList (list TaskInfo) :=
  mkTaskList 1 (Some 0) (<[0 := 0x2000]> ∅) [] (<[0x2000 := mkTask ex_info ex_boot_stack]> ∅).
Definition ex_kernel : kernel (list TaskInfo) := mkKernel ex_list (mkKernelAllocator 0x4000 0x4000).

Lemma ex_kernel_boot : kernel_boot ex_kernel.
Proof.
  exists (mkTask ex_info ex_boot_stack), ex_sp, 0x200000, 1000, false, 0x2000, 0x2000.
  split_and!; [by exists 1|done|done|]. vm_compute. reflexivity.
Qed.

Lemma ex_runs : runs (k_list ex_kernel) ex_sp 0.
Proof. split; vm_compute; reflexivity. Qed.

Lemma ex_lookup : lookup_task (k_list ex_kernel) 0 = Some (mkTask ex_info ex_boot_stack).
Proof. unfold lookup_task. cbn. by rewrite !lookup_insert_eq. Qed.


(** The idle task yields at time 5000 and runs on. *)
Lemma switch_least_runtime_witness : ∃ l from_ptr to_ptr to,
  switch (k_list ex_kernel) ex_sp 5000 = Ret (l, from_ptr, to_ptr) ∧ view l 0 = Some (true, 4000) ∧ picks (view l) to.
Proof.
  destruct (switch_least_runtime ex_kernel ex_sp 5000 0 (mkTask ex_info ex_boot_stack)
    (kernel_ok_boot _ ex_kernel_boot) ex_runs ex_lookup) as (l & f & p & to & E & _ & _ & _ & Hv & _ & Hp & _).
  - apply Z.leb_le. vm_compute. reflexivity.
  - apply Z.leb_le. vm_compute. reflexivity.
  - apply Z.ltb_lt. vm_compute. reflexivity.
  - apply Z.ltb_lt. vm_compute. reflexivity.
  - exists l, f, p, to. split; [exact E|]. split; [|exact Hp]. rewrite Hv. vm_compute. reflexivity.
Defined.


(** ** A second task *)

(** Forking a table with no present entry only allocates the new top table. *)
Lemma mfold_id {A B} (f : B → A → outcome B) l b : (∀ x, x ∈ l → f b x = Ret b) → mfold f l b = Ret b.
Proof.
  induction l as [|x l IH]; intros Hf; [done|]. cbn [mfold].
  rewrite (bind_Ret _ _ _ (Hf x ltac:(set_solver))). apply IH. set_solver.
Qed.

Lemma default_entry self src i :
  tables self !! src = Some table_default → 0 ≤ i < 512 →
  read_entry (E:=X86_64BareMetal) self src i = Ret entry_default.
Proof.
  intros Hs Hi. unfold read_entry. rewrite (bind_Ret _ _ table_default) by (by rewrite Hs).
  unfold get_entry, table_default. cbn [entries]. apply index_Ret_inv. apply lookup_replicate. split; [done|].
  unfold ENTRY_COUNT. lia.
Qed.

Definition ex_mapper : Mapper X86_64BareMetal :=
  mkMapper (PAGING_STRUCTURE_BASE_ADDR + 0x200000) 0x200000 1 ∅ Physical.new (mkBareMetal 0x200000 0)
    {[PAGING_STRUCTURE_BASE_ADDR + 0x200000 := table_default]} ∅.
Definition ex_mapper' : Mapper X86_64BareMetal := with_next ex_mapper (wrapping_add 64 1 1).

Lemma ex_fork : fork ex_mapper (0x200000 + PAGING_STRUCTURE_BASE_ADDR) = Ret (ex_mapper', 0x201000).
Proof.
  unfold fork. rewrite (bind_Ret _ _ (ex_mapper', PAGING_STRUCTURE_BASE_ADDR + 0x201000)) by (vm_compute; reflexivity).
  assert (tables ex_mapper' !! (0x200000 + PAGING_STRUCTURE_BASE_ADDR) = Some table_default) as Hs.
  { cbn [tables ex_mapper' ex_mapper with_next]. apply lookup_singleton_Some. split; [|done]. lia. }
  rewrite (bind_Ret _ _ ex_mapper').
  2: { apply mfold_id. intros i Hi%elem_of_seqZ. unfold fork_kernel_entry.
       rewrite (bind_Ret _ _ _ (default_entry _ _ i Hs ltac:(lia))). reflexivity. }
  rewrite (bind_Ret _ _ ex_mapper'); [reflexivity|].
  apply mfold_id. intros i Hi%elem_of_seqZ. unfold fork_user_entry.
  rewrite (bind_Ret _ _ _ (default_entry _ _ i Hs ltac:(lia))). reflexivity.
Qed.

(** The switch to a task created on a kernel, from the boot task. *)
Definition ex_entry : Z := 0xffff800000123456.
Definition ex_entry_point : Z := 0xffff800000100000.
Definition ex_heap' : KernelAllocator := mkKernelAllocator 0x4000 0x8000.
Definition ex_fresh : Task := fresh_task ex_entry_point 0 ex_entry 1 0x6000 0x201000.
Definition ex_list' : TaskList (list TaskInfo) :=
  mkTaskList (1 + 1) (Some 0) (<[1 := 0x6000]> (<[0 := 0x2000]> ∅)) [info ex_fresh]
    (<[0x6000 := ex_fresh]> (<[0x2000 := mkTask ex_info ex_boot_stack]> ∅)).

Lemma ex_new_task :
  new_task ex_entry_point 0 (k_list ex_kernel) (k_heap ex_kernel) ex_mapper ex_sp ex_entry =
    Ret (ex_list', ex_heap', ex_mapper', 1).
Proof.
  apply (new_task_eq ex_entry_point 0 ex_kernel ex_mapper ex_sp ex_entry 0 _ ex_mapper' 0x201000 ex_heap' 0x6000
           (kernel_ok_boot _ ex_kernel_boot) ex_runs ex_lookup).
  - vm_compute. reflexivity.
  - apply Z.ltb_lt. vm_compute. reflexivity.
  - exact ex_fork.
  - apply Z.ltb_lt. vm_compute. reflexivity.
Qed.

(** The boot task calls [_do_switch]; the word on top of its stack is zero. *)
Definition ex_regs : cpu_regs := mkRegs ex_sp 1 2 3 4 5 6 0x200000 7.

Lemma ex_calling : calling (boxes ex_list') 0x2000 ex_regs 0.
Proof.
  exists (mkTask ex_info ex_boot_stack), (0x1f00 - 56). pose proof stack_len_eq as Hlen.
  assert (ACTUAL_STACK_SIZE = 8136) as HA by reflexivity. rewrite HA in Hlen |- *.
  split_and!; [|lia|lia|reflexivity| |fits_all|reflexivity].
  - split; [|by exists 1|lia|change KERNEL_STACK_SIZE with 8192; lia|].
    + unfold ex_list'. cbn [boxes]. rewrite lookup_insert_ne by lia. apply lookup_insert_eq.
    + cbn [stack]. unfold ex_boot_stack. rewrite length_replicate, HA. exact Hlen.
  - unfold word. cbn [stack]. unfold ex_boot_stack.
    replace (replicate stack_len 0) with
      (replicate (Z.to_nat (0x1f00 - 56)) 0 ++ replicate 8 0 ++ replicate (stack_len - 8 - Z.to_nat (0x1f00 - 56)) 0).
    + rewrite (bind_Ret _ _ (replicate 8 0)); [reflexivity|]. apply slice_app; rewrite !length_replicate; lia.
    + rewrite <- !replicate_add. f_equal; lia.
Qed.

Lemma new_task_starts_witness : ∃ ptr m1 r1 m2 t, tasks ex_list' !! 1 = Some ptr ∧
  do_switch (boxes ex_list') 0x2000 ptr ex_regs = Ret (m1, r1) ∧ rip r1 = ex_entry_point ∧
  task_entry_call m1 0 r1 = Ret (m2, ptr + KERNEL_STACK_SIZE - 8, 1, ex_entry) ∧
  m2 !! Z.land (ptr + KERNEL_STACK_SIZE - 8) TASK_STRUCT_MASK = Some t ∧
  task_id (info t) = 1 ∧ interrupt_enabled (info t) = true.
Proof.
  apply (new_task_starts ex_entry_point 0 ex_kernel ex_mapper ex_sp ex_entry 0 ex_list' ex_heap' ex_mapper' 1 0x2000
           ex_regs 0 0 (kernel_ok_boot _ ex_kernel_boot) ex_runs).
  - vm_compute. reflexivity.
  - exact ex_new_task.
  - fits_concrete.
  - fits_concrete.
  - fits_concrete.
  - fits_concrete.
  - exact ex_calling.
Defined.

Lemma switch_away_and_back_witness : ∃ r1 m1,
  do_switch (boxes ex_list') 0x2000 0x6000 ex_regs = Ret (m1, r1) ∧ r1 = mkRegs 0x8000 ex_entry 1 0 0 0 0 0x201000 ex_entry_point.
Proof.
  destruct (switch_away_and_back (boxes ex_list') 0x2000 0x6000 ex_regs 0
    (mkRegs 0x8000 ex_entry 1 0 0 0 0 0x201000 ex_entry_point) ex_calling) as (m1 & E & _).
  - apply (fresh_task_suspended _ 0x6000 ex_entry_point 0 ex_entry 1 0x201000).
    + unfold ex_list'. cbn [boxes]. apply lookup_insert_eq.
    + by exists 3.
    + lia.
    + vm_compute. discriminate.
    + fits_concrete.
    + fits_concrete.
    + fits_concrete.
  - lia.
  - exists (mkRegs 0x8000 ex_entry 1 0 0 0 0 0x201000 ex_entry_point), m1. split; [exact E|reflexivity].
Defined.
