(* ===== verification/Net.v ===== *)
(** * The network stack (src/net/mod.rs)

    [Interface] has a ring of four receive buffers between the driver's task, which calls
    [recv_frame], and the network task, which calls [handle_frame]; two semaphores count the
    free and the filled buffers.  The operations are cut at the points where the other task
    can run; [ring_step] interleaves one producer with one consumer, the tasks the kernel
    creates for a card.  [accepted] and [delivered] are the history of the ring, which no
    operation reads.

    [handle_bytes] is what [handle_frame] does with the bytes of one buffer. *)

From S2P Require Import Prelude Semaphore Ethernet Arp.

(** ** Errors *)

Inductive ErrorType := InvalidFrame | UnknownError.
Record Error := mkError { error_type : ErrorType; message : string }.

(** ** The interface *)

Definition RX_BUF_LEN : nat := 1526.

Record RxBuf := mkRxBuf { rx_bytes : list Z; rx_len : nat }.

(** [Box::new_uninit]: some bytes. *)
Definition rx_buf_new (uninit : list Z) : RxBuf := mkRxBuf uninit 0.

Record Interface := mkInterface {
  bufs : list RxBuf;
  recv_empty : Semaphore;
  recv_full : Semaphore;
  recv_head : Z;
  recv_tail : Z;
}.

Definition interface_new (uninit : list Z) : outcome Interface :=
  e ← sem_new 4 4;
  f ← sem_new 0 4;
  Ret (mkInterface (replicate 4 (rx_buf_new uninit)) e f 0 0).

(** *** [recv_frame], in its four parts *)

(** [self.recv_empty.try_wait()] *)
Definition recv_reserve (i : Interface) : option Interface :=
  e ← try_decrement (recv_empty i);
  Some (mkInterface (bufs i) e (recv_full i) (recv_head i) (recv_tail i)).

(** [self.recv_head.update(.., |n| (n + 1) % 4)] returns the previous value. *)
Definition recv_next (i : Interface) : Interface * Z :=
  (mkInterface (bufs i) (recv_empty i) (recv_full i) ((recv_head i + 1) mod 4) (recv_tail i), recv_head i).

(** [buf.bytes[0..bytes.len()].copy_from_slice(bytes); buf.len = bytes.len()] *)
Definition recv_copy (i : Interface) (next : Z) (bytes : list Z) : outcome Interface :=
  b ← index (bufs i) (Z.to_nat next);
  d ← copy_into (rx_bytes b) 0 (length bytes) bytes;
  bs ← index_set (bufs i) (Z.to_nat next) (mkRxBuf d (length bytes));
  Ret (mkInterface bs (recv_empty i) (recv_full i) (recv_head i) (recv_tail i)).

(** [self.recv_full.signal()], when it does not block. *)
Definition recv_signal (i : Interface) : option Interface :=
  f ← try_increment (recv_full i);
  Some (mkInterface (bufs i) (recv_empty i) f (recv_head i) (recv_tail i)).

(** *** [handle_frame], in its four parts *)

Definition handle_wait (i : Interface) : option Interface :=
  f ← try_decrement (recv_full i);
  Some (mkInterface (bufs i) (recv_empty i) f (recv_head i) (recv_tail i)).

Definition handle_next (i : Interface) : Interface * Z :=
  (mkInterface (bufs i) (recv_empty i) (recv_full i) (recv_head i) ((recv_tail i + 1) mod 4), recv_tail i).

(** [&buf.bytes[0..buf.len]] *)
Definition handle_read (i : Interface) (next : Z) : outcome (list Z) :=
  b ← index (bufs i) (Z.to_nat next);
  slice (rx_bytes b) 0 (rx_len b).

Definition handle_signal (i : Interface) : option Interface :=
  e ← try_increment (recv_empty i);
  Some (mkInterface (bufs i) e (recv_full i) (recv_head i) (recv_tail i)).

(** What is done with the bytes: for an ARP packet that asks for this host, the address to
    reply to and the packet to answer. *)
Definition ME : list Z := [192; 168; 16; 40].

Definition handle_bytes (buf : list Z) : outcome (Result (option (MACAddress * list Z)) Error) :=
  match try_from_bytes buf with
  | Err s => Ret (Err (mkError InvalidFrame s))
  | Ok frame =>
      _ ← frame_src frame;
      _ ← frame_dest frame;
      _ ← frame_ethertype frame;
      e ← frame_ethertype frame;
      match e with
      | ARP =>
          payload ← frame_payload frame;
          tpa ← arp_target_protocol_address (arp_from_bytes payload);
          if decide (tpa = ME) then
            payload ← frame_payload frame;
            dest ← frame_dest frame;
            Ret (Ok (Some (dest, payload)))
          else Ret (Ok None)
      | Other _ => Ret (Ok None)
      end
  end.

(** ** The ring under interleaving *)

Inductive producer := PIdle | PReserved (f : list Z) | PSlot (f : list Z) (n : Z) | PFilled (f : list Z) (n : Z).
Inductive consumer := CIdle | CTaken | CSlot (n : Z) | CHandling (n : Z).

Record ring := mkRing {
  iface : Interface;
  prod : producer;
  cons_ : consumer;
  accepted : list (list Z);
  delivered : list (list Z);
}.

Inductive ring_step (r : ring) : ring → Prop :=
| r_reserve f i : prod r = PIdle → recv_reserve (iface r) = Some i →
    ring_step r (mkRing i (PReserved f) (cons_ r) (accepted r) (delivered r))
| r_next f i n : prod r = PReserved f → recv_next (iface r) = (i, n) →
    ring_step r (mkRing i (PSlot f n) (cons_ r) (accepted r ++ [f]) (delivered r))
| r_copy f n i : prod r = PSlot f n → recv_copy (iface r) n f = Ret i →
    ring_step r (mkRing i (PFilled f n) (cons_ r) (accepted r) (delivered r))
| r_signal f n i : prod r = PFilled f n → recv_signal (iface r) = Some i →
    ring_step r (mkRing i PIdle (cons_ r) (accepted r) (delivered r))
| c_wait i : cons_ r = CIdle → handle_wait (iface r) = Some i →
    ring_step r (mkRing i (prod r) CTaken (accepted r) (delivered r))
| c_next i n : cons_ r = CTaken → handle_next (iface r) = (i, n) →
    ring_step r (mkRing i (prod r) (CSlot n) (accepted r) (delivered r))
| c_read n f : cons_ r = CSlot n → handle_read (iface r) n = Ret f →
    ring_step r (mkRing (iface r) (prod r) (CHandling n) (accepted r) (delivered r ++ [f]))
| c_signal n i : cons_ r = CHandling n → handle_signal (iface r) = Some i →
    ring_step r (mkRing i (prod r) CIdle (accepted r) (delivered r)).

Definition ring_initial (r : ring) : Prop :=
  (∃ uninit, length uninit = RX_BUF_LEN ∧ interface_new uninit = Ret (iface r)) ∧
  prod r = PIdle ∧ cons_ r = CIdle ∧ accepted r = [] ∧ delivered r = [].

Definition ring_reachable (r : ring) : Prop := ∃ r0, ring_initial r0 ∧ rtc ring_step r0 r.

(** ** The invariant

    The counts of each event follow from the lengths of the histories and where the tasks
    are. *)

Definition n_accepted (r : ring) : Z := Z.of_nat (length (accepted r)).
Definition n_reserved (r : ring) : Z := n_accepted r + match prod r with PReserved _ => 1 | _ => 0 end.
Definition n_copied (r : ring) : Z := n_accepted r - match prod r with PSlot _ _ => 1 | _ => 0 end.
Definition n_signalled (r : ring) : Z := n_copied r - match prod r with PFilled _ _ => 1 | _ => 0 end.
Definition n_read (r : ring) : Z := Z.of_nat (length (delivered r)).
Definition n_taken (r : ring) : Z := n_read r + match cons_ r with CSlot _ => 1 | _ => 0 end.
Definition n_waited (r : ring) : Z := n_taken r + match cons_ r with CTaken => 1 | _ => 0 end.
Definition n_released (r : ring) : Z := n_read r - match cons_ r with CHandling _ => 1 | _ => 0 end.

(** The buffer holds the frame. *)
Definition buf_holds (b : RxBuf) (f : list Z) : Prop := slice (rx_bytes b) 0 (rx_len b) = Ret f.

Definition bufs_ok (bs : list RxBuf) : Prop := length bs = 4%nat ∧ Forall (λ b, length (rx_bytes b) = RX_BUF_LEN) bs.

Record ring_inv (r : ring) : Prop := {
  ri_bufs : bufs_ok (bufs (iface r));
  ri_head : recv_head (iface r) = n_accepted r mod 4;
  ri_tail : recv_tail (iface r) = n_taken r mod 4;
  ri_empty : count (recv_empty (iface r)) = 4 - n_reserved r + n_released r ∧ max (recv_empty (iface r)) = 4;
  ri_full : count (recv_full (iface r)) = n_signalled r - n_waited r ∧ max (recv_full (iface r)) = 4;
  ri_room : n_reserved r - n_released r ≤ 4;
  ri_order : n_waited r ≤ n_signalled r;
  ri_released : 0 ≤ n_released r;
  ri_held k f : n_released r ≤ k < n_copied r → accepted r !! Z.to_nat k = Some f →
    ∃ b, bufs (iface r) !! Z.to_nat (k mod 4) = Some b ∧ buf_holds b f;
  ri_prod f n : prod r = PSlot f n ∨ prod r = PFilled f n →
    n = (n_accepted r - 1) mod 4 ∧ accepted r !! Z.to_nat (n_accepted r - 1) = Some f;
  ri_cons n : cons_ r = CSlot n ∨ cons_ r = CHandling n → n = (n_taken r - 1) mod 4;
  ri_delivered : delivered r = take (length (delivered r)) (accepted r);
}.

(** Counters of a concrete state. *)
Ltac counters :=
  unfold n_signalled, n_copied, n_reserved, n_waited, n_taken, n_released, n_accepted, n_read in *;
  cbn [iface prod cons_ accepted delivered bufs recv_empty recv_full recv_head recv_tail count max] in *;
  rewrite ?length_app in *; cbn [length] in *.

Ltac ring_simple :=
  split; counters; try done; try lia; try (split; congruence || lia);
  try (by intros ? ? [|]); try (by intros ? [|]);
  try (match goal with Hk : ∀ k f, _ → _ → ∃ b, _ |- _ => intros ? ? ?; apply Hk; lia end).

Lemma mod4_next x : (x mod 4 + 1) mod 4 = (x + 1) mod 4.
Proof. by rewrite Z.add_mod_idemp_l. Qed.

Lemma try_decrement_Some s s' :
  try_decrement s = Some s' → 0 < count s ∧ count s' = count s - 1 ∧ max s' = max s.
Proof. unfold try_decrement. destruct (decide _); [|done]. intros [= <-]. done. Qed.

Lemma try_increment_Some s s' :
  try_increment s = Some s' → count s < max s ∧ count s' = count s + 1 ∧ max s' = max s.
Proof. unfold try_increment. destruct (decide _); [|done]. intros [= <-]. done. Qed.

(** Two positions less than four apart are different slots. *)
Lemma slots_differ j k : j < k < j + 4 → Z.to_nat (j mod 4) ≠ Z.to_nat (k mod 4).
Proof.
  intros Hjk E. pose proof (Z.mod_pos_bound j 4). pose proof (Z.mod_pos_bound k 4).
  assert (j mod 4 = k mod 4) as Hm by lia.
  pose proof (Z.div_mod j 4). pose proof (Z.div_mod k 4). lia.
Qed.

Lemma recv_copy_spec i n f i' :
  bufs_ok (bufs i) → recv_copy i n f = Ret i' →
  bufs_ok (bufs i') ∧ (length f ≤ RX_BUF_LEN)%nat ∧
  recv_empty i' = recv_empty i ∧ recv_full i' = recv_full i ∧ recv_head i' = recv_head i ∧ recv_tail i' = recv_tail i ∧
  (∃ b, bufs i' !! Z.to_nat n = Some b ∧ buf_holds b f) ∧
  (∀ m, m ≠ Z.to_nat n → bufs i' !! m = bufs i !! m).
Proof.
  intros [Hlen Hall] E. unfold recv_copy in E.
  apply bind_Ret_inv in E as (b & Hb%index_Ret_inv & E). apply bind_Ret_inv in E as (d & Hd & E).
  apply bind_Ret_inv in E as (bs & [Hn ->]%index_set_Ret_inv & E). injection E as <-. cbn [bufs recv_empty recv_full recv_head recv_tail].
  pose proof (Forall_lookup_1 _ _ _ _ Hall Hb) as Hbl. cbn in Hbl.
  assert (length f ≤ RX_BUF_LEN)%nat as Hfl.
  { unfold copy_into in Hd. destruct (decide _) as [[_ ?]|]; [|done]. lia. }
  split_and!; try done.
  - split; [by rewrite length_insert|]. apply Forall_insert; [done|]. cbn. by rewrite (length_copy_into _ _ _ _ _ Hd).
  - eexists. split; [by apply list_lookup_insert_eq|]. unfold buf_holds. cbn. apply (slice_copied _ _ _ _ _ Hd).
  - intros m Hm. by rewrite list_lookup_insert_ne.
Qed.

Section steps.
Context (i : Interface) (p : producer) (c : consumer) (a d : list (list Z)).

Lemma ring_inv_reserve f i' :
  ring_inv (mkRing i PIdle c a d) → recv_reserve i = Some i' → ring_inv (mkRing i' (PReserved f) c a d).
Proof.
  intros [Hb Hh Ht [He Hem] [Hf Hfm] Hr Ho Hrel Hk Hp Hc Hd] E. unfold recv_reserve in E.
  destruct (try_decrement (recv_empty i)) as [e|] eqn:Ee; [|done]. cbn in E. injection E as <-.
  apply try_decrement_Some in Ee as (H0 & H1 & H2).
  ring_simple.
Qed.

Lemma ring_inv_next f i' n :
  ring_inv (mkRing i (PReserved f) c a d) → recv_next i = (i', n) → ring_inv (mkRing i' (PSlot f n) c (a ++ [f]) d).
Proof.
  intros [Hb Hh Ht He Hf Hr Ho Hrel Hk Hp Hc Hd] E. unfold recv_next in E. injection E as <- <-.
  split; counters; try done; try lia.
  - rewrite Hh, mod4_next. f_equal. lia.
  - intros k g Hkk Hg. destruct (decide (Z.to_nat k < length a)%nat) as [Hl|Hl].
    + rewrite lookup_app_l in Hg by done. apply Hk; [lia|done].
    + apply lookup_lt_Some in Hg. rewrite length_app in Hg. cbn in Hg. lia.
  - intros g m [E|]; [injection E as <- <-|done]. split; [rewrite Hh; f_equal; lia|].
    rewrite lookup_app_r by lia. by replace (Z.to_nat _ - length a)%nat with 0%nat by lia.
  - rewrite take_app_le; [done|]. rewrite Hd. rewrite length_take. lia.
Qed.

Lemma ring_inv_copy f n i' :
  ring_inv (mkRing i (PSlot f n) c a d) → recv_copy i n f = Ret i' → ring_inv (mkRing i' (PFilled f n) c a d).
Proof.
  intros [Hb Hh Ht He Hf Hr Ho Hrel Hk Hp Hc Hd] E. destruct (Hp f n (or_introl eq_refl)) as [Hn Ha].
  destruct (recv_copy_spec _ _ _ _ Hb E) as (Hb' & _ & E1 & E2 & E3 & E4 & Hnew & Hold).
  split; counters; rewrite ?E1, ?E2, ?E3, ?E4; try done; try lia.
  - intros k g Hkk Hg. destruct (decide (k = Z.of_nat (length a) - 1)) as [->|Hne].
    + rewrite Ha in Hg. injection Hg as <-. by rewrite Hn in Hnew.
    + rewrite Hold; [apply Hk; [lia|done]|]. rewrite Hn. apply slots_differ. destruct c; lia.
  - by intros g m [?|[= -> ->]].
Qed.

Lemma ring_inv_signal f n i' :
  ring_inv (mkRing i (PFilled f n) c a d) → recv_signal i = Some i' → ring_inv (mkRing i' PIdle c a d).
Proof.
  intros [Hb Hh Ht He [Hf Hfm] Hr Ho Hrel Hk Hp Hc Hd] E. unfold recv_signal in E.
  destruct (try_increment (recv_full i)) as [s|] eqn:Es; [|done]. cbn in E. injection E as <-.
  apply try_increment_Some in Es as (H0 & H1 & H2).
  ring_simple.
Qed.

Lemma ring_inv_wait i' :
  ring_inv (mkRing i p CIdle a d) → handle_wait i = Some i' → ring_inv (mkRing i' p CTaken a d).
Proof.
  intros [Hb Hh Ht He [Hf Hfm] Hr Ho Hrel Hk Hp Hc Hd] E. unfold handle_wait in E.
  destruct (try_decrement (recv_full i)) as [s|] eqn:Es; [|done]. cbn in E. injection E as <-.
  apply try_decrement_Some in Es as (H0 & H1 & H2).
  ring_simple.
Qed.

Lemma ring_inv_handle_next i' n :
  ring_inv (mkRing i p CTaken a d) → handle_next i = (i', n) → ring_inv (mkRing i' p (CSlot n) a d).
Proof.
  intros [Hb Hh Ht He Hf Hr Ho Hrel Hk Hp Hc Hd] E. unfold handle_next in E. injection E as <- <-.
  split; counters; try done; try lia.
  - rewrite Ht, mod4_next. f_equal. lia.
  - intros m [[= <-]|]; [|done]. rewrite Ht. f_equal. lia.
Qed.

(** What the consumer reads is the next frame. *)
Lemma ring_read_next n f :
  ring_inv (mkRing i p (CSlot n) a d) → handle_read i n = Ret f → a !! length d = Some f.
Proof.
  intros [Hb Hh Ht He Hf Hr Ho Hrel Hk Hp Hc Hd] E. pose proof (Hc n (or_introl eq_refl)) as Hn. counters.
  assert (length d < length a)%nat as Hlt by (destruct p; lia).
  destruct (lookup_lt_is_Some_2 a (length d) Hlt) as [g Hg]. rewrite Hg. f_equal.
  destruct (Hk (Z.of_nat (length d)) g) as (b & Hbuf & Hh'); [destruct p; lia|by rewrite Nat2Z.id|].
  replace (Z.of_nat (length d)) with (Z.of_nat (length d) + 1 - 1) in Hbuf by lia. rewrite <- Hn in Hbuf.
  unfold handle_read in E. rewrite (bind_Ret _ _ b) in E by (by apply index_Ret_inv). unfold buf_holds in Hh'. congruence.
Qed.

Lemma ring_inv_read n f :
  ring_inv (mkRing i p (CSlot n) a d) → handle_read i n = Ret f →
  ring_inv (mkRing i p (CHandling n) a (d ++ [f])).
Proof.
  intros Hi E. pose proof (ring_read_next n f Hi E) as Hnext.
  destruct Hi as [Hb Hh Ht He Hf Hr Ho Hrel Hk Hp Hc Hd].
  ring_simple.
  - rewrite Ht. f_equal. lia.
  - intros m [?|[= <-]]; [done|]. rewrite (Hc n (or_introl eq_refl)). f_equal. lia.
  - rewrite Nat.add_1_r. rewrite (take_S_r _ _ _ Hnext). by rewrite <- Hd.
Qed.

Lemma ring_inv_handle_signal n i' :
  ring_inv (mkRing i p (CHandling n) a d) → handle_signal i = Some i' → ring_inv (mkRing i' p CIdle a d).
Proof.
  intros [Hb Hh Ht [He Hem] Hf Hr Ho Hrel Hk Hp Hc Hd] E. unfold handle_signal in E.
  destruct (try_increment (recv_empty i)) as [s|] eqn:Es; [|done]. cbn in E. injection E as <-.
  apply try_increment_Some in Es as (H0 & H1 & H2).
  ring_simple.
Qed.
End steps.

Lemma ring_inv_step r r' : ring_inv r → ring_step r r' → ring_inv r'.
Proof.
  intros Hi Hs. destruct r as [i p c a d].
  destruct Hs; cbn [iface prod cons_ accepted delivered] in *; subst;
    eauto using ring_inv_reserve, ring_inv_next, ring_inv_copy, ring_inv_signal, ring_inv_wait,
      ring_inv_handle_next, ring_inv_read, ring_inv_handle_signal.
Qed.

Lemma ring_inv_initial r : ring_initial r → ring_inv r.
Proof.
  intros ((u & Hu & E) & Hp & Hc & Ha & Hd). destruct r as [i p c a d].
  cbn [iface prod cons_ accepted delivered] in *. subst. unfold interface_new in E. cbn in E. injection E as <-.
  ring_simple.
  by repeat constructor.
Qed.

Lemma ring_inv_reachable r : ring_reachable r → ring_inv r.
Proof.
  intros (r0 & H0%ring_inv_initial & Hs). induction Hs as [|r1 r2 r3 H12 _ IH]; [done|].
  apply IH. by eapply ring_inv_step.
Qed.

(** C20. The receive ring is a first-in first-out queue of at most four frames, under every
    interleaving: the frames handed to the network task are the accepted frames, whole and
    in order; the driver and the network task never work on the same buffer; and neither
    ever waits for the other in [signal]. *)
Theorem ring_fifo r :
  ring_reachable r →
  delivered r `prefix_of` accepted r ∧
  Z.of_nat (length (accepted r)) - Z.of_nat (length (delivered r)) ≤ 4 ∧
  (∀ f n m, (prod r = PSlot f n ∨ prod r = PFilled f n) → (cons_ r = CSlot m ∨ cons_ r = CHandling m) → n ≠ m) ∧
  (∀ f n, prod r = PFilled f n → is_Some (recv_signal (iface r))) ∧
  (∀ n, cons_ r = CHandling n → is_Some (handle_signal (iface r))).
Proof.
  intros [Hb Hh Ht [He Hem] [Hf Hfm] Hr Ho Hrel Hk Hp Hc Hd]%ring_inv_reachable.
  split_and!.
  - rewrite Hd. apply prefix_take.
  - counters. destruct (prod r), (cons_ r); lia.
  - intros f n m Hpr Hco. rewrite (proj1 (Hp f n Hpr)), (Hc m Hco). intros E.
    assert (Z.to_nat ((n_taken r - 1) mod 4) ≠ Z.to_nat ((n_accepted r - 1) mod 4)) as Hne; [|by rewrite E in Hne].
    apply slots_differ. counters. destruct Hpr as [Hpr|Hpr], Hco as [Hco|Hco]; rewrite Hpr, Hco in *; lia.
  - intros f n Hpr. unfold recv_signal, try_increment. rewrite Hf, Hfm. rewrite decide_True; [by eexists|].
    counters. rewrite Hpr in *. destruct (cons_ r); lia.
  - intros n Hco. unfold handle_signal, try_increment. rewrite He, Hem. rewrite decide_True; [by eexists|].
    counters. rewrite Hco in *. destruct (prod r); lia.
Qed.

(** A frame longer than the receive buffer stops the kernel: [recv_frame] checks the
    number of free buffers but not the length. *)
Theorem recv_long_frame_panics i n f :
  bufs_ok (bufs i) → 0 ≤ n < 4 → (RX_BUF_LEN < length f)%nat → recv_copy i n f = Panic IndexOutOfBounds.
Proof.
  intros [Hlen Hall] Hn Hf. unfold recv_copy.
  destruct (lookup_lt_is_Some_2 (bufs i) (Z.to_nat n)) as [b Hb]; [lia|].
  rewrite (bind_Ret _ _ b) by (by apply index_Ret_inv).
  pose proof (Forall_lookup_1 _ _ _ _ Hall Hb) as Hbl. cbn in Hbl.
  unfold copy_into. by rewrite decide_False by lia.
Qed.

(** ** ARP *)

(** A frame that carries an ARP packet. *)
Definition arp_frame (dest src : MACAddress) (q : packet) (padding crc : list Z) : list Z :=
  dest ++ src ++ [0x08; 0x06] ++ (packet_bytes q ++ padding) ++ crc.

(** What the accessors find in it. *)
Lemma arp_frame_parse dest src q padding crc :
  length dest = 6%nat → length src = 6%nat → length crc = 4%nat → packet_ok q →
  (64 ≤ length (arp_frame dest src q padding crc) ≤ 1534)%nat →
  let f := mkFrame (arp_frame dest src q padding crc) in
  try_from_bytes (arp_frame dest src q padding crc) = Ok f ∧ frame_dest f = Ret dest ∧ frame_src f = Ret src ∧
  frame_ethertype f = Ret ARP ∧ frame_payload f = Ret (packet_bytes q ++ padding) ∧
  arp_target_protocol_address (arp_from_bytes (packet_bytes q ++ padding)) = Ret (p_tpa q).
Proof.
  intros Hd Hs Hcrc Hq Hlen f. unfold try_from_bytes. rewrite decide_False by lia.
  destruct (parse_frame dest src [] [0x08; 0x06] (packet_bytes q ++ padding) crc) as (H1 & H2 & H3 & H4 & _);
    [done|done|done|done|constructor|done|]. cbn [tags_bytes concat fmap list_fmap app] in H1, H2, H3, H4.
  destruct (packet_addresses q padding Hq) as (_ & _ & _ & Htpa). by split_and!.
Qed.

(** ARP: a frame with an ARP packet is answered exactly when the packet asks for this
    host's address, whatever the operation it names; the answer goes to the address the frame
    was sent to, not to the sender. *)
Theorem arp_answered dest src q padding crc :
  length dest = 6%nat → length src = 6%nat → length crc = 4%nat → packet_ok q →
  (64 ≤ length (arp_frame dest src q padding crc) ≤ 1534)%nat →
  handle_bytes (arp_frame dest src q padding crc) =
    Ret (Ok (if decide (p_tpa q = ME) then Some (dest, packet_bytes q ++ padding) else None)).
Proof.
  intros Hd Hs Hcrc Hq Hlen. destruct (arp_frame_parse dest src q padding crc) as (E & H1 & H2 & H3 & H4 & Htpa); [done..|].
  unfold handle_bytes. rewrite E, (bind_Ret _ _ _ H2), (bind_Ret _ _ _ H1), !(bind_Ret _ _ _ H3). cbv iota beta.
  rewrite (bind_Ret _ _ _ H4), (bind_Ret _ _ _ Htpa).
  destruct (decide (p_tpa q = ME)); [|done]. by rewrite (bind_Ret _ _ _ H4), (bind_Ret _ _ _ H1).
Qed.

(** ** Witnesses *)

Definition ex_iface (e f : Z) : Interface :=
  mkInterface (replicate 4 (rx_buf_new (replicate RX_BUF_LEN 0))) (mkSemaphore e 4 [] []) (mkSemaphore f 4 [] []) 0 0.

(** One frame, all the way through. *)
Lemma ex_ring_reachable : ∃ r, ring_reachable r ∧ accepted r = [[1; 2]] ∧ delivered r = [[1; 2]].
Proof.
  assert (∃ u : list Z, length u = RX_BUF_LEN) as [u Hu] by (exists (replicate RX_BUF_LEN 0); apply length_replicate).
  set (i e f h t := mkInterface (replicate 4 (rx_buf_new u)) (mkSemaphore e 4 [] []) (mkSemaphore f 4 [] []) h t).
  set (j f t := mkInterface (<[0%nat := mkRxBuf ([1; 2] ++ drop 2 u) 2]> (replicate 4 (rx_buf_new u)))
                  (mkSemaphore 3 4 [] []) (mkSemaphore f 4 [] []) 1 t).
  exists (mkRing (j 0 1) PIdle (CHandling 0) [[1; 2]] [[1; 2]]). split; [|done].
  exists (mkRing (i 4 0 0 0) PIdle CIdle [] []). split; [split; [by exists u|done]|].
  assert (copy_into u 0 2 [1; 2] = Ret ([1; 2] ++ drop 2 u)) as E1.
  { apply (copy_into_next [] u [1; 2] 2); [done|]. rewrite Hu. unfold RX_BUF_LEN. cbn. lia. }
  assert (slice ([1; 2] ++ drop 2 u) 0 2 = Ret [1; 2]) as E2 by (by apply slice_prefix).
  eapply rtc_l; [apply (r_reserve _ [1; 2] (i 3 0 0 0)); reflexivity|].
  eapply rtc_l; [apply (r_next _ [1; 2] (i 3 0 1 0) 0); reflexivity|].
  eapply rtc_l; [apply (r_copy _ [1; 2] 0 (j 0 0)); [reflexivity|]|].
  { unfold recv_copy. erewrite bind_Ret by reflexivity. by rewrite (bind_Ret _ _ _ E1). }
  eapply rtc_l; [apply (r_signal _ [1; 2] 0 (j 1 0)); reflexivity|].
  eapply rtc_l; [apply (c_wait _ (j 0 0)); reflexivity|].
  eapply rtc_l; [apply (c_next _ (j 0 1) 0); reflexivity|].
  eapply rtc_l; [apply (c_read _ 0 [1; 2]); [reflexivity|exact E2]|]. apply rtc_refl.
Qed.

Lemma ring_fifo_witness : ∃ r, delivered r = [[1; 2]] ∧ delivered r `prefix_of` accepted r.
Proof.
  destruct ex_ring_reachable as (r & Hr & _ & Hd). exists r. split; [exact Hd|]. apply (ring_fifo r Hr).
Defined.

Lemma recv_long_frame_panics_witness : recv_copy (ex_iface 4 0) 0 (replicate 1527 7) = Panic IndexOutOfBounds.
Proof.
  apply recv_long_frame_panics; [|lia|rewrite length_replicate; unfold RX_BUF_LEN; lia].
  split; [reflexivity|]. apply Forall_replicate. apply length_replicate.
Defined.

Lemma arp_answered_witness :
  handle_bytes (arp_frame [255; 255; 255; 255; 255; 255] [1; 2; 3; 4; 5; 6] ex_request (replicate 18 0) [0; 0; 0; 0]) =
    Ret (Ok (Some ([255; 255; 255; 255; 255; 255], packet_bytes ex_request ++ replicate 18 0))).
Proof.
  apply (arp_answered [255; 255; 255; 255; 255; 255] [1; 2; 3; 4; 5; 6] ex_request (replicate 18 0) [0; 0; 0; 0]);
    [reflexivity|reflexivity|reflexivity|exact ex_request_ok|cbn; lia].
Defined.
