(* ===== verification/Pci.v ===== *)
(** * The PCI bus (src/drivers/pci.rs)

    The driver in the [io] monad of [Io].  [config_machine] is the configuration access
    mechanism of the PCI specification: a write to port [0xcf8] selects a register of a
    function, port [0xcfc] reads and writes it.  On it the theorems compare
    [enumerate_pci_bus] with the functions that are present. *)

From S2P Require Import Prelude Io.

Definition REG_CAP_PTR : Z := 0x34.
Definition MSI_VECTOR : Z := 0x26.
Definition CONFIG_ADDRESS : Z := 0xcf8.
Definition CONFIG_DATA : Z := 0xcfc.

Inductive BarNumber := BAR0 | BAR1 | BAR2 | BAR3 | BAR4 | BAR5.

Definition bar_usize (b : BarNumber) : Z :=
  match b with BAR0 => 0 | BAR1 => 1 | BAR2 => 2 | BAR3 => 3 | BAR4 => 4 | BAR5 => 5 end.

Record BDF := mkBDF { bus_number : Z; device_number : Z; function_number : Z }.

#[global] Instance bdf_eq_dec : EqDecision BDF.
Proof. solve_decision. Defined.

Record PCIDevice := mkPCIDevice {
  bdf : BDF;
  device_id : Z;
  vendor_id : Z;
  subsystem_id : Z;
  subsystem_vendor_id : Z;
  interrupt_pin : Z;
  interrupt_line : Z;
  msi_capability_pointer : option Z;
}.

(** [<<] on a [u32]. *)
Definition shl32 (a n : Z) : Z := Z.shiftl a n mod 2 ^ 32.

(** The address of a register, without its offset. *)
Definition cfg_base (b : BDF) : Z :=
  Z.lor (Z.lor (Z.lor 0x80000000 (shl32 (bus_number b) 16)) (shl32 (device_number b) 11))
    (shl32 (Z.land (function_number b) 0x7) 8).

Section driver.
Context {W : Type} `{Hardware W}.

Definition pci_outl (d : PCIDevice) (offset data : Z) : io W () :=
  let cfg_addr := Z.lor (cfg_base (bdf d)) offset in
  _ ← outl CONFIG_ADDRESS cfg_addr;
  outl CONFIG_DATA data.

Definition pci_inl (d : PCIDevice) (offset : Z) : io W Z :=
  let cfg_addr := Z.lor (cfg_base (bdf d)) (Z.land offset 0xFC) in
  _ ← outl CONFIG_ADDRESS cfg_addr;
  inl CONFIG_DATA.

Definition read_control_register (d : PCIDevice) : io W Z :=
  r ← pci_inl d 0x4; mret (Z.land r 0x0000FFFF).

Definition write_control_register (d : PCIDevice) (control : Z) : io W () := pci_outl d 0x4 control.

Definition read_status_register (d : PCIDevice) : io W Z :=
  r ← pci_inl d 0x4; mret (Z.shiftr (Z.land r 0xffff0000) 16).

Definition read_header_type (d : PCIDevice) : io W Z :=
  r ← pci_inl d 0xC; mret (Z.shiftr (Z.land r 0x00FF0000) 16).

Definition read_bar_register (d : PCIDevice) (bar : BarNumber) : io W Z :=
  header_type ← read_header_type d;
  if decide (Z.land header_type 0x7f = 0) then pci_inl d (0x10 + bar_usize bar * 4) else mret 0.

Definition write_bar_register (d : PCIDevice) (bar : BarNumber) (data : Z) : io W () :=
  pci_outl d (0x10 + bar_usize bar * 4) data.

(** The walk of the capability list: nothing in the source bounds it. *)
Fixpoint find_msi (fuel : nat) (d : PCIDevice) (lapic_id ptr : Z) : io W PCIDevice :=
  match fuel with
  | O => pure (Panic OutOfFuel)
  | S fuel =>
      if decide (ptr = 0) then mret d else
      v ← pci_inl d ptr;
      let n_ptr := Z.shiftr (Z.land v 0xff00) 8 in
      let cap_id := Z.land v 0xff in
      if decide (cap_id ≠ 0x05) then find_msi fuel d lapic_id n_ptr else
      let d := mkPCIDevice (bdf d) (device_id d) (vendor_id d) (subsystem_id d) (subsystem_vendor_id d)
                 (interrupt_pin d) (interrupt_line d) (Some ptr) in
      _ ← pci_outl d ptr 0x1;
      let dest_id := shl32 lapic_id 12 in
      let addr := Z.lor (Z.lor 0xfee00000 dest_id) 0 in
      _ ← pci_outl d (ptr + 0x4) addr;
      _ ← pci_outl d (ptr + 0x8) MSI_VECTOR;
      mret d
  end.

Definition visit_configuration_space (fuel : nat) (n_bus n_device n_function lapic_id : Z) :
    io W (option PCIDevice) :=
  let cfg_addr := Z.lor (Z.lor (Z.lor 0x80000000 (shl32 n_bus 16)) (shl32 n_device 11)) (shl32 n_function 8) in
  _ ← outl CONFIG_ADDRESS cfg_addr;
  cfg_data ← inl CONFIG_DATA;
  if decide (Z.land cfg_data 0xffff = 0xffff) then mret None else
  let vendor := Z.land cfg_data 0xffff in
  let device := Z.shiftr (Z.land cfg_data 0xffff0000) 16 in
  let d := mkPCIDevice (mkBDF n_bus n_device n_function) device vendor 0 0 0 0 None in
  sv ← pci_inl d 0x2c;
  s ← pci_inl d 0x2e;
  l ← pci_inl d 0x3c;
  p ← pci_inl d 0x3c;
  let d := mkPCIDevice (bdf d) device vendor (Z.shiftr (Z.land s 0xffff0000) 16) (Z.land sv 0xffff)
             (Z.shiftr (Z.land p 0xff00) 8) (Z.land l 0xff) None in
  status ← read_status_register d;
  d ← (if decide (Z.land status 0x10 ≠ 0) then find_msi fuel d lapic_id REG_CAP_PTR else mret d);
  mret (Some d).

(** [visit] a function and push what is found. *)
Definition push_found (devices : list PCIDevice) (o : option PCIDevice) : list PCIDevice :=
  match o with Some d => devices ++ [d] | None => devices end.

Definition enumerate_device (fuel : nat) (lapic_id n_bus : Z) (devices : list PCIDevice) (n_device : Z) :
    io W (list PCIDevice) :=
  o ← visit_configuration_space fuel n_bus n_device 0 lapic_id;
  match o with
  | None => mret devices
  | Some device =>
      t ← read_header_type device;
      devices ← (if decide (Z.land t 0x80 = 0x80) then
                   io_fold (λ devices n_function,
                     o ← visit_configuration_space fuel n_bus n_device n_function lapic_id;
                     mret (push_found devices o)) (seqZ 0 8) devices
                 else mret devices);
      mret (devices ++ [device])
  end.

Definition enumerate_pci_bus (fuel : nat) (lapic_id : Z) (devices : list PCIDevice) : io W (list PCIDevice) :=
  io_fold (λ devices n_bus, io_fold (enumerate_device fuel lapic_id n_bus) (seqZ 0 32) devices) (seqZ 0 256) devices.
End driver.

(** [get_device] takes the matching devices out of the list. *)
Definition pci_matches (vendor device : Z) (d : PCIDevice) : bool :=
  bool_decide (device_id d = device ∧ vendor_id d = vendor).

Definition get_device (devices : list PCIDevice) (vendor device : Z) : list PCIDevice * list PCIDevice :=
  (filter (λ d, negb (pci_matches vendor device d) = true) devices,
   filter (λ d, pci_matches vendor device d = true) devices).

(** ** Addresses *)

(** Or-ing numbers with disjoint bits is adding them. *)
Lemma lor_add_disjoint a b k : 0 ≤ k → (2 ^ k | a) → 0 ≤ b < 2 ^ k → Z.lor a b = a + b.
Proof.
  intros Hk [q ->] Hb. rewrite <- (Z.mod_small b (2 ^ k)) by done. by apply lor_low.
Qed.

Definition bdf_ok (b : BDF) : Prop := 0 ≤ bus_number b < 256 ∧ 0 ≤ device_number b < 32 ∧ 0 ≤ function_number b < 8.

Lemma shl32_small a n m : 0 ≤ n → m = 2 ^ n → 0 ≤ a * m < 0x100000000 → shl32 a n = a * m.
Proof. intros Hn -> Hlt. unfold shl32. rewrite Z.shiftl_mul_pow2 by done. by apply Z.mod_small. Qed.

Lemma function_mask f : 0 ≤ f < 8 → Z.land f 0x7 = f.
Proof. intros Hf. change 0x7 with (Z.ones 3). rewrite Z.land_ones by lia. by apply Z.mod_small. Qed.

Lemma cfg_base_eq b :
  bdf_ok b → cfg_base b = 0x80000000 + bus_number b * 0x10000 + device_number b * 0x800 + function_number b * 0x100.
Proof.
  intros (Hb & Hd & Hf). unfold cfg_base. rewrite function_mask by done.
  rewrite (shl32_small _ 16 0x10000), (shl32_small _ 11 0x800), (shl32_small _ 8 0x100) by (done || lia).
  rewrite (lor_add_disjoint 0x80000000 _ 31) by (done || lia || by exists 1).
  rewrite (lor_add_disjoint _ (device_number b * 0x800) 16).
  - rewrite (lor_add_disjoint _ (function_number b * 0x100) 11); [lia|lia| |lia].
    exists (0x100000 + bus_number b * 32 + device_number b). change (2 ^ 11) with 0x800. lia.
  - lia.
  - exists (0x8000 + bus_number b). change (2 ^ 16) with 0x10000. lia.
  - lia.
Qed.

(** Different functions and registers have different addresses. *)
Lemma cfg_addr_inj b b' o o' :
  bdf_ok b → bdf_ok b' → 0 ≤ o < 256 → 0 ≤ o' < 256 →
  Z.lor (cfg_base b) o = Z.lor (cfg_base b') o' → b = b' ∧ o = o'.
Proof.
  intros Hb Hb' Ho Ho' E. rewrite !cfg_base_eq in E by done.
  destruct b as [b d f], b' as [b' d' f'], Hb as (H1 & H2 & H3), Hb' as (H1' & H2' & H3'). cbn in *.
  assert (∀ x y z, (2 ^ 8 | 0x80000000 + x * 0x10000 + y * 0x800 + z * 0x100)) as Hdiv.
  { intros x y z. exists (0x800000 + x * 256 + y * 8 + z). change (2 ^ 8) with 0x100. lia. }
  rewrite !(lor_add_disjoint _ _ 8) in E by (done || apply Hdiv || lia).
  split; [|lia]. f_equal; lia.
Qed.

(** ** The configuration mechanism *)

Record config_machine := mkConfig { cfg_selected : Z; cfg_regs : Z → Z }.

#[global] Instance config_hardware : Hardware config_machine := {
  hw_in width port m :=
    (if decide (width = 4 ∧ port = CONFIG_DATA) then cfg_regs m (cfg_selected m) else 0, m);
  hw_out width port data m :=
    if decide (width = 4 ∧ port = CONFIG_ADDRESS) then mkConfig data (cfg_regs m)
    else if decide (width = 4 ∧ port = CONFIG_DATA)
    then mkConfig (cfg_selected m) (λ a, if decide (a = cfg_selected m) then data else cfg_regs m a)
    else m;
  hw_read _ _ m := (0, m);
  hw_write _ _ _ m := m;
}.

(** A register of a function. *)
Definition reg (regs : Z → Z) (b : BDF) (offset : Z) : Z := regs (Z.lor (cfg_base b) offset).

(** Reading does not change the registers. *)
Lemma pci_inl_config d offset m :
  ∃ m', pci_inl d offset m = Ret (reg (cfg_regs m) (bdf d) (Z.land offset 0xFC), m') ∧ cfg_regs m' = cfg_regs m.
Proof. eexists. split; [reflexivity|done]. Qed.

(** What [visit_configuration_space] reports of a function without capabilities. *)
Definition describe (regs : Z → Z) (b : BDF) : option PCIDevice :=
  let cfg_data := reg regs b 0 in
  if decide (Z.land cfg_data 0xffff = 0xffff) then None else
  Some (mkPCIDevice b (Z.shiftr (Z.land cfg_data 0xffff0000) 16) (Z.land cfg_data 0xffff)
    (Z.shiftr (Z.land (reg regs b 0x2c) 0xffff0000) 16) (Z.land (reg regs b 0x2c) 0xffff)
    (Z.shiftr (Z.land (reg regs b 0x3c) 0xff00) 8) (Z.land (reg regs b 0x3c) 0xff) None).

Definition status (regs : Z → Z) (b : BDF) : Z := Z.shiftr (Z.land (reg regs b 0x4) 0xffff0000) 16.
Definition has_capabilities (regs : Z → Z) (b : BDF) : Prop := Z.land (status regs b) 0x10 ≠ 0.
Definition multifunction (regs : Z → Z) (b : BDF) : Prop :=
  Z.land (Z.shiftr (Z.land (reg regs b 0xC) 0x00FF0000) 16) 0x80 = 0x80.

#[global] Instance has_capabilities_dec regs b : Decision (has_capabilities regs b).
Proof. unfold has_capabilities. apply _. Defined.
#[global] Instance multifunction_dec regs b : Decision (multifunction regs b).
Proof. unfold multifunction. apply _. Defined.

(** The part of [visit] up to the capabilities. *)
Lemma visit_config fuel b lapic_id m :
  bdf_ok b →
  ∃ m', cfg_regs m' = cfg_regs m ∧
    visit_configuration_space fuel (bus_number b) (device_number b) (function_number b) lapic_id m =
    match describe (cfg_regs m) b with
    | None => Ret (None, m')
    | Some d =>
        (d ← (if decide (has_capabilities (cfg_regs m) b) then find_msi fuel d lapic_id REG_CAP_PTR else mret d);
         mret (Some d)) m'
    end.
Proof.
  intros (Hb & Hd & Hf). destruct b as [nb nd nf]. cbn [bus_number device_number function_number] in *.
  assert (Z.lor (Z.lor (Z.lor 0x80000000 (shl32 nb 16)) (shl32 nd 11)) (shl32 nf 8) = Z.lor (cfg_base (mkBDF nb nd nf)) 0) as Ha.
  { rewrite Z.lor_0_r. unfold cfg_base. cbn [bus_number device_number function_number]. by rewrite function_mask. }
  unfold visit_configuration_space. rewrite Ha. unfold describe, reg.
  unfold mbind, io_bind. cbn [outl inl hw_out hw_in config_hardware cfg_selected cfg_regs].
  rewrite (decide_True (P := 4 = 4 ∧ CONFIG_ADDRESS = CONFIG_ADDRESS)) by done. cbn [cfg_selected cfg_regs].
  rewrite (decide_True (P := 4 = 4 ∧ CONFIG_DATA = CONFIG_DATA)) by done.
  destruct (decide (Z.land (cfg_regs m _) 0xffff = 0xffff)); eexists; (split; [|reflexivity]); reflexivity.
Qed.

(** Functions found on one device number: every function of a multi-function device, and
    function 0 (again). *)
Definition scan_device (regs : Z → Z) (n_bus n_device : Z) : list PCIDevice :=
  match describe regs (mkBDF n_bus n_device 0) with
  | None => []
  | Some d =>
      (if decide (multifunction regs (mkBDF n_bus n_device 0))
       then omap (λ f, describe regs (mkBDF n_bus n_device f)) (seqZ 0 8) else []) ++ [d]
  end.

Definition scan (regs : Z → Z) : list PCIDevice :=
  flat_map (λ n_bus, flat_map (scan_device regs n_bus) (seqZ 0 32)) (seqZ 0 256).

Section enumeration.
Context (regs : Z → Z) (Hno : ∀ b, bdf_ok b → ¬ has_capabilities regs b).

Lemma visit_scan fuel b lapic_id m :
  bdf_ok b → cfg_regs m = regs →
  ∃ m', visit_configuration_space fuel (bus_number b) (device_number b) (function_number b) lapic_id m =
          Ret (describe regs b, m') ∧ cfg_regs m' = regs.
Proof.
  intros Hb Hm. destruct (visit_config fuel b lapic_id m Hb) as (m' & Hm' & ->). rewrite Hm in *.
  exists m'. split; [|done]. destruct (describe regs b); [|done]. by rewrite decide_False by auto.
Qed.

Lemma describe_bdf b d : describe regs b = Some d → bdf d = b.
Proof. unfold describe. destruct (decide _); [done|]. by intros [= <-]. Qed.

Lemma enumerate_device_scan fuel lapic_id n_bus n_device devices m :
  0 ≤ n_bus < 256 → 0 ≤ n_device < 32 → cfg_regs m = regs →
  ∃ m', enumerate_device fuel lapic_id n_bus devices n_device m =
          Ret (devices ++ scan_device regs n_bus n_device, m') ∧ cfg_regs m' = regs.
Proof.
  intros Hb Hd Hm. unfold enumerate_device, scan_device.
  destruct (visit_scan fuel (mkBDF n_bus n_device 0) lapic_id m) as (m1 & E1 & Hm1); [split_and!; cbn; lia|done|].
  cbn [bus_number device_number function_number] in E1. rewrite (io_bind_Ret _ _ _ _ _ E1).
  destruct (describe regs (mkBDF n_bus n_device 0)) as [d|] eqn:Hdd; [|exists m1; by rewrite app_nil_r].
  apply describe_bdf in Hdd.
  destruct (pci_inl_config d 0xC m1) as (m2 & E2 & Hm2). rewrite Hm1, Hdd in *.
  unfold read_header_type. unfold mbind at 1, io_bind at 1. rewrite (io_bind_Ret _ _ _ _ _ E2). cbn [mret io_ret].
  change (Z.land 0xC 0xFC) with 0xC.
  destruct (decide (multifunction regs (mkBDF n_bus n_device 0))) as [Hmf|Hmf].
  - rewrite (decide_True (P := Z.land _ 0x80 = 0x80)) by exact Hmf.
    destruct (io_fold_inv (λ devices n_function,
        o ← visit_configuration_space fuel n_bus n_device n_function lapic_id; mret (push_found devices o))
      (λ done ds w, ds = devices ++ omap (λ f, describe regs (mkBDF n_bus n_device f)) done ∧ cfg_regs w = regs)
      (seqZ 0 8) devices m2) as (ds & m3 & E3 & -> & Hm3).
    + split; [by rewrite app_nil_r|done].
    + intros done f rest ds w Hl [-> Hw].
      assert (f ∈ seqZ 0 8) as Hf%elem_of_seqZ by (rewrite Hl; set_solver).
      destruct (visit_scan fuel (mkBDF n_bus n_device f) lapic_id w) as (w' & E & Hw'); [split_and!; cbn; lia|done|].
      cbn [bus_number device_number function_number] in E. rewrite (io_bind_Ret _ _ _ _ _ E).
      eexists _, w'. split; [reflexivity|]. split; [|done]. rewrite omap_app. cbn.
      destruct (describe regs (mkBDF n_bus n_device f)); cbn; [by rewrite app_assoc|by rewrite app_nil_r].
    + rewrite (io_bind_Ret _ _ _ _ _ E3). exists m3. by rewrite <- app_assoc.
  - rewrite (decide_False (P := Z.land _ 0x80 = 0x80)) by exact Hmf. by exists m2.
Qed.

Lemma enumerate_scan fuel lapic_id m :
  cfg_regs m = regs →
  ∃ m', enumerate_pci_bus fuel lapic_id [] m = Ret (scan regs, m') ∧ cfg_regs m' = regs.
Proof.
  intros Hm. unfold enumerate_pci_bus, scan.
  destruct (io_fold_inv (λ devices n_bus, io_fold (enumerate_device fuel lapic_id n_bus) (seqZ 0 32) devices)
    (λ done ds w, ds = flat_map (λ n_bus, flat_map (scan_device regs n_bus) (seqZ 0 32)) done ∧ cfg_regs w = regs)
    (seqZ 0 256) [] m) as (ds & m' & E & -> & Hm'); [done| |by exists m'].
  intros done b rest ds w Hl [-> Hw].
  assert (b ∈ seqZ 0 256) as Hb%elem_of_seqZ by (rewrite Hl; set_solver).
  set (before := flat_map _ done).
  destruct (io_fold_inv (enumerate_device fuel lapic_id b)
    (λ dn ds w, ds = before ++ flat_map (scan_device regs b) dn ∧ cfg_regs w = regs)
    (seqZ 0 32) before w) as (ds & w' & E & -> & Hw').
  - split; [by rewrite app_nil_r|done].
  - intros dn d rst ds w1 Hl1 [-> Hw1].
    assert (d ∈ seqZ 0 32) as Hd%elem_of_seqZ by (rewrite Hl1; set_solver).
    destruct (enumerate_device_scan fuel lapic_id b d (before ++ flat_map (scan_device regs b) dn) w1)
      as (w2 & E2 & Hw2); [lia|lia|done|].
    eexists _, w2. split; [exact E2|]. split; [|done]. rewrite flat_map_app. cbn [flat_map].
    by rewrite app_nil_r, app_assoc.
  - eexists _, w'. split; [exact E|]. split; [|done]. unfold before. rewrite flat_map_app. cbn [flat_map].
    by rewrite app_nil_r.
Qed.
End enumeration.

(** C25. Enumeration on the configuration mechanism, when no function has capabilities: the
    scan returns, in order of bus and device, exactly the functions that are present, except
    that function 0 of a multi-function device is reported twice. *)
Theorem enumerate_reports regs fuel lapic_id sel :
  (∀ b, bdf_ok b → ¬ has_capabilities regs b) →
  (∃ m', enumerate_pci_bus fuel lapic_id [] (mkConfig sel regs) = Ret (scan regs, m')) ∧
  (∀ d, d ∈ scan regs → bdf_ok (bdf d) ∧ describe regs (bdf d) = Some d) ∧
  (∀ n_bus n_device d, 0 ≤ n_bus < 256 → 0 ≤ n_device < 32 →
    describe regs (mkBDF n_bus n_device 0) = Some d → multifunction regs (mkBDF n_bus n_device 0) →
    ∃ l1 l2 l3, scan regs = l1 ++ [d] ++ l2 ++ [d] ++ l3).
Proof.
  intros Hno. split_and!.
  - destruct (enumerate_scan regs Hno fuel lapic_id (mkConfig sel regs) eq_refl) as (m' & E & _). eauto.
  - intros d Hd. unfold scan in Hd. apply list_elem_of_In, in_flat_map in Hd as (b & Hb & Hd).
    apply in_flat_map in Hd as (n & Hn & Hd). apply list_elem_of_In, elem_of_seqZ in Hb. apply list_elem_of_In, elem_of_seqZ in Hn.
    apply list_elem_of_In in Hd. unfold scan_device in Hd.
    assert (∀ f, 0 ≤ f < 8 → describe regs (mkBDF b n f) = Some d → bdf_ok (bdf d) ∧ describe regs (bdf d) = Some d) as Hone.
    { intros f Hf Hdd. pose proof (describe_bdf _ _ _ Hdd) as E. rewrite E. split; [split_and!; cbn; lia|done]. }
    destruct (describe regs (mkBDF b n 0)) as [d0|] eqn:H0; [|by apply not_elem_of_nil in Hd].
    apply elem_of_app in Hd as [Hd| ->%list_elem_of_singleton]; [|by apply (Hone 0)].
    destruct (decide _); [|by apply not_elem_of_nil in Hd].
    apply list_elem_of_omap in Hd as (f & Hf%elem_of_seqZ & Hdd). apply (Hone f); [lia|done].
  - intros b n d Hb Hn Hd Hm.
    assert (∃ l1 l2 l3, scan_device regs b n = l1 ++ [d] ++ l2 ++ [d] ++ l3) as (l1 & l2 & l3 & E).
    { unfold scan_device. rewrite Hd, decide_True by done. change (seqZ 0 8) with (0 :: seqZ 1 7). cbn [omap list_omap].
      rewrite Hd. exists [], (omap (λ f, describe regs (mkBDF b n f)) (seqZ 1 7)), []. by rewrite app_nil_r. }
    unfold scan. assert (b ∈ seqZ 0 256) as Hbs by (apply elem_of_seqZ; lia).
    assert (n ∈ seqZ 0 32) as Hns by (apply elem_of_seqZ; lia).
    apply list_elem_of_split in Hbs as (s1 & s2 & ->). apply list_elem_of_split in Hns as (t1 & t2 & ->).
    rewrite flat_map_app. cbn [flat_map]. rewrite flat_map_app. cbn [flat_map]. rewrite E.
    generalize (flat_map (λ n_bus, flat_map (scan_device regs n_bus) (t1 ++ n :: t2)) s1),
      (flat_map (λ n_bus, flat_map (scan_device regs n_bus) (t1 ++ n :: t2)) s2),
      (flat_map (scan_device regs b) t1), (flat_map (scan_device regs b) t2). intros A D B C.
    exists (A ++ B ++ l1), l2, (l3 ++ C ++ D). by rewrite <- !app_assoc.
Qed.

(** Message-signalled interrupts are never configured: the walk of the capability list
    takes the register that holds the list's address for its first entry, so that for every
    capability pointer other than 5 it ends there and no capability is found, whatever the
    list holds. *)
Theorem msi_never_found fuel b lapic_id m :
  bdf_ok b → 0 ≤ reg (cfg_regs m) b REG_CAP_PTR < 256 → reg (cfg_regs m) b REG_CAP_PTR ≠ 5 →
  ∃ m', visit_configuration_space (S (S fuel)) (bus_number b) (device_number b) (function_number b) lapic_id m =
    Ret (describe (cfg_regs m) b, m').
Proof.
  intros Hb Hp H5. destruct (visit_config (S (S fuel)) b lapic_id m Hb) as (m1 & Hm1 & ->).
  destruct (describe (cfg_regs m) b) as [d|] eqn:Hd; [|eauto].
  destruct (decide (has_capabilities (cfg_regs m) b)); [|by exists m1].
  cbn [find_msi]. rewrite (decide_False (P := REG_CAP_PTR = 0)) by done.
  destruct (pci_inl_config d REG_CAP_PTR m1) as (m2 & E2 & Hm2). rewrite Hm1, (describe_bdf _ _ _ Hd) in E2.
  change (Z.land REG_CAP_PTR 0xFC) with REG_CAP_PTR in E2.
  set (v := reg (cfg_regs m) b REG_CAP_PTR) in *.
  assert (Z.land v 0xff = v) as Hv.
  { change 0xff with (Z.ones 8). rewrite Z.land_ones by lia. by apply Z.mod_small. }
  assert (Z.shiftr (Z.land v 0xff00) 8 = 0) as Hn.
  { rewrite <- Hv, <- Z.land_assoc. change (Z.land 0xff 0xff00) with 0. by rewrite Z.land_0_r. }
  exists m2. unfold mbind at 1, io_bind at 1. rewrite (io_bind_Ret _ _ _ _ _ E2).
  rewrite Hv, (decide_True (P := v ≠ 5)), Hn by done. by rewrite decide_True by done.
Qed.

(** ** Witnesses: a bus with one multi-function device that has only function 0 *)

Definition ex_pci_regs (a : Z) : Z :=
  if decide (a = 0x80000000) then 0x00018086 else if decide (a = 0x8000000c) then 0x00800000 else 0xffff.
Definition ex_pci_device : PCIDevice := mkPCIDevice (mkBDF 0 0 0) 1 0x8086 0 0xffff 0xff 0xff None.

Lemma enumerate_reports_witness : ∃ l1 l2 l3, scan ex_pci_regs = l1 ++ [ex_pci_device] ++ l2 ++ [ex_pci_device] ++ l3.
Proof.
  destruct (enumerate_reports ex_pci_regs 0 0 0) as (_ & _ & H).
  - intros b _. unfold has_capabilities, status, reg, ex_pci_regs.
    destruct (decide _); [|destruct (decide _)]; intros E; apply E; reflexivity.
  - apply (H 0 0 ex_pci_device); [lia|lia|reflexivity|reflexivity].
Defined.

(** A device whose capability list starts at [0x40]. *)
Definition ex_cap_regs (a : Z) : Z :=
  if decide (a = 0x80000000) then 0x00018086 else if decide (a = 0x80000004) then 0x00100000
  else if decide (a = 0x80000034) then 0x40 else if decide (a = 0x80000040) then 0x5 else 0.

Lemma msi_never_found_witness : ∃ m',
  visit_configuration_space 2 0 0 0 0 (mkConfig 0 ex_cap_regs) = Ret (describe ex_cap_regs (mkBDF 0 0 0), m').
Proof.
  apply (msi_never_found 0 (mkBDF 0 0 0) 0 (mkConfig 0 ex_cap_regs));
    [split_and!; cbn; lia|vm_compute; split; discriminate || reflexivity|vm_compute; discriminate].
Defined.
