(* ===== verification/Interrupt.v ===== *)
(** * Interrupts, segments and system calls
      (src/arch/x86_64/interrupt.rs, pm.rs, syscall.rs)

    The gate descriptors of the interrupt descriptor table, the segment descriptors of the
    global one, the I/O APIC and local APIC registers, the table of device handlers and the
    decoding of system calls.  The addresses of the assembly routines are arguments.
    [ioapic_machine] is the I/O APIC of its data sheet: one register selects, another
    accesses the selected register. *)

From S2P Require Import Prelude Io Pci.

(** ** Descriptors *)

(** The descriptor that [init] builds for each handler; [u128] shifts do not overflow. *)
Definition idt_descriptor (handler : Z) : Z :=
  let descriptor := 0 in
  let descriptor := Z.lor descriptor (Z.land handler 0xffff) in
  let descriptor := Z.lor descriptor (Z.shiftl (Z.land handler 0xffffffffffff0000) 32) in
  let descriptor := Z.lor descriptor (Z.shiftl 0x8 16) in
  let descriptor := Z.lor descriptor (Z.shiftl 0xe 40) in
  Z.lor descriptor (Z.shiftl 8 44).

(** The addresses of the routines of isr.s. *)
Record isrs := mkIsrs {
  page_fault_isr : Z;
  general_protection_fault_isr : Z;
  com0_isr : Z;
  hpet_isr : Z;
  syscall_isr : Z;
  device_isr_entries : Z;
}.

(** [&device_isr_entries[i]]: entries are seven bytes long. *)
Definition device_isr (s : isrs) (i : Z) : Z := device_isr_entries s + 7 * i.

Definition idt_set (idt : list Z) (vector handler : Z) : outcome (list Z) :=
  index_set idt (Z.to_nat vector) (idt_descriptor handler).

Definition idt_init (s : isrs) (idt : list Z) : outcome (list Z) :=
  idt ← idt_set idt 0xe (page_fault_isr s);
  idt ← idt_set idt 0xd (general_protection_fault_isr s);
  idt ← idt_set idt 0x24 (com0_isr s);
  idt ← idt_set idt 0x20 (hpet_isr s);
  idt ← idt_set idt 0x80 (syscall_isr s);
  idt_set idt 0x26 (device_isr s 0x26).

(** The processor's view of a gate descriptor. *)
Definition gate_offset (d : Z) : Z := d mod 2 ^ 16 + (d / 2 ^ 48 mod 2 ^ 48) * 2 ^ 16.
Definition gate_selector (d : Z) : Z := d / 2 ^ 16 mod 2 ^ 16.
Definition gate_ist (d : Z) : Z := d / 2 ^ 32 mod 2 ^ 8.
Definition gate_type (d : Z) : Z := d / 2 ^ 40 mod 2 ^ 4.
Definition gate_dpl (d : Z) : Z := d / 2 ^ 44 mod 2 ^ 3 / 2 ^ 1.
Definition gate_present (d : Z) : Z := d / 2 ^ 47 mod 2.

(** [From<SegmentDescriptor> for u64] (pm.rs); the limit is not encoded. *)
Record SegmentDescriptor := mkSegment { seg_base : Z; seg_limit : Z; seg_ty : Z }.

Definition shl64 (a n : Z) : Z := Z.shiftl a n mod 2 ^ 64.

Definition segment_u64 (s : SegmentDescriptor) : Z :=
  let encoded := 0 in
  let encoded := Z.lor encoded (shl64 (Z.land (seg_base s) 0xffffff) 16) in
  let encoded := Z.lor encoded (shl64 (Z.land (seg_base s) 0xff000000) 32) in
  Z.lor encoded (shl64 (seg_ty s) 40).

(** The table [pm::init] loads, over what the allocation held; the limit covers five entries. *)
Definition gdt_init (uninit : list Z) : outcome (list Z * Z) :=
  gdt ← index_set uninit 0 0;
  gdt ← index_set gdt 1 (segment_u64 (mkSegment 0 0 0xaf9a));
  gdt ← index_set gdt 2 (segment_u64 (mkSegment 0 0 0xcf92));
  Ret (gdt, 39).

(** ** System calls (syscall.rs) *)

Inductive SYSCALL := SchedYield | Nanosleep.

Definition syscall_number (s : SYSCALL) : Z := match s with SchedYield => 0x18 | Nanosleep => 0x23 end.

Definition syscall_try_from (value : Z) : Result SYSCALL Z :=
  if decide (value = syscall_number SchedYield) then Ok SchedYield
  else if decide (value = syscall_number Nanosleep) then Ok Nanosleep
  else Err value.

(** [interrupts_enabled], from the flags register. *)
Definition interrupts_enabled (rflags : Z) : bool := bool_decide (Z.land (Z.shiftr rflags 9) 1 ≠ 0).

(** The table of device handlers: addresses of functions. *)
Definition register_handler (handlers : list Z) (vector handler : Z) : outcome (list Z) :=
  index_set handlers (Z.to_nat vector) handler.

Definition device_handler (handlers : list Z) (vector : Z) : outcome Z := index handlers (Z.to_nat vector).

(** ** The APICs *)

Section apic.
Context {W : Type} `{Hardware W}.

Definition ioapic_write (base_addr index value : Z) : io W () :=
  _ ← write_volatile 4 base_addr index;
  write_volatile 4 (base_addr + 0x10) value.

Definition ioapic_read (base_addr index : Z) : io W Z :=
  _ ← write_volatile 4 base_addr index;
  read_volatile 4 (base_addr + 0x10).

Definition ioapic_remap (base_addr lapic_id int_signal vector : Z) : io W () :=
  let low := 0x10 + int_signal * 2 in
  let high := 0x10 + int_signal * 2 + 1 in
  _ ← ioapic_write base_addr low vector;
  ioapic_write base_addr high (Z.land (shl32 lapic_id 24) 0x0f000000).

(** [remap_all]; enabling interrupts at its end is not part of the device's state. *)
Definition ioapic_remap_all (base_addr lapic_id : Z) : io W () :=
  _ ← ioapic_remap base_addr 0 1 0x21;
  _ ← ioapic_remap base_addr lapic_id 4 0x24;
  _ ← ioapic_remap base_addr lapic_id 2 0x10020;
  _ ← ioapic_write base_addr 0x28 0x100FF;
  _ ← ioapic_write base_addr 0x29 (Z.land (shl32 lapic_id 24) 0x0f000000);
  _ ← ioapic_remap base_addr lapic_id 12 0x100ff;
  ioapic_write base_addr 0xf0 (Z.shiftl 0x1 8 + 0xff).

Definition ioapic_mask_line (base_addr : Z) (mask : bool) (line : Z) : io W () :=
  let idx := line * 2 + 0x10 in
  redtlb_low ← ioapic_read base_addr idx;
  let redtlb_low := if mask then Z.lor redtlb_low 0x10000 else Z.land redtlb_low 0xfffeffff in
  ioapic_write base_addr idx redtlb_low.

(** The local APIC: registers are in memory, the identifier is in the high byte of the one at
    [0x20]. *)
Definition lapic_read (base_addr index : Z) : io W Z := read_volatile 4 (base_addr + index).
Definition lapic_write (base_addr index value : Z) : io W () := write_volatile 4 (base_addr + index) value.
Definition lapic_id (base_addr : Z) : io W Z := lapic_read base_addr 0x20.
Definition end_of_interrupt (base_addr : Z) : io W () := lapic_write base_addr 0xb0 0.

(** [mask_pic]: both legacy controllers. *)
Definition mask_pic : io W () := _ ← outb 0xa1 0xff; outb 0x21 0xff.
End apic.

(** ** Theorems: descriptors *)

Lemma idt_descriptor_eq h :
  0 ≤ h < 2 ^ 64 → idt_descriptor h = h / 2 ^ 16 * 2 ^ 48 + (0x8e0000080000 + h mod 2 ^ 16).
Proof.
  intros Hh. unfold idt_descriptor.
  assert (Z.land h 0xffff = h mod 2 ^ 16) as -> by (change 0xffff with (Z.ones 16); by rewrite Z.land_ones).
  assert (Z.shiftl (Z.land h 0xffffffffffff0000) 32 = h / 2 ^ 16 * 2 ^ 48) as ->.
  { change 0xffffffffffff0000 with (bnot 64 (Z.ones 16)). rewrite land_bnot by lia.
    rewrite Z.ldiff_ones_r by lia. rewrite !Z.shiftl_mul_pow2, Z.shiftr_div_pow2 by lia.
    change (2 ^ 48) with (2 ^ 16 * 2 ^ 32). lia. }
  assert (0 ≤ h mod 2 ^ 16 < 2 ^ 16) as Hlo by (by apply Z.mod_pos_bound).
  set (lo := h mod 2 ^ 16) in *. set (hi := h / 2 ^ 16 * 2 ^ 48).
  replace (Z.lor (Z.lor (Z.lor (Z.lor (Z.lor 0 lo) hi) (Z.shiftl 8 16)) (Z.shiftl 14 40)) (Z.shiftl 8 44))
    with (Z.lor hi (Z.lor 0x8e0000080000 lo)).
  - rewrite (lor_add_disjoint 0x8e0000080000 lo 16) by (done || by exists 0x8e000008).
    apply (lor_add_disjoint _ _ 48); [lia|by exists (h / 2 ^ 16)|].
    change (2 ^ 16) with 0x10000 in Hlo. change (2 ^ 48) with 0x1000000000000. lia.
  - change 0x8e0000080000 with (Z.lor (Z.lor (Z.shiftl 8 16) (Z.shiftl 14 40)) (Z.shiftl 8 44)).
    apply Z.bits_inj'. intros i _. autorewrite with bits. btauto.
Qed.

(** The gate of every handler, as the processor reads it: it points at the handler, in
    the kernel's code segment, and is a present interrupt gate of privilege 0 on the current
    stack. *)
Theorem idt_gate h :
  0 ≤ h < 2 ^ 64 →
  let d := idt_descriptor h in
  gate_offset d = h ∧ gate_selector d = 8 ∧ gate_type d = 14 ∧ gate_present d = 1 ∧
  gate_ist d = 0 ∧ gate_dpl d = 0 ∧ 0 ≤ d < 2 ^ 128.
Proof.
  intros Hh d. unfold d. rewrite idt_descriptor_eq by done.
  set (lo := h mod 2 ^ 16). set (hi := h / 2 ^ 16).
  assert (0 ≤ lo < 65536) as Hlo by (by apply (Z.mod_pos_bound h (2 ^ 16))).
  assert (0 ≤ hi < 281474976710656) as Hhi.
  { unfold hi. split; [apply Z.div_pos; lia|]. apply Z.div_lt_upper_bound; [lia|]. apply Hh. }
  assert (h = lo + hi * 65536) as Eh by (pose proof (Z.div_mod h (2 ^ 16)); unfold lo, hi; lia).
  unfold gate_offset, gate_selector, gate_type, gate_present, gate_ist, gate_dpl.
  change (2 ^ 1) with 2. change (2 ^ 3) with 8. change (2 ^ 4) with 16. change (2 ^ 8) with 256.
  change (2 ^ 16) with 65536. change (2 ^ 32) with 4294967296. change (2 ^ 40) with 1099511627776.
  change (2 ^ 44) with 17592186044416. change (2 ^ 47) with 140737488355328. change (2 ^ 48) with 281474976710656.
  change (2 ^ 128) with 340282366920938463463374607431768211456.
  split_and!; Z.to_euclidean_division_equations; lia.
Qed.

(** The table after [init]: six vectors, each with the gate of its handler. *)
Definition idt_handler (s : isrs) (v : nat) : option Z :=
  if decide (v = 0xe)%nat then Some (page_fault_isr s)
  else if decide (v = 0xd)%nat then Some (general_protection_fault_isr s)
  else if decide (v = 0x24)%nat then Some (com0_isr s)
  else if decide (v = 0x20)%nat then Some (hpet_isr s)
  else if decide (v = 0x80)%nat then Some (syscall_isr s)
  else if decide (v = 0x26)%nat then Some (device_isr s 0x26)
  else None.

Lemma idt_set_Ret idt v h : (Z.to_nat v < length idt)%nat → idt_set idt v h = Ret (<[Z.to_nat v := idt_descriptor h]> idt).
Proof. intros Hv. unfold idt_set, index_set. by rewrite decide_True. Qed.

(** [init] fills the vectors of the page fault, general protection fault, serial port,
    timer, system call and network card with the gates of their handlers, and leaves every
    other vector as it was. *)
Theorem idt_init_vectors s idt :
  length idt = 256%nat →
  ∃ idt', idt_init s idt = Ret idt' ∧ length idt' = 256%nat ∧
    ∀ v, (v < 256)%nat → idt' !! v =
      match idt_handler s v with Some h => Some (idt_descriptor h) | None => idt !! v end.
Proof.
  intros Hlen. unfold idt_init.
  repeat (rewrite idt_set_Ret by (rewrite ?length_insert, Hlen; lia); ret).
  eexists. split; [done|]. split; [by rewrite !length_insert|].
  intros v Hv. unfold idt_handler.
  repeat match goal with
  | |- _ = match (if decide (v = ?n) then _ else _) with _ => _ end =>
      destruct (decide (v = n)) as [->|?]
  end; rewrite ?list_lookup_insert_ne by lia; try done;
  apply list_lookup_insert_eq; rewrite ?length_insert, Hlen; lia.
Qed.

Lemma idt_init_vectors_witness : ∃ idt',
  idt_init (mkIsrs 1 2 3 4 5 600) (replicate 256 0) = Ret idt' ∧ idt' !! 0xe%nat = Some (idt_descriptor 1).
Proof.
  destruct (idt_init_vectors (mkIsrs 1 2 3 4 5 600) (replicate 256 0) (length_replicate _ _)) as (idt' & E & _ & H).
  exists idt'. split; [exact E|]. apply (H 0xe%nat). lia.
Defined.

Lemma idt_gate_witness : gate_offset (idt_descriptor 0xffff800000123456) = 0xffff800000123456.
Proof. apply idt_gate. split; [discriminate|reflexivity]. Defined.

(** System calls: numbers are recognised exactly. *)
Lemma syscall_try_from_spec v s : syscall_try_from v = Ok s ↔ v = syscall_number s.
Proof. unfold syscall_try_from. repeat case_decide; destruct s; cbn in *; naive_solver lia. Qed.

(** ** The I/O APIC *)

Record ioapic_machine := mkIoapic { ioregsel : Z; ioregs : Z → Z }.

Section ioapic.
Context (base : Z).

Definition ioapic_hardware : Hardware ioapic_machine := {|
  hw_in _ _ m := (0, m);
  hw_out _ _ _ m := m;
  hw_read _ a m := (if decide (a = base + 0x10) then ioregs m (ioregsel m) else 0, m);
  hw_write _ a data m :=
    if decide (a = base) then mkIoapic data (ioregs m)
    else if decide (a = base + 0x10)
    then mkIoapic (ioregsel m) (λ r, if decide (r = ioregsel m) then data else ioregs m r)
    else m;
|}.
#[local] Existing Instance ioapic_hardware.

(** A register write, on the registers. *)
Definition set_reg (regs : Z → Z) (r v : Z) : Z → Z := λ r', if decide (r' = r) then v else regs r'.

Lemma ioapic_write_spec r v m :
  ioapic_write base r v m = Ret (tt, mkIoapic r (set_reg (ioregs m) r v)).
Proof.
  unfold ioapic_write, write_volatile. unfold mbind, io_bind. cbn [hw_write ioapic_hardware].
  rewrite (decide_True (P := base = base)) by done. cbn [hw_write ioapic_hardware ioregsel ioregs].
  rewrite (decide_False (P := base + 0x10 = base)) by lia.
  by rewrite (decide_True (P := base + 0x10 = base + 0x10)).
Qed.

Lemma ioapic_read_spec r m : ioapic_read base r m = Ret (ioregs m r, mkIoapic r (ioregs m)).
Proof.
  unfold ioapic_read, write_volatile, read_volatile. unfold mbind, io_bind. cbn [hw_write hw_read ioapic_hardware].
  rewrite (decide_True (P := base = base)) by done. by rewrite (decide_True (P := base + 0x10 = base + 0x10)).
Qed.

(** The redirection entry of a line. *)
Definition redirection (regs : Z → Z) (line : Z) : Z * Z := (regs (0x10 + line * 2), regs (0x10 + line * 2 + 1)).

(** Masking a line sets or clears bit 16 of its redirection entry and nothing else, of
    this or any other register. *)
Theorem ioapic_mask_line_spec mask line m :
  fits 32 (ioregs m (line * 2 + 0x10)) →
  ∃ m', ioapic_mask_line base mask line m = Ret (tt, m') ∧
    (∀ i, 0 ≤ i → Z.testbit (ioregs m' (line * 2 + 0x10)) i =
       if decide (i = 16) then mask else Z.testbit (ioregs m (line * 2 + 0x10)) i) ∧
    (∀ r, r ≠ line * 2 + 0x10 → ioregs m' r = ioregs m r).
Proof.
  intros Hfit. unfold ioapic_mask_line. rewrite (io_bind_Ret _ _ _ _ _ (ioapic_read_spec _ _)).
  rewrite ioapic_write_spec. eexists. split; [done|]. cbn [ioregs]. unfold set_reg. split.
  - intros i Hi. rewrite decide_True by done. set (v := ioregs m _) in *.
    assert (32 ≤ i → Z.testbit v i = false) as Hhigh.
    { intros. rewrite <- (Z.mod_small v (2 ^ 32)) by exact Hfit. apply Z.mod_pow2_bits_high. lia. }
    destruct mask.
    + change 0x10000 with (2 ^ 16). rewrite Z.lor_spec, Z.pow2_bits_eqb by lia.
      destruct (decide (i = 16)) as [->|]; [by rewrite Z.eqb_refl, orb_true_r|].
      rewrite (proj2 (Z.eqb_neq 16 i)) by lia. apply orb_false_r.
    + change 0xfffeffff with (bnot 32 (2 ^ 16)). rewrite land_bnot by (done || lia).
      rewrite Z.ldiff_spec, Z.pow2_bits_eqb by lia.
      destruct (decide (i = 16)) as [->|]; [by rewrite Z.eqb_refl, andb_false_r|].
      rewrite (proj2 (Z.eqb_neq 16 i)) by lia. by rewrite andb_true_r.
  - intros r Hr. by rewrite decide_False.
Qed.

(** The local APIC's identifier is in the high byte of what [id] returns, so the shift in
    [remap] drops it. *)
Lemma lapic_destination id : 0 ≤ id < 256 → Z.land (shl32 (id * 2 ^ 24) 24) 0x0f000000 = 0.
Proof.
  intros Hid. unfold shl32. rewrite Z.shiftl_mul_pow2 by lia.
  replace (id * 2 ^ 24 * 2 ^ 24) with (id * 2 ^ 16 * 2 ^ 32) by (cbn; lia).
  by rewrite Z_mod_mult.
Qed.

(** The interrupt lines after [remap_all]: keyboard and serial port enabled, timer and
    mouse masked, each with its vector; but on every processor the destination is the one
    with identifier 0, because the register that holds the identifier in its high byte is
    shifted again, and the spurious-interrupt setting goes to a register of the I/O APIC
    instead of the local one. *)
Theorem ioapic_remap_all_spec id m :
  0 ≤ id < 256 →
  ∃ m', ioapic_remap_all base (id * 2 ^ 24) m = Ret (tt, m') ∧
    redirection (ioregs m') 1 = (0x21, 0) ∧ redirection (ioregs m') 4 = (0x24, 0) ∧
    redirection (ioregs m') 2 = (0x10020, 0) ∧ redirection (ioregs m') 12 = (0x100ff, 0) ∧
    ioregs m' 0xf0 = 0x1ff ∧
    (∀ r, r ∉ [0x12; 0x13; 0x18; 0x19; 0x14; 0x15; 0x28; 0x29; 0xf0] → ioregs m' r = ioregs m r).
Proof.
  intros Hid. pose proof (lapic_destination id Hid) as Hdest.
  assert (Z.land (shl32 0 24) 0x0f000000 = 0) as H0 by reflexivity.
  unfold ioapic_remap_all, ioapic_remap. rewrite Hdest, H0. unfold mbind, io_bind.
  repeat (rewrite ioapic_write_spec; cbn [ioregs]). eexists. split; [done|]. cbn [ioregs].
  split_and!; try reflexivity. intros r Hr. unfold set_reg.
  repeat (rewrite decide_False; [|intros ->; apply Hr; set_solver]). done.
Qed.
End ioapic.

Lemma ioapic_mask_line_spec_witness : ∃ m',
  ioapic_mask_line (W:=ioapic_machine) (H:=ioapic_hardware 0xfec00000) 0xfec00000 false 2
    (mkIoapic 0 (λ _, 0x10020)) = Ret (tt, m') ∧ Z.testbit (ioregs m' 0x14) 16 = false.
Proof.
  destruct (ioapic_mask_line_spec 0xfec00000 false 2 (mkIoapic 0 (λ _, 0x10020))) as (m' & E & Hb & _).
  - split; [discriminate|reflexivity].
  - exists m'. split; [exact E|]. apply (Hb 16). lia.
Defined.

Lemma ioapic_remap_all_spec_witness : ∃ m',
  ioapic_remap_all (W:=ioapic_machine) (H:=ioapic_hardware 0xfec00000) 0xfec00000 (3 * 2 ^ 24)
    (mkIoapic 0 (λ _, 0)) = Ret (tt, m') ∧ redirection (ioregs m') 4 = (0x24, 0).
Proof.
  destruct (ioapic_remap_all_spec 0xfec00000 3 (mkIoapic 0 (λ _, 0))) as (m' & E & _ & H4 & _); [lia|].
  exists m'. split; [exact E|exact H4].
Defined.
