(* ===== verification/Memory.v ===== *)
(** * Memory as bytes

    Byte-addressed memory for the parts that read tables and write images through raw
    pointers (ACPI, the ELF loader, the boot data), and the check of UTF-8.  [Z → Z] maps an
    address to the byte there. *)

From S2P Require Import Prelude.

(** ** Reading memory *)

Definition mem_bytes (mem : Z → Z) (a : Z) (n : nat) : list Z := mem <$> seqZ a (Z.of_nat n).
Definition read_le (mem : Z → Z) (n : nat) (a : Z) : Z := from_le_bytes (mem_bytes mem a n).

(** [core::str::from_utf8]: the well-formed byte sequences of the Unicode standard. *)
Definition byte_in (lo hi b : Z) : bool := (lo <=? b) && (b <=? hi).
Definition cont (b : Z) : bool := byte_in 0x80 0xbf b.

Fixpoint utf8_valid (l : list Z) : bool :=
  match l with
  | [] => true
  | a :: t =>
      if a <? 0x80 then utf8_valid t
      else if byte_in 0xc2 0xdf a then
        match t with b :: t => cont b && utf8_valid t | _ => false end
      else if byte_in 0xe0 0xef a then
        match t with
        | b :: c :: t =>
            (if a =? 0xe0 then byte_in 0xa0 0xbf b else if a =? 0xed then byte_in 0x80 0x9f b else cont b)
            && cont c && utf8_valid t
        | _ => false
        end
      else if byte_in 0xf0 0xf4 a then
        match t with
        | b :: c :: d :: t =>
            (if a =? 0xf0 then byte_in 0x90 0xbf b else if a =? 0xf4 then byte_in 0x80 0x8f b else cont b)
            && cont c && cont d && utf8_valid t
        | _ => false
        end
      else false
  end.

(** The bytes at [a] are [l]. *)
Definition holds (mem : Z → Z) (a : Z) (l : list Z) : Prop := mem_bytes mem a (length l) = l.

Lemma holds_iff mem a l : holds mem a l ↔ ∀ i b, l !! i = Some b → mem (a + Z.of_nat i) = b.
Proof.
  unfold holds, mem_bytes. split.
  - intros E i b Hb. rewrite <- E in Hb. apply list_lookup_fmap_Some in Hb as (x & -> & [-> _]%lookup_seqZ). done.
  - intros H. apply list_eq. intros i. rewrite list_lookup_fmap. destruct (l !! i) as [b|] eqn:Hb.
    + pose proof (lookup_lt_Some _ _ _ Hb). rewrite lookup_seqZ_lt by lia. cbn. by rewrite (H i b).
    + rewrite lookup_seqZ_ge; [done|]. apply lookup_ge_None in Hb. lia.
Qed.

Lemma mem_bytes_app mem a n m :
  mem_bytes mem a (n + m) = mem_bytes mem a n ++ mem_bytes mem (a + Z.of_nat n) m.
Proof. unfold mem_bytes. rewrite Nat2Z.inj_add, seqZ_app by lia. by rewrite fmap_app. Qed.

Lemma holds_app mem a l1 l2 :
  holds mem a (l1 ++ l2) ↔ holds mem a l1 ∧ holds mem (a + Z.of_nat (length l1)) l2.
Proof.
  unfold holds. rewrite length_app, mem_bytes_app. split.
  - intros E. apply app_inj_1 in E; [done|]. unfold mem_bytes. rewrite length_fmap, length_seqZ. lia.
  - by intros [-> ->].
Qed.

Lemma holds_cons mem a x l : holds mem a (x :: l) ↔ mem a = x ∧ holds mem (a + 1) l.
Proof.
  rewrite (holds_app mem a [x] l). unfold holds at 1. cbn. change (Z.of_nat 1) with 1. unfold mem_bytes. cbn.
  replace (Z.of_nat 0 + a) with a by lia. naive_solver.
Qed.

Lemma read_le_holds mem n a v : holds mem a (to_le_bytes n v) → 0 ≤ v < 256 ^ Z.of_nat n → read_le mem n a = v.
Proof.
  unfold holds, read_le. rewrite length_to_le_bytes. intros -> Hv. by apply from_to_le_bytes.
Qed.

(** Memory from a list of bytes at an address. *)
Definition mem_of (a : Z) (l : list Z) : Z → Z := λ x, if decide (a ≤ x) then nth (Z.to_nat (x - a)) l 0 else 0.

(** Writing bytes at an address. *)
Definition write_bytes (mem : Z → Z) (a : Z) (l : list Z) : Z → Z :=
  λ x, if decide (a ≤ x) then default (mem x) (l !! Z.to_nat (x - a)) else mem x.

Lemma write_bytes_inside mem a l x b :
  a ≤ x → l !! Z.to_nat (x - a) = Some b → write_bytes mem a l x = b.
Proof. intros Hx Hl. unfold write_bytes. rewrite decide_True by done. by rewrite Hl. Qed.

Lemma write_bytes_outside mem a l x :
  ¬ (a ≤ x < a + Z.of_nat (length l)) → write_bytes mem a l x = mem x.
Proof.
  intros Hx. unfold write_bytes. destruct (decide (a ≤ x)); [|done].
  by rewrite lookup_ge_None_2 by lia.
Qed.

Lemma holds_written mem a l : holds (write_bytes mem a l) a l.
Proof.
  unfold holds, mem_bytes. apply list_eq. intros i. rewrite list_lookup_fmap.
  destruct (decide (i < length l)%nat) as [Hi|Hi].
  - rewrite lookup_seqZ_lt by lia. cbn. destruct (lookup_lt_is_Some_2 l i Hi) as [b Hb]. rewrite Hb. f_equal.
    apply write_bytes_inside; [lia|]. by replace (Z.to_nat (a + Z.of_nat i - a)) with i by lia.
  - rewrite lookup_seqZ_ge by lia. cbn. by rewrite lookup_ge_None_2 by lia.
Qed.

Lemma holds_ext mem mem' a l :
  holds mem a l → (∀ x, a ≤ x < a + Z.of_nat (length l) → mem' x = mem x) → holds mem' a l.
Proof.
  unfold holds, mem_bytes. intros Hl Hx. rewrite <- Hl at 2. apply list_fmap_ext.
  intros i x [-> Hi]%lookup_seqZ. apply Hx. lia.
Qed.

(** ** Structures

    A [repr(C)] structure without padding is its fields in order; [ws] are their widths in
    bytes. *)

Fixpoint decode_fields (ws : list nat) (l : list Z) : list Z :=
  match ws with
  | [] => []
  | w :: ws => from_le_bytes (take w l) :: decode_fields ws (drop w l)
  end.

Fixpoint encode_fields (ws : list nat) (vs : list Z) : list Z :=
  match ws, vs with
  | w :: ws, v :: vs => to_le_bytes w v ++ encode_fields ws vs
  | _, _ => []
  end.

Definition fields_ok (ws : list nat) (vs : list Z) : Prop := Forall2 (λ w v, 0 ≤ v < 256 ^ Z.of_nat w) ws vs.

Lemma decode_encode ws vs rest : fields_ok ws vs → decode_fields ws (encode_fields ws vs ++ rest) = vs.
Proof.
  intros Hok. induction Hok as [|w v ws vs Hv _ IH]; [done|]. cbn [encode_fields decode_fields].
  rewrite <- app_assoc, take_app_length', drop_app_length' by (by rewrite length_to_le_bytes).
  by rewrite from_to_le_bytes, IH.
Qed.

Lemma length_encode ws vs : length ws = length vs → length (encode_fields ws vs) = sum_list ws.
Proof.
  revert vs. induction ws as [|w ws IH]; intros [|v vs] Hl; try done. cbn. rewrite length_app, length_to_le_bytes, IH; [done|].
  cbn in Hl. lia.
Qed.
