(* ===== verification/Acpi.v ===== *)
(** * ACPI tables (src/drivers/acpi.rs)

    The tables are bytes in memory, read through [mem]; the fields are at the offsets the
    [repr(C)] and [packed] structures give them, in the order they are declared.  The
    functions that map a device's registers do so on the page tables of [Mapping].  The loop
    over the interrupt controller structures adds lengths it reads from the table, and takes
    fuel: the theorems say how much is enough, and what happens on a length of zero. *)

From S2P Require Import Prelude Memory Table Mapping.

(** ASCII codes of the signatures. *)
Definition SIG_RSDP : list Z := [82; 83; 68; 32; 80; 84; 82; 32]. (* RSD PTR and a space *)
Definition SIG_XSDT : list Z := [88; 83; 68; 84].
Definition SIG_APIC : list Z := [65; 80; 73; 67].
Definition SIG_HPET : list Z := [72; 80; 69; 84].
Definition SIG_MCFG : list Z := [77; 67; 70; 71].

(** ** The tables *)

Record InterruptMapping := mkMapping { irq_number : Z; global_system_interrupt : Z }.

Record MADT := mkMADT {
  lapic_addr : Z;
  ioapic_addr : Z;
  global_system_interrupt_base : Z;
  interrupt_mappings : list InterruptMapping;
}.

Record AcpiHPET := mkAcpiHPET {
  hardware_rev_id : Z;
  comparator_count : Z;
  counter_size : Z;
  legacy_replacement_irq_routing_capable : bool;
  pci_vendor_id : Z;
  address_space_id : Z;
  register_bit_width : Z;
  register_bit_offset : Z;
  base_address : Z;
  hpet_number : Z;
  minimum_tick : Z;
  page_protection : Z;
}.

Record Allocation := mkAllocation {
  mc_base_address : Z;
  segment_group_number : Z;
  start_bus_number : Z;
  end_bus_number : Z;
}.

Abbreviation KernelMapper := (Mapper X86_64BareMetal).

Section tables.
Context (mem : Z → Z).

(** [_parse_xsdt]: where the entries are, and how many. *)
Definition _parse_xsdt (rsdp : Z) : outcome (Z * Z) :=
  _ ← assert_that (bool_decide (mem_bytes mem rsdp 8 = SIG_RSDP)) (AssertionFailed "RSDP signature");
  let xsdt := read_le mem 8 (rsdp + 24) in
  xsdt_addr ← checked_add 64 xsdt MMIO_BASE;
  _ ← assert_that (bool_decide (mem_bytes mem xsdt_addr 4 = SIG_XSDT)) (AssertionFailed "XSDT signature");
  n ← checked_sub (read_le mem 4 (xsdt_addr + 4)) 36;
  a ← checked_add 64 xsdt MMIO_BASE;
  a ← checked_add 64 a 36;
  Ret (a, n / 8).

(** The address and header of an entry: its signature and its length. *)
Definition xsdt_entry (entries e : Z) : outcome (Z * list Z * Z) :=
  entry_addr ← checked_add 64 (read_le mem 8 (entries + 8 * e)) MMIO_BASE;
  let signature := mem_bytes mem entry_addr 4 in
  _ ← assert_that (utf8_valid signature) (ExpectFailed "failed to parse signature");
  Ret (entry_addr, signature, read_le mem 4 (entry_addr + 4)).

(** One interrupt controller structure. *)
Definition madt_entry (m : MADT) (hd : Z) : outcome MADT :=
  let ty := mem hd in
  if decide (ty = 1) then
    a ← checked_add 64 (read_le mem 4 (hd + 4)) MMIO_BASE;
    Ret (mkMADT (lapic_addr m) a (read_le mem 4 (hd + 8)) (interrupt_mappings m))
  else if decide (ty = 2) then
    Ret (mkMADT (lapic_addr m) (ioapic_addr m) (global_system_interrupt_base m)
           (interrupt_mappings m ++ [mkMapping (mem (hd + 3)) (mem (hd + 4))]))
  else if decide (ty = 5) then
    a ← checked_add 64 (read_le mem 8 (hd + 4)) MMIO_BASE;
    Ret (mkMADT a (ioapic_addr m) (global_system_interrupt_base m) (interrupt_mappings m))
  else Ret m.

(** [while head < tail] *)
Fixpoint madt_loop (fuel : nat) (m : MADT) (hd tail : Z) : outcome MADT :=
  match fuel with
  | O => Panic OutOfFuel
  | S fuel =>
      if decide (hd < tail) then
        m ← madt_entry m hd;
        hd ← checked_add 64 hd (mem (hd + 1));
        madt_loop fuel m hd tail
      else Ret m
  end.

Definition _parse_madt (fuel : nat) (mapper : KernelMapper) (madt_addr length : Z) : outcome (KernelMapper * MADT) :=
  hd ← checked_add 64 madt_addr 44;
  tail ← checked_add 64 madt_addr length;
  l ← checked_add 64 (read_le mem 4 (madt_addr + 36)) MMIO_BASE;
  m ← madt_loop fuel (mkMADT l 0 0 []) hd tail;
  a ← checked_sub (ioapic_addr m) MMIO_BASE;
  mapper ← map_mmio mapper a;
  a ← checked_sub (lapic_addr m) MMIO_BASE;
  mapper ← map_mmio mapper a;
  Ret (mapper, m).

(** [parse_madt]: the last table with the signature counts; none gives the initial value. *)
Definition parse_madt (fuel : nat) (mapper : KernelMapper) (rsdp : Z) : outcome (KernelMapper * Result MADT string) :=
  '(entries, len) ← _parse_xsdt rsdp;
  '(mapper, m) ← mfold (λ '(mapper, m) e,
      '(entry_addr, signature, length) ← xsdt_entry entries e;
      if decide (signature = SIG_APIC) then _parse_madt fuel mapper entry_addr length else Ret (mapper, m))
    (seqZ 0 len) (mapper, mkMADT 0 0 0 []);
  Ret (mapper, Ok m).

Definition _parse_hpet (mapper : KernelMapper) (hpet_addr : Z) : outcome (KernelMapper * AcpiHPET) :=
  let id := read_le mem 4 (hpet_addr + 36) in
  b ← checked_add 64 (read_le mem 8 (hpet_addr + 44)) MMIO_BASE;
  let h := mkAcpiHPET (Z.land id 0xff) (Z.land (Z.shiftr id 8) 0xf) (Z.land (Z.shiftr id 13) 0x1)
    (bool_decide (Z.land (Z.shiftr id 15) 0x1 ≠ 0)) (Z.land (Z.shiftr id 16) 0xffff)
    (mem (hpet_addr + 40)) (mem (hpet_addr + 41)) (mem (hpet_addr + 42)) b (mem (hpet_addr + 52))
    (read_le mem 2 (hpet_addr + 53)) (mem (hpet_addr + 55)) in
  a ← checked_sub (base_address h) MMIO_BASE;
  mapper ← map_mmio mapper a;
  Ret (mapper, h).

(** The loops of [parse_hpet] and [parse_mcfg] return at the first match. *)
Fixpoint find_table (entries : Z) (sig : list Z) (es : list Z) : outcome (option (Z * Z)) :=
  match es with
  | [] => Ret None
  | e :: es =>
      '(entry_addr, signature, length) ← xsdt_entry entries e;
      if decide (signature = sig) then Ret (Some (entry_addr, length)) else find_table entries sig es
  end.

Definition parse_hpet (mapper : KernelMapper) (rsdp : Z) : outcome (KernelMapper * Result AcpiHPET string) :=
  '(entries, len) ← _parse_xsdt rsdp;
  o ← find_table entries SIG_HPET (seqZ 0 len);
  match o with
  | Some (a, _) => '(mapper, h) ← _parse_hpet mapper a; Ret (mapper, Ok h)
  | None => Ret (mapper, Err "could not find HPET"%string)
  end.

Definition mcfg_entry (a : Z) : Allocation :=
  mkAllocation (read_le mem 8 a) (read_le mem 2 (a + 8)) (mem (a + 10)) (mem (a + 11)).

Fixpoint mcfg_loop (fuel : nat) (cs : list Allocation) (offset tail : Z) : outcome (list Allocation) :=
  match fuel with
  | O => Panic OutOfFuel
  | S fuel =>
      if decide (offset < tail) then
        let cs := cs ++ [mcfg_entry offset] in
        offset ← checked_add 64 offset 16;
        mcfg_loop fuel cs offset tail
      else Ret cs
  end.

(** Sixteen bytes at a time: [length] rounds are more than enough. *)
Definition _parse_mcfg (mcfg_addr length : Z) : outcome (list Allocation) :=
  offset ← checked_add 64 mcfg_addr 44;
  tail ← checked_add 64 mcfg_addr length;
  mcfg_loop (S (Z.to_nat length)) [] offset tail.

Definition parse_mcfg (rsdp : Z) : outcome (Result (list Allocation) string) :=
  '(entries, len) ← _parse_xsdt rsdp;
  o ← find_table entries SIG_MCFG (seqZ 0 len);
  match o with
  | Some (a, length) => cs ← _parse_mcfg a length; Ret (Ok cs)
  | None => Ret (Err "could not find MCFG"%string)
  end.
End tables.

(** ** Tables as lists of entries *)

(** An interrupt controller structure: one the code knows, or any other of at least two
    bytes. *)
Inductive madt_struct :=
| IoApic (id reserved addr gsi_base : Z)
| SourceOverride (bus source gsi : Z) (rest : list Z)
| LapicOverride (reserved addr : Z)
| OtherStruct (ty : Z) (body : list Z).

Definition struct_ok (s : madt_struct) : Prop :=
  match s with
  | IoApic _ _ addr g => fits 32 addr ∧ fits 32 g
  | SourceOverride _ _ _ rest => length rest = 5%nat
  | LapicOverride _ addr => fits 64 addr ∧ addr + MMIO_BASE < 2 ^ 64
  | OtherStruct ty body => ty ≠ 1 ∧ ty ≠ 2 ∧ ty ≠ 5 ∧ (length body < 254)%nat
  end.

(** Their bytes, as the ACPI specification lays them out. *)
Definition struct_bytes (s : madt_struct) : list Z :=
  match s with
  | IoApic id reserved addr g => [1; 12; id; reserved] ++ to_le_bytes 4 addr ++ to_le_bytes 4 g
  | SourceOverride bus source gsi rest => [2; 10; bus; source; gsi] ++ rest
  | LapicOverride reserved addr => [5; 12] ++ to_le_bytes 2 reserved ++ to_le_bytes 8 addr
  | OtherStruct ty body => [ty; 2 + Z.of_nat (length body)] ++ body
  end.

(** What a structure means for the result. *)
Definition apply_struct (m : MADT) (s : madt_struct) : MADT :=
  match s with
  | IoApic _ _ addr g => mkMADT (lapic_addr m) (addr + MMIO_BASE) g (interrupt_mappings m)
  | SourceOverride _ source gsi _ =>
      mkMADT (lapic_addr m) (ioapic_addr m) (global_system_interrupt_base m) (interrupt_mappings m ++ [mkMapping source gsi])
  | LapicOverride _ addr => mkMADT (addr + MMIO_BASE) (ioapic_addr m) (global_system_interrupt_base m) (interrupt_mappings m)
  | OtherStruct _ _ => m
  end.

Lemma MMIO_BASE_room : MMIO_BASE + 2 ^ 32 < 2 ^ 64.
Proof. reflexivity. Qed.

Lemma madt_entry_holds mem m hd s :
  holds mem hd (struct_bytes s) → struct_ok s →
  madt_entry mem m hd = Ret (apply_struct m s) ∧ mem (hd + 1) = Z.of_nat (length (struct_bytes s)).
Proof.
  intros Hm Hs. pose proof MMIO_BASE_room. unfold madt_entry. destruct s as [id rs addr g|bus src gsi rest|rs addr|ty body];
    cbn [struct_bytes app] in *.
  - destruct Hs as [[Ha Ha'] [Hg Hg']]. rewrite !holds_cons in Hm. destruct Hm as (-> & H1 & _ & _ & Hr).
    apply holds_app in Hr as [Hr1 Hr2]. rewrite length_to_le_bytes in Hr2.
    replace (hd + 1 + 1 + 1 + 1) with (hd + 4) in * by lia. replace (hd + 4 + Z.of_nat 4) with (hd + 8) in Hr2 by lia.
    rewrite decide_True by done. rewrite (read_le_holds mem 4 (hd + 4) addr) by done.
    rewrite (bind_Ret _ _ (addr + MMIO_BASE)) by (apply checked_add_ok; lia).
    rewrite (read_le_holds mem 4 (hd + 8) g) by done. by rewrite H1.
  - cbn in Hs. rewrite !holds_cons in Hm. destruct Hm as (-> & H1 & _ & H3 & H4 & _).
    rewrite decide_False, decide_True by done.
    replace (hd + 1 + 1 + 1) with (hd + 3) in * by lia. replace (hd + 3 + 1) with (hd + 4) in * by lia.
    rewrite H3, H4, H1. cbn [length]. rewrite Hs. done.
  - destruct Hs as [[Ha Ha'] Hfit]. rewrite !holds_cons in Hm. destruct Hm as (-> & H1 & Hr).
    rewrite decide_False, decide_False, decide_True by done.
    apply holds_app in Hr as [_ Hr]. rewrite length_to_le_bytes in Hr.
    replace (hd + 1 + 1 + Z.of_nat 2) with (hd + 4) in Hr by lia.
    rewrite (read_le_holds mem 8 (hd + 4) addr) by done.
    rewrite (bind_Ret _ _ (addr + MMIO_BASE)) by (by apply checked_add_ok). by rewrite H1.
  - destruct Hs as (N1 & N2 & N5 & _). rewrite !holds_cons in Hm. destruct Hm as (-> & H1 & _).
    rewrite decide_False, decide_False, decide_False by done. split; [done|]. rewrite H1. cbn [length]. lia.
Qed.

(** Every structure is at least two bytes long, so the number of bytes is enough fuel. *)
Lemma madt_loop_holds mem ss : ∀ fuel m hd,
  holds mem hd (concat (struct_bytes <$> ss)) → Forall struct_ok ss →
  0 ≤ hd → hd + Z.of_nat (length (concat (struct_bytes <$> ss))) < 2 ^ 64 → (length ss < fuel)%nat →
  madt_loop mem fuel m hd (hd + Z.of_nat (length (concat (struct_bytes <$> ss)))) = Ret (foldl apply_struct m ss).
Proof.
  induction ss as [|s ss IH]; intros fuel m hd Hm Hs H0 Hfit Hfuel; (destruct fuel as [|fuel]; [lia|]).
  - cbn [madt_loop fmap list_fmap concat length] in *. by rewrite decide_False by lia.
  - apply Forall_cons in Hs as [Hs1 Hs]. cbn [fmap list_fmap concat foldl] in *.
    rewrite length_app in *. apply holds_app in Hm as [Hm1 Hm].
    destruct (madt_entry_holds mem m hd s Hm1 Hs1) as [E1 E2].
    assert (2 ≤ length (struct_bytes s))%nat by (destruct s; cbn; lia).
    cbn [madt_loop]. rewrite decide_True by lia. rewrite (bind_Ret _ _ _ E1), E2.
    rewrite (bind_Ret _ _ (hd + Z.of_nat (length (struct_bytes s)))) by (apply checked_add_ok; lia).
    replace (hd + Z.of_nat (length (struct_bytes s) + length (concat (struct_bytes <$> ss))))
      with (hd + Z.of_nat (length (struct_bytes s)) + Z.of_nat (length (concat (struct_bytes <$> ss)))) by lia.
    apply IH; [done|done|lia|lia|cbn [length] in Hfuel; lia].
Qed.

(** C26. Parsing the interrupt controller structures of a table gives their meaning: every
    interrupt source override in order, and the last I/O APIC and local APIC address; as many
    rounds as there are structures are enough. *)
Theorem madt_parse mem ss lapic hd fuel :
  Forall struct_ok ss → holds mem hd (concat (struct_bytes <$> ss)) →
  0 ≤ hd → hd + Z.of_nat (length (concat (struct_bytes <$> ss))) < 2 ^ 64 → (length ss < fuel)%nat →
  ∃ m, madt_loop mem fuel (mkMADT lapic 0 0 []) hd (hd + Z.of_nat (length (concat (struct_bytes <$> ss)))) = Ret m ∧
    interrupt_mappings m = omap (λ s, match s with SourceOverride _ src gsi _ => Some (mkMapping src gsi) | _ => None end) ss ∧
    ioapic_addr m = default 0 (last (omap (λ s, match s with IoApic _ _ a _ => Some (a + MMIO_BASE) | _ => None end) ss)) ∧
    lapic_addr m = default lapic (last (omap (λ s, match s with LapicOverride _ a => Some (a + MMIO_BASE) | _ => None end) ss)).
Proof.
  intros Hs Hm H0 Hfit Hfuel. exists (foldl apply_struct (mkMADT lapic 0 0 []) ss).
  split; [by apply madt_loop_holds|]. clear. induction ss as [|s ss IH] using rev_ind; [done|].
  rewrite foldl_app, !omap_app. cbn [foldl]. destruct IH as (H1 & H2 & H3).
  destruct s; cbn [omap list_omap apply_struct interrupt_mappings ioapic_addr lapic_addr];
    rewrite ?app_nil_r, ?last_snoc, ?H1, ?H2, ?H3; done.
Qed.

(** A structure with length zero stops the kernel for ever: no amount of rounds ends the
    loop. *)
Theorem madt_zero_length_hangs mem m hd tail fuel :
  hd < tail → 0 ≤ hd < 2 ^ 64 → mem (hd + 1) = 0 → mem hd ∉ [1; 2; 5] → madt_loop mem fuel m hd tail = Panic OutOfFuel.
Proof.
  intros Hlt Hhd H1 Hty. induction fuel as [|fuel IH]; [done|]. cbn [madt_loop]. rewrite decide_True by done.
  unfold madt_entry. rewrite decide_False, decide_False, decide_False by set_solver. cbn [mbind outcome_bind].
  rewrite H1, (bind_Ret _ _ (hd + 0)) by (apply checked_add_ok; lia). by rewrite Z.add_0_r.
Qed.

(** ** Witnesses *)

Definition ex_structs : list madt_struct :=
  [OtherStruct 0 [0; 0; 1; 0; 0; 0]; IoApic 1 0 0xfec00000 0; SourceOverride 0 0 2 [0; 0; 0; 0; 0]].

Lemma madt_parse_witness : ∃ m,
  madt_loop (mem_of 0x1000 (concat (struct_bytes <$> ex_structs))) 4 (mkMADT 0xfee00000 0 0 []) 0x1000 (0x1000 + 30) = Ret m ∧
  interrupt_mappings m = [mkMapping 0 2] ∧ ioapic_addr m = 0xfec00000 + MMIO_BASE.
Proof.
  destruct (madt_parse (mem_of 0x1000 (concat (struct_bytes <$> ex_structs))) ex_structs 0xfee00000 0x1000 4)
    as (m & E & H1 & H2 & _).
  - repeat constructor; cbn; try lia; discriminate.
  - vm_compute. reflexivity.
  - lia.
  - reflexivity.
  - cbn. lia.
  - exists m. split; [exact E|]. split; [exact H1|exact H2].
Defined.

Lemma madt_zero_length_hangs_witness : madt_loop (λ _, 0) 1000 (mkMADT 0 0 0 []) 0x1000 0x1100 = Panic OutOfFuel.
Proof. apply madt_zero_length_hangs; [lia|split; [lia|reflexivity]|reflexivity|]. set_solver. Defined.
