(* ===== verification/Hpet.v ===== *)
(** * The HPET and the passage of time (src/arch/x86_64/hpet.rs)

    The driver in the [io] monad, and [time_system]: the HPET's record of the last tick with
    the clock of [Clock], whose two operations are the timer interrupt ([hpet_tick]) and the
    reading of the time ([get_tick] of the clock source), each given the value of the main
    counter it reads. *)

From S2P Require Import Prelude Io Acpi Interrupt Clock.

Definition REG_GENERAL_CAPABILITY : Z := 0x0.
Definition REG_GENERAL_CONFIGURATION : Z := 0x10.
Definition REG_MAIN_COUNTER : Z := 0xf0.
Definition REG_TIMER_N_CONFIG_CAPABILITY : Z := 0x100.

(** [tick] is the function of the clock, once it is registered. *)
Record HPET := mkHPET {
  h_base_address : Z;
  h_comparator_count : Z;
  h_counter_size : Z;
  h_legacy : bool;
  counter_clock_period : Z;
  last_tick_count_timer_0 : Z;
  tick_registered : bool;
}.

Section driver.
Context {W : Type} `{Hardware W}.
Implicit Types self : HPET.

Definition hpet_inw self (offset : Z) : io W Z :=
  addr ← pure (checked_add 64 (h_base_address self) offset); read_volatile 4 addr.
Definition hpet_ing self (offset : Z) : io W Z :=
  addr ← pure (checked_add 64 (h_base_address self) offset); read_volatile 8 addr.
Definition hpet_outw self (offset value : Z) : io W () :=
  addr ← pure (checked_add 64 (h_base_address self) offset); write_volatile 4 addr value.
Definition hpet_outg self (offset value : Z) : io W () :=
  addr ← pure (checked_add 64 (h_base_address self) offset); write_volatile 8 addr value.

Definition from_acpi (h : AcpiHPET) : io W HPET :=
  let hpet := mkHPET (base_address h) (comparator_count h) (counter_size h)
                (legacy_replacement_irq_routing_capable h) 0 0 false in
  capabilities ← hpet_inw hpet REG_GENERAL_CAPABILITY;
  _ ← pure (assert_that (h_comparator_count hpet =? Z.land (Z.shiftr capabilities 8) 0x1f)
              (AssertionFailed "comparator_count"));
  _ ← pure (assert_that (h_counter_size hpet =? Z.land (Z.shiftr capabilities 13) 0x1)
              (AssertionFailed "counter_size"));
  _ ← pure (assert_that (eqb (h_legacy hpet) (negb (Z.land (Z.shiftr capabilities 15) 0x1 =? 0)))
              (AssertionFailed "legacy_replacement_irq_routing_capable"));
  period_femto_seconds ← hpet_inw hpet (REG_GENERAL_CAPABILITY + 4);
  mret (mkHPET (h_base_address hpet) (h_comparator_count hpet) (h_counter_size hpet) (h_legacy hpet)
          (period_femto_seconds / 1000000) 0 false).

Definition hpet_enable self : io W () :=
  gen_cnf ← hpet_inw self REG_GENERAL_CONFIGURATION;
  hpet_outw self REG_GENERAL_CONFIGURATION (Z.lor gen_cnf 0x1).

Definition read_main_counter self : io W Z := hpet_ing self REG_MAIN_COUNTER.
Definition reset_main_counter self : io W () := hpet_outg self REG_MAIN_COUNTER 0.

Definition get_timer_config self (timer : Z) : io W Z :=
  if decide (h_comparator_count self = 0) then mret 0
  else hpet_inw self (REG_TIMER_N_CONFIG_CAPABILITY + timer * 0x20).

Definition set_timer_config self (timer config : Z) : io W () :=
  if decide (h_comparator_count self ≤ timer) then mret tt
  else hpet_outw self (REG_TIMER_N_CONFIG_CAPABILITY + timer * 0x20) config.

Definition timer_routing_capability self (timer : Z) : io W Z :=
  if decide (h_comparator_count self ≤ timer) then mret 0
  else hpet_inw self (REG_TIMER_N_CONFIG_CAPABILITY + timer * 0x20 + 0x4).

Definition get_timer_comparator self (timer : Z) : io W Z :=
  hpet_ing self (REG_TIMER_N_CONFIG_CAPABILITY + timer * 0x20 + 0x8).

Definition set_timer_comparator self (timer count : Z) : io W () :=
  let cap_cnf_offset := REG_TIMER_N_CONFIG_CAPABILITY + timer * 0x20 + 0x8 in
  cap_cnf ← hpet_inw self cap_cnf_offset;
  let cap_cnf := Z.lor cap_cnf (Z.shiftl 0x1 6) in
  _ ← hpet_outw self cap_cnf_offset cap_cnf;
  let comparator_offset := REG_TIMER_N_CONFIG_CAPABILITY + timer * 0x20 + 0x8 in
  hpet_outg self comparator_offset count.

(** [init]; [ioapic] is the address of the I/O APIC whose line 2 is unmasked at the end. *)
Definition hpet_init (ioapic : Z) (h : AcpiHPET) : io W HPET :=
  hpet ← from_acpi h;
  cap ← timer_routing_capability hpet 0;
  _ ← pure (assert_that (negb (Z.land (Z.shiftr cap 2) 0x1 =? 0)) (AssertionFailed "routing"));
  config ← get_timer_config hpet 0;
  let config := Z.lor config (Z.shiftl 0x2 9) in
  _ ← pure (assert_that (Z.land (Z.shiftr config 4) 0x1 =? 1) (AssertionFailed "periodic"));
  let config := Z.lor config (Z.shiftl 0x1 3) in
  let config := Z.lor config (Z.shiftl 0x1 2) in
  let config := Z.lor config 0x0 in
  _ ← set_timer_config hpet 0 config;
  _ ← pure (assert_that (negb (counter_clock_period hpet =? 0)) (AssertionFailed "period"));
  _ ← set_timer_comparator hpet 0 (1000000 / counter_clock_period hpet);
  _ ← hpet_enable hpet;
  _ ← ioapic_mask_line ioapic false 2;
  mret hpet.
End driver.

(** ** Time *)

(** [get_time] and the clock source's [get_tick]: nanoseconds, from the counter. *)
Definition time_of (hpet : option HPET) (counter : Z) : outcome Z :=
  match hpet with
  | Some hpet => checked_mul 64 counter (counter_clock_period hpet)
  | None => Ret 0
  end.

Definition register_tick (hpet : option HPET) : option HPET :=
  match hpet with
  | Some h => Some (mkHPET (h_base_address h) (h_comparator_count h) (h_counter_size h) (h_legacy h)
                      (counter_clock_period h) (last_tick_count_timer_0 h) true)
  | None => None
  end.

Record time_system (F : Type) := mkTime { t_hpet : HPET; t_clock : Clock F }.
Arguments mkTime {F}.
Arguments t_hpet {F}.
Arguments t_clock {F}.

Section time.
Context {F : Type}.
Implicit Types s : time_system F.

(** The timer interrupt, at counter value [counter]. *)
Definition hpet_tick s (counter : Z) : outcome (time_system F * list (Z * F)) :=
  let h := t_hpet s in
  delta_ticks ← checked_sub counter (last_tick_count_timer_0 h);
  '(clock, ran) ←
    (if tick_registered h then
       ns ← checked_mul 64 delta_ticks (counter_clock_period h); Ret (clock_tick (t_clock s) ns)
     else Ret (t_clock s, []));
  Ret (mkTime (mkHPET (h_base_address h) (h_comparator_count h) (h_counter_size h) (h_legacy h)
                 (counter_clock_period h) counter (tick_registered h)) clock, ran).

(** [Clock::get_tick] with the HPET as clock source. *)
Definition read_clock s (counter : Z) : outcome (time_system F * Z) :=
  now ← time_of (Some (t_hpet s)) counter;
  let '(clock, t) := get_tick (t_clock s) now in
  Ret (mkTime (t_hpet s) clock, t).

(** A run of timer interrupts. *)
Fixpoint hpet_ticks s (counters : list Z) : outcome (time_system F) :=
  match counters with
  | [] => Ret s
  | c :: cs => '(s, _) ← hpet_tick s c; hpet_ticks s cs
  end.

(** The clock shows the time of the last interrupt. *)
Definition accurate s : Prop :=
  tick_registered (t_hpet s) = true ∧ 0 ≤ last_tick_count_timer_0 (t_hpet s) ∧ 0 < counter_clock_period (t_hpet s) ∧
  ticks (t_clock s) = last_tick_count_timer_0 (t_hpet s) * counter_clock_period (t_hpet s).

Lemma hpet_tick_eq s c :
  tick_registered (t_hpet s) = true → 0 ≤ ticks (t_clock s) → 0 < counter_clock_period (t_hpet s) →
  last_tick_count_timer_0 (t_hpet s) ≤ c →
  ticks (t_clock s) + (c - last_tick_count_timer_0 (t_hpet s)) * counter_clock_period (t_hpet s) < 2 ^ 64 →
  ∃ s' ran, hpet_tick s c = Ret (s', ran) ∧
    counter_clock_period (t_hpet s') = counter_clock_period (t_hpet s) ∧ tick_registered (t_hpet s') = true ∧
    last_tick_count_timer_0 (t_hpet s') = c ∧
    ticks (t_clock s') = ticks (t_clock s) + (c - last_tick_count_timer_0 (t_hpet s)) * counter_clock_period (t_hpet s) ∧
    (∀ k f, (k, f) ∈ ran ↔ callbacks (t_clock s) !! k = Some f ∧ k ≤ ticks (t_clock s')).
Proof.
  intros Hreg H0 Hp Hc Hfit. unfold hpet_tick. rewrite (bind_Ret _ _ _ (checked_sub_ok _ _ Hc)), Hreg.
  set (ns := (c - last_tick_count_timer_0 (t_hpet s)) * counter_clock_period (t_hpet s)) in *.
  assert (0 ≤ ns) as Hns by (unfold ns; nia).
  rewrite (bind_Ret (checked_mul 64 _ _) _ ns) by (apply checked_mul_ok; unfold ns in *; lia).
  destruct (clock_tick (t_clock s) ns) as [clock ran] eqn:E.
  destruct (clock_tick_spec _ _ _ _ E) as (Ht & Hran & _). cbv zeta in Hran.
  assert (wrapping_add 64 (ticks (t_clock s)) ns = ticks (t_clock s) + ns) as Hw by (apply Z.mod_small; lia).
  rewrite Hw in Ht, Hran. cbn [mbind outcome_bind]. eexists _, ran. split; [reflexivity|]. cbn [t_hpet t_clock counter_clock_period tick_registered last_tick_count_timer_0].
  split_and!; [done|done|done|done|]. intros k f. rewrite Hran. by rewrite Ht.
Qed.

Lemma hpet_ticks_accurate cs : ∀ s,
  accurate s → StronglySorted Z.le (last_tick_count_timer_0 (t_hpet s) :: cs) →
  Forall (λ c, c * counter_clock_period (t_hpet s) < 2 ^ 64) cs →
  ∃ s', hpet_ticks s cs = Ret s' ∧ accurate s' ∧
    last_tick_count_timer_0 (t_hpet s') = default (last_tick_count_timer_0 (t_hpet s)) (last cs).
Proof.
  induction cs as [|c cs IH]; intros s Hs Hsort Hfit; [by exists s|].
  destruct Hs as (Hreg & Hl & Hp & Ht). apply Forall_cons in Hfit as [Hfc Hfit].
  inversion Hsort as [|? ? Hsort' Hle]; subst. rewrite Forall_forall in Hle.
  assert (last_tick_count_timer_0 (t_hpet s) ≤ c) as Hc by (apply Hle; set_solver).
  destruct (hpet_tick_eq s c) as (s1 & ran & E & Hp1 & Hr1 & Hl1 & Ht1 & _); [done|nia|done|done|nia|].
  cbn [hpet_ticks]. rewrite E. cbn [mbind outcome_bind].
  destruct (IH s1) as (s' & E' & Ha' & Hl').
  - split_and!; [done|lia|lia|]. rewrite Ht1, Hl1, Hp1, Ht. nia.
  - by rewrite Hl1.
  - by rewrite Hp1.
  - exists s'. split_and!; [done|done|]. rewrite Hl', Hl1. destruct cs as [|c' cs]; [done|].
    rewrite last_cons_cons. by destruct (last (c' :: cs)) eqn:El; [|apply last_None in El].
Qed.

(** The clock and the HPET.  Timer interrupts alone keep the clock accurate: it shows the
    counter's time at the last interrupt.  A reading of the clock between two interrupts, as
    every [nanosleep] makes, does not: the next interrupt adds the whole interval again, so
    the clock runs ahead by the part of it before the reading, and callbacks that are not due
    for as much as that are run. *)
Theorem hpet_clock_drift s cs g c :
  accurate s → StronglySorted Z.le (last_tick_count_timer_0 (t_hpet s) :: cs) →
  Forall (λ c, c * counter_clock_period (t_hpet s) < 2 ^ 64) cs →
  last_tick_count_timer_0 (t_hpet s) ≤ g ≤ c →
  (g + c - last_tick_count_timer_0 (t_hpet s)) * counter_clock_period (t_hpet s) < 2 ^ 64 →
  (∃ s', hpet_ticks s cs = Ret s' ∧ accurate s') ∧
  (∃ s1 now s2 ran, read_clock s g = Ret (s1, now) ∧ now = g * counter_clock_period (t_hpet s) ∧
    hpet_tick s1 c = Ret (s2, ran) ∧
    let ahead := (g - last_tick_count_timer_0 (t_hpet s)) * counter_clock_period (t_hpet s) in
    ticks (t_clock s2) = c * counter_clock_period (t_hpet s) + ahead ∧
    (∀ k f, (k, f) ∈ ran ↔
      callbacks (t_clock s) !! k = Some f ∧ k ≤ c * counter_clock_period (t_hpet s) + ahead)).
Proof.
  intros Ha Hsort Hfit Hg Hlt. split.
  { destruct (hpet_ticks_accurate cs s Ha Hsort Hfit) as (s' & ? & ? & _). eauto. }
  destruct Ha as (Hreg & Hl & Hp & Ht).
  set (p := counter_clock_period (t_hpet s)) in *. set (l := last_tick_count_timer_0 (t_hpet s)) in *.
  unfold read_clock, time_of. rewrite (bind_Ret _ _ (g * p)) by (apply checked_mul_ok; nia). cbn [get_tick].
  destruct (hpet_tick_eq (mkTime (t_hpet s) (mkClock (g * p) (callbacks (t_clock s)))) c)
    as (s2 & ran & E & _ & _ & _ & Ht2 & Hran); cbn [t_hpet t_clock ticks callbacks] in *;
    [done|nia|done|unfold l in *; lia|fold p l; nia|].
  fold p l in Ht2. eexists _, _, s2, ran. split; [reflexivity|]. split; [reflexivity|]. split; [exact E|]. cbv zeta.
  assert (ticks (t_clock s2) = c * p + (g - l) * p) as -> by (rewrite Ht2; nia).
  split; [done|]. intros k f. rewrite Hran, Ht2. replace (g * p + (c - l) * p) with (c * p + (g - l) * p) by nia. done.
Qed.
End time.

(** A clock at 10 ns per count: a reading half-way between two interrupts a millisecond
    apart. *)
Definition ex_time : time_system nat :=
  mkTime (mkHPET 0 3 1 true 10 100000 true) (mkClock 1000000 {[2400000 := 7%nat]}).

Lemma hpet_clock_drift_witness : ∃ s1 now s2 ran,
  read_clock ex_time 150000 = Ret (s1, now) ∧ hpet_tick s1 200000 = Ret (s2, ran) ∧ (2400000, 7%nat) ∈ ran.
Proof.
  destruct (hpet_clock_drift ex_time [] 150000 200000) as (_ & s1 & now & s2 & ran & E1 & _ & E2 & _ & Hr).
  - split_and!; [reflexivity|cbn; lia|reflexivity|reflexivity].
  - repeat constructor.
  - constructor.
  - cbn. lia.
  - reflexivity.
  - exists s1, now, s2, ran. split; [exact E1|]. split; [exact E2|]. apply Hr. split; [reflexivity|]. vm_compute. discriminate.
Defined.

(** ** The comparator *)

(** Registers that keep what is written, as 32-bit words. *)
Record word_machine := mkWords { words32 : Z → Z }.

#[global] Instance word_hardware : Hardware word_machine := {
  hw_in _ _ m := (0, m);
  hw_out _ _ _ m := m;
  hw_read width a m := (if decide (width = 8) then words32 m a + 2 ^ 32 * words32 m (a + 4) else words32 m a, m);
  hw_write width a v m :=
    if decide (width = 8)
    then mkWords (λ x, if decide (x = a) then v mod 2 ^ 32 else if decide (x = a + 4) then v / 2 ^ 32 else words32 m x)
    else mkWords (λ x, if decide (x = a) then v else words32 m x);
}.

Lemma word_inw self o m :
  h_base_address self + o < 2 ^ 64 → hpet_inw self o m = Ret (words32 m (h_base_address self + o), m).
Proof. intros Ho. unfold hpet_inw. erewrite io_bind_Ret; [|unfold pure; by rewrite checked_add_ok]. done. Qed.
Lemma word_ing self o m :
  h_base_address self + o < 2 ^ 64 →
  hpet_ing self o m = Ret (words32 m (h_base_address self + o) + 2 ^ 32 * words32 m (h_base_address self + o + 4), m).
Proof. intros Ho. unfold hpet_ing. erewrite io_bind_Ret; [|unfold pure; by rewrite checked_add_ok]. done. Qed.
Lemma word_outw self o v m :
  h_base_address self + o < 2 ^ 64 →
  hpet_outw self o v m = Ret (tt, mkWords (λ x, if decide (x = h_base_address self + o) then v else words32 m x)).
Proof. intros Ho. unfold hpet_outw. erewrite io_bind_Ret; [|unfold pure; by rewrite checked_add_ok]. done. Qed.
Lemma word_outg self o v m :
  h_base_address self + o < 2 ^ 64 →
  hpet_outg self o v m = Ret (tt, mkWords (λ x,
    if decide (x = h_base_address self + o) then v mod 2 ^ 32
    else if decide (x = h_base_address self + o + 4) then v / 2 ^ 32 else words32 m x)).
Proof. intros Ho. unfold hpet_outg. erewrite io_bind_Ret; [|unfold pure; by rewrite checked_add_ok]. done. Qed.

(** The comparator is written, but the configuration register, in which the write has to be
    announced for a periodic timer, is not: the offset used for it is the comparator's. *)
Theorem set_timer_comparator_config self timer count m :
  h_base_address self + (REG_TIMER_N_CONFIG_CAPABILITY + timer * 0x20 + 0x8) < 2 ^ 64 →
  ∃ m', set_timer_comparator self timer count m = Ret (tt, m') ∧
    get_timer_comparator self timer m' = Ret (count, m') ∧
    words32 m' (h_base_address self + (REG_TIMER_N_CONFIG_CAPABILITY + timer * 0x20)) =
    words32 m (h_base_address self + (REG_TIMER_N_CONFIG_CAPABILITY + timer * 0x20)).
Proof.
  intros Ho. unfold set_timer_comparator, get_timer_comparator. cbv zeta.
  rewrite (io_bind_Ret _ _ _ _ _ (word_inw _ _ _ Ho)), (io_bind_Ret _ _ _ _ _ (word_outw _ _ _ _ Ho)), word_outg by done.
  eexists. split; [reflexivity|]. rewrite word_ing by done. cbn [words32]. split.
  - rewrite decide_True by done. rewrite decide_False, decide_True by lia.
    do 2 f_equal. pose proof (Z.div_mod count (2 ^ 32)). lia.
  - rewrite !decide_False by lia. done.
Qed.
