(* ===== verification/Rtl8139.v ===== *)
(** * The RTL8139 network card (src/drivers/net/rtl8139.rs)

    The driver in the [io] monad.  The receive buffer is memory the card writes, so reading
    it is reading the state of the machine ([rx_buf]); the translation of addresses, the log
    and the delivery of a frame to the network stack are arguments.  [card] is the part of
    the card's registers and ring the driver relies on; on it the theorems show what the card
    is told to send, and that every frame of the ring is delivered once and in order. *)

From S2P Require Import Prelude Io Pci Semaphore Ethernet Interrupt Acpi.

Definition RTL8139_VENDOR_ID : Z := 0x10ec.
Definition RTL8139_DEVICE_ID : Z := 0x8139.
Definition REG_TSD0 : Z := 0x10.
Definition REG_TSAD0 : Z := 0x20.
Definition REG_RBSTART : Z := 0x30.
Definition REG_COMMAND : Z := 0x37.
Definition REG_CAPR : Z := 0x38.
Definition REG_CBR : Z := 0x3a.
Definition REG_IMR : Z := 0x3c.
Definition REG_ISR : Z := 0x3e.
Definition REG_RCR : Z := 0x44.
Definition REG_CONFIG_1 : Z := 0x52.
Definition RX_BUF_SIZE : Z := 8192.
Definition RX_BUF_SIZE_WITH_WRAP : Z := RX_BUF_SIZE + 16 + 1500.
Definition TX_BUF_SIZE : Z := 1530.

(** The transmit buffers are memory only the driver writes. *)
Record RTL8139 := mkRTL8139 {
  pci : PCIDevice;
  vector : Z;
  tx_bufs : list (list Z);
  next_tx_desc : Z;
  pending_irqs : Semaphore;
}.

Definition with_tx (self : RTL8139) (bufs : list (list Z)) (next : Z) : RTL8139 :=
  mkRTL8139 (pci self) (vector self) bufs next (pending_irqs self).
Definition with_irqs (self : RTL8139) (s : Semaphore) : RTL8139 :=
  mkRTL8139 (pci self) (vector self) (tx_bufs self) (next_tx_desc self) s.

Section driver.
Context {W : Type} `{Hardware W}.
(** The memory of the receive buffer, and the output of [writeln!] to the serial port. *)
Context (rx_buf : W → list Z) (log : list Z → io W ()).
(** [mm::phys_addr], and the addresses of the buffers. *)
Context (phys_addr : Z → option Z) (rx_buf_addr : Z) (tx_buf_addr : nat → Z).
Implicit Types self : RTL8139.

Definition ioaddr (d : PCIDevice) (offset : Z) : io W Z :=
  bar_0 ← read_bar_register d BAR0;
  let base :=
    (if decide (Z.land bar_0 0x1 = 0) then Z.land bar_0 (bnot 32 0xf) else Z.land bar_0 (bnot 32 0x3)) mod 2 ^ 16 in
  pure (checked_add 16 base offset).

Definition rtl_outb (d : PCIDevice) (offset data : Z) : io W () := a ← ioaddr d offset; outb a data.
Definition rtl_inb (d : PCIDevice) (offset : Z) : io W Z := a ← ioaddr d offset; inb a.
Definition rtl_outw (d : PCIDevice) (offset data : Z) : io W () := a ← ioaddr d offset; outw a data.
Definition rtl_inw (d : PCIDevice) (offset : Z) : io W Z := a ← ioaddr d offset; inw a.
Definition rtl_outl (d : PCIDevice) (offset data : Z) : io W () := a ← ioaddr d offset; outl a data.

(** [while inb(REG_COMMAND) & 0x10 != 0]: nothing bounds the wait for the card. *)
Fixpoint wait_reset (fuel : nat) (d : PCIDevice) : io W () :=
  match fuel with
  | O => pure (Panic OutOfFuel)
  | S fuel =>
      cr ← rtl_inb d REG_COMMAND;
      if decide (Z.land cr 0x10 = 0) then mret tt else wait_reset fuel d
  end.

(** [RTL8139::init]; [uninit] is what the four new transmit buffers hold. *)
Definition rtl8139_init (fuel : nat) (uninit : list (list Z)) (d : PCIDevice) : io W RTL8139 :=
  s ← pure (sem_new 0 128);
  let rtl8139 := mkRTL8139 d 0x26 uninit 0 s in
  _ ← write_control_register d 0x0005;
  _ ← rtl_outb d REG_CONFIG_1 0x0;
  _ ← rtl_outb d REG_COMMAND 0x10;
  _ ← wait_reset fuel d;
  rx ← pure (expect (phys_addr rx_buf_addr) (ExplicitPanic "rtl8139: unmapped rx_buf"));
  _ ← rtl_outl d REG_RBSTART (rx mod 2 ^ 32);
  _ ← io_fold (λ _ i,
        tx ← pure (expect (phys_addr (tx_buf_addr i)) (ExplicitPanic "rtl8139: unmapped tx_buf"));
        rtl_outl d (REG_TSAD0 + Z.of_nat i * 4) (tx mod 2 ^ 32)) [0; 1; 2; 3]%nat tt;
  let accept_config := 0xf in
  let wrap := Z.shiftl 1 7 in
  _ ← rtl_outl d REG_RCR (Z.lor accept_config wrap);
  _ ← rtl_outb d REG_COMMAND 0x0c;
  _ ← rtl_outw d REG_IMR (Z.lor 0x0005 (Z.shiftl 1 4));
  mret rtl8139.

(** The hardware address, from the first six registers. *)
Definition id self : io W MACAddress :=
  io_fold (λ mac i, b ← rtl_inb (pci self) i; mret (mac ++ [b])) (seqZ 0 6) [].

(** [next_tx_desc.update(.., |n| (n + 1) % 4)] returns the previous value. *)
Definition transmit self (dest : MACAddress) (vlan_tags : list (option (list Z))) (ethertype : EtherType)
    (writer : list Z → outcome (list Z * nat)) : io W RTL8139 :=
  src ← id self;
  let tx_i := Z.to_nat (next_tx_desc self) in
  let next := (next_tx_desc self + 1) mod 4 in
  tx_buf ← pure (index (tx_bufs self) tx_i);
  '(frame, tx_buf) ← pure (build_frame tx_buf dest src vlan_tags ethertype writer);
  bufs ← pure (index_set (tx_bufs self) tx_i tx_buf);
  phys ← pure (expect (phys_addr (tx_buf_addr tx_i)) (ExplicitPanic "Tx buffer must be mapped"));
  _ ← rtl_outl (pci self) (REG_TSAD0 + Z.of_nat tx_i * 4) (phys mod 2 ^ 32);
  _ ← rtl_outl (pci self) (REG_TSD0 + Z.of_nat tx_i * 4) (Z.land (Z.of_nat (frame_len frame)) 0x1fff);
  mret (with_tx self bufs next).

(** *** Receiving *)

(** Where the frame after one of [frame_size] bytes at [capr] starts. *)
Definition next_capr (capr frame_size : Z) : Z :=
  let capr := capr + 4 + frame_size in
  let capr := Z.land (capr + 3) (bnot 64 3) in
  capr mod RX_BUF_SIZE.

Section receive.
(** [recv_frame] of the card's interface in the network stack [N]. *)
Context {N : Type} (recv_frame : N → list Z → outcome N).

Fixpoint receive_loop (fuel : nat) (d : PCIDevice) (cbr capr : Z) (net : N) : io W N :=
  match fuel with
  | O => pure (Panic OutOfFuel)
  | S fuel =>
      cr ← rtl_inb d REG_COMMAND;
      if decide (Z.land cr 0x1 = 0x1) then mret net else
      if decide (cbr = capr) then mret net else
      buf ← (λ w, Ret (rx_buf w, w));
      rx ← pure (slice_from buf (Z.to_nat capr));
      '(rsr, remaining) ← pure (split_at rx 2);
      let rsr := from_le_bytes rsr in
      '(frame_size, remaining) ← pure (split_at remaining 2);
      let frame_size := from_le_bytes frame_size in
      frame ← pure (slice remaining 0 (Z.to_nat frame_size));
      _ ← log [rsr; frame_size; capr; cbr];
      net ← pure (recv_frame net frame);
      let capr := next_capr capr frame_size in
      _ ← rtl_outw d REG_CAPR (wrapping_sub 16 capr 0x10);
      receive_loop fuel d cbr capr net
  end.

(** [process_receive], when [pending_irqs.wait()] does not block: [None] when it does. *)
Definition process_receive (fuel : nat) self (net : N) : io W (option (RTL8139 * N)) :=
  match try_decrement (pending_irqs self) with
  | None => mret None
  | Some s =>
      cbr ← rtl_inw (pci self) REG_CBR;
      capr ← rtl_inw (pci self) REG_CAPR;
      let capr := (capr + 0x10) mod RX_BUF_SIZE in
      net ← receive_loop fuel (pci self) cbr capr net;
      mret (Some (with_irqs self s, net))
  end.
End receive.

(** One round of [rtl8139_bottom_half]: [None] as soon as one card has nothing pending, since
    the task then blocks in its [process_receive]. *)
Fixpoint bottom_half_round {N} (recv_frame : BDF → N → list Z → outcome N) (fuel : nat) (nics : list RTL8139) (net : N) :
    io W (option (list RTL8139 * N)) :=
  match nics with
  | [] => mret (Some ([], net))
  | n :: nics =>
      o ← process_receive (recv_frame (bdf (pci n))) fuel n net;
      match o with
      | None => mret None
      | Some (n, net) =>
          o ← bottom_half_round recv_frame fuel nics net;
          match o with
          | None => mret None
          | Some (nics, net) => mret (Some (n :: nics, net))
          end
      end
  end.

(** *** The interrupt handler *)

(** [try_signal] with interrupts disabled: the task to wake, if one waits. *)
Definition try_signal (s : Semaphore) : Semaphore * option nat :=
  match try_increment s with
  | None => (s, None)
  | Some s => let '(t, s) := pop_waiting s in (s, t)
  end.

(** One card of the loop; [woken] are the tasks woken so far. *)
Definition handle_nic (v : Z) (acc : list RTL8139 * list nat) (n : RTL8139) : io W (list RTL8139 * list nat) :=
  let '(nics, woken) := acc in
  if decide (vector n = v mod 256) then
    status ← rtl_inw (pci n) REG_ISR;
    _ ← log [status];
    _ ← rtl_outw (pci n) REG_ISR 0x05;
    if decide (Z.land status 1 = 1) then
      let '(s, t) := try_signal (pending_irqs n) in
      mret (nics ++ [with_irqs n s], woken ++ option_list t)
    else mret (nics ++ [n], woken)
  else mret (nics ++ [n], woken).

Definition rtl8139_handler (lapic : Z) (nics : list RTL8139) (v : Z) : io W (list RTL8139 * list nat) :=
  r ← io_fold (handle_nic v) nics ([], []);
  _ ← end_of_interrupt lapic;
  mret r.

(** *** [init] *)

(** [NICS] and [NETWORK_STACK] are ordered maps by bus, device and function. *)
Definition bdf_lt (a b : BDF) : bool :=
  (bus_number a <? bus_number b) ||
  ((bus_number a =? bus_number b) &&
   ((device_number a <? device_number b) ||
    ((device_number a =? device_number b) && (function_number a <? function_number b)))).

Fixpoint btree_insert {A} (k : BDF) (x : A) (m : list (BDF * A)) : list (BDF * A) :=
  match m with
  | [] => [(k, x)]
  | (k', x') :: m' =>
      if bdf_lt k k' then (k, x) :: m
      else if decide (k = k') then (k, x) :: m'
      else (k', x') :: btree_insert k x m'
  end.

(** One device of the loop of [init]: [handlers] is the table of [register_handler] and
    [handler] the address of [rtl8139_handler]. *)
Definition init_device {I} (new_interface : outcome I) (fuel : nat) (uninit : list (list Z)) (handler ioapic lapic : Z)
    (mappings : list InterruptMapping) (acc : list Z * list (BDF * RTL8139) * list (BDF * I)) (d : PCIDevice) :
    io W (list Z * list (BDF * RTL8139) * list (BDF * I)) :=
  let '(handlers, nics, stack) := acc in
  rtl8139 ← rtl8139_init fuel uninit d;
  handlers ←
    match List.find (λ x, irq_number x =? interrupt_line (pci rtl8139)) mappings with
    | Some mapping =>
        handlers ← pure (register_handler handlers (vector rtl8139) handler);
        _ ← lapic_id lapic;
        _ ← ioapic_remap ioapic 0 (global_system_interrupt mapping) (vector rtl8139);
        mret handlers
    | None => mret handlers
    end;
  let b := bdf (pci rtl8139) in
  i ← pure new_interface;
  mret (handlers, btree_insert b rtl8139 nics, btree_insert b i stack).

Definition rtl8139_init_all {I} (new_interface : outcome I) (fuel : nat) (uninit : list (list Z))
    (handler ioapic lapic : Z) (mappings : list InterruptMapping) (handlers : list Z) (pci_devices : list PCIDevice) :
    io W (list PCIDevice * (list Z * list (BDF * RTL8139) * list (BDF * I))) :=
  let '(rest, devices) := get_device pci_devices RTL8139_VENDOR_ID RTL8139_DEVICE_ID in
  r ← io_fold (init_device new_interface fuel uninit handler ioapic lapic mappings) devices (handlers, [], []);
  mret (rest, r).
End driver.

(** ** The card *)

(** Registers by offset, and the receive buffer.  [REG_COMMAND] reads with its bit 0 set when
    the driver has read all the card has written; a reset is over at once; writing ones to
    [REG_ISR] clears them. *)
Record card := mkCard { c_regs : Z → Z; c_ring : list Z }.

Definition read_up_to (c : card) : Z := (c_regs c REG_CAPR + 0x10) mod RX_BUF_SIZE.

Definition buffer_empty (c : card) : Z := if decide (read_up_to c = c_regs c REG_CBR) then 1 else 0.

Definition card_in (offset : Z) (c : card) : Z :=
  if decide (offset = REG_COMMAND) then Z.lor (Z.land (c_regs c REG_COMMAND) 0xc) (buffer_empty c)
  else c_regs c offset.

Definition card_out (offset data : Z) (c : card) : card :=
  mkCard (λ r, if decide (r = offset)
               then if decide (offset = REG_ISR) then Z.land (c_regs c r) (bnot 16 data) else data
               else c_regs c r) (c_ring c).

Record nic := mkNic { n_select : Z; n_cfg : Z → Z; n_card : card }.

Definition set_select (m : nic) (a : Z) : nic := mkNic a (n_cfg m) (n_card m).
Definition set_card (m : nic) (c : card) : nic := mkNic (n_select m) (n_cfg m) c.

Section card.
(** The ports of the card start at [base]. *)
Context (base : Z) (Hbase : 0x1000 ≤ base) (Hend : base + 0x100 ≤ 2 ^ 16) (Halign : (4 | base)).

#[local] Instance nic_hardware : Hardware nic := {|
  hw_in _ port m :=
    (if decide (port = CONFIG_DATA) then n_cfg m (n_select m) else card_in (port - base) (n_card m), m);
  hw_out _ port data m :=
    if decide (port = CONFIG_ADDRESS) then set_select m data
    else if decide (port = CONFIG_DATA)
    then mkNic (n_select m) (λ a, if decide (a = n_select m) then data else n_cfg m a) (n_card m)
    else set_card m (card_out (port - base) data (n_card m));
  hw_read _ _ m := (0, m);
  hw_write _ _ _ m := m;
|}.

(** A device of header type 0 with its ports at [base]. *)
Definition ready (d : PCIDevice) (m : nic) : Prop :=
  Z.land (Z.shiftr (Z.land (reg (n_cfg m) (bdf d) 0xC) 0x00FF0000) 16) 0x7f = 0 ∧
  reg (n_cfg m) (bdf d) 0x10 = base + 1.

Definition bar_select (d : PCIDevice) : Z := Z.lor (cfg_base (bdf d)) 0x10.

Lemma bar_base : Z.land (base + 1) (bnot 32 0x3) = base.
Proof.
  rewrite land_bnot by (done || lia). change 3 with (Z.ones 2). rewrite Z.ldiff_ones_r by lia.
  rewrite Z.shiftr_div_pow2, Z.shiftl_mul_pow2 by lia. destruct Halign as [q Hq].
  change (2 ^ 2) with 4. rewrite Hq. rewrite Z.div_add_l by lia. change (1 / 4) with 0. lia.
Qed.

Lemma ioaddr_card d off m :
  ready d m → 0 ≤ off < 0x100 → ioaddr d off m = Ret (base + off, set_select m (bar_select d)).
Proof.
  intros [Hh Hb] Hoff. unfold ioaddr, read_bar_register, read_header_type.
  assert (∀ o m', n_cfg m' = n_cfg m → pci_inl d o m' = Ret (reg (n_cfg m) (bdf d) (Z.land o 0xFC),
            set_select m' (Z.lor (cfg_base (bdf d)) (Z.land o 0xFC)))) as Hinl.
  { intros o m' E. unfold pci_inl, mbind, io_bind, outl, inl. cbn [hw_out hw_in nic_hardware].
    rewrite decide_True, decide_True by done. unfold reg. cbn [n_cfg n_select set_select]. by rewrite E. }
  assert (read_bar_register d BAR0 m = Ret (base + 1, set_select m (bar_select d))) as Hbar.
  { unfold read_bar_register, read_header_type.
    erewrite io_bind_Ret; [|rewrite (io_bind_Ret _ _ _ _ _ (Hinl 0xC m eq_refl)); reflexivity].
    rewrite decide_True by exact Hh. rewrite Hinl by done. change (Z.land (0x10 + bar_usize BAR0 * 4) 0xFC) with 0x10.
    by rewrite Hb. }
  rewrite (io_bind_Ret _ _ _ _ _ Hbar).
  assert (Z.land (base + 1) 1 = 1) as H1.
  { change 1 with (Z.ones 1) at 2. rewrite Z.land_ones by lia. destruct Halign as [q ->].
    change (2 ^ 1) with 2. replace (q * 4 + 1) with (1 + (q * 2) * 2) by lia. by rewrite Z.mod_add by lia. }
  rewrite decide_False by lia. rewrite bar_base, Z.mod_small by lia.
  unfold pure. by rewrite checked_add_ok by lia.
Qed.

Ltac at_card Hr Hoff :=
  rewrite (io_bind_Ret _ _ _ _ _ (ioaddr_card _ _ _ Hr Hoff)); cbn [hw_in hw_out nic_hardware];
  rewrite ?decide_False by (unfold CONFIG_ADDRESS, CONFIG_DATA; lia); rewrite Z.add_simpl_l; reflexivity.

Lemma rtl_inb_card d off m : ready d m → 0 ≤ off < 0x100 →
  rtl_inb d off m = Ret (card_in off (n_card m), set_select m (bar_select d)).
Proof. intros Hr Hoff. unfold rtl_inb, inb. at_card Hr Hoff. Qed.
Lemma rtl_inw_card d off m : ready d m → 0 ≤ off < 0x100 →
  rtl_inw d off m = Ret (card_in off (n_card m), set_select m (bar_select d)).
Proof. intros Hr Hoff. unfold rtl_inw, inw. at_card Hr Hoff. Qed.
Lemma rtl_outb_card d off v m : ready d m → 0 ≤ off < 0x100 →
  rtl_outb d off v m = Ret (tt, mkNic (bar_select d) (n_cfg m) (card_out off v (n_card m))).
Proof. intros Hr Hoff. unfold rtl_outb, outb. at_card Hr Hoff. Qed.
Lemma rtl_outw_card d off v m : ready d m → 0 ≤ off < 0x100 →
  rtl_outw d off v m = Ret (tt, mkNic (bar_select d) (n_cfg m) (card_out off v (n_card m))).
Proof. intros Hr Hoff. unfold rtl_outw, outw. at_card Hr Hoff. Qed.
Lemma rtl_outl_card d off v m : ready d m → 0 ≤ off < 0x100 →
  rtl_outl d off v m = Ret (tt, mkNic (bar_select d) (n_cfg m) (card_out off v (n_card m))).
Proof. intros Hr Hoff. unfold rtl_outl, outl. at_card Hr Hoff. Qed.

Lemma ready_cfg d m m' : n_cfg m' = n_cfg m → ready d m → ready d m'.
Proof. unfold ready. by intros ->. Qed.

(** ** Receiving *)

Lemma next_capr_eq capr n :
  0 ≤ capr → (4 | capr) → 0 ≤ n → capr + n + 7 < 2 ^ 64 →
  next_capr capr n = (capr + (n + 7) / 4 * 4) mod RX_BUF_SIZE.
Proof.
  intros H0 [q ->] Hn Hlt. unfold next_capr. f_equal. rewrite land_bnot by lia.
  change 3 with (Z.ones 2) at 2. rewrite Z.ldiff_ones_r, Z.shiftr_div_pow2, Z.shiftl_mul_pow2 by lia.
  change (2 ^ 2) with 4. replace (q * 4 + 4 + n + 3) with (q * 4 + (n + 7)) by lia. rewrite Z.div_add_l by lia. lia.
Qed.

(** The frames from position [capr] on: a status word, the length, and the bytes. *)
Fixpoint ring_holds (ring : list Z) (capr : Z) (fs : list (list Z)) : Prop :=
  match fs with
  | [] => True
  | f :: fs =>
      let n := Z.of_nat (length f) in
      n < 2 ^ 16 ∧
      (∃ rsr, length rsr = 2%nat ∧
        slice ring (Z.to_nat capr) (Z.to_nat capr + (4 + length f)) = Ret (rsr ++ to_le_bytes 2 n ++ f)) ∧
      ring_holds ring (next_capr capr n) fs
  end.

(** The bytes a frame takes up, and where the frames end. *)
Definition span (f : list Z) : Z := (Z.of_nat (length f) + 7) / 4 * 4.
Definition total (fs : list (list Z)) : Z := foldr (λ f n, span f + n) 0 fs.

Lemma span_pos f : 0 < span f ∧ (4 | span f).
Proof.
  unfold span. split; [|by eexists].
  assert (1 ≤ (Z.of_nat (length f) + 7) / 4) by (apply Z.div_le_lower_bound; lia). lia.
Qed.

Lemma mod_aligned a : (4 | a) → (4 | a mod RX_BUF_SIZE).
Proof.
  intros Ha. rewrite Z.mod_eq by done. apply Z.divide_sub_r; [done|]. apply Z.divide_mul_l. by exists 2048.
Qed.

Lemma total_nonneg fs : 0 ≤ total fs.
Proof. induction fs as [|f fs IH]; cbn; [done|]. pose proof (span_pos f) as []. fold (total fs). lia. Qed.

(** A slice of a buffer is what reading on from its start gives. *)
Lemma slice_read (ring : list Z) capr n head body :
  slice ring capr (capr + n) = Ret (head ++ body) →
  ∃ rest, slice_from ring capr = Ret (head ++ body ++ rest).
Proof.
  unfold slice_from, slice. destruct (decide _) as [Hn|]; [|done]. rewrite decide_True by lia.
  intros [= E]. replace (capr + n - capr)%nat with n in E by lia. exists (drop n (drop capr ring)).
  rewrite take_ge by (rewrite length_drop; lia). f_equal. rewrite app_assoc, <- E. symmetry. apply take_drop.
Qed.

Section receive_spec.
Context (log : list Z → io nic ()) (d : PCIDevice).
(** The log goes to other ports than the card's. *)
Context (Hlog : ∀ l m, ∃ m', log l m = Ret (tt, m') ∧ n_cfg m' = n_cfg m ∧ n_card m' = n_card m).
Context {N : Type} (recv_frame : N → list Z → outcome N).

(** What a run of the loop leaves as it was. *)
Definition received (m m' : nic) : Prop :=
  n_cfg m' = n_cfg m ∧ c_ring (n_card m') = c_ring (n_card m) ∧
  ∀ r, r ≠ REG_CAPR → c_regs (n_card m') r = c_regs (n_card m) r.

Lemma command_empty c : Z.land (card_in REG_COMMAND c) 0x1 = buffer_empty c.
Proof.
  unfold card_in. rewrite decide_True, Z.land_lor_distr_l, <- Z.land_assoc by done.
  change (Z.land 0xc 0x1) with 0. rewrite Z.land_0_r, Z.lor_0_l. unfold buffer_empty. by destruct (decide _).
Qed.

Lemma capr_written capr : 0 ≤ capr < RX_BUF_SIZE → (wrapping_sub 16 capr 0x10 + 0x10) mod RX_BUF_SIZE = capr.
Proof.
  unfold RX_BUF_SIZE, wrapping_sub. change (2 ^ 16) with 65536. intros H.
  destruct (decide (0x10 ≤ capr)).
  - rewrite (Z.mod_small (capr - 16)) by lia. rewrite Z.sub_add. by apply Z.mod_small.
  - replace (capr - 16) with (capr - 16 + 65536 + (-1) * 65536) by lia. rewrite Z.mod_add by lia.
    rewrite (Z.mod_small (capr - 16 + 65536)) by lia.
    replace (capr - 16 + 65536 + 16) with (capr + 8 * 8192) by lia. rewrite Z.mod_add by lia. by apply Z.mod_small.
Qed.

(** One round, at a frame. *)
Lemma receive_round cbr fuel m capr net f fs :
  ready d m → 0 ≤ capr < RX_BUF_SIZE → read_up_to (n_card m) = capr → c_regs (n_card m) REG_CBR = cbr → capr ≠ cbr →
  ring_holds (c_ring (n_card m)) capr (f :: fs) →
  ∃ m1, receive_loop (λ w, c_ring (n_card w)) log recv_frame (S fuel) d cbr capr net m =
      (net' ← pure (recv_frame net f);
       _ ← rtl_outw d REG_CAPR (wrapping_sub 16 (next_capr capr (Z.of_nat (length f))) 0x10);
       receive_loop (λ w, c_ring (n_card w)) log recv_frame fuel d cbr (next_capr capr (Z.of_nat (length f))) net') m1 ∧
    n_cfg m1 = n_cfg m ∧ n_card m1 = n_card m.
Proof.
  intros Hr Hc Hpos Hcbr Hne (Hn & (rsr & Hrsr & Hs) & _). set (n := Z.of_nat (length f)) in *.
  assert (length (to_le_bytes 2 n) = 2%nat) as Hl by apply length_to_le_bytes.
  apply slice_read in Hs as [rest Hs]. cbn [receive_loop].
  rewrite (io_bind_Ret _ _ _ _ _ (rtl_inb_card d REG_COMMAND m Hr ltac:(unfold REG_COMMAND; lia))), command_empty.
  unfold buffer_empty. rewrite Hpos, Hcbr. rewrite (decide_False (P := capr = cbr)) by done.
  rewrite decide_False by done. rewrite (decide_False (P := cbr = capr)) by done.
  set (m0 := set_select m _). rewrite (io_bind_Ret _ _ m0 (c_ring (n_card m)) m0) by reflexivity.
  rewrite (io_bind_Ret _ _ m0 (rsr ++ (to_le_bytes 2 n ++ f) ++ rest) m0) by (unfold pure; by rewrite Hs).
  rewrite <- app_assoc.
  rewrite (io_bind_Ret _ _ m0 (rsr, to_le_bytes 2 n ++ f ++ rest) m0) by (unfold pure; by rewrite split_at_app).
  rewrite (io_bind_Ret _ _ m0 (to_le_bytes 2 n, f ++ rest) m0) by (unfold pure; by rewrite split_at_app).
  rewrite from_to_le_bytes by (change (256 ^ Z.of_nat 2) with (2 ^ 16); lia).
  rewrite (io_bind_Ret _ _ m0 f m0) by (unfold pure; by rewrite slice_prefix by lia).
  destruct (Hlog [from_le_bytes rsr; n; capr; cbr] m0) as (m1 & E & Hcfg & Hcard).
  rewrite (io_bind_Ret _ _ _ _ _ E). exists m1. split; [reflexivity|]. by rewrite Hcfg, Hcard.
Qed.

Lemma receive_loop_spec cbr fs : ∀ fuel m capr net net',
  ready d m → 0 ≤ capr < RX_BUF_SIZE → (4 | capr) → (length fs < fuel)%nat →
  read_up_to (n_card m) = capr → c_regs (n_card m) REG_CBR = cbr →
  cbr = (capr + total fs) mod RX_BUF_SIZE → total fs < RX_BUF_SIZE →
  ring_holds (c_ring (n_card m)) capr fs → mfold recv_frame fs net = Ret net' →
  ∃ m', receive_loop (λ w, c_ring (n_card w)) log recv_frame fuel d cbr capr net m = Ret (net', m') ∧
    received m m' ∧ read_up_to (n_card m') = cbr.
Proof.
  induction fs as [|f fs IH]; intros fuel m capr net net' Hr Hc H4 Hfuel Hpos Hcbr Hend' Htot Hring Hnet;
    (destruct fuel as [|fuel]; [cbn in Hfuel; lia|]).
  - cbn in Hend'. injection Hnet as Hnet. subst net'. rewrite Z.add_0_r, Z.mod_small in Hend' by done. cbn [receive_loop].
    rewrite (io_bind_Ret _ _ _ _ _ (rtl_inb_card d REG_COMMAND m Hr ltac:(unfold REG_COMMAND; lia))), command_empty.
    unfold buffer_empty. rewrite (decide_True (P := read_up_to _ = _)), decide_True by (done || congruence).
    exists (set_select m (bar_select d)). split; [reflexivity|]. split; [done|].
    change (read_up_to (n_card m) = cbr). by rewrite Hpos.
  - cbn [total foldr] in Hend', Htot. fold (total fs) in Hend', Htot.
    pose proof (span_pos f) as [Hsp Hs4]. pose proof (total_nonneg fs) as Htn.
    cbn [mfold] in Hnet. apply bind_Ret_inv in Hnet as (net1 & Hn1 & Hnet).
    assert (capr ≠ cbr) as Hne.
    { rewrite Hend'. clear - Hc Hsp Htn Htot. unfold RX_BUF_SIZE in *. destruct (decide (capr + (span f + total fs) < 8192)).
      - rewrite Z.mod_small by lia. lia.
      - replace (capr + (span f + total fs)) with (capr + (span f + total fs) - 8192 + 1 * 8192) by lia.
        rewrite Z.mod_add, Z.mod_small by lia. lia. }
    destruct (receive_round cbr fuel m capr net f fs) as (m1 & -> & Hcfg1 & Hcard1); [done..|].
    destruct Hring as (Hn & _ & Hring). set (capr' := next_capr capr _) in *.
    assert (capr' = (capr + span f) mod RX_BUF_SIZE) as Hnext by (apply next_capr_eq; unfold RX_BUF_SIZE in *; lia || done).
    assert (0 ≤ capr' < RX_BUF_SIZE) as Hc' by (rewrite Hnext; by apply Z.mod_pos_bound).
    rewrite (io_bind_Ret _ _ m1 net1 m1) by (unfold pure; by rewrite Hn1).
    assert (ready d m1) as Hr1 by (by eapply ready_cfg).
    rewrite (io_bind_Ret _ _ _ _ _ (rtl_outw_card d REG_CAPR _ m1 Hr1 ltac:(unfold REG_CAPR; lia))).
    set (m2 := mkNic _ _ _).
    destruct (IH fuel m2 capr' net1 net') as (m' & E & (Hcf & Hri & Hre) & Hend2).
    + by apply (ready_cfg d m1).
    + exact Hc'.
    + rewrite Hnext. apply mod_aligned. by apply Z.divide_add_r.
    + cbn in Hfuel. lia.
    + unfold read_up_to. cbn. rewrite decide_True by done. by apply capr_written.
    + cbn. rewrite Hcard1. done.
    + rewrite Hend', Hnext, Zplus_mod_idemp_l. f_equal. lia.
    + lia.
    + cbn. by rewrite Hcard1.
    + exact Hnet.
    + exists m'. split; [exact E|]. split; [|done]. split; [|split].
      * rewrite Hcf. exact Hcfg1.
      * rewrite Hri. cbn. by rewrite Hcard1.
      * intros r Hne'. rewrite Hre by done. cbn. rewrite decide_False by done. by rewrite Hcard1.
Qed.

(** [process_receive] runs the loop from where the driver has read to where the card has
    written. *)
Lemma process_receive_runs fuel self m net s net' m' :
  pci self = d → ready d m → try_decrement (pending_irqs self) = Some s →
  receive_loop (λ w, c_ring (n_card w)) log recv_frame fuel d (c_regs (n_card m) REG_CBR) (read_up_to (n_card m)) net
    (set_select m (bar_select d)) = Ret (net', m') →
  process_receive (λ w, c_ring (n_card w)) log recv_frame fuel self net m = Ret (Some (with_irqs self s, net'), m').
Proof.
  intros Hd Hr Hs E. unfold process_receive. rewrite Hs, Hd.
  rewrite (io_bind_Ret _ _ _ _ _ (rtl_inw_card d REG_CBR m Hr ltac:(unfold REG_CBR; lia))).
  rewrite (io_bind_Ret _ _ _ _ _ (rtl_inw_card d REG_CAPR (set_select m (bar_select d)) Hr ltac:(unfold REG_CAPR; lia))).
  change (set_select (set_select m _) _) with (set_select m (bar_select d)).
  change (card_in REG_CAPR (n_card (set_select m (bar_select d)))) with (c_regs (n_card m) REG_CAPR).
  change ((c_regs (n_card m) REG_CAPR + 0x10) mod RX_BUF_SIZE) with (read_up_to (n_card m)).
  change (card_in REG_CBR (n_card m)) with (c_regs (n_card m) REG_CBR). by rewrite (io_bind_Ret _ _ _ _ _ E).
Qed.

(** C28. Receiving: when an interrupt is pending and the ring holds frames from where the
    driver has read up to where the card has written, [process_receive] delivers each of them
    to the network stack, once and in order, and leaves the read position at the end, whether
    or not the frames wrap around the ring; one round per frame is enough. *)
Theorem rtl_receive fs fuel self m net net' :
  pci self = d → ready d m → 0 < count (pending_irqs self) → (length fs < fuel)%nat →
  (4 | read_up_to (n_card m)) → c_regs (n_card m) REG_CBR = (read_up_to (n_card m) + total fs) mod RX_BUF_SIZE →
  total fs < RX_BUF_SIZE → ring_holds (c_ring (n_card m)) (read_up_to (n_card m)) fs →
  mfold recv_frame fs net = Ret net' →
  ∃ self' m', process_receive (λ w, c_ring (n_card w)) log recv_frame fuel self net m = Ret (Some (self', net'), m') ∧
    count (pending_irqs self') = count (pending_irqs self) - 1 ∧ tx_bufs self' = tx_bufs self ∧
    received m m' ∧ read_up_to (n_card m') = c_regs (n_card m) REG_CBR.
Proof.
  intros Hd Hr Hcount Hfuel H4 Hcbr Htot Hring Hnet.
  destruct (receive_loop_spec (c_regs (n_card m) REG_CBR) fs fuel (set_select m (bar_select d)) (read_up_to (n_card m)) net net')
    as (m' & E & Hrec & Hend'); try done.
  { by apply Z.mod_pos_bound. }
  eexists _, m'. split; [|split; [|split; [|done]]].
  - apply process_receive_runs; [done|done|unfold try_decrement; by rewrite decide_True|exact E].
  - done.
  - done.
Qed.

(** The largest Ethernet frame, 1518 bytes with its CRC, in the last slot of the ring does not
    fit the buffer: reading it panics. *)
Theorem full_frame_at_end_panics cbr fuel m net rsr frame :
  ready d m → read_up_to (n_card m) = 8188 → c_regs (n_card m) REG_CBR = cbr → cbr ≠ 8188 →
  c_ring (n_card m) = take (Z.to_nat 8188) (c_ring (n_card m)) ++ rsr ++ to_le_bytes 2 1518 ++ frame →
  Z.of_nat (length (c_ring (n_card m))) = RX_BUF_SIZE_WITH_WRAP → length rsr = 2%nat →
  receive_loop (λ w, c_ring (n_card w)) log recv_frame (S fuel) d cbr 8188 net m = Panic IndexOutOfBounds.
Proof.
  intros Hr Hpos Hcbr Hne Hring Hlen Hrsr. cbn [receive_loop].
  rewrite (io_bind_Ret _ _ _ _ _ (rtl_inb_card d REG_COMMAND m Hr ltac:(unfold REG_COMMAND; lia))), command_empty.
  unfold buffer_empty. rewrite Hpos, Hcbr. rewrite (decide_False (P := 8188 = cbr)) by done.
  rewrite decide_False by done. rewrite (decide_False (P := cbr = 8188)) by done.
  set (m0 := set_select m _). rewrite (io_bind_Ret _ _ m0 (c_ring (n_card m)) m0) by reflexivity.
  change RX_BUF_SIZE_WITH_WRAP with 9708 in Hlen.
  assert (length (take (Z.to_nat 8188) (c_ring (n_card m))) = Z.to_nat 8188) as Ht by (rewrite length_take; lia).
  assert (Z.of_nat (length frame) = 1516) as Hf.
  { rewrite Hring, !length_app, Ht, Hrsr, length_to_le_bytes in Hlen. lia. }
  rewrite (io_bind_Ret _ _ m0 (rsr ++ to_le_bytes 2 1518 ++ frame) m0)
    by (unfold pure; by rewrite Hring, slice_from_app by (by rewrite Ht)).
  rewrite (io_bind_Ret _ _ m0 (rsr, to_le_bytes 2 1518 ++ frame) m0) by (unfold pure; by rewrite split_at_app).
  rewrite (io_bind_Ret _ _ m0 (to_le_bytes 2 1518, frame) m0) by (unfold pure; by rewrite split_at_app).
  rewrite from_to_le_bytes by done. unfold mbind at 1, io_bind, pure. by rewrite slice_panics by lia.
Qed.
End receive_spec.

(** ** Transmitting *)

Definition card_mac (c : card) : MACAddress := c_regs c <$> seqZ 0 6.

Lemma id_card self m :
  ready (pci self) m → ∃ sel, id self m = Ret (card_mac (n_card m), set_select m sel).
Proof.
  intros Hr. exists (bar_select (pci self)). unfold id, card_mac. change (seqZ 0 6) with [0; 1; 2; 3; 4; 5].
  cbn [io_fold fmap list_fmap]. unfold mbind, io_bind.
  repeat (rewrite rtl_inb_card by (done || lia); cbn [app set_select n_card n_cfg n_select mret io_ret]). reflexivity.
Qed.

(** A register that was written, and one that was not. *)
Lemma card_out_eq off v c : off ≠ REG_ISR → c_regs (card_out off v c) off = v.
Proof. intros Hne. cbn. rewrite decide_True by done. by rewrite decide_False. Qed.
Lemma card_out_ne off v c r : r ≠ off → c_regs (card_out off v c) r = c_regs c r.
Proof. intros Hne. cbn. by rewrite decide_False. Qed.

(** Transmitting: the frame, with the card's own address as its source, is written to the
    start of the next of the four buffers, the card is given the buffer's physical address
    and the frame's length in the registers of that buffer, and the buffers take turns;
    nothing else changes. *)
Theorem rtl_transmit (phys_addr : Z → option Z) (tx_buf_addr : nat → Z) self m dest tags e writer p buf phys :
  ready (pci self) m → length dest = 6%nat → length (ethertype_as_bytes e) = 2%nat → writes writer p →
  0 ≤ next_tx_desc self < 4 → tx_bufs self !! Z.to_nat (next_tx_desc self) = Some buf →
  phys_addr (tx_buf_addr (Z.to_nat (next_tx_desc self))) = Some phys →
  let bytes := dest ++ card_mac (n_card m) ++ tags_bytes (omap Datatypes.id tags) ++ ethertype_as_bytes e ++ p in
  (length bytes ≤ length buf)%nat → Z.of_nat (length bytes) < 0x2000 →
  let i := next_tx_desc self in
  ∃ m', transmit phys_addr tx_buf_addr self dest tags e writer m =
      Ret (with_tx self (<[Z.to_nat i := bytes ++ drop (length bytes) buf]> (tx_bufs self)) ((i + 1) mod 4), m') ∧
    c_regs (n_card m') (REG_TSAD0 + i * 4) = phys mod 2 ^ 32 ∧
    c_regs (n_card m') (REG_TSD0 + i * 4) = Z.of_nat (length bytes) ∧
    (∀ r, r ≠ REG_TSAD0 + i * 4 → r ≠ REG_TSD0 + i * 4 → c_regs (n_card m') r = c_regs (n_card m) r).
Proof.
  intros Hr Hd He Hw Hi Hbuf Hphys bytes Hfit Hlen i. unfold transmit.
  destruct (id_card self m Hr) as [sel Hid]. rewrite (io_bind_Ret _ _ _ _ _ Hid). set (m0 := set_select m sel).
  rewrite (io_bind_Ret _ _ m0 buf m0) by (unfold pure, index; by rewrite Hbuf).
  assert (build_frame buf dest (card_mac (n_card m)) tags e writer = Ret (mkFrame bytes, bytes ++ drop (length bytes) buf)) as Hbuild.
  { by apply build_frame_bytes. }
  rewrite (io_bind_Ret _ _ m0 (mkFrame bytes, bytes ++ drop (length bytes) buf) m0) by (unfold pure; by rewrite Hbuild).
  fold i. fold i in Hbuf, Hphys.
  rewrite (io_bind_Ret _ _ m0 (<[Z.to_nat i := bytes ++ drop (length bytes) buf]> (tx_bufs self)) m0).
  2: { unfold pure, index_set. rewrite decide_True; [done|]. by eapply lookup_lt_Some. }
  rewrite (io_bind_Ret _ _ m0 phys m0) by (unfold pure; by rewrite Hphys).
  rewrite Z2Nat.id by (unfold i; lia).
  assert (0 ≤ REG_TSAD0 + i * 4 < 0x100 ∧ 0 ≤ REG_TSD0 + i * 4 < 0x100) as [Ho1 Ho2] by (unfold REG_TSAD0, REG_TSD0, i; lia).
  rewrite (io_bind_Ret _ _ _ _ _ (rtl_outl_card _ _ _ m0 Hr Ho1)). set (m1 := mkNic _ _ _).
  rewrite (io_bind_Ret _ _ _ _ _ (rtl_outl_card _ _ _ m1 Hr Ho2)).
  eexists. split; [reflexivity|]. cbn [n_card m1]. unfold frame_len. cbn [frame_bytes].
  change 0x1fff with (Z.ones 13). rewrite Z.land_ones, (Z.mod_small (Z.of_nat _)) by lia. split_and!.
  - rewrite card_out_ne by (unfold REG_TSAD0, REG_TSD0; lia). apply card_out_eq. unfold REG_TSAD0, REG_ISR, i. lia.
  - apply card_out_eq. unfold REG_TSD0, REG_ISR, i. lia.
  - intros r H1 H2. by rewrite !card_out_ne.
Qed.

(** ** Interrupts *)

(** The handler acknowledges the receive and transmit interrupts and raises [pending_irqs]
    for a received frame, waking the task that waits; but bit 4, the overflow of the receive
    buffer, which [init] enables, stays set and keeps the line asserted. *)
Theorem rtl_handler_acknowledges (log : list Z → io nic ()) lapic n v m :
  (∀ l m, ∃ m', log l m = Ret (tt, m') ∧ n_cfg m' = n_cfg m ∧ n_card m' = n_card m) →
  ready (pci n) m → vector n = v mod 256 → fits 16 (c_regs (n_card m) REG_ISR) →
  let status := c_regs (n_card m) REG_ISR in
  ∃ n' woken m', rtl8139_handler log lapic [n] v m = Ret (([n'], woken), m') ∧
    (if decide (Z.land status 1 = 1)
     then n' = with_irqs n (try_signal (pending_irqs n)).1 ∧ woken = option_list (try_signal (pending_irqs n)).2
     else n' = n ∧ woken = []) ∧
    (∀ i, 0 ≤ i → Z.testbit (c_regs (n_card m') REG_ISR) i =
       if decide (i = 0 ∨ i = 2) then false else Z.testbit status i) ∧
    (∀ r, r ≠ REG_ISR → c_regs (n_card m') r = c_regs (n_card m) r).
Proof.
  intros Hlog Hr Hv Hfit status. unfold rtl8139_handler. cbn [io_fold].
  assert (∃ n' woken m1, handle_nic log v ([], []) n m = Ret (([n'], woken), m1) ∧
    (if decide (Z.land status 1 = 1)
     then n' = with_irqs n (try_signal (pending_irqs n)).1 ∧ woken = option_list (try_signal (pending_irqs n)).2
     else n' = n ∧ woken = []) ∧ n_card m1 = card_out REG_ISR 5 (n_card m)) as (n' & woken & m1 & E & Hn & Hc).
  { unfold handle_nic. rewrite decide_True by done.
    rewrite (io_bind_Ret _ _ _ _ _ (rtl_inw_card _ REG_ISR _ Hr ltac:(unfold REG_ISR; lia))).
    change (card_in REG_ISR (n_card m)) with status.
    destruct (Hlog [status] (set_select m (bar_select (pci n)))) as (m2 & E2 & Hcfg & Hcard).
    rewrite (io_bind_Ret _ _ _ _ _ E2).
    rewrite (io_bind_Ret _ _ _ _ _ (rtl_outw_card (pci n) REG_ISR 5 m2 (ready_cfg _ _ _ Hcfg Hr) ltac:(unfold REG_ISR; lia))).
    rewrite Hcard. destruct (decide (Z.land status 1 = 1)).
    - destruct (try_signal (pending_irqs n)) as [s t]. eexists _, _, _. split; [reflexivity|]. done.
    - eexists _, _, _. split; [reflexivity|]. done. }
  rewrite (io_bind_Ret _ _ _ ([n'], woken) m1) by (unfold mbind, io_bind; by rewrite E).
  eexists n', woken, m1. split; [reflexivity|]. split; [done|]. rewrite Hc. split.
  - intros i Hi. cbn. rewrite !decide_True by done. fold status. rewrite land_bnot by (done || lia).
    rewrite Z.ldiff_spec. destruct (decide (i = 0 ∨ i = 2)) as [[->| ->]|Hne]; [apply andb_false_r..|].
    replace (Z.testbit 5 i) with false; [apply andb_true_r|]. symmetry.
    destruct (decide (i = 1)) as [->|]; [done|]. apply Z.bits_above_log2; [done|]. change (Z.log2 5) with 2. lia.
  - intros r Hne. by apply card_out_ne.
Qed.

(** ** Initialisation *)

(** What [RTL8139::init] programs: the physical addresses of the five buffers, reception of
    every frame in wrap mode, both directions enabled, and interrupts for reception,
    transmission and overflow. *)
Theorem rtl_init_programs (phys_addr : Z → option Z) rx_buf_addr (tx_buf_addr : nat → Z) fuel uninit d m rx tx :
  ready d m → bdf_ok (bdf d) → phys_addr rx_buf_addr = Some rx → length tx = 4%nat →
  (∀ i a, tx !! i = Some a → phys_addr (tx_buf_addr i) = Some a) →
  ∃ m', rtl8139_init phys_addr rx_buf_addr tx_buf_addr (S fuel) uninit d m =
      Ret (mkRTL8139 d 0x26 uninit 0 (mkSemaphore 0 128 [] []), m') ∧
    ready d m' ∧ c_regs (n_card m') REG_RBSTART = rx mod 2 ^ 32 ∧
    (∀ i a, tx !! i = Some a → c_regs (n_card m') (REG_TSAD0 + Z.of_nat i * 4) = a mod 2 ^ 32) ∧
    c_regs (n_card m') REG_RCR = 0x8f ∧ c_regs (n_card m') REG_COMMAND = 0xc ∧ c_regs (n_card m') REG_IMR = 0x15.
Proof.
  intros Hr Hb Hrx Hlen Htx. destruct tx as [|t0 [|t1 [|t2 [|t3 [|? ?]]]]]; try done.
  unfold rtl8139_init. rewrite (io_bind_Ret _ _ m (mkSemaphore 0 128 [] []) m) by reflexivity.
  set (m0 := mkNic (Z.lor (cfg_base (bdf d)) 4)
    (λ a, if decide (a = Z.lor (cfg_base (bdf d)) 4) then 5 else n_cfg m a) (n_card m)).
  rewrite (io_bind_Ret _ _ m tt m0) by reflexivity.
  assert (ready d m0) as Hr0.
  { destruct Hr as [Hh Hbar]. split; unfold reg; cbn [n_cfg m0]; (rewrite decide_False; [done|]);
      intros E; apply cfg_addr_inj in E as [_ E]; done || lia. }
  assert (∀ sel c, ready d (mkNic sel (n_cfg m0) c)) as Hrs by (intros; by apply (ready_cfg d m0)).
  rewrite (io_bind_Ret _ _ _ _ _ (rtl_outb_card d REG_CONFIG_1 0 m0 Hr0 ltac:(done))).
  rewrite (io_bind_Ret _ _ _ _ _ (rtl_outb_card d REG_COMMAND 0x10 _ (Hrs _ _) ltac:(done))). cbn [n_cfg n_card].
  set (c1 := card_out REG_COMMAND _ _). cbn [wait_reset].
  rewrite (io_bind_Ret _ _ _ tt (mkNic (bar_select d) (n_cfg m0) c1)).
  2: { rewrite (io_bind_Ret _ _ _ _ _ (rtl_inb_card d REG_COMMAND _ (Hrs _ _) ltac:(done))).
       rewrite decide_True; [reflexivity|]. unfold card_in. rewrite decide_True, Z.land_lor_distr_l, <- Z.land_assoc by done.
       change (Z.land 0xc 0x10) with 0. rewrite Z.land_0_r, Z.lor_0_l. unfold buffer_empty. by destruct (decide _). }
  rewrite (io_bind_Ret _ _ _ rx (mkNic (bar_select d) (n_cfg m0) c1)) by (unfold pure; by rewrite Hrx).
  rewrite (io_bind_Ret _ _ _ _ _ (rtl_outl_card d REG_RBSTART _ _ (Hrs _ _) ltac:(done))). cbn [n_cfg n_card].
  set (c2 := card_out REG_RBSTART _ _).
  set (c3 := card_out (REG_TSAD0 + 3 * 4) (t3 mod 2 ^ 32) (card_out (REG_TSAD0 + 2 * 4) (t2 mod 2 ^ 32)
               (card_out (REG_TSAD0 + 1 * 4) (t1 mod 2 ^ 32) (card_out (REG_TSAD0 + 0 * 4) (t0 mod 2 ^ 32) c2)))).
  rewrite (io_bind_Ret _ _ _ tt (mkNic (bar_select d) (n_cfg m0) c3)).
  2: { cbn [io_fold]. pose proof (Htx 0%nat t0 eq_refl) as E0. pose proof (Htx 1%nat t1 eq_refl) as E1.
       pose proof (Htx 2%nat t2 eq_refl) as E2. pose proof (Htx 3%nat t3 eq_refl) as E3.
       unfold mbind, io_bind, pure. rewrite E0, E1, E2, E3. cbn [expect].
       repeat (rewrite rtl_outl_card by (apply Hrs || done); cbn [n_card n_cfg]). reflexivity. }
  rewrite (io_bind_Ret _ _ _ _ _ (rtl_outl_card d REG_RCR _ _ (Hrs _ _) ltac:(done))).
  rewrite (io_bind_Ret _ _ _ _ _ (rtl_outb_card d REG_COMMAND _ _ (Hrs _ _) ltac:(done))).
  rewrite (io_bind_Ret _ _ _ _ _ (rtl_outw_card d REG_IMR _ _ (Hrs _ _) ltac:(done))). cbn [n_cfg n_card].
  eexists. split; [reflexivity|]. split; [apply Hrs|]. split; [reflexivity|]. split; [|by split_and!].
  intros [|[|[|[|i]]]] a Ha; cbn in Ha; simplify_eq; reflexivity.
Qed.
End card.

(** ** Witnesses *)

Definition ex_nic_device : PCIDevice := mkPCIDevice (mkBDF 0 3 0) 0x8139 0x10ec 0 0 0 11 None.
Definition ex_nic_cfg (a : Z) : Z := if decide (a = Z.lor (cfg_base (mkBDF 0 3 0)) 0x10) then 0xc001 else 0.
Definition ex_rtl (n : Z) : RTL8139 := mkRTL8139 ex_nic_device 0x26 (replicate 4 (replicate 40 0)) 1 (mkSemaphore n 128 [] []).

(** Two frames, of three bytes and of one. *)
Definition ex_ring : list Z := [1; 0; 3; 0; 7; 8; 9; 0; 1; 0; 1; 0; 5; 0; 0; 0].
Definition ex_card : card :=
  mkCard (λ r, if decide (r = REG_CAPR) then 0xfff0 else if decide (r = REG_CBR) then 16 else 0) ex_ring.

Lemma rtl_receive_witness :
  ∃ self' m', process_receive (H := nic_hardware 0xc000) (λ w, c_ring (n_card w)) (λ _, mret tt)
      (λ net f, Ret (net ++ [f])) 3 (ex_rtl 1) [] (mkNic 0 ex_nic_cfg ex_card) =
    Ret (Some (self', [[7; 8; 9]; [5]]), m').
Proof.
  destruct (rtl_receive 0xc000 ltac:(lia) ltac:(lia) ltac:(by exists 12288) (λ _, mret tt) ex_nic_device
    ltac:(by intros l m; exists m) (λ net f, Ret (net ++ [f])) [[7; 8; 9]; [5]] 3 (ex_rtl 1)
    (mkNic 0 ex_nic_cfg ex_card) [] [[7; 8; 9]; [5]]) as (self' & m' & E & _).
  - reflexivity.
  - split; reflexivity.
  - reflexivity.
  - cbn. lia.
  - by exists 0.
  - reflexivity.
  - reflexivity.
  - split; [reflexivity|]. split; [exists [1; 0]; split; reflexivity|].
    split; [reflexivity|]. split; [exists [1; 0]; split; reflexivity|exact I].
  - reflexivity.
  - exists self', m'. exact E.
Defined.

Lemma rtl_transmit_witness :
  ∃ self' m', transmit (H := nic_hardware 0xc000) (λ a, Some (a - 100)) (λ i, 0x1000 + Z.of_nat i) (ex_rtl 0)
      [1; 2; 3; 4; 5; 6] [None; None] ARP (λ rest, Ret ([9; 9] ++ drop 2 rest, 2%nat)) (mkNic 0 ex_nic_cfg ex_card) =
    Ret (self', m') ∧ next_tx_desc self' = 2 ∧ c_regs (n_card m') (REG_TSD0 + 4) = 16.
Proof.
  destruct (rtl_transmit 0xc000 ltac:(lia) ltac:(lia) ltac:(by exists 12288) (λ a, Some (a - 100)) (λ i, 0x1000 + Z.of_nat i)
    (ex_rtl 0) (mkNic 0 ex_nic_cfg ex_card) [1; 2; 3; 4; 5; 6] [None; None] ARP
    (λ rest, Ret ([9; 9] ++ drop 2 rest, 2%nat)) [9; 9] (replicate 40 0) (0x1001 - 100)) as (m' & E & _ & Hl & _).
  - split; reflexivity.
  - reflexivity.
  - reflexivity.
  - intros rest _. reflexivity.
  - cbn. lia.
  - reflexivity.
  - reflexivity.
  - apply Nat.leb_le. reflexivity.
  - reflexivity.
  - eexists _, m'. split; [exact E|]. split; [reflexivity|exact Hl].
Defined.
