(* ===== verification/Mm.v ===== *)
(** * Kernel memory (src/arch/x86_64/mm.rs)

    [init_mm] turns the firmware's memory map into the page allocator and the mapper of the
    kernel; [page_fault_handler] serves faults with them.  The boot tables are given by the
    addresses the linker gives their symbols. *)

From S2P Require Import Prelude Physical PhysicalSpec Table Mapping MappingTree MappingSpec MappingCow MappingExamples MappingLimits Malloc.

Definition SCRATCH : Z := 0xffffffffc0000000.

(** The memory types the source names. *)
Inductive MemoryType :=
| BOOT_SERVICES_CODE | BOOT_SERVICES_DATA | CONVENTIONAL
| RUNTIME_SERVICES_CODE | RUNTIME_SERVICES_DATA | ACPI_RECLAIM | ACPI_NON_VOLATILE | LOADER_DATA
| MMIO | MMIO_PORT_SPACE | RESERVED
| OtherMemory (ty : Z).

Record MemoryDescriptor := mkDescriptor { mem_ty : MemoryType; phys_start : Z; page_count : Z }.

Definition is_free_memory (ty : MemoryType) : bool :=
  match ty with BOOT_SERVICES_CODE | BOOT_SERVICES_DATA | CONVENTIONAL => true | _ => false end.

Definition is_mapped_memory (ty : MemoryType) : bool :=
  match ty with
  | RUNTIME_SERVICES_CODE | RUNTIME_SERVICES_DATA | ACPI_RECLAIM | ACPI_NON_VOLATILE | LOADER_DATA
  | MMIO | MMIO_PORT_SPACE | RESERVED => true
  | _ => false
  end.

(** A block is a start and a length, a range a start and an end. *)
Definition exclude_range (block range : Z * Z) : outcome (option (Z * Z)) :=
  let '(start, length) := block in
  let '(r_start, r_end) := range in
  last ← checked_add 64 start length;
  match bool_decide (r_start ≤ start < r_end), bool_decide (r_start ≤ last < r_end) with
  | true, true => Ret None
  | true, false =>
      shift ← checked_sub r_end start;
      length ← checked_sub length shift;
      Ret (if decide (length = 0) then None else Some (r_end, length))
  | false, true =>
      shift ← checked_sub last r_start;
      length ← checked_sub length shift;
      Ret (if decide (length = 0) then None else Some (start, length))
  | false, false => Ret (Some (start, length))
  end.

(** The [?] of the loop returns [None] from the function. *)
Fixpoint exclude_go (block : option (Z * Z)) (ranges : list (Z * Z)) : outcome (option (Z * Z)) :=
  match ranges with
  | [] => Ret block
  | range :: ranges =>
      match block with
      | None => Ret None
      | Some b => block ← exclude_range b range; exclude_go block ranges
      end
  end.

Definition exclude_ranges (mdesc : MemoryDescriptor) (ranges : list (Z * Z)) : outcome (option (Z * Z)) :=
  length ← checked_mul 64 (page_count mdesc) 0x1000;
  exclude_go (Some (phys_start mdesc, length)) ranges.

(** The first loop of [init_mm]. *)
Definition free_blocks (memory_map : list MemoryDescriptor) : outcome (list (Z * Z)) :=
  mfold (λ blocks mdesc,
    if is_free_memory (mem_ty mdesc) then
      o ← exclude_ranges mdesc [(0, 0x800000)];
      Ret (match o with Some block => blocks ++ [block] | None => blocks end)
    else Ret blocks) memory_map [].

Definition boot_allocator (memory_map : list MemoryDescriptor) : outcome PageAllocator :=
  blocks ← free_blocks memory_map;
  init new blocks.

(** Writing an entry of a boot table, by its address in the kernel's half. *)
Definition write_boot_entry (ts : gmap Z PagingStruct) (table idx : Z) (f : PagingStructEntry → PagingStructEntry) :
    outcome (gmap Z PagingStruct) :=
  phys ← checked_sub table KERNEL_BASE;
  let a := phys + PAGING_STRUCTURE_BASE_ADDR in
  t ← expect (ts !! a) InvalidDeref;
  e ← get_entry t idx;
  t ← set_entry t idx (f e);
  Ret (<[a := t]> ts).

Definition init_mm (KERNEL_PML4 BOOT_PAGING_PDPT BOOT_PAGING_PDT : Z) (arch : X86_64BareMetal)
    (ts : gmap Z PagingStruct) (ram : gmap Z Z) (memory_map : list MemoryDescriptor) :
    outcome (Mapper X86_64BareMetal) :=
  allocator ← boot_allocator memory_map;
  page_structure_base ← paging_structure_base arch;
  let idx := Z.shiftr (Z.land page_structure_base MASK_47_39) 39 in
  pdpt ← checked_sub BOOT_PAGING_PDPT KERNEL_BASE;
  ts ← write_boot_entry ts KERNEL_PML4 idx (λ _, entry_new 0x3 pdpt);
  let idx := Z.shiftr (Z.land page_structure_base MASK_38_30) 30 in
  pdt ← checked_sub BOOT_PAGING_PDT KERNEL_BASE;
  ts ← write_boot_entry ts BOOT_PAGING_PDPT idx (λ _, entry_new (Z.lor PRESENT_FLAG RW_FLAG) pdt);
  let idx := Z.shiftr (Z.land page_structure_base MASK_29_21) 21 in
  ts ← write_boot_entry ts BOOT_PAGING_PDT idx (λ _, entry_new 0x83 0x200000);
  let arch := flush_tlb arch in
  mapper ← new_mapper page_structure_base 0x200000 7 allocator arch ts ram;
  '(mapper, _) ← alloc_page_at mapper 0xffff800000600000;
  mapper ← mfold (λ mapper mdesc,
    if is_mapped_memory (mem_ty mdesc) then
      mfold (λ mapper p,
        off ← checked_mul 64 p 0x1000;
        phys_addr ← checked_add 64 (phys_start mdesc) off;
        map_mmio mapper phys_addr) (seqZ 0 (page_count mdesc)) mapper
    else Ret mapper) memory_map mapper;
  ts ← write_boot_entry (tables mapper) KERNEL_PML4 0 (λ e, set_flags e PRESENT_FLAG false);
  let mapper := with_tables mapper ts in
  '(mapper, _) ← alloc_page_at mapper 0x1000;
  Ret (with_environment mapper (flush_tlb (environment mapper))).

(** [Halted]: interrupts are disabled and the processor stopped. *)
Inductive fault_end := Resumed | Halted.

Definition page_fault_handler {E} `{!Environment E} (mapper : Mapper E) (error_code virt_addr : Z) :
    outcome (Mapper E * fault_end) :=
  if decide (Z.land error_code PRESENT_FLAG = 0) then
    if decide (virt_addr = 0) then Ret (mapper, Halted)
    else '(mapper, _) ← alloc_page_at mapper virt_addr; Ret (mapper, Resumed)
  else if decide (Z.land error_code RW_FLAG = RW_FLAG) then
    '(mapper, _) ← cow mapper virt_addr SCRATCH; Ret (mapper, Resumed)
  else Ret (mapper, Halted).

(** ** The memory the allocator gets *)

(** What the firmware promises of a descriptor. *)
Definition descriptor_ok (d : MemoryDescriptor) : Prop :=
  0 ≤ phys_start d ∧ (PAGE_SIZE | phys_start d) ∧ 0 < page_count d ∧ phys_start d + page_count d * 0x1000 < 2 ^ 64.

Definition described (d : MemoryDescriptor) : Z * Z := (phys_start d, page_count d * 0x1000).

(** What is left of a block above the first 8 MiB. *)
Definition above (b : Z * Z) : option (Z * Z) :=
  let start := Z.max b.1 0x800000 in
  if decide (start < b.1 + b.2) then Some (start, b.1 + b.2 - start) else None.

Lemma exclude_low d :
  descriptor_ok d → exclude_ranges d [(0, 0x800000)] = Ret (above (described d)).
Proof.
  intros (H0 & _ & Hc & Hend). unfold exclude_ranges. rewrite (bind_Ret _ _ (page_count d * 0x1000)) by (apply checked_mul_ok; lia).
  cbn [exclude_go]. unfold exclude_range. rewrite (bind_Ret _ _ _ (checked_add_ok 64 _ _ Hend)).
  unfold above, described. cbn [fst snd]. set (len := page_count d * 0x1000) in *. assert (0 < len) by (unfold len; lia).
  destruct (decide (phys_start d < 0x800000)).
  - rewrite (bool_decide_eq_true_2 (0 ≤ phys_start d < _)) by lia.
    rewrite Z.max_r by lia. destruct (decide (phys_start d + len < 0x800000)).
    + rewrite (bool_decide_eq_true_2 (0 ≤ phys_start d + len < _)) by lia. cbn. by rewrite decide_False by lia.
    + rewrite (bool_decide_eq_false_2 (0 ≤ phys_start d + len < _)) by lia.
      rewrite checked_sub_ok by lia. ret. rewrite checked_sub_ok by lia. ret.
      destruct (decide (_ = 0)), (decide (_ < _)); try lia; [done|]. cbn.
      by replace (len - (8388608 - phys_start d)) with (phys_start d + len - 8388608) by lia.
  - rewrite (bool_decide_eq_false_2 (0 ≤ phys_start d < _)) by lia.
    rewrite (bool_decide_eq_false_2 (0 ≤ phys_start d + len < _)) by lia. ret.
    rewrite Z.max_l, decide_True by lia. cbn. by replace (phys_start d + len - phys_start d) with len by lia.
Qed.

Lemma free_blocks_go mm acc :
  Forall descriptor_ok mm →
  mfold (λ blocks mdesc,
    if is_free_memory (mem_ty mdesc) then
      o ← exclude_ranges mdesc [(0, 0x800000)];
      Ret (match o with Some block => blocks ++ [block] | None => blocks end)
    else Ret blocks) mm acc =
  Ret (acc ++ omap (λ d, if is_free_memory (mem_ty d) then above (described d) else None) mm).
Proof.
  intros Hok. revert acc. induction Hok as [|d mm Hd _ IH]; intros acc; cbn [mfold omap list_omap]; [by rewrite app_nil_r|].
  destruct (is_free_memory (mem_ty d)); [|apply IH].
  rewrite exclude_low by done. ret. destruct (above (described d)) as [b|]; [|apply IH].
  rewrite IH. by rewrite <- app_assoc.
Qed.

Lemma free_blocks_eq mm :
  Forall descriptor_ok mm →
  free_blocks mm = Ret (omap (λ d, if is_free_memory (mem_ty d) then above (described d) else None) mm).
Proof. intros Hok. unfold free_blocks. by rewrite free_blocks_go. Qed.

Lemma above_spec b p :
  (∃ b', above b = Some b' ∧ in_range b' p) ↔ in_range b p ∧ 0x800000 ≤ p.
Proof.
  unfold above, in_range. destruct (decide _) as [Hlt|Hge].
  - split.
    + intros (b' & [= <-] & Hp). cbn in *. lia.
    + intros [Hp Hp']. eexists. split; [done|]. cbn. lia.
  - split; [by intros (? & ? & _)|]. intros. exfalso. lia.
Qed.

Lemma above_ok d b : descriptor_ok d → above (described d) = Some b → range_ok b.
Proof.
  intros (H0 & Hal & Hc & Hend). unfold above, described, range_ok. cbn [fst snd].
  destruct (decide _) as [Hlt|]; [|done]. intros [= <-]. cbn [fst snd].
  assert ((PAGE_SIZE | 0x800000)) as H8 by (by exists 0x800).
  assert ((PAGE_SIZE | Z.max (phys_start d) 0x800000)) as Hs by (by apply Z.max_case).
  split_and!; [lia|done|lia| |lia].
  apply Z.divide_sub_r; [|done]. apply Z.divide_add_r; [done|]. apply Z.divide_mul_r. by exists 1.
Qed.

(** Parts of disjoint ranges are disjoint. *)
Lemma omap_disjoint {A} (f : A → option (Z * Z)) (g : A → Z * Z) (l : list A) :
  (∀ d b p, f d = Some b → in_range b p → in_range (g d) p) →
  (∀ i j d d' p, l !! i = Some d → l !! j = Some d' → in_range (g d) p → in_range (g d') p → i = j) →
  ∀ i j r r' p, omap f l !! i = Some r → omap f l !! j = Some r' → in_range r p → in_range r' p → i = j.
Proof.
  intros Hf. induction l as [|d l IH]; intros Hdisj i j r r' p Hi Hj Hr Hr'; [done|].
  assert (∀ k b b', f d = Some b' → omap f l !! k = Some b → in_range b' p → in_range b p → False) as Hd.
  { intros k b b' Hb' Hb Hp' Hp. apply list_elem_of_lookup_2, list_elem_of_omap in Hb as (d' & Hd' & Hb).
    apply list_elem_of_lookup in Hd' as [n Hn].
    by assert (0%nat = S n) by (apply (Hdisj 0%nat (S n) d d' p); eauto). }
  cbn [omap list_omap] in Hi, Hj. destruct (f d) as [b|] eqn:Hfd.
  - destruct i as [|i], j as [|j]; cbn in Hi, Hj; simplify_eq; [done|exfalso; eauto..|].
    f_equal. eapply (IH ltac:(intros i' j' ?? p' ????; eapply Nat.succ_inj, (Hdisj (S i') (S j')); done)); done.
  - eapply (IH ltac:(intros i' j' ?? p' ????; eapply Nat.succ_inj, (Hdisj (S i') (S j')); done)); done.
Qed.

(** C29. The allocator the kernel starts with, for every memory map with aligned and disjoint
    descriptors: it owns only memory that the map says is free and that lies above the 8 MiB
    the kernel, its heap and its tables are in; and it owns every such page whose megabyte
    has a byte that is not free. *)
Theorem boot_allocator_owns mm :
  Forall descriptor_ok mm →
  (∀ i j d d' p, mm !! i = Some d → mm !! j = Some d' → in_range (described d) p → in_range (described d') p → i = j) →
  let usable p := ∃ d, d ∈ mm ∧ is_free_memory (mem_ty d) = true ∧ in_range (described d) p ∧ 0x800000 ≤ p in
  ∃ pa, boot_allocator mm = Ret pa ∧ wf pa ∧
    (∀ p, covers pa p → usable p) ∧
    (∀ p q, usable p → same_chunk q p → ¬ usable q → covers pa p).
Proof.
  intros Hok Hdisj usable. unfold boot_allocator. rewrite (bind_Ret _ _ _ (free_blocks_eq mm Hok)).
  set (f d := if is_free_memory (mem_ty d) then above (described d) else None).
  assert (∀ p, usable p ↔ ∃ r, r ∈ omap f mm ∧ in_range r p) as Hus.
  { intros p. unfold usable. setoid_rewrite list_elem_of_omap. unfold f. split.
    - intros (d & Hd & Hfree & Hp). apply above_spec in Hp as (b & Hb & Hp). exists b. split; [|done].
      exists d. by rewrite Hfree.
    - intros (r & (d & Hd & Hr) & Hp). destruct (is_free_memory (mem_ty d)) eqn:Hfree; [|done].
      exists d. split_and!; [done|done|..]; apply (above_spec (described d) p); eauto. }
  destruct (init_fold_spec (omap f mm) empty_allocator wf_empty) as (pa & Hrun & Hwf & Hs & Hc).
  - apply Forall_forall. intros b (d & Hd & Hb)%list_elem_of_omap. unfold f in Hb.
    destruct (is_free_memory (mem_ty d)); [|done]. eapply above_ok; [|done]. by eapply Forall_forall.
  - clear - Hdisj. apply (omap_disjoint f described); [|done]. intros d b p Hb Hp. unfold f in Hb.
    destruct (is_free_memory (mem_ty d)); [|done]. apply (above_spec (described d) p). eauto.
  - intros r p _ _. apply not_covers_empty.
  - exists pa. split_and!; [|done|..].
    + unfold init, new. cbn [free_lists]. by rewrite app_nil_l.
    + intros p [[]%not_covers_empty|(r & Hr & Hp & _)]%Hs. apply Hus. eauto.
    + intros p q Hp Hqp Hno. destruct (Hc p) as [?|Hq]; [right; by apply Hus|done|].
      destruct (Hq q Hqp) as [[]%not_covers_empty|?]. destruct Hno. by apply Hus.
Qed.

(** A range that lies strictly inside a block is not taken out of it.  (The one range the
    kernel excludes starts at 0, so that no block reaches below it.) *)
Theorem exclude_range_inside start length r_start r_end :
  start < r_start → r_start < r_end → r_end ≤ start + length → start + length < 2 ^ 64 →
  exclude_range (start, length) (r_start, r_end) = Ret (Some (start, length)).
Proof.
  intros H1 H2 H3 H4. unfold exclude_range. rewrite (bind_Ret _ _ _ (checked_add_ok 64 _ _ H4)).
  by rewrite !bool_decide_eq_false_2 by lia.
Qed.

(** ** Page faults *)

Section faults.
Context {E : Type} `{!Environment E}.
Implicit Types mapper : Mapper E.
#[local] Abbreviation PSB := (PAGING_STRUCTURE_BASE E).

(** C30. A fault on a page that is not present, when the allocator has a page: at an aligned
    address the page is mapped there and nothing else changes; at any other address of the
    page, which is where most faults are, the mapper refuses the address, so the handler
    returns with one page less in the allocator and the address still not mapped, and the
    access faults again. *)
Theorem page_fault_not_present dm r mapper error_code virt blk pa :
  Z.land error_code PRESENT_FLAG = 0 → virt ≠ 0 →
  current dm r mapper → next mapper + 3 ≤ capacity mapper → no_huge mapper r virt →
  allocate (page_allocator mapper) 12 = Ret (Some blk, pa) → page_addr (Physical.get_addr blk) →
  mapped_pages mapper !! Physical.get_addr blk = None →
  ∃ mapper', page_fault_handler mapper error_code virt = Ret (mapper', Resumed) ∧
    page_allocator mapper' = pa ∧
    ((0x1000 | virt) → ∀ w, translate mapper' w =
       if decide (page_of w = page_of virt) then Ret (Some (Physical.get_addr blk + w mod 0x1000)) else translate mapper w) ∧
    (¬ (0x1000 | virt) → ∀ w, translate mapper' w = translate mapper w).
Proof.
  intros He Hv0 Hcur Hcap Hno Hall Hblk Hfresh. unfold page_fault_handler.
  rewrite (decide_True (P := Z.land _ _ = 0)), (decide_False (P := virt = 0)) by done.
  unfold alloc_page_at. rewrite Hall. cbn [mbind outcome_bind]. set (m0 := with_page_allocator mapper pa).
  assert (same_walk mapper m0) as Hsw by (by apply same_walk_ext).
  destruct (decide (virt mod 0x1000 = 0)) as [Hal|Hal]; rewrite Z.mod_divide in Hal by done.
  - destruct (map_fresh_translates dm r m0 (Physical.get_addr blk) virt)
      as (m' & dm' & E1 & _ & _ & Htr & _ & Hpa); [by apply current_page_allocator|done| |done|done|done|].
    { intros l. rewrite <- Hsw. apply Hno. }
    exists m'. rewrite E1. cbn. split_and!; [done|done| |done].
    intros _ w. rewrite Htr. destruct (decide _); [done|]. reflexivity.
  - exists m0. unfold map. rewrite decide_False by (intros Hx; apply Hx; apply (aligned_mask 12); [done|apply Hblk]).
    rewrite decide_True by (by apply misaligned_mask). cbn. split_and!; [done|done|done|]. intros _ w. reflexivity.
Qed.

(** A fault that is neither on an absent page nor a write stops the machine, and so does an
    access to address 0. *)
Theorem page_fault_halts mapper error_code virt :
  (Z.land error_code PRESENT_FLAG = 0 ∧ virt = 0) ∨
  (Z.land error_code PRESENT_FLAG ≠ 0 ∧ Z.land error_code RW_FLAG ≠ RW_FLAG) →
  page_fault_handler mapper error_code virt = Ret (mapper, Halted).
Proof.
  intros [[H1 H2]|[H1 H2]]; unfold page_fault_handler; [by rewrite !decide_True|by rewrite !decide_False].
Qed.
End faults.

(** ** Witnesses *)

Lemma boot_allocator_owns_witness :
  let mm := [mkDescriptor CONVENTIONAL 0x7ff000 3; mkDescriptor RESERVED 0x802000 5] in
  ∃ pa, boot_allocator mm = Ret pa ∧ covers pa 0x800000 ∧ ¬ covers pa 0x7ff000.
Proof.
  set (mm := [mkDescriptor CONVENTIONAL 0x7ff000 3; mkDescriptor RESERVED 0x802000 5]).
  destruct (boot_allocator_owns mm) as (pa & E & _ & Hs & Hc).
  - repeat constructor; cbn; (lia || by apply Z.mod_divide).
  - intros i j d d' p Hi Hj Hp Hp'. destruct i as [|[|i]], j as [|[|j]]; cbn in Hi, Hj; simplify_eq; try done;
      unfold in_range, described in Hp, Hp'; cbn in Hp, Hp'; lia.
  - exists pa. split; [exact E|]. split.
    + apply (Hc 0x800000 0x802000).
      * exists (mkDescriptor CONVENTIONAL 0x7ff000 3). split; [apply list_elem_of_here|]. split; [reflexivity|].
        unfold in_range, described. cbn. lia.
      * reflexivity.
      * intros (d & Hd & Hf & Hp & _). apply elem_of_cons in Hd as [->|Hd]; [unfold in_range, described in Hp; cbn in Hp; lia|].
        apply list_elem_of_singleton in Hd as ->. discriminate.
    + intros (d & _ & _ & _ & Hp)%Hs. lia.
Defined.

(** An empty address space and an allocator with one page. *)
Definition ex_fault : Mapper X86_64BareMetal := with_page_allocator ex_blank (singleton_allocator (mkBlock 0x800000 12)).

Lemma page_fault_not_present_witness :
  ∃ mapper', page_fault_handler ex_fault 0x2 0x1000 = Ret (mapper', Resumed) ∧ translate mapper' 0x1234 = Ret (Some 0x800234).
Proof.
  destruct (page_fault_not_present (ex_dm ex_blank [ex_base]) ex_base ex_fault 0x2 0x1000 (mkBlock 0x800000 12) empty_allocator)
    as (m' & E & _ & Htr & _).
  - reflexivity.
  - discriminate.
  - exact (current_page_allocator _ _ _ _ ex_blank_ok).
  - vm_compute. discriminate.
  - intros l Hl. change (leaf ex_blank ex_base 0x1000 = Some l) in Hl. rewrite ex_blank_leaf in Hl. discriminate.
  - reflexivity.
  - apply page_addr_check. reflexivity.
  - vm_compute. reflexivity.
  - exists m'. split; [exact E|]. rewrite Htr; [reflexivity|]. by exists 1.
Defined.
