(* ===== verification/Elf.v ===== *)
(** * The ELF loader (bootloader/src/loader/elf.rs)

    [load_elf] on a file of bytes and the memory the segments are written to.  The headers
    are read through casts of raw pointers into the file; a read past its end, which nothing
    checks, is [Panic InvalidDeref].  The theorem is about every file that has the headers of
    some list of segments. *)

From S2P Require Import Prelude Memory.

Definition E_IDENT : nat := 16.

Record ElfHeader := mkElfHeader {
  e_ident : list Z;
  e_type : Z;
  e_machine : Z;
  e_version : Z;
  e_entry : Z;
  e_phoff : Z;
  e_shoff : Z;
  e_flags : Z;
  e_ehsize : Z;
  e_phentsize : Z;
  e_phnum : Z;
  e_shentsize : Z;
  e_shnum : Z;
  e_shstrndx : Z;
}.

Record ProgramHeader := mkProgramHeader {
  p_type : Z;
  p_flags : Z;
  p_offset : Z;
  p_vaddr : Z;
  p_paddr : Z;
  p_filesz : Z;
  p_memsz : Z;
  p_align : Z;
}.

(** The widths of the fields, those of [ElfHeader] after [e_ident]. *)
Definition elf_widths : list nat := [2; 2; 4; 8; 8; 8; 4; 2; 2; 2; 2; 2; 2]%nat.
Definition ph_widths : list nat := [4; 4; 8; 8; 8; 8; 8; 8]%nat.
Definition ELF_HEADER_SIZE : nat := 64.
Definition PROGRAM_HEADER_SIZE : nat := 56.

(** The [size] bytes a reference cast from [&file[at]] covers. *)
Definition deref (file : list Z) (at_ size : nat) : outcome (list Z) :=
  if decide (at_ + size ≤ length file)%nat then Ret (take size (drop at_ file)) else Panic InvalidDeref.

Definition read_elf_header (file : list Z) : outcome ElfHeader :=
  b ← deref file 0 ELF_HEADER_SIZE;
  match decode_fields elf_widths (drop E_IDENT b) with
  | [t; m; v; en; ph; sh; fl; eh; phe; phn; she; shn; shs] =>
      Ret (mkElfHeader (take E_IDENT b) t m v en ph sh fl eh phe phn she shn shs)
  | _ => Panic Unreachable
  end.

Definition read_program_header (file : list Z) (at_ : nat) : outcome ProgramHeader :=
  b ← deref file at_ PROGRAM_HEADER_SIZE;
  match decode_fields ph_widths b with
  | [t; fl; off; va; pa; fs; ms; al] => Ret (mkProgramHeader t fl off va pa fs ms al)
  | _ => Panic Unreachable
  end.

Fixpoint read_program_headers (file : list Z) (at_ n : nat) : outcome (list ProgramHeader) :=
  match n with
  | O => Ret []
  | S n =>
      ph ← read_program_header file at_;
      phs ← read_program_headers file (at_ + PROGRAM_HEADER_SIZE) n;
      Ret (ph :: phs)
  end.

(** One round of the loop: clear [p_memsz] bytes, then copy [p_filesz]. *)
Definition load_segment (file : list Z) (mem : Z → Z) (ph : ProgramHeader) : outcome (Z → Z) :=
  if decide (p_paddr ph = 0) then Ret mem else
  let mem := write_bytes mem (p_paddr ph) (replicate (Z.to_nat (p_memsz ph)) 0) in
  _ ← assert_that (bool_decide (p_filesz ph ≤ p_memsz ph)) IndexOutOfBounds;
  last ← checked_add 64 (p_offset ph) (p_filesz ph);
  src ← slice file (Z.to_nat (p_offset ph)) (Z.to_nat last);
  Ret (write_bytes mem (p_paddr ph) src).

Definition MAGIC : list Z := [69; 76; 70]. (* ELF *)

Definition load_elf (elf_file : list Z) (mem : Z → Z) : outcome ((Z → Z) * Result Z string) :=
  _ ← index elf_file 0;
  elf_header ← read_elf_header elf_file;
  magic ← slice (e_ident elf_header) 1 4;
  if negb (utf8_valid magic) then Ret (mem, Err "failed to read magic"%string) else
  _ ← assert_that (bool_decide (magic = MAGIC)) (AssertionFailed "magic");
  _ ← index elf_file (Z.to_nat (e_phoff elf_header));
  program_headers ← read_program_headers elf_file (Z.to_nat (e_phoff elf_header)) (Z.to_nat (e_phnum elf_header));
  _ ← assert_that (bool_decide (Z.of_nat PROGRAM_HEADER_SIZE = e_phentsize elf_header)) (AssertionFailed "e_phentsize");
  mem ← mfold (load_segment elf_file) program_headers mem;
  Ret (mem, Ok (e_entry elf_header)).

(** ** Files *)

Definition header_fields (h : ElfHeader) : list Z :=
  [e_type h; e_machine h; e_version h; e_entry h; e_phoff h; e_shoff h; e_flags h; e_ehsize h; e_phentsize h;
   e_phnum h; e_shentsize h; e_shnum h; e_shstrndx h].
Definition ph_fields (ph : ProgramHeader) : list Z :=
  [p_type ph; p_flags ph; p_offset ph; p_vaddr ph; p_paddr ph; p_filesz ph; p_memsz ph; p_align ph].

Definition header_bytes (h : ElfHeader) : list Z := e_ident h ++ encode_fields elf_widths (header_fields h).
Definition ph_bytes (ph : ProgramHeader) : list Z := encode_fields ph_widths (ph_fields ph).

(** A file with the header [h] and the program headers [phs]. *)
Record elf_ok (file : list Z) (h : ElfHeader) (phs : list ProgramHeader) : Prop := {
  elf_magic : length (e_ident h) = E_IDENT ∧ slice (e_ident h) 1 4 = Ret MAGIC;
  elf_fields : fields_ok elf_widths (header_fields h);
  elf_header : ∃ rest, file = header_bytes h ++ rest;
  elf_phentsize : e_phentsize h = 56;
  elf_phnum : e_phnum h = Z.of_nat (length phs);
  elf_phs : ∃ pre rest, file = pre ++ concat (ph_bytes <$> phs) ++ rest ∧ e_phoff h = Z.of_nat (length pre);
  elf_ph_fields : Forall (λ ph, fields_ok ph_widths (ph_fields ph)) phs;
  elf_phs_some : phs ≠ [];
}.

(** A segment whose bytes are in the file. *)
Definition segment_ok (file : list Z) (ph : ProgramHeader) : Prop :=
  0 ≤ p_filesz ph ≤ p_memsz ph ∧ 0 ≤ p_offset ph ∧ p_offset ph + p_filesz ph ≤ Z.of_nat (length file) ∧
  p_offset ph + p_filesz ph < 2 ^ 64.

Definition in_segment (ph : ProgramHeader) (x : Z) : Prop := p_paddr ph ≠ 0 ∧ p_paddr ph ≤ x < p_paddr ph + p_memsz ph.

(** What a loaded segment holds at [x]. *)
Definition segment_byte (file : list Z) (ph : ProgramHeader) (x : Z) : Z :=
  let i := x - p_paddr ph in
  if decide (i < p_filesz ph) then default 0 (file !! Z.to_nat (p_offset ph + i)) else 0.

Lemma deref_app (l m r : list Z) n k : n = length l → k = length m → deref (l ++ m ++ r) n k = Ret m.
Proof.
  intros -> ->. unfold deref. rewrite decide_True by (rewrite !length_app; lia).
  by rewrite drop_app_length, take_app_length.
Qed.

Lemma length_ph_bytes ph : length (ph_bytes ph) = 56%nat.
Proof. unfold ph_bytes. by rewrite length_encode. Qed.

Lemma read_program_header_ok pre ph rest :
  fields_ok ph_widths (ph_fields ph) → read_program_header (pre ++ ph_bytes ph ++ rest) (length pre) = Ret ph.
Proof.
  intros Hok. unfold read_program_header. rewrite deref_app by (done || by rewrite length_ph_bytes). ret.
  rewrite <- (app_nil_r (ph_bytes ph)). unfold ph_bytes. rewrite decode_encode by done. by destruct ph.
Qed.

Lemma read_program_headers_ok phs : ∀ pre rest,
  Forall (λ ph, fields_ok ph_widths (ph_fields ph)) phs →
  read_program_headers (pre ++ concat (ph_bytes <$> phs) ++ rest) (length pre) (length phs) = Ret phs.
Proof.
  induction phs as [|ph phs IH]; intros pre rest Hok; [done|]. apply Forall_cons in Hok as [Hph Hok].
  cbn [length read_program_headers fmap list_fmap concat]. rewrite <- app_assoc, read_program_header_ok by done. ret.
  rewrite app_assoc. replace (length pre + PROGRAM_HEADER_SIZE)%nat with (length (pre ++ ph_bytes ph)).
  - by rewrite IH.
  - by rewrite length_app, length_ph_bytes.
Qed.

Lemma read_elf_header_ok file h phs : elf_ok file h phs → read_elf_header file = Ret h.
Proof.
  intros [[Hid _] Hf [rest ->] _ _ _ _ _]. unfold read_elf_header, header_bytes.
  assert (length (encode_fields elf_widths (header_fields h)) = 48%nat) as Hl by (by rewrite length_encode).
  rewrite (bind_Ret _ _ (e_ident h ++ encode_fields elf_widths (header_fields h))).
  2: { apply (deref_app []); [done|]. by rewrite length_app, Hid, Hl. }
  rewrite drop_app_length', take_app_length' by (by rewrite Hid).
  rewrite <- (app_nil_r (encode_fields _ _)), decode_encode by done. by destruct h.
Qed.

Lemma load_segment_spec file mem ph :
  segment_ok file ph →
  ∃ mem', load_segment file mem ph = Ret mem' ∧
    (∀ x, in_segment ph x → mem' x = segment_byte file ph x) ∧
    (∀ x, ¬ in_segment ph x → mem' x = mem x).
Proof.
  intros (Hsz & Hoff & Hlen & H64). unfold load_segment, in_segment.
  destruct (decide (p_paddr ph = 0)); [exists mem; split_and!; [done|naive_solver|done]|].
  rewrite bool_decide_eq_true_2 by lia. ret. rewrite checked_add_ok by done. ret.
  unfold slice. rewrite decide_True by lia. ret. set (src := take _ _).
  assert (length src = Z.to_nat (p_filesz ph)) as Hsrc by (unfold src; rewrite length_take, length_drop; lia).
  eexists. split; [done|]. split.
  - intros x [_ Hx]. unfold segment_byte. destruct (decide (x - p_paddr ph < p_filesz ph)).
    + destruct (lookup_lt_is_Some_2 file (Z.to_nat (p_offset ph + (x - p_paddr ph)))) as [b Hb]; [lia|]. rewrite Hb.
      apply write_bytes_inside; [lia|]. unfold src. rewrite lookup_take_lt, lookup_drop by lia.
      by replace (Z.to_nat (p_offset ph) + Z.to_nat (x - p_paddr ph))%nat with (Z.to_nat (p_offset ph + (x - p_paddr ph))) by lia.
    + rewrite write_bytes_outside by lia. apply write_bytes_inside; [lia|]. apply lookup_replicate. lia.
  - intros x Hx. rewrite !write_bytes_outside; [done|rewrite length_replicate; lia|lia].
Qed.

Lemma load_segments_spec file phs : ∀ mem,
  Forall (segment_ok file) phs →
  (∀ i j ph ph' x, phs !! i = Some ph → phs !! j = Some ph' → in_segment ph x → in_segment ph' x → i = j) →
  ∃ mem', mfold (load_segment file) phs mem = Ret mem' ∧
    (∀ ph x, ph ∈ phs → in_segment ph x → mem' x = segment_byte file ph x) ∧
    (∀ x, (∀ ph, ph ∈ phs → ¬ in_segment ph x) → mem' x = mem x).
Proof.
  induction phs as [|ph phs IH]; intros mem Hok Hdisj.
  { exists mem. split_and!; [done| |done]. by intros ? ? ?%not_elem_of_nil. }
  apply Forall_cons in Hok as [Hph Hok]. destruct (load_segment_spec file mem ph Hph) as (mem1 & E1 & Hin1 & Hout1).
  destruct (IH mem1 Hok) as (mem' & E & Hin & Hout).
  { intros i j a b x Hi Hj Ha Hb. eapply Nat.succ_inj, (Hdisj (S i) (S j)); done. }
  exists mem'. cbn [mfold]. rewrite E1. ret. split_and!; [done| |].
  - intros a x [->|Ha]%elem_of_cons Hx; [|by apply Hin]. rewrite Hout; [by apply Hin1|].
    intros b Hb Hbx. apply list_elem_of_lookup in Hb as [n Hn].
    by assert (0%nat = S n) by (apply (Hdisj 0%nat (S n) ph b x); done).
  - intros x Hx. rewrite Hout; [apply Hout1, Hx, list_elem_of_here|]. intros b Hb. apply Hx. by apply list_elem_of_further.
Qed.

(** Loading an ELF file whose segments lie in the file and do not overlap in memory:
    every segment that has a physical address holds its bytes of the file followed by zeroes
    up to its size in memory, no other memory changes, and the entry point is that of the
    header; the types of the segments are not looked at. *)
Lemma load_elf_places file h phs mem :
  elf_ok file h phs → Forall (segment_ok file) phs →
  (∀ i j ph ph' x, phs !! i = Some ph → phs !! j = Some ph' → in_segment ph x → in_segment ph' x → i = j) →
  ∃ mem', load_elf file mem = Ret (mem', Ok (e_entry h)) ∧
    (∀ ph x, ph ∈ phs → in_segment ph x → mem' x = segment_byte file ph x) ∧
    (∀ x, (∀ ph, ph ∈ phs → ¬ in_segment ph x) → mem' x = mem x).
Proof.
  intros Hfile Hok Hdisj. pose proof (read_elf_header_ok _ _ _ Hfile) as Hh.
  destruct (load_segments_spec file phs mem Hok Hdisj) as (mem' & E & Hin & Hout). exists mem'. split; [|done].
  destruct Hfile as [[Hid Hmagic] Hf [rest Hr] Hsz Hnum (pre & rest' & Hfile & Hoff) Hphs Hne]. unfold load_elf.
  assert (∃ b, file !! 0%nat = Some b) as [b Hb].
  { apply lookup_lt_is_Some_2. rewrite Hr. unfold header_bytes. rewrite !length_app, Hid. unfold E_IDENT. lia. }
  rewrite (bind_Ret _ _ b) by (by apply index_Ret_inv). rewrite (bind_Ret _ _ _ Hh), (bind_Ret _ _ _ Hmagic).
  cbn [utf8_valid MAGIC Z.ltb Z.compare Pos.compare Pos.compare_cont negb].
  rewrite (bool_decide_eq_true_2 (MAGIC = MAGIC)) by done. ret.
  rewrite Hoff, Nat2Z.id.
  assert (∃ b, file !! length pre = Some b) as [b' Hb'].
  { apply lookup_lt_is_Some_2. rewrite Hfile. destruct phs as [|ph phs]; [done|]. cbn [fmap list_fmap concat].
    rewrite !length_app, length_ph_bytes. lia. }
  rewrite (bind_Ret _ _ b') by (by apply index_Ret_inv). rewrite Hnum, Nat2Z.id.
  rewrite (bind_Ret _ _ phs) by (rewrite Hfile; by apply read_program_headers_ok).
  rewrite (bool_decide_eq_true_2 (Z.of_nat PROGRAM_HEADER_SIZE = e_phentsize h)) by (by rewrite Hsz). ret. by rewrite E.
Qed.

(** A file of one segment. *)
Definition ex_elf_header : ElfHeader :=
  mkElfHeader [127; 69; 76; 70; 2; 1; 1; 0; 0; 0; 0; 0; 0; 0; 0; 0] 2 62 1 0x200010 64 0 0 64 56 1 0 0 0.
Definition ex_segment : ProgramHeader := mkProgramHeader 1 5 120 0 0x200000 3 0x10000 0x1000.
Definition ex_elf : list Z := header_bytes ex_elf_header ++ ph_bytes ex_segment ++ [7; 8; 9].

Lemma ex_elf_ok : elf_ok ex_elf ex_elf_header [ex_segment].
Proof.
  split.
  - by split.
  - repeat constructor; cbn; lia.
  - by exists (ph_bytes ex_segment ++ [7; 8; 9]).
  - done.
  - done.
  - by exists (header_bytes ex_elf_header), [7; 8; 9].
  - repeat constructor; cbn; lia.
  - done.
Qed.

Lemma ex_segment_ok : Forall (segment_ok ex_elf) [ex_segment].
Proof. apply Forall_singleton. by split_and!. Qed.
