(* ===== verification/Serial.v ===== *)
(** * The serial port (src/drivers/serial.rs)

    The driver in the [io] monad.  [uart] is the part of the device it polls: whether the
    transmitter is ready and whether a byte has arrived, at each reading of the line status,
    and the bytes that went out.  [write_all] waits for the device as long as it takes; its
    fuel counts the calls of [write]. *)

From S2P Require Import Prelude Io.

Definition COM1_PORT : Z := 0x3f8.

Record Com := mkCom { com_port : option Z }.

Section driver.
Context {W : Type} `{Hardware W}.
Implicit Types self : Com.

Definition com_inb self (offset : Z) : io W Z :=
  match com_port self with
  | Some port => a ← pure (checked_add 16 port offset); inb a
  | None => mret 0
  end.

Definition com_outb self (offset data : Z) : io W () :=
  match com_port self with
  | Some port => a ← pure (checked_add 16 port offset); outb a data
  | None => mret tt
  end.

Definition com_new (port divisor : Z) : io W Com :=
  let com := mkCom (Some port) in
  _ ← com_outb com 1 0;
  _ ← com_outb com 3 0x80;
  _ ← com_outb com 0 (divisor mod 256);
  _ ← com_outb com 1 (Z.shiftr divisor 8 mod 256);
  _ ← com_outb com 3 0x03;
  _ ← com_outb com 2 0xc7;
  _ ← com_outb com 1 0x07;
  _ ← com_outb com 4 0x0b;
  mret com.

Definition line_status self : io W Z := com_inb self 5.

Definition write_byte self (byte : Z) : io W () :=
  if decide (byte = 10) then _ ← com_outb self 0 13; com_outb self 0 10
  else com_outb self 0 byte.

Definition read_byte self : io W Z := com_inb self 0.

(** [read], of at most [n] bytes: the bytes read. *)
Fixpoint com_read self (n : nat) : io W (list Z) :=
  match n with
  | O => mret []
  | S n =>
      status ← line_status self;
      if decide (Z.land status 0x1 ≠ 1) then mret []
      else b ← read_byte self; bs ← com_read self n; mret (b :: bs)
  end.

(** [write]: the number of bytes written before the device was busy. *)
Fixpoint com_write self (buf : list Z) : io W nat :=
  match buf with
  | [] => mret 0%nat
  | b :: buf =>
      status ← line_status self;
      if decide (Z.land status 0x20 ≠ 0x20) then mret 0%nat
      else _ ← write_byte self b; n ← com_write self buf; mret (S n)
  end.

Fixpoint write_all (fuel : nat) self (slice : list Z) : io W () :=
  match fuel with
  | O => pure (Panic OutOfFuel)
  | S fuel =>
      if decide (0 < length slice)%nat then
        written ← com_write self slice;
        '(_, t) ← pure (split_at slice written);
        write_all fuel self t
      else mret tt
  end.

(** [Write::write_str]: [false] is the error. *)
Definition com_write_str (fuel : nat) self (s : list Z) : io W bool :=
  match com_port self with
  | Some _ => _ ← write_all fuel self s; mret true
  | None => mret false
  end.

Definition tmp_write_com1 (fuel : nat) (com1 : Com) (buf : list Z) : io W () :=
  match com_port com1 with
  | Some _ => write_all fuel com1 buf
  | None => mret tt
  end.

(** [read_com1]: what was typed is written back. *)
Definition read_com1 (fuel : nat) (com1 : Com) : io W () :=
  match com_port com1 with
  | Some _ => buf ← com_read com1 16; write_all fuel com1 buf
  | None => mret tt
  end.

Definition serial_init : io W Com :=
  com ← com_new COM1_PORT 0x2;
  _ ← com_write com [0x1b; 91; 50; 48; 104];
  mret com.
End driver.

(** ** The device *)

(** What the next readings of the line status find (a ready transmitter and no byte when the
    list ends), the bytes to be read, and the bytes sent. *)
Record uart := mkUart { u_ready : list bool; u_received : list Z; u_sent : list Z }.

Definition u_status (u : uart) : Z :=
  Z.lor (if default true (head (u_ready u)) then 0x20 else 0) (if decide (u_received u = []) then 0 else 1).

Section device.
Context (base : Z) (Hend : base + 8 < 2 ^ 16).

#[local] Instance uart_hardware : Hardware uart := {|
  hw_in _ port u :=
    if decide (port = base + 5) then (u_status u, mkUart (tail (u_ready u)) (u_received u) (u_sent u))
    else if decide (port = base) then (default 0 (head (u_received u)), mkUart (u_ready u) (tail (u_received u)) (u_sent u))
    else (0, u);
  hw_out _ port data u :=
    if decide (port = base) then mkUart (u_ready u) (u_received u) (u_sent u ++ [data]) else u;
  hw_read _ _ u := (0, u);
  hw_write _ _ _ u := u;
|}.

#[local] Abbreviation com := (mkCom (Some base)).

(** What the line gets for a byte, and for many. *)
Definition line_bytes (b : Z) : list Z := if decide (b = 10) then [13; 10] else [b].
Definition line_all (l : list Z) : list Z := concat (line_bytes <$> l).

Lemma status_uart u : line_status com u = Ret (u_status u, mkUart (tail (u_ready u)) (u_received u) (u_sent u)).
Proof.
  unfold line_status, com_inb. cbn [com_port]. rewrite (io_bind_Ret _ _ u (base + 5) u) by (unfold pure; by rewrite checked_add_ok by lia).
  unfold inb. cbn. by rewrite decide_True.
Qed.

Lemma outb_uart v u : com_outb com 0 v u = Ret (tt, mkUart (u_ready u) (u_received u) (u_sent u ++ [v])).
Proof.
  unfold com_outb. cbn [com_port]. rewrite (io_bind_Ret _ _ u (base + 0) u) by (unfold pure; by rewrite checked_add_ok by lia).
  unfold outb. cbn. by rewrite decide_True by lia.
Qed.

Lemma write_byte_uart b u :
  write_byte com b u = Ret (tt, mkUart (u_ready u) (u_received u) (u_sent u ++ line_bytes b)).
Proof.
  unfold write_byte, line_bytes. destruct (decide (b = 10)) as [->|]; [|apply outb_uart].
  rewrite (io_bind_Ret _ _ _ _ _ (outb_uart _ _)), outb_uart. cbn. by rewrite <- app_assoc.
Qed.

Lemma status_ready u : Z.land (u_status u) 0x20 = 0x20 ↔ default true (head (u_ready u)) = true.
Proof. unfold u_status. by destruct (default _ _), (decide _). Qed.

(** [write] sends a prefix, and stops early only at a busy transmitter. *)
Lemma com_write_uart buf : ∀ u, ∃ n r,
  com_write com buf u = Ret (n, mkUart r (u_received u) (u_sent u ++ line_all (take n buf))) ∧
  (n ≤ length buf)%nat ∧
  ((n = length buf ∧ (length r ≤ length (u_ready u))%nat) ∨ (length r < length (u_ready u))%nat).
Proof.
  induction buf as [|b buf IH]; intros u.
  { exists 0%nat, (u_ready u). cbn. split; [by rewrite app_nil_r; destruct u|]. lia. }
  cbn [com_write]. rewrite (io_bind_Ret _ _ _ _ _ (status_uart u)).
  destruct (default true (head (u_ready u))) eqn:Hr.
  - rewrite decide_False by (intros Hx; by apply Hx, status_ready).
    rewrite (io_bind_Ret _ _ _ _ _ (write_byte_uart _ _)). cbn [u_ready u_received u_sent].
    destruct (IH (mkUart (tail (u_ready u)) (u_received u) (u_sent u ++ line_bytes b))) as (n & r & E & Hn & Hlen).
    cbn [u_ready u_received u_sent] in *. rewrite (io_bind_Ret _ _ _ _ _ E). exists (S n), r. split.
    + unfold line_all. cbn. by rewrite <- app_assoc.
    + cbn [length]. destruct (u_ready u); cbn in *; lia.
  - rewrite decide_True by (intros Hx%status_ready; congruence). exists 0%nat, (tail (u_ready u)).
    cbn [take]. unfold line_all. cbn. rewrite app_nil_r. split; [done|]. destruct (u_ready u); cbn in *; [done|lia].
Qed.

Lemma line_all_app l1 l2 : line_all (l1 ++ l2) = line_all l1 ++ line_all l2.
Proof. unfold line_all. by rewrite fmap_app, concat_app. Qed.

(** [write_all] sends every byte once and in order, with a carriage return before each line
    feed, whatever the device's busy periods: it needs at most one round more than there are
    readings of the line status that can find the transmitter busy. *)
Theorem write_all_sends fuel buf u :
  (S (length (u_ready u)) < fuel)%nat →
  ∃ r, write_all fuel com buf u = Ret (tt, mkUart r (u_received u) (u_sent u ++ line_all buf)) ∧
    (length r ≤ length (u_ready u))%nat.
Proof.
  revert buf u. induction fuel as [|fuel IH]; intros buf u Hfuel; [lia|]. cbn [write_all].
  destruct (decide (0 < length buf)%nat) as [Hpos|Hpos].
  2: { destruct buf; [|cbn in Hpos; lia]. exists (u_ready u). unfold line_all. cbn. rewrite app_nil_r. by destruct u. }
  destruct (com_write_uart buf u) as (n & r & E & Hn & Hlen). rewrite (io_bind_Ret _ _ _ _ _ E).
  set (u' := mkUart r _ _). rewrite (io_bind_Ret _ _ u' (take n buf, drop n buf) u').
  2: { unfold pure, split_at. by rewrite decide_True. }
  destruct Hlen as [[Hall Hlen]|Hlen].
  - subst n. rewrite drop_all. destruct fuel as [|fuel]; [lia|]. cbn [write_all]. rewrite decide_False by (cbn; lia).
    exists r. unfold u'. by rewrite take_ge by lia.
  - destruct (IH (drop n buf) u') as (r' & E' & Hr'); [cbn; lia|]. exists r'. rewrite E'. unfold u' in *.
    cbn [u_ready u_received u_sent] in *. split; [|lia]. by rewrite <- app_assoc, <- line_all_app, take_drop.
Qed.

(** A call of [write] does not wait for the device, although its documentation says so: with
    a busy transmitter it returns at once and has written nothing. *)
Theorem write_does_not_wait buf u :
  head (u_ready u) = Some false → buf ≠ [] →
  com_write com buf u = Ret (0%nat, mkUart (tail (u_ready u)) (u_received u) (u_sent u)).
Proof.
  intros Hr Hb. destruct buf as [|b buf]; [done|]. cbn [com_write]. rewrite (io_bind_Ret _ _ _ _ _ (status_uart u)).
  rewrite decide_True; [done|]. intros Hx%status_ready. by rewrite Hr in Hx.
Qed.
End device.
