(* ===== verification/Font.v ===== *)
(** * The boot loader's font (bootloader/src/framebuffer/fonts.rs)

    [parse_bdf] reads a bitmap font in the BDF format, line by line and word by word, with a
    stack of tokens for what it is in.  Text is a list of character codes.  The theorem is
    about files with any number of characters. *)

From S2P Require Import Prelude.

Definition FONT_WIDTH : Z := 16.
Definition FONT_HEIGHT : Z := 18.

(** Rows of pixels. *)
Abbreviation Bitmap := (list (list Z)).

Record Glyph := mkGlyph { codepoint : Z; bitmap : Bitmap }.

Inductive Token := STARTCHAR | ENCODING | BITMAP | UNUSED | EMPTY.

#[global] Instance Token_eq_dec : EqDecision Token.
Proof. solve_decision. Defined.

(** The keywords, as character codes. *)
Definition W_STARTCHAR : list Z := [83; 84; 65; 82; 84; 67; 72; 65; 82].
Definition W_ENCODING : list Z := [69; 78; 67; 79; 68; 73; 78; 71].
Definition W_BITMAP : list Z := [66; 73; 84; 77; 65; 80].
Definition W_ENDCHAR : list Z := [69; 78; 68; 67; 72; 65; 82].
Definition W_ENDFONT : list Z := [69; 78; 68; 70; 79; 78; 84].

(** [glyph] is the index of the glyph the reference of the same name is to. *)
Record parser := mkParser { stack : list Token; glyphs : list Glyph; glyph : nat; row : nat }.

Definition get_glyph (font : list Glyph) (c : Z) : outcome Glyph :=
  i ← checked_sub c 32; index font (Z.to_nat i).

Definition blank_glyph : Glyph := mkGlyph 0 (replicate 18 (replicate 16 0)).
Definition initial : parser := mkParser [] (replicate 96 blank_glyph) 0 0.

(** [stack.last().unwrap_or(&Token::EMPTY)]; the stack grows at its head. *)
Definition top (p : parser) : Token := default EMPTY (head (stack p)).

Definition set_stack (p : parser) (s : list Token) : parser := mkParser s (glyphs p) (glyph p) (row p).

(** [l.split(space)] *)
Fixpoint split_spaces (l : list Z) : list (list Z) :=
  match l with
  | [] => [[]]
  | c :: l =>
      if decide (c = 32) then [] :: split_spaces l
      else match split_spaces l with w :: ws => (c :: w) :: ws | [] => [[c]] end
  end.

Definition digit_10 (c : Z) : option Z := if decide (48 ≤ c ≤ 57) then Some (c - 48) else None.

(** [char::to_digit(16)] *)
Definition digit_16 (c : Z) : option Z :=
  if decide (48 ≤ c ≤ 57) then Some (c - 48)
  else if decide (97 ≤ c ≤ 102) then Some (c - 87)
  else if decide (65 ≤ c ≤ 70) then Some (c - 55)
  else None.

(** [str::parse::<u8>()]: an optional plus sign and digits, below 256. *)
Fixpoint parse_digits (acc : Z) (l : list Z) : option Z :=
  match l with
  | [] => Some acc
  | c :: l =>
      d ← digit_10 c;
      if decide (acc * 10 + d < 256) then parse_digits (acc * 10 + d) l else None
  end.

Definition parse_u8 (v : list Z) : option Z :=
  match v with
  | [] => None
  | 43 :: [] => None
  | 43 :: v => parse_digits 0 v
  | v => parse_digits 0 v
  end.

(** [glyph.bitmap[row][col] = x] *)
Definition set_pixel (b : Bitmap) (row col : nat) (x : Z) : outcome Bitmap :=
  r ← index b row;
  r ← index_set r col x;
  index_set b row r.

(** The four pixels of digit number [i]. *)
Definition put_digit (line_len row : nat) (b : Bitmap) (i : nat) (d : Z) : outcome Bitmap :=
  b ← set_pixel b row (line_len * i + 0) (Z.shiftr (Z.land d 8) 3);
  b ← set_pixel b row (line_len * i + 1) (Z.shiftr (Z.land d 4) 2);
  b ← set_pixel b row (line_len * i + 2) (Z.shiftr (Z.land d 2) 1);
  set_pixel b row (line_len * i + 3) (Z.land d 1).

(** For every character, the pixels of all the digits so far. *)
Fixpoint put_row (line_len row : nat) (arr cs : list Z) (b : Bitmap) : outcome Bitmap :=
  match cs with
  | [] => Ret b
  | c :: cs =>
      d ← expect (digit_16 c) (ExpectFailed "unwrap");
      let arr := arr ++ [d] in
      b ← mfold (λ b (p : nat * Z), put_digit line_len row b p.1 p.2) (imap pair arr) b;
      put_row line_len row arr cs b
  end.

Definition set_glyph (p : parser) (g : Glyph) : outcome parser :=
  gs ← index_set (glyphs p) (glyph p) g; Ret (mkParser (stack p) gs (glyph p) (row p)).

(** The last arm of the match: [true] is [continue 'lines]. *)
Definition parse_value (p : parser) (v : list Z) : outcome (parser * bool) :=
  match top p with
  | ENCODING =>
      let unused := set_stack p (UNUSED :: tail (stack p)) in
      match parse_u8 v with
      | Some enc =>
          if decide (enc > 127 ∨ enc = 0) then Ret (unused, true) else
          i ← checked_sub enc 32;
          let p := mkParser (stack p) (glyphs p) (Z.to_nat i) (row p) in
          g ← index (glyphs p) (glyph p);
          p ← set_glyph p (mkGlyph enc (bitmap g));
          Ret (set_stack p (tail (stack p)), true)
      | None => Ret (unused, true)
      end
  | UNUSED => Ret (p, true)
  | BITMAP =>
      g ← index (glyphs p) (glyph p);
      b ← put_row (length v) (row p) [] v (bitmap g);
      p ← set_glyph p (mkGlyph (codepoint g) b);
      Ret (mkParser (stack p) (glyphs p) (glyph p) (S (row p)), true)
  | EMPTY => Panic (ExplicitPanic "corrupt bdt: value")
  | STARTCHAR => Ret (p, false)
  end.

Definition parse_word (p : parser) (t : list Z) : outcome (parser * bool) :=
  if decide (t = W_STARTCHAR) then
    _ ← assert_that (bool_decide (stack p = [])) (ExplicitPanic "corrupt bdt: STARTCHAR");
    Ret (mkParser (STARTCHAR :: stack p) (glyphs p) (glyph p) 0, true)
  else if decide (t = W_ENCODING) then
    _ ← assert_that (bool_decide (top p = STARTCHAR)) (ExplicitPanic "corrupt bdt: ENCODING");
    Ret (set_stack p (ENCODING :: stack p), false)
  else if decide (t = W_BITMAP) then
    if decide (top p = UNUSED) then Ret (p, true) else
    _ ← assert_that (bool_decide (top p = STARTCHAR)) (ExplicitPanic "corrupt bdt: BITMAP");
    Ret (set_stack p (BITMAP :: stack p), true)
  else if decide (t = W_ENDCHAR) then
    _ ← assert_that (bool_decide (top p = BITMAP ∨ top p = UNUSED)) (ExplicitPanic "corrupt bdt: ENDCHAR");
    Ret (set_stack p (tail (tail (stack p))), true)
  else if decide (t = W_ENDFONT) then Ret (p, true)
  else parse_value p t.

Fixpoint parse_words (p : parser) (ts : list (list Z)) : outcome parser :=
  match ts with
  | [] => Ret p
  | t :: ts =>
      '(p, next_line) ← parse_word p t;
      if (next_line : bool) then Ret p else parse_words p ts
  end.

Definition parse_line (p : parser) (l : list Z) : outcome parser := parse_words p (split_spaces l).

(** The first 27 lines are the header of the font. *)
Definition parse_bdf (lines : list (list Z)) : outcome (list Glyph) :=
  p ← mfold parse_line (drop 27 lines) initial; Ret (glyphs p).

(** ** One row *)

(** The 16 pixels of four hexadecimal digits, from the left. *)
Definition bits (d : Z) : list Z := [Z.shiftr (Z.land d 8) 3; Z.shiftr (Z.land d 4) 2; Z.shiftr (Z.land d 2) 1; Z.land d 1].

Definition row_ok (r : list Z) : Prop := length r = 16%nat.

Lemma set_pixel_eq b rw r col x :
  b !! rw = Some r → (col < length r)%nat → set_pixel b rw col x = Ret (<[rw := <[col := x]> r]> b).
Proof.
  intros Hr Hc. unfold set_pixel. rewrite (bind_Ret _ _ r) by (by apply index_Ret_inv).
  unfold index_set. rewrite decide_True by done. ret. rewrite decide_True; [done|]. by eapply lookup_lt_Some.
Qed.

Lemma set_pixel_again b rw r col x :
  (rw < length b)%nat → (col < length r)%nat →
  set_pixel (<[rw := r]> b) rw col x = Ret (<[rw := <[col := x]> r]> b).
Proof.
  intros Hb Hc. rewrite (set_pixel_eq _ _ r) by (by rewrite ?list_lookup_insert_eq).
  by rewrite list_insert_insert_eq.
Qed.

(** The four pixels of a digit, written into a row. *)
Definition put_bits (r : list Z) (i : nat) (d : Z) : list Z :=
  take (4 * i) r ++ bits d ++ drop (4 * i + 4) r.

Lemma put_digit_eq b rw r i d :
  b !! rw = Some r → row_ok r → (i < 4)%nat →
  put_digit 4 rw b i d = Ret (<[rw := put_bits r i d]> b).
Proof.
  intros Hr Hlen Hi. pose proof (lookup_lt_Some _ _ _ Hr) as Hb. unfold row_ok in Hlen. unfold put_digit.
  rewrite (set_pixel_eq _ _ _ _ _ Hr) by lia. ret.
  do 3 (rewrite set_pixel_again by (rewrite ?length_insert; lia); ret).
  do 2 f_equal. unfold put_bits.
  do 16 (destruct r as [|? r]; [cbn in Hlen; lia|]). destruct r; [|cbn in Hlen; lia].
  by destruct i as [|[|[|[|i]]]]; [| | | |lia].
Qed.

Lemma row_ok_put r i d : row_ok r → (i < 4)%nat → row_ok (put_bits r i d).
Proof. unfold row_ok, put_bits. intros Hr Hi. rewrite !length_app, length_take, length_drop. cbn. lia. Qed.

Lemma put_digit_again b rw r i d :
  (rw < length b)%nat → row_ok r → (i < 4)%nat →
  put_digit 4 rw (<[rw := r]> b) i d = Ret (<[rw := put_bits r i d]> b).
Proof.
  intros Hb Hr Hi. rewrite (put_digit_eq _ _ r) by (by rewrite ?list_lookup_insert_eq).
  by rewrite list_insert_insert_eq.
Qed.

(** Writing the digits so far again changes nothing new: a row of four digits ends up as
    their bits. *)
Lemma put_row_eq b rw r c0 c1 c2 c3 d0 d1 d2 d3 :
  b !! rw = Some r → row_ok r →
  digit_16 c0 = Some d0 → digit_16 c1 = Some d1 → digit_16 c2 = Some d2 → digit_16 c3 = Some d3 →
  put_row 4 rw [] [c0; c1; c2; c3] b = Ret (<[rw := bits d0 ++ bits d1 ++ bits d2 ++ bits d3]> b).
Proof.
  intros Hr Hok H0 H1 H2 H3. pose proof (lookup_lt_Some _ _ _ Hr) as Hb.
  cbn [put_row]. rewrite H0, H1, H2, H3. cbn [expect mbind outcome_bind imap app mfold fst snd compose].
  rewrite (put_digit_eq _ _ _ _ _ Hr) by (done || lia). ret.
  repeat (rewrite put_digit_again by (done || lia || (repeat (apply row_ok_put; [|lia]); exact Hok)); ret).
  do 2 f_equal. unfold put_bits, row_ok in *.
  do 16 (destruct r as [|? r]; [cbn in Hok; lia|]). destruct r; [|cbn in Hok; lia]. reflexivity.
Qed.

(** ** One character of the file *)

Record bdf_char := mkChar { ch_name : list Z; ch_encoding : list Z; ch_props : list (list Z); ch_rows : list (list Z) }.

Definition keywords : list (list Z) := [W_STARTCHAR; W_ENCODING; W_BITMAP; W_ENDCHAR; W_ENDFONT].

Definition char_head (c : bdf_char) : list (list Z) :=
  [W_STARTCHAR ++ 32 :: ch_name c; W_ENCODING ++ 32 :: ch_encoding c].

Definition char_lines (c : bdf_char) : list (list Z) :=
  char_head c ++ ch_props c ++ [W_BITMAP] ++ ch_rows c ++ [W_ENDCHAR].

Definition hex_row (l : list Z) : Prop := length l = 4%nat ∧ Forall (λ c, is_Some (digit_16 c)) l.

Definition plain_line (l : list Z) : Prop := ∀ w, w ∈ split_spaces l → w ∉ keywords.

(** What a font file has for a character: an encoding, properties, and 18 rows of four
    hexadecimal digits. *)
Record char_ok (c : bdf_char) : Prop := mkCharOk {
  ok_encoding : 32 ∉ ch_encoding c;
  ok_encoding_plain : ch_encoding c ∉ keywords;
  ok_props : Forall plain_line (ch_props c);
  ok_rows : Forall hex_row (ch_rows c);
  ok_n_rows : length (ch_rows c) = 18%nat;
}.

(** The encodings 1 to 31. *)
Definition control_char (c : bdf_char) : bool :=
  match parse_u8 (ch_encoding c) with
  | Some e => (0 <? e) && (e <? 32)
  | None => false
  end.

Definition row_bits (l : list Z) : list Z := l ≫= λ c, bits (default 0 (digit_16 c)).

(** The code of the character when the table has an entry for it. *)
Definition char_code (c : bdf_char) : option Z :=
  e ← parse_u8 (ch_encoding c); if decide (32 ≤ e ≤ 127) then Some e else None.

Definition apply_char (gs : list Glyph) (c : bdf_char) : list Glyph :=
  match char_code c with
  | Some e => <[Z.to_nat (e - 32) := mkGlyph e (row_bits <$> ch_rows c)]> gs
  | None => gs
  end.

Definition glyph_ok (g : Glyph) : Prop := length (bitmap g) = 18%nat ∧ Forall row_ok (bitmap g).
Definition glyphs_ok (gs : list Glyph) : Prop := length gs = 96%nat ∧ Forall glyph_ok gs.

Lemma split_spaces_word w l : 32 ∉ w → split_spaces (w ++ 32 :: l) = w :: split_spaces l.
Proof.
  induction w as [|c w IH]; cbn; intros Hw; [done|].
  rewrite decide_False by set_solver. by rewrite IH by set_solver.
Qed.

Lemma split_spaces_one w : 32 ∉ w → split_spaces w = [w].
Proof.
  induction w as [|c w IH]; cbn; intros Hw; [done|].
  rewrite decide_False by set_solver. by rewrite IH by set_solver.
Qed.

Lemma hex_row_plain l : hex_row l → (32 ∉ l) ∧ (l ∉ keywords).
Proof.
  intros [Hlen Hd]. split.
  - intros H32. rewrite Forall_forall in Hd. destruct (Hd 32 H32) as [d Hd']. cbn in Hd'. done.
  - intros Hk. unfold keywords in Hk. rewrite !elem_of_cons in Hk.
    destruct Hk as [->|[->|[->|[->|[->|Hk]]]]]; cbn in Hlen; try lia. set_solver.
Qed.

Lemma parse_word_plain p t : t ∉ keywords → parse_word p t = parse_value p t.
Proof. intros Ht. unfold parse_word, keywords in *. by rewrite !decide_False by set_solver. Qed.

(** A line of properties leaves the parser as it is. *)
Lemma parse_plain p l :
  plain_line l → top p = STARTCHAR ∨ top p = UNUSED → parse_line p l = Ret p.
Proof.
  unfold plain_line, parse_line. generalize (split_spaces l) as ws. intros ws Hws Hp.
  induction ws as [|w ws IH]; cbn; [done|].
  rewrite parse_word_plain by (apply Hws; left). unfold parse_value.
  destruct Hp as [Hp|Hp]; rewrite Hp; ret; [|done]. apply IH. intros v Hv. apply Hws. by right.
Qed.

Lemma parse_plains p ls :
  Forall plain_line ls → top p = STARTCHAR ∨ top p = UNUSED → mfold parse_line ls p = Ret p.
Proof.
  intros Hl Hp. induction Hl as [|l ls Hl _ IH]; cbn; [done|]. by rewrite parse_plain by done.
Qed.

Lemma row_ok_bits l : hex_row l → row_ok (row_bits l).
Proof.
  intros [Hlen _]. do 4 (destruct l as [|? l]; [cbn in Hlen; lia|]). destruct l; [|cbn in Hlen; lia]. done.
Qed.

Lemma put_hex_row b rw r l :
  b !! rw = Some r → row_ok r → hex_row l → put_row (length l) rw [] l b = Ret (<[rw := row_bits l]> b).
Proof.
  intros Hr Hok [Hlen Hd]. do 4 (destruct l as [|? l]; [cbn in Hlen; lia|]). destruct l; [|cbn in Hlen; lia].
  rewrite !Forall_cons in Hd. destruct Hd as ([d0 H0] & [d1 H1] & [d2 H2] & [d3 H3] & _).
  cbn [length]. rewrite (put_row_eq _ _ _ _ _ _ _ _ _ _ _ Hr Hok H0 H1 H2 H3).
  unfold row_bits. cbn. rewrite H0, H1, H2, H3. cbn. done.
Qed.

(** The rows, one line each, from row [length done] on. *)
Lemma parse_rows rows dn rest gs i e stk :
  Forall hex_row rows → Forall row_ok rest → length rest = length rows →
  gs !! i = Some (mkGlyph e (dn ++ rest)) →
  mfold parse_line rows (mkParser (BITMAP :: stk) gs i (length dn))
  = Ret (mkParser (BITMAP :: stk) (<[i := mkGlyph e (dn ++ (row_bits <$> rows))]> gs) i (length dn + length rows)).
Proof.
  intros Hrows. revert dn rest gs. induction Hrows as [|l rows Hl Hrows IH]; intros dn rest gs Hrest Hlen Hg; cbn.
  - destruct rest; [|done]. rewrite Nat.add_0_r. by rewrite list_insert_id.
  - destruct rest as [|r rest]; [done|]. apply Forall_cons in Hrest as [Hr Hrest].
    pose proof (hex_row_plain _ Hl) as [H32 Hk].
    assert (parse_line (mkParser (BITMAP :: stk) gs i (length dn)) l
            = Ret (mkParser (BITMAP :: stk) (<[i := mkGlyph e ((dn ++ [row_bits l]) ++ rest)]> gs) i (S (length dn)))) as ->.
    { unfold parse_line. rewrite split_spaces_one by done. cbn [parse_words]. rewrite parse_word_plain by done.
      unfold parse_value. cbn [top stack glyphs glyph row head default].
      rewrite (bind_Ret _ _ (mkGlyph e (dn ++ r :: rest))) by (by apply index_Ret_inv).
      cbn [bitmap codepoint]. rewrite (put_hex_row _ _ r) by (done || by rewrite list_lookup_middle). ret.
      unfold set_glyph, index_set. cbn [glyphs glyph stack row]. rewrite decide_True by (by eapply lookup_lt_Some). ret.
      rewrite insert_app_r_alt, Nat.sub_diag by lia. by rewrite <- app_assoc. }
    ret. pose proof (IH (dn ++ [row_bits l]) rest (<[i := mkGlyph e ((dn ++ [row_bits l]) ++ rest)]> gs)) as IH'.
    rewrite length_app in IH'. cbn in IH'. rewrite Nat.add_1_r in IH'. rewrite IH'.
    + rewrite list_insert_insert_eq, <- app_assoc. do 2 f_equal. lia.
    + done.
    + cbn in Hlen. lia.
    + apply list_lookup_insert_eq. by eapply lookup_lt_Some.
Qed.

(** The rows of an unused character are skipped. *)
Lemma skip_rows rows stk gs i rw :
  Forall hex_row rows →
  mfold parse_line rows (mkParser (UNUSED :: stk) gs i rw) = Ret (mkParser (UNUSED :: stk) gs i rw).
Proof.
  intros Hrows. apply parse_plains; [|by right]. eapply Forall_impl; [exact Hrows|].
  intros l [H32 Hk]%hex_row_plain. unfold plain_line. rewrite split_spaces_one by done. set_solver.
Qed.

Lemma alter_as_insert {A} (f : A → A) (l : list A) i x : l !! i = Some x → alter f i l = <[i := f x]> l.
Proof.
  revert i. induction l as [|y l IH]; intros [|i]; cbn; intros Hx; simplify_eq/=; [done|].
  f_equal. by apply IH.
Qed.

Lemma parse_digits_nonneg v : ∀ acc e, 0 ≤ acc → parse_digits acc v = Some e → 0 ≤ e.
Proof.
  induction v as [|c v IH]; intros acc e Hacc; cbn [parse_digits]; [by intros [= <-]|].
  unfold digit_10. destruct (decide (48 ≤ c ≤ 57)) as [?|]; [|done]. cbn [mbind option_bind].
  destruct (decide _) as [_|]; [|done]. apply IH. lia.
Qed.

Lemma parse_u8_nonneg v e : parse_u8 v = Some e → 0 ≤ e.
Proof. unfold parse_u8. repeat case_match; try done; by apply parse_digits_nonneg. Qed.

(** A control code other than 0 is not an unused character: the subtraction underflows. *)
Lemma control_code_panics p e v :
  top p = ENCODING → parse_u8 v = Some e → 0 < e < 32 → parse_value p v = Panic ArithmeticOverflow.
Proof.
  intros Hp Hv He. unfold parse_value. rewrite Hp, Hv. rewrite decide_False by lia.
  by rewrite checked_sub_underflow by lia.
Qed.

(** The first words of a character, up to its encoding. *)
Lemma parse_start c gs i rw : char_ok c →
  mfold parse_line (char_head c) (mkParser [] gs i rw) =
  ('(p, _) ← parse_value (mkParser [ENCODING; STARTCHAR] gs i 0) (ch_encoding c); Ret p).
Proof.
  intros Hc. unfold char_head. cbn [mfold]. unfold parse_line.
  rewrite !split_spaces_word by (unfold W_STARTCHAR, W_ENCODING; set_solver).
  rewrite (split_spaces_one (ch_encoding c)) by apply Hc. cbn [parse_words].
  change (parse_word (mkParser [] gs i rw) W_STARTCHAR) with (Ret (mkParser [STARTCHAR] gs i 0, true)). ret.
  change (parse_word (mkParser [STARTCHAR] gs i 0) W_ENCODING)
    with (Ret (mkParser [ENCODING; STARTCHAR] gs i 0, false)). ret.
  rewrite parse_word_plain by apply Hc.
  destruct (parse_value _ _) as [[p []]|]; done.
Qed.

(** [STARTCHAR] and [ENCODING]: the glyph is selected, or the character is unused. *)
Lemma parse_head c gs i rw :
  char_ok c → control_char c = false → length gs = 96%nat →
  mfold parse_line (char_head c) (mkParser [] gs i rw)
  = Ret (match char_code c with
         | Some e =>
             mkParser [STARTCHAR]
               (alter (λ g, mkGlyph e (bitmap g)) (Z.to_nat (e - 32)) gs) (Z.to_nat (e - 32)) 0
         | None => mkParser [UNUSED; STARTCHAR] gs i 0
         end).
Proof.
  intros Hc Hctl Hgs. rewrite parse_start by done. unfold parse_value.
  cbn [top stack glyphs glyph row head default from_option id tail].
  unfold char_code, set_stack. cbn [stack glyphs glyph row tail].
  unfold control_char in Hctl.
  destruct (parse_u8 (ch_encoding c)) as [e|] eqn:He; [|done]. cbn [mbind option_bind].
  pose proof (parse_u8_nonneg _ _ He) as He0.
  assert (e = 0 ∨ 32 ≤ e) as [->|He32] by (apply andb_false_iff in Hctl as [?%Z.ltb_ge|?%Z.ltb_ge]; lia); [done|].
  destruct (decide (e > 127 ∨ e = 0)) as [Hbig|Hsmall]; [by rewrite decide_False by lia|].
  rewrite decide_True by lia. rewrite checked_sub_ok by lia. ret.
  destruct (lookup_lt_is_Some_2 gs (Z.to_nat (e - 32))) as [g Hg]; [lia|].
  rewrite (bind_Ret _ _ g) by (by apply index_Ret_inv).
  unfold set_glyph, index_set. cbn [glyphs glyph stack row]. rewrite decide_True by lia. ret.
  cbn [stack tail glyphs glyph row]. by rewrite (alter_as_insert _ _ _ g).
Qed.

(** One whole character. *)
Lemma parse_char c gs i rw :
  char_ok c → control_char c = false → glyphs_ok gs →
  ∃ i' rw', mfold parse_line (char_lines c) (mkParser [] gs i rw) = Ret (mkParser [] (apply_char gs c) i' rw').
Proof.
  intros Hc Hctl [Hlen Hgs]. unfold char_lines. rewrite mfold_app, parse_head by done. ret.
  rewrite mfold_app, parse_plains; [|apply Hc|destruct (char_code c); cbn; auto]. ret.
  rewrite mfold_app. unfold apply_char. destruct (char_code c) as [e|] eqn:He.
  - assert (32 ≤ e ≤ 127) as Hr.
    { unfold char_code in He. destruct (parse_u8 _); [|done]. cbn in He. case_decide; naive_solver. }
    destruct (lookup_lt_is_Some_2 gs (Z.to_nat (e - 32))) as [g Hg]; [lia|].
    pose proof (Forall_lookup_1 _ _ _ _ Hgs Hg) as [Hb Hrows].
    rewrite (alter_as_insert _ _ _ g) by done. set (n := Z.to_nat (e - 32)) in *.
    change (mfold parse_line [W_BITMAP] ?p) with (Ret (mkParser [BITMAP; STARTCHAR] (glyphs p) (glyph p) (row p))).
    ret. cbn [glyphs glyph row].
    rewrite mfold_app, (parse_rows _ [] (bitmap g) _ n e).
    + ret. rewrite list_insert_insert_eq. by eexists _, _.
    + apply Hc.
    + done.
    + rewrite Hb. symmetry. apply Hc.
    + apply list_lookup_insert_eq. lia.
  - change (mfold parse_line [W_BITMAP] ?p) with (Ret p). ret.
    rewrite mfold_app, skip_rows by apply Hc. by eexists _, _.
Qed.

Lemma glyphs_ok_apply gs c : char_ok c → glyphs_ok gs → glyphs_ok (apply_char gs c).
Proof.
  intros Hc [Hlen Hgs]. unfold apply_char. destruct (char_code c); [|done].
  split; [by rewrite length_insert|]. apply Forall_insert; [done|]. split; cbn.
  - rewrite length_fmap. apply Hc.
  - apply Forall_fmap. eapply Forall_impl; [apply Hc|]. apply row_ok_bits.
Qed.

(** One that the table has no place for. *)
Lemma parse_control_char c gs i rw :
  char_ok c → control_char c = true → mfold parse_line (char_lines c) (mkParser [] gs i rw) = Panic ArithmeticOverflow.
Proof.
  intros Hc Hctl. unfold char_lines. rewrite mfold_app, parse_start by done. unfold control_char in Hctl.
  destruct (parse_u8 (ch_encoding c)) as [e|] eqn:He; [|done]. apply andb_prop in Hctl as [?%Z.ltb_lt ?%Z.ltb_lt].
  by rewrite (control_code_panics _ e).
Qed.

Lemma parse_chars cs gs i rw :
  Forall char_ok cs → glyphs_ok gs →
  if existsb control_char cs
  then mfold parse_line (cs ≫= char_lines) (mkParser [] gs i rw) = Panic ArithmeticOverflow
  else ∃ i' rw', mfold parse_line (cs ≫= char_lines) (mkParser [] gs i rw) = Ret (mkParser [] (foldl apply_char gs cs) i' rw').
Proof.
  intros Hcs. revert gs i rw. induction Hcs as [|c cs Hc _ IH]; intros gs i rw Hgs; [by eexists _, _|].
  cbn [mbind list_bind foldl existsb]. rewrite mfold_app. destruct (control_char c) eqn:Hctl; cbn [orb].
  { by rewrite parse_control_char. }
  destruct (parse_char c gs i rw Hc Hctl Hgs) as (i' & rw' & ->). ret.
  by apply IH, glyphs_ok_apply.
Qed.


(** The letter A with a diagonal, and a character beyond the table. *)
Definition sample_rows : list (list Z) := replicate 17 [48; 48; 48; 48] ++ [[56; 48; 48; 97]].
Definition sample_chars : list bdf_char :=
  [mkChar [65] [54; 53] [[66; 66; 88; 32; 49; 48]] sample_rows; mkChar [97] [57; 54; 48] [] sample_rows].

Lemma sample_chars_ok : Forall char_ok sample_chars.
Proof.
  assert (Forall hex_row sample_rows) as Hrows.
  { apply Forall_app; split; [apply Forall_replicate|apply Forall_singleton];
      (split; [done|]); repeat (constructor; [by eexists|]); constructor. }
  repeat apply Forall_cons_2; [..|apply Forall_nil_2]; (split; cbn; [..|exact Hrows|done]).
  1,4: set_solver.
  1,3: unfold keywords; set_solver.
  - apply Forall_singleton. unfold plain_line, keywords. cbn. intros w Hw. set_solver.
  - apply Forall_nil_2.
Qed.

