(* ===== verification/Screen.v ===== *)
(** * The boot loader's text screen (bootloader/src/framebuffer/mod.rs)

    Text is drawn in cells of one glyph each.  The Graphics Output Protocol is firmware: its
    [blt] is a parameter, and the model keeps the list of operations it was given. *)

From S2P Require Import Prelude Font.

(** Blue, green and red as the code passes them. *)
Definition pixel : Type := Z * Z * Z.
Definition FOREGROUND : pixel := (0xee, 0xee, 0xee).
Definition BACKGROUND : pixel := (0x35, 0x33, 0x2b).

Inductive BltOp :=
  | VideoFill (color : pixel) (dest dims : Z * Z)
  | BufferToVideo (buffer : list pixel) (stride : Z) (dest dims : Z * Z).

(** [gop] is the list of operations so far, the last one first. *)
Record Framebuffer := mkFb {
  gop : list BltOp; pixel_width : Z; pixel_height : Z; n_col : Z; n_row : Z; cursor_x : Z; cursor_y : Z;
  font : list Glyph;
}.

Definition framebuffer_new (resolution : Z * Z) (bdf : list (list Z)) : outcome Framebuffer :=
  let '(width, height) := resolution in
  glyphs ← parse_bdf bdf;
  Ret (mkFb [] width height (width / FONT_WIDTH) (height / FONT_HEIGHT) 0 0 glyphs).

Definition set_cursor (fb : Framebuffer) (x y : Z) : Framebuffer :=
  mkFb (gop fb) (pixel_width fb) (pixel_height fb) (n_col fb) (n_row fb) x y (font fb).

Definition blt (fb : Framebuffer) (op : BltOp) : Framebuffer :=
  mkFb (op :: gop fb) (pixel_width fb) (pixel_height fb) (n_col fb) (n_row fb) (cursor_x fb) (cursor_y fb) (font fb).

(** [blt_ok] is what the firmware answers. *)
Definition framebuffer_init (blt_ok : BltOp → bool) (resolution : Z * Z) (fb : Framebuffer) : Framebuffer * (() + ()) :=
  let op := VideoFill BACKGROUND (0, 0) resolution in
  (blt fb op, if blt_ok op then inl () else inr ()).

Definition newline (fb : Framebuffer) : Framebuffer :=
  if decide (cursor_y fb < n_row fb) then set_cursor fb 0 (cursor_y fb + 1) else fb.

Definition glyph_pixels (b : Bitmap) : list pixel :=
  b ≫= (λ row, (λ x, if decide (x = 1) then FOREGROUND else BACKGROUND) <$> row).

Definition write_char_impl (fb : Framebuffer) (c : Z) : outcome Framebuffer :=
  if decide (c = 10) then Ret (newline fb) else
  let fb := if decide (cursor_x fb >= n_col fb) then newline fb else fb in
  i ← checked_sub c 32;
  g ← index (font fb) (Z.to_nat i);
  dx ← checked_mul 64 (cursor_x fb) FONT_WIDTH;
  dy ← checked_mul 64 (cursor_y fb) FONT_HEIGHT;
  let fb := blt fb (BufferToVideo (glyph_pixels (bitmap g)) FONT_WIDTH (dx, dy) (FONT_WIDTH, FONT_HEIGHT)) in
  x ← checked_add 64 (cursor_x fb) 1;
  Ret (set_cursor fb x (cursor_y fb)).

(** [core::fmt::Write::write_str] *)
Definition fb_write_str (fb : Framebuffer) (s : list Z) : outcome Framebuffer := mfold write_char_impl s fb.

(** ** Layout *)

(** The glyph of a character, drawn in the cell in column [x] of row [y]. *)
Definition cell (f : list Glyph) (c x y : Z) : option BltOp :=
  (λ g, BufferToVideo (glyph_pixels (bitmap g)) FONT_WIDTH (x * 16, y * 18) (FONT_WIDTH, FONT_HEIGHT))
  <$> f !! Z.to_nat (c - 32).

(** The cells of a text from cell number [p] on, counted row by row. *)
Fixpoint cells (f : list Glyph) (cols p : Z) (s : list Z) : list BltOp :=
  match s with
  | [] => []
  | c :: s => default [] ((λ op, [op]) <$> cell f c (p mod cols) (p / cols)) ++ cells f cols (p + 1) s
  end.

Definition printable (c : Z) : Prop := 32 ≤ c < 128.

Record fb_ok (fb : Framebuffer) : Prop := mkFbOk {
  ok_font : length (font fb) = 96%nat;
  ok_cols : 0 < n_col fb < 2 ^ 32;
  ok_rows : 0 < n_row fb < 2 ^ 32;
  ok_x : 0 ≤ cursor_x fb;
  ok_y : 0 ≤ cursor_y fb ≤ n_row fb;
}.

(** The number of the next cell. *)
Definition position (fb : Framebuffer) : Z := cursor_y fb * n_col fb + cursor_x fb.

(** What a character does to the screen from a given cursor. *)
Lemma draw_char fb c :
  fb_ok fb → printable c → cursor_x fb < n_col fb ∨ (cursor_y fb = n_row fb ∧ cursor_x fb < 2 ^ 32) →
  ∃ op, cell (font fb) c (cursor_x fb) (cursor_y fb) = Some op ∧
    write_char_impl fb c = Ret (set_cursor (blt fb op) (cursor_x fb + 1) (cursor_y fb)).
Proof.
  intros Hfb Hc Hx. pose proof (ok_font _ Hfb) as Hf. pose proof (ok_cols _ Hfb). pose proof (ok_rows _ Hfb).
  pose proof (ok_y _ Hfb). pose proof (ok_x _ Hfb). unfold printable in Hc.
  destruct (lookup_lt_is_Some_2 (font fb) (Z.to_nat (c - 32))) as [g Hg]; [lia|].
  unfold cell. rewrite Hg. cbn. eexists. split; [reflexivity|].
  unfold write_char_impl. rewrite (decide_False (P := c = 10)) by lia.
  assert ((if decide (cursor_x fb >= n_col fb) then newline fb else fb) = fb) as ->.
  { case_decide; [|done]. unfold newline. by rewrite decide_False by lia. }
  rewrite checked_sub_ok by lia. ret. rewrite (bind_Ret _ _ g) by (by apply index_Ret_inv).
  unfold FONT_WIDTH, FONT_HEIGHT. rewrite !checked_mul_ok by nia. ret.
  cbn [blt cursor_x cursor_y]. by rewrite checked_add_ok by lia.
Qed.

(** The pending line break is taken before the character is drawn. *)
Lemma write_char_wraps fb c :
  c ≠ 10 → n_col fb ≤ cursor_x fb → 0 < n_col fb → cursor_y fb < n_row fb →
  write_char_impl fb c = write_char_impl (set_cursor fb 0 (cursor_y fb + 1)) c.
Proof.
  intros Hc Hx Hcols Hy. unfold write_char_impl. rewrite !(decide_False (P := c = 10)) by done.
  rewrite (decide_True (P := cursor_x fb >= n_col fb)) by lia. cbn [set_cursor cursor_x n_col].
  rewrite (decide_False (P := 0 >= n_col fb)) by lia. unfold newline. by rewrite decide_True by done.
Qed.

Lemma write_char_position fb c :
  fb_ok fb → printable c → cursor_x fb ≤ n_col fb → position fb < n_row fb * n_col fb →
  ∃ fb', write_char_impl fb c = Ret fb' ∧ fb_ok fb' ∧ cursor_x fb' ≤ n_col fb' ∧
    position fb' = position fb + 1 ∧ n_col fb' = n_col fb ∧ n_row fb' = n_row fb ∧ font fb' = font fb ∧
    gop fb' = reverse (cells (font fb) (n_col fb) (position fb) [c]) ++ gop fb.
Proof.
  intros Hfb Hc Hx Hp. pose proof (ok_cols _ Hfb). pose proof (ok_rows _ Hfb).
  pose proof (ok_y _ Hfb). pose proof (ok_x _ Hfb). unfold position in *.
  assert (cursor_y fb < n_row fb) as Hy by nia.
  set (fb1 := if decide (cursor_x fb = n_col fb) then set_cursor fb 0 (cursor_y fb + 1) else fb).
  assert (write_char_impl fb c = write_char_impl fb1 c) as Heq.
  { subst fb1. case_decide; [|done]. unfold printable in Hc. apply write_char_wraps; lia. }
  assert (fb_ok fb1 ∧ n_col fb1 = n_col fb ∧ n_row fb1 = n_row fb ∧ font fb1 = font fb ∧ gop fb1 = gop fb ∧
          cursor_x fb1 < n_col fb ∧ cursor_y fb1 < n_row fb ∧
          cursor_y fb1 * n_col fb + cursor_x fb1 = cursor_y fb * n_col fb + cursor_x fb) as Hfb1.
  { subst fb1. case_decide; [|split_and!; try done; lia].
    cbn. split_and!; try done; try nia. destruct Hfb. by split; cbn; lia. }
  destruct Hfb1 as (Hok1 & Hc1 & Hr1 & Hf1 & Hg1 & Hx1 & Hy1 & Hp1).
  destruct (draw_char fb1 c Hok1 Hc) as (op & Hop & Hw); [lia|].
  pose proof (ok_x _ Hok1). rewrite Heq, Hw. eexists. split; [reflexivity|].
  rewrite <- Hp1 in *. cbn. rewrite Hc1, Hr1, Hf1, Hg1 in *. split_and!; try done; try lia.
  - destruct Hok1. split; cbn; lia || by rewrite ?Hf1, ?Hc1, ?Hr1.
  - rewrite Z.add_comm, Z.mod_add, Z.mod_small by lia. rewrite Z.div_add, Z.div_small by lia.
    rewrite Z.add_0_l, Hop. done.
Qed.

Lemma cells_app f cols p s t : cells f cols p (s ++ t) = cells f cols p s ++ cells f cols (p + Z.of_nat (length s)) t.
Proof.
  revert p. induction s as [|c s IH]; intros p; cbn [cells app length]; [by rewrite Z.add_0_r|].
  rewrite IH, app_assoc. do 2 f_equal. lia.
Qed.

(** Printable text that fits on the rest of the screen is drawn one glyph to a cell, from
    the cell under the cursor to the right and then, at the right edge, from the left of the
    next row: the operations the firmware gets are exactly those cells in order. *)
Theorem write_str_lays_out fb s :
  fb_ok fb → cursor_x fb ≤ n_col fb → Forall printable s →
  position fb + Z.of_nat (length s) ≤ n_row fb * n_col fb →
  ∃ fb', fb_write_str fb s = Ret fb' ∧ position fb' = position fb + Z.of_nat (length s) ∧
    gop fb' = reverse (cells (font fb) (n_col fb) (position fb) s) ++ gop fb.
Proof.
  intros Hfb Hx Hs Hfit. unfold fb_write_str.
  destruct (mfold_inv write_char_impl (λ done fb',
      fb_ok fb' ∧ cursor_x fb' ≤ n_col fb' ∧ n_col fb' = n_col fb ∧ n_row fb' = n_row fb ∧ font fb' = font fb ∧
      position fb' = position fb + Z.of_nat (length done) ∧
      gop fb' = reverse (cells (font fb) (n_col fb) (position fb) done) ++ gop fb) s fb)
    as (fb' & E & _ & _ & _ & _ & _ & Hp & Hg).
  - split_and!; try done. cbn. lia.
  - intros dn c rest fb1 -> (Hok & Hx1 & Hc1 & Hr1 & Hf1 & Hp1 & Hg1).
    rewrite length_app in Hfit. cbn in Hfit. apply Forall_app in Hs as [_ Hs]. apply Forall_cons in Hs as [Hc _].
    destruct (write_char_position fb1 c Hok Hc Hx1) as (fb2 & E2 & Hok2 & Hx2 & Hp2 & Hc2 & Hr2 & Hf2 & Hg2).
    { rewrite Hp1, Hc1, Hr1. lia. }
    exists fb2. rewrite length_app. cbn [length]. split_and!; try congruence; try lia.
    rewrite Hg2, Hg1, Hf1, Hc1, Hp1, cells_app, reverse_app. by rewrite app_assoc.
  - by exists fb'.
Qed.

Definition small_screen : Framebuffer := mkFb [] 33 40 2 2 1 0 (replicate 96 blank_glyph).

Lemma write_str_lays_out_witness :
  ∃ fb', fb_write_str small_screen [72; 105] = Ret fb' ∧ position fb' = 3 ∧
    ((λ op, match op with BufferToVideo _ _ dest _ => dest | VideoFill _ dest _ => dest end) <$> gop fb') = [(0, 18); (16, 0)].
Proof.
  destruct (write_str_lays_out small_screen [72; 105]) as (fb' & E & Hp & Hg).
  - by split.
  - by vm_compute.
  - by repeat constructor.
  - by vm_compute.
  - exists fb'. split_and!; [exact E|exact Hp|]. by rewrite Hg.
Defined.

(** The screen does not scroll.  [newline] moves the cursor below the last row, and there it
    no longer does anything: text is drawn under the visible area, ever further to the right. *)
Lemma full_screen_runs_off fb s :
  fb_ok fb → cursor_y fb = n_row fb → pixel_height fb < (n_row fb + 1) * FONT_HEIGHT →
  Forall printable s → cursor_x fb + Z.of_nat (length s) < 2 ^ 32 →
  ∃ fb', fb_write_str fb s = Ret fb' ∧ cursor_x fb' = cursor_x fb + Z.of_nat (length s) ∧
    cursor_y fb' = cursor_y fb ∧ pixel_height fb < cursor_y fb' * FONT_HEIGHT + FONT_HEIGHT.
Proof.
  intros Hfb Hy Hh Hs Hfit. unfold fb_write_str.
  destruct (mfold_inv write_char_impl (λ done fb',
      fb_ok fb' ∧ n_row fb' = n_row fb ∧ cursor_x fb' = cursor_x fb + Z.of_nat (length done) ∧
      cursor_y fb' = cursor_y fb) s fb) as (fb' & E & _ & _ & Hx' & Hy').
  - split_and!; try done. cbn. lia.
  - intros dn c rest fb1 -> (Hok & Hr1 & Hx1 & Hy1).
    rewrite length_app in Hfit. cbn in Hfit. apply Forall_app in Hs as [_ Hs]. apply Forall_cons in Hs as [Hc _].
    destruct (draw_char fb1 c Hok Hc) as (op & _ & ->); [right; lia|].
    eexists. split; [reflexivity|]. rewrite length_app. cbn. split_and!; try done; try lia.
    destruct Hok. split; cbn; try done; lia.
  - exists fb'. unfold FONT_HEIGHT in *. split_and!; try done. rewrite Hy'. lia.
Qed.

(** A character outside the font: below a space the subtraction underflows, above 127 the
    index is out of range. *)
Lemma write_char_outside fb c :
  length (font fb) = 96%nat → c ≠ 10 → 0 ≤ c < 32 ∨ 128 ≤ c →
  write_char_impl fb c = Panic (if decide (c < 32) then ArithmeticOverflow else IndexOutOfBounds).
Proof.
  intros Hf Hc Hr. unfold write_char_impl. rewrite (decide_False (P := c = 10)) by done.
  assert (font (if decide (cursor_x fb >= n_col fb) then newline fb else fb) = font fb) as ->.
  { unfold newline. repeat case_decide; done. }
  destruct (decide (c < 32)) as [Hl|Hl]; [by rewrite checked_sub_underflow|].
  rewrite checked_sub_ok by lia. ret. unfold index. by rewrite lookup_ge_None_2 by lia.
Qed.
