(* ===== verification/BootAsm.v ===== *)
(** * The first instructions of the kernel (src/arch/x86_64/boot.s)

    [_low_start] fills in the boot page tables, loads [cr3], jumps to the high half, sets the
    stack and calls [start].  The instructions are run on registers and bytes of physical
    memory (while they run, the firmware maps memory to itself).  [mmu_walk] is the translation
    of the processor.  The addresses of the tables are those the linker gives them. *)

From S2P Require Import Prelude Memory Malloc.

Inductive reg := RCX | RDX | RDI | RSP | R8 | R9 | R11 | R12 | CR3.

#[global] Instance reg_eq_dec : EqDecision reg.
Proof. solve_decision. Defined.

Record cpu := mkCpu { regs : reg → Z; ram : Z → Z }.

Inductive instr :=
| MovImm (v : Z) (d : reg)
| Mov (s d : reg)
| Andq (s d : reg)
| OrImm (v : Z) (d : reg)
| Orq (s d : reg)
| Xorq (s d : reg)
| Shrq (n : Z) (d : reg)
| AddImm (v : Z) (d : reg)
| Addq (s d : reg)
| Store (s base : reg).

Definition set (c : cpu) (d : reg) (v : Z) : cpu := mkCpu (λ r, if decide (r = d) then v else regs c r) (ram c).

Definition exec (c : cpu) (i : instr) : cpu :=
  match i with
  | MovImm v d => set c d v
  | Mov s d => set c d (regs c s)
  | Andq s d => set c d (Z.land (regs c d) (regs c s))
  | OrImm v d => set c d (Z.lor (regs c d) v)
  | Orq s d => set c d (Z.lor (regs c d) (regs c s))
  | Xorq s d => set c d (Z.lxor (regs c d) (regs c s))
  | Shrq n d => set c d (Z.shiftr (regs c d) n)
  | AddImm v d => set c d ((regs c d + v) mod 2 ^ 64)
  | Addq s d => set c d ((regs c d + regs c s) mod 2 ^ 64)
  | Store s base => mkCpu (regs c) (write_bytes (ram c) (regs c base) (to_le_bytes 8 (regs c s)))
  end.

Definition run (code : list instr) (c : cpu) : cpu := foldl exec c code.

(** The symbols of the linker. *)
Record symbols := mkSymbols {
  boot_pml4 : Z; boot_pdpt : Z; boot_pdt : Z; boot_idmap_pdpt : Z; boot_idmap_pdt : Z; boot_stack_bottom : Z; low_start : Z;
}.

Section code.
Context (s : symbols).

(** The identity map of the page the code is in. *)
Definition idmap_pml4 : list instr :=
  [MovImm (boot_pml4 s - KERNEL_BASE) R8; MovImm (boot_idmap_pdpt s - KERNEL_BASE) R9; MovImm 0x0000FFFFFFFFF000 R12;
   Andq R12 R9; OrImm 3 R9; Store R9 R8].
Definition idmap_pdpt : list instr :=
  [MovImm (boot_idmap_pdpt s - KERNEL_BASE) R8; MovImm (boot_idmap_pdt s - KERNEL_BASE) R9; Andq R12 R9; OrImm 3 R9; Store R9 R8].
Definition idmap_pdt : list instr :=
  [MovImm (boot_idmap_pdt s - KERNEL_BASE) R8; MovImm (low_start s) R9; MovImm 0x0000FFFFFFE00000 R12; Andq R12 R9;
   OrImm 0x83 R9; Store R9 R8].

(** The bottom of physical memory at [KERNEL_BASE]. *)
Definition kernel_pml4 : list instr :=
  [MovImm (boot_pml4 s - KERNEL_BASE) R8; MovImm (boot_pdpt s - KERNEL_BASE) R9; MovImm 0x0000FFFFFFFFF000 R12;
   Andq R12 R9; OrImm 3 R9; MovImm KERNEL_BASE R11; MovImm 0x0000FF8000000000 RCX; Andq RCX R11; Shrq 36 R11;
   Addq R11 R8; Store R9 R8].
Definition kernel_pdpt : list instr :=
  [MovImm (boot_pdpt s - KERNEL_BASE) R8; MovImm (boot_pdt s - KERNEL_BASE) R9; MovImm 0x0000FFFFFFFFF000 R12;
   Andq R12 R9; OrImm 3 R9; MovImm KERNEL_BASE R11; MovImm 0x0000007FC0000000 RCX; Andq RCX R11; Shrq 27 R11;
   Addq R11 R8; Store R9 R8].
Definition kernel_page_0 : list instr :=
  [MovImm (boot_pdt s - KERNEL_BASE) R8; Xorq R9 R9; MovImm 0x0000FFFFFFE00000 R12; Andq R12 R9; MovImm 0x83 RDX;
   Orq RDX R9; MovImm KERNEL_BASE R11; MovImm 0x000000003FE00000 RCX; Andq RCX R11; Shrq 18 R11; Addq R11 R8; Store R9 R8].

(** A page of 2 MiB at an offset from [KERNEL_BASE]. *)
Definition kernel_page (phys offset : Z) : list instr :=
  [MovImm (boot_pdt s - KERNEL_BASE) R8; MovImm phys R9; MovImm 0x0000FFFFFFE00000 R12; Andq R12 R9; MovImm 0x83 RDX;
   Orq RDX R9; MovImm KERNEL_BASE R11; AddImm offset R11; MovImm 0x000000003FE00000 RCX; Andq RCX R11; Shrq 18 R11;
   Addq R11 R8; Store R9 R8].

Definition boot_paging : list instr :=
  idmap_pml4 ++ idmap_pdpt ++ idmap_pdt ++ kernel_pml4 ++ kernel_pdpt ++ kernel_page_0 ++
  kernel_page 0x200000 0x200000 ++ kernel_page 0x400000 0x400000 ++ kernel_page 0x600000 0x20000000.

(** Up to the call of [start], with the address of the boot data in [rdi]; the address of the
    jump, in [rcx], is overwritten before it is read again. *)
Definition enter_high_half : list instr :=
  [MovImm (boot_pml4 s - KERNEL_BASE) R11; Mov R11 CR3; MovImm (boot_stack_bottom s) RSP; MovImm KERNEL_BASE RCX; Addq RCX RDI].
Definition _low_start : list instr := [Mov RCX RDI] ++ boot_paging ++ enter_high_half.
End code.

(** ** The translation of the processor *)

Definition PAGE_ADDR (e : Z) : Z := e / 2 ^ 12 mod 2 ^ 40 * 2 ^ 12.

(** One level: the entry, if it is present. *)
Definition walk_entry (mem : Z → Z) (table va shift : Z) : option Z :=
  let e := read_le mem 8 (table + 8 * (va / 2 ^ shift mod 512)) in
  if Z.testbit e 0 then Some e else None.

(** Four levels, with pages of 1 GiB, 2 MiB and 4 KiB. *)
Definition mmu_walk (mem : Z → Z) (cr3 va : Z) : option Z :=
  e4 ← walk_entry mem (PAGE_ADDR cr3) va 39;
  e3 ← walk_entry mem (PAGE_ADDR e4) va 30;
  if Z.testbit e3 7 then Some (PAGE_ADDR e3 / 2 ^ 30 * 2 ^ 30 + va mod 2 ^ 30) else
  e2 ← walk_entry mem (PAGE_ADDR e3) va 21;
  if Z.testbit e2 7 then Some (PAGE_ADDR e2 / 2 ^ 21 * 2 ^ 21 + va mod 2 ^ 21) else
  e1 ← walk_entry mem (PAGE_ADDR e2) va 12;
  Some (PAGE_ADDR e1 + va mod 2 ^ 12).

(** ** The tables *)

Definition store8 (mem : Z → Z) (p : Z * Z) : Z → Z := write_bytes mem p.1 (to_le_bytes 8 p.2).

Lemma mem_bytes_ext mem mem' a n :
  (∀ x, a ≤ x < a + Z.of_nat n → mem' x = mem x) → mem_bytes mem' a n = mem_bytes mem a n.
Proof. intros Hx. unfold mem_bytes. apply list_fmap_ext. intros i x [-> Hi]%lookup_seqZ. apply Hx. lia. Qed.

Lemma read_store8 mem a v x :
  (8 | a) → (8 | x) → 0 ≤ v < 2 ^ 64 → read_le (store8 mem (a, v)) 8 x = if decide (x = a) then v else read_le mem 8 x.
Proof.
  intros [qa ->] [qx ->] Hv. unfold store8. cbn [fst snd]. case_decide as Hd.
  - rewrite Hd. apply read_le_holds; [apply holds_written|]. change (256 ^ Z.of_nat 8) with (2 ^ 64). lia.
  - unfold read_le. f_equal. apply mem_bytes_ext. intros y Hy. apply write_bytes_outside.
    rewrite length_to_le_bytes. lia.
Qed.

(** The entries a table is given: physical addresses and values. *)
Definition boot_entries (s : symbols) : list (Z * Z) :=
  let p a := a - KERNEL_BASE in
  [(p (boot_pml4 s), p (boot_idmap_pdpt s) + 3); (p (boot_idmap_pdpt s), p (boot_idmap_pdt s) + 3);
   (p (boot_idmap_pdt s), 0x83);
   (p (boot_pml4 s) + 0x800, p (boot_pdpt s) + 3); (p (boot_pdpt s), p (boot_pdt s) + 3);
   (p (boot_pdt s), 0x83); (p (boot_pdt s) + 8, 0x200083); (p (boot_pdt s) + 16, 0x400083);
   (p (boot_pdt s) + 0x800, 0x600083)].

(** The tables are pages of their own in the kernel's half, and the code is in the first
    2 MiB, as the linker script places them. *)
Definition table_addrs (s : symbols) : list Z :=
  (λ a, a - KERNEL_BASE) <$> [boot_pml4 s; boot_pdpt s; boot_pdt s; boot_idmap_pdpt s; boot_idmap_pdt s].

Record linked (s : symbols) : Prop := mkLinked {
  lk_page : Forall (λ a, (4096 | a) ∧ 0 ≤ a < 2 ^ 40) (table_addrs s);
  lk_distinct : NoDup (table_addrs s);
  lk_low : 0 ≤ low_start s < 0x200000;
}.

Lemma mask_page a : (4096 | a) → 0 ≤ a < 2 ^ 40 → Z.lor (Z.land a 0x0000FFFFFFFFF000) 3 = a + 3.
Proof.
  intros [q ->] Ha. change 0x0000FFFFFFFFF000 with (Z.ldiff (Z.ones 48) (Z.ones 12)).
  rewrite Z.ldiff_land, Z.land_assoc, Z.land_ones, Z.mod_small by lia. rewrite <- Z.ldiff_land, Z.ldiff_ones_r by lia.
  rewrite Z.shiftl_mul_pow2, Z.shiftr_div_pow2 by lia. replace (q * 4096) with (q * 2 ^ 12) by lia.
  rewrite Z.div_mul by lia. change 3 with (3 mod 2 ^ 12) at 1. by rewrite lor_low.
Qed.

(** Each block stores one entry. *)
Section blocks.
Context (s : symbols) (Hs : linked s).
Abbreviation phys a := (a - KERNEL_BASE).

Lemma run_code_app c1 c2 c : run (c1 ++ c2) c = run c2 (run c1 c).
Proof. apply foldl_app. Qed.

Lemma table_addr a : a ∈ table_addrs s → (4096 | a) ∧ 0 ≤ a < 2 ^ 40.
Proof. intros Ha. pose proof (lk_page _ Hs) as Hp. rewrite Forall_forall in Hp. by apply Hp. Qed.

Lemma run_idmap c :
  ram (run (idmap_pml4 s ++ idmap_pdpt s ++ idmap_pdt s) c) = foldl store8 (ram c) (take 3 (boot_entries s)).
Proof.
  transitivity (foldl store8 (ram c)
    [(phys (boot_pml4 s), Z.lor (Z.land (phys (boot_idmap_pdpt s)) 0x0000FFFFFFFFF000) 3);
     (phys (boot_idmap_pdpt s), Z.lor (Z.land (phys (boot_idmap_pdt s)) 0x0000FFFFFFFFF000) 3);
     (phys (boot_idmap_pdt s), Z.lor (Z.land (low_start s) 0x0000FFFFFFE00000) 0x83)]); [reflexivity|].
  destruct (table_addr (phys (boot_idmap_pdpt s))) as [? ?]; [unfold table_addrs; set_solver|].
  destruct (table_addr (phys (boot_idmap_pdt s))) as [? ?]; [unfold table_addrs; set_solver|].
  rewrite !mask_page by done.
  assert (Z.land (low_start s) 0x0000FFFFFFE00000 = 0) as ->; [|done].
  pose proof (lk_low _ Hs). rewrite <- (Z.mod_small (low_start s) (2 ^ 21)) by lia. rewrite <- Z.land_ones by lia.
  by rewrite <- Z.land_assoc, Z.land_0_r.
Qed.

Lemma run_kernel_tables c :
  ram (run (kernel_pml4 s ++ kernel_pdpt s) c)
  = foldl store8 (ram c) [(phys (boot_pml4 s) + 0x800, phys (boot_pdpt s) + 3); (phys (boot_pdpt s), phys (boot_pdt s) + 3)].
Proof.
  transitivity (foldl store8 (ram c)
    [((phys (boot_pml4 s) + 0x800) mod 2 ^ 64, Z.lor (Z.land (phys (boot_pdpt s)) 0x0000FFFFFFFFF000) 3);
     ((phys (boot_pdpt s) + 0) mod 2 ^ 64, Z.lor (Z.land (phys (boot_pdt s)) 0x0000FFFFFFFFF000) 3)]); [reflexivity|].
  destruct (table_addr (phys (boot_pml4 s))) as [? ?]; [unfold table_addrs; set_solver|].
  destruct (table_addr (phys (boot_pdpt s))) as [? ?]; [unfold table_addrs; set_solver|].
  destruct (table_addr (phys (boot_pdt s))) as [? ?]; [unfold table_addrs; set_solver|].
  rewrite !mask_page, !Z.mod_small, Z.add_0_r by (done || lia). done.
Qed.

Lemma run_kernel_pages c :
  ram (run (kernel_page_0 s ++ kernel_page s 0x200000 0x200000 ++ kernel_page s 0x400000 0x400000 ++
            kernel_page s 0x600000 0x20000000) c)
  = foldl store8 (ram c) (drop 5 (boot_entries s)).
Proof.
  transitivity (foldl store8 (ram c)
    [((phys (boot_pdt s) + 0) mod 2 ^ 64, Z.lor (Z.land (Z.lxor (regs c R9) (regs c R9)) 0x0000FFFFFFE00000) 0x83);
     ((phys (boot_pdt s) + 8) mod 2 ^ 64, 0x200083); ((phys (boot_pdt s) + 16) mod 2 ^ 64, 0x400083);
     ((phys (boot_pdt s) + 0x800) mod 2 ^ 64, 0x600083)]); [reflexivity|].
  destruct (table_addr (phys (boot_pdt s))) as [? ?]; [unfold table_addrs; set_solver|].
  rewrite Z.lxor_nilpotent, !Z.mod_small, Z.add_0_r by lia. done.
Qed.

(** The code writes exactly these entries. *)
Lemma boot_paging_stores c : ram (run (boot_paging s) c) = foldl store8 (ram c) (boot_entries s).
Proof.
  change (boot_paging s) with ((idmap_pml4 s ++ idmap_pdpt s ++ idmap_pdt s) ++ (kernel_pml4 s ++ kernel_pdpt s) ++
    (kernel_page_0 s ++ kernel_page s 0x200000 0x200000 ++ kernel_page s 0x400000 0x400000 ++
     kernel_page s 0x600000 0x20000000)).
  by rewrite (run_code_app (idmap_pml4 s ++ idmap_pdpt s ++ idmap_pdt s)), (run_code_app (kernel_pml4 s ++ kernel_pdpt s)),
    run_kernel_pages, run_kernel_tables, run_idmap.
Qed.

(** ** The translation *)

(** The first megabytes at [KERNEL_BASE], the heap, and the code itself. *)
Definition boot_map (va : Z) : option Z :=
  let v := va mod 2 ^ 48 in
  if decide (v < 2 ^ 21) then Some v
  else if decide (2 ^ 47 ≤ v < 2 ^ 47 + 0x600000) then Some (v - 2 ^ 47)
  else if decide (2 ^ 47 + 2 ^ 29 ≤ v < 2 ^ 47 + 2 ^ 29 + 2 ^ 21) then Some (v - 2 ^ 47 - 2 ^ 29 + 0x600000)
  else None.

Definition tables_zero (mem : Z → Z) : Prop := ∀ a x, a ∈ table_addrs s → a ≤ x < a + 4096 → mem x = 0.

Lemma read_zero mem a i : tables_zero mem → a ∈ table_addrs s → 0 ≤ i < 512 → read_le mem 8 (a + 8 * i) = 0.
Proof.
  intros Hz Ha Hi. unfold read_le. rewrite (mem_bytes_ext (λ _, 0)); [done|]. intros x Hx. apply (Hz a); [done|lia].
Qed.

(** What is in entry [i] of the table at [a]. *)
Fixpoint entry_in (l : list (Z * Z)) (a : Z) : Z :=
  match l with [] => 0 | (b, v) :: l => if decide (a = b) then v else entry_in l a end.

Lemma read_stores mem l a :
  (8 | a) → Forall (λ p, (8 | p.1) ∧ 0 ≤ p.2 < 2 ^ 64) l → read_le mem 8 a = 0 →
  read_le (foldl store8 mem l) 8 a = entry_in (reverse l) a.
Proof.
  intros Ha Hl H0. induction l as [|[b v] l IH] using rev_ind; [done|].
  apply Forall_app in Hl as [Hl [[Hb Hv] _]%Forall_cons]. rewrite foldl_app, reverse_app. cbn [foldl].
  rewrite read_store8 by done. cbn. by rewrite IH.
Qed.
Definition distinct_pages (p4 p3 p2 i3 i2 : Z) : Prop :=
  (p4 ≠ p3 ∧ p4 ≠ p2 ∧ p4 ≠ i3 ∧ p4 ≠ i2) ∧ (p3 ≠ p2 ∧ p3 ≠ i3 ∧ p3 ≠ i2) ∧ (p2 ≠ i3 ∧ p2 ≠ i2) ∧ i3 ≠ i2.

(** The five tables as multiples of the page size. *)
Record placed (p4 p3 p2 i3 i2 : Z) : Prop := mkPlaced {
  pl_pml4 : phys (boot_pml4 s) = 4096 * p4; pl_pdpt : phys (boot_pdpt s) = 4096 * p3;
  pl_pdt : phys (boot_pdt s) = 4096 * p2; pl_idpdpt : phys (boot_idmap_pdpt s) = 4096 * i3;
  pl_idpdt : phys (boot_idmap_pdt s) = 4096 * i2;
  pl_range : 0 ≤ p4 < 2 ^ 28 ∧ 0 ≤ p3 < 2 ^ 28 ∧ 0 ≤ p2 < 2 ^ 28 ∧ 0 ≤ i3 < 2 ^ 28 ∧ 0 ≤ i2 < 2 ^ 28;
  pl_distinct : distinct_pages p4 p3 p2 i3 i2;
}.

Lemma linked_placed : ∃ p4 p3 p2 i3 i2, placed p4 p3 p2 i3 i2.
Proof.
  pose proof (lk_page _ Hs) as Hp. pose proof (lk_distinct _ Hs) as Hd. unfold table_addrs in Hp, Hd. cbn [fmap list_fmap] in Hp, Hd.
  rewrite !Forall_cons in Hp. destruct Hp as (([p4 E4] & ?) & ([p3 E3] & ?) & ([p2 E2] & ?) & ([i3 F3] & ?) & ([i2 F2] & ?) & _).
  rewrite E4, E3, E2, F3, F2 in *. rewrite !NoDup_cons, !not_elem_of_cons in Hd.
  exists p4, p3, p2, i3, i2. split; [by rewrite Z.mul_comm..| |].
  - clear -H H0 H1 H2 H3. lia.
  - clear -Hd. unfold distinct_pages. naive_solver.
Qed.

Context (mem : Z → Z) (Hz : tables_zero mem).
Definition booted : Z → Z := foldl store8 mem (boot_entries s).

Lemma booted_entry a i :
  a ∈ table_addrs s → 0 ≤ i < 512 → read_le booted 8 (a + 8 * i) = entry_in (reverse (boot_entries s)) (a + 8 * i).
Proof.
  intros Ha Hi. destruct linked_placed as (p4 & p3 & p2 & i3 & i2 & Hp). apply read_stores.
  - destruct (table_addr _ Ha) as [[q ->] _]. exists (q * 512 + i). lia.
  - destruct Hp as [E4 E3 E2 F3 F2 Hr _]. unfold boot_entries. cbv beta zeta. rewrite E4, E3, E2, F3, F2.
    repeat (apply Forall_cons_2; [split; cbn [fst snd]; [repeat first [apply Z.divide_add_r|apply Z.divide_mul_l|by apply Z.mod_divide]|lia]|]). apply Forall_nil_2.
  - by apply read_zero.
Qed.

(** A slot of one page is not a slot of another. *)
Lemma other_page p i q o :
  0 ≤ i < 512 → 0 ≤ o < 4096 → p ≠ q → 4096 * p + 8 * i ≠ 4096 * q + o ∧ (o = 0 → 4096 * p + 8 * i ≠ 4096 * q).
Proof. lia. Qed.

Ltac other_table Hd :=
  first [refine (proj2 (other_page _ _ _ 0 _ _ _) eq_refl) | refine (proj1 (other_page _ _ _ _ _ _ _))];
  [done|lia|unfold distinct_pages in Hd; clear -Hd; destruct Hd as ((? & ? & ? & ?) & (? & ? & ?) & (? & ?) & ?);
    first [done|by apply not_eq_sym]].

Ltac table_entry :=
  intros Hp Hi; rewrite booted_entry by (done || (unfold table_addrs; set_solver));
  destruct Hp as [E4 E3 E2 F3 F2 _ Hd]; unfold boot_entries; cbv beta zeta; rewrite E4, E3, E2, F3, F2;
  cbn [reverse rev_append entry_in];
  repeat (match goal with |- context [decide (?a = ?b)] =>
    first [rewrite (decide_False (P := a = b)) by (other_table Hd) | destruct (decide (a = b))] end);
  clear Hd; lia.

Lemma entry_pml4 p4 p3 p2 i3 i2 i : placed p4 p3 p2 i3 i2 → 0 ≤ i < 512 →
  read_le booted 8 (phys (boot_pml4 s) + 8 * i) =
  if decide (i = 0) then 4096 * i3 + 3 else if decide (i = 256) then 4096 * p3 + 3 else 0.
Proof. table_entry. Qed.

Lemma entry_idpdpt p4 p3 p2 i3 i2 i : placed p4 p3 p2 i3 i2 → 0 ≤ i < 512 →
  read_le booted 8 (phys (boot_idmap_pdpt s) + 8 * i) = if decide (i = 0) then 4096 * i2 + 3 else 0.
Proof. table_entry. Qed.

Lemma entry_idpdt p4 p3 p2 i3 i2 i : placed p4 p3 p2 i3 i2 → 0 ≤ i < 512 →
  read_le booted 8 (phys (boot_idmap_pdt s) + 8 * i) = if decide (i = 0) then 0x83 else 0.
Proof. table_entry. Qed.

Lemma entry_pdpt p4 p3 p2 i3 i2 i : placed p4 p3 p2 i3 i2 → 0 ≤ i < 512 →
  read_le booted 8 (phys (boot_pdpt s) + 8 * i) = if decide (i = 0) then 4096 * p2 + 3 else 0.
Proof. table_entry. Qed.

Lemma entry_pdt p4 p3 p2 i3 i2 i : placed p4 p3 p2 i3 i2 → 0 ≤ i < 512 →
  read_le booted 8 (phys (boot_pdt s) + 8 * i) =
  if decide (i = 0) then 0x83 else if decide (i = 1) then 0x200083 else if decide (i = 2) then 0x400083
  else if decide (i = 256) then 0x600083 else 0.
Proof. table_entry. Qed.

Lemma table_pointer p : 0 ≤ p < 2 ^ 28 →
  Z.testbit (4096 * p + 3) 0 = true ∧ Z.testbit (4096 * p + 3) 7 = false ∧ PAGE_ADDR (4096 * p + 3) = 4096 * p.
Proof.
  intros Hp. unfold PAGE_ADDR. split_and!.
  - rewrite Z.bit0_odd, Z.odd_add, Z.odd_mul. done.
  - rewrite Z.testbit_false by lia. replace (4096 * p + 3) with (3 + p * 32 * 2 ^ 7) by lia.
    rewrite Z.div_add by lia. change (3 / 2 ^ 7) with 0. rewrite Z.add_0_l. replace (p * 32) with (p * 16 * 2) by lia.
    by rewrite Z.mod_mul.
  - replace (4096 * p + 3) with (3 + p * 2 ^ 12) by lia. rewrite Z.div_add by lia. change (3 / 2 ^ 12) with 0.
    rewrite Z.add_0_l, Z.mod_small by lia. lia.
Qed.

Lemma page_table_base p : 0 ≤ p < 2 ^ 28 → PAGE_ADDR (4096 * p) = 4096 * p.
Proof.
  intros Hp. unfold PAGE_ADDR. replace (4096 * p) with (p * 2 ^ 12) by lia.
  rewrite Z.div_mul, Z.mod_small by lia. done.
Qed.

(** The digits of an address. *)
Lemma va_digits va :
  let v := va mod 2 ^ 48 in
  v = va / 2 ^ 39 mod 512 * 2 ^ 39 + va / 2 ^ 30 mod 512 * 2 ^ 30 + va / 2 ^ 21 mod 512 * 2 ^ 21 + va mod 2 ^ 21 ∧
  0 ≤ va / 2 ^ 39 mod 512 < 512 ∧ 0 ≤ va / 2 ^ 30 mod 512 < 512 ∧ 0 ≤ va / 2 ^ 21 mod 512 < 512 ∧ 0 ≤ va mod 2 ^ 21 < 2 ^ 21.
Proof.
  cbn zeta. split_and!; try (by apply Z.mod_pos_bound).
  change (2 ^ 48) with (2 ^ 21 * 512 * 512 * 512). change (2 ^ 39) with (2 ^ 21 * 512 * 512). change (2 ^ 30) with (2 ^ 21 * 512).
  rewrite !Z.rem_mul_r, <- !Z.div_div by lia. lia.
Qed.

(** One level of the walk. *)
Lemma walk_table table va shift p :
  0 ≤ p < 2 ^ 28 → read_le booted 8 (table + 8 * (va / 2 ^ shift mod 512)) = 4096 * p + 3 →
  walk_entry booted table va shift = Some (4096 * p + 3).
Proof. intros Hp E. unfold walk_entry. rewrite E. by destruct (table_pointer p Hp) as (-> & _). Qed.

Lemma walk_nothing table va shift :
  read_le booted 8 (table + 8 * (va / 2 ^ shift mod 512)) = 0 → walk_entry booted table va shift = None.
Proof. intros E. unfold walk_entry. by rewrite E. Qed.

(** The last two levels, below an entry of the top table. *)
Lemma walk_lower va p3 p2 (pages : Z → Z) :
  0 ≤ p3 < 2 ^ 28 → 0 ≤ p2 < 2 ^ 28 →
  (∀ i, 0 ≤ i < 512 → read_le booted 8 (4096 * p3 + 8 * i) = if decide (i = 0) then 4096 * p2 + 3 else 0) →
  (∀ i, 0 ≤ i < 512 → read_le booted 8 (4096 * p2 + 8 * i) = pages i) →
  (∀ i, 0 ≤ i < 512 → pages i = 0 ∨ Z.testbit (pages i) 0 = true ∧ Z.testbit (pages i) 7 = true) →
  (e3 ← walk_entry booted (PAGE_ADDR (4096 * p3 + 3)) va 30;
   if Z.testbit e3 7 then Some (PAGE_ADDR e3 / 2 ^ 30 * 2 ^ 30 + va mod 2 ^ 30) else
   e2 ← walk_entry booted (PAGE_ADDR e3) va 21;
   if Z.testbit e2 7 then Some (PAGE_ADDR e2 / 2 ^ 21 * 2 ^ 21 + va mod 2 ^ 21) else
   e1 ← walk_entry booted (PAGE_ADDR e2) va 12;
   Some (PAGE_ADDR e1 + va mod 2 ^ 12)) =
  let j := va / 2 ^ 21 mod 512 in
  if decide (va / 2 ^ 30 mod 512 = 0 ∧ pages j ≠ 0) then Some (PAGE_ADDR (pages j) / 2 ^ 21 * 2 ^ 21 + va mod 2 ^ 21) else None.
Proof.
  intros R3 R2 T3 T2 Hpages. destruct (va_digits va) as (_ & _ & H3 & H2 & _). cbv zeta.
  destruct (table_pointer p3 R3) as (_ & _ & ->). destruct (table_pointer p2 R2) as (_ & B7 & A2).
  destruct (decide (va / 2 ^ 30 mod 512 = 0)) as [Hi|Hi].
  2: { rewrite walk_nothing by (rewrite T3 by done; by rewrite decide_False). cbn. by rewrite decide_False by tauto. }
  rewrite (walk_table _ _ _ p2) by (done || (rewrite T3 by done; by rewrite decide_True)). cbn [mbind option_bind].
  rewrite B7, A2. destruct (Hpages _ H2) as [Hj|[Hj0 Hj7]].
  - rewrite walk_nothing by (by rewrite T2). cbn. by rewrite decide_False by tauto.
  - unfold walk_entry. rewrite T2, Hj0 by done. cbn [mbind option_bind]. rewrite Hj7.
    rewrite decide_True; [done|]. split; [done|]. intros Hz'. by rewrite Hz' in Hj0.
Qed.

(** The processor's walk over the tables. *)
Lemma walk_booted va : mmu_walk booted (phys (boot_pml4 s)) va = boot_map va.
Proof.
  destruct linked_placed as (p4 & p3 & p2 & i3 & i2 & Hp). pose proof Hp as [E4 E3 E2 F3 F2 (R4 & R3 & R2 & R3' & R2') _].
  destruct (va_digits va) as (Hv & H4 & H3 & H2 & H0). cbv zeta in *.
  pose proof (entry_pml4 _ _ _ _ _ _ Hp H4) as T4. rewrite E4 in T4 |- *. unfold mmu_walk. rewrite page_table_base by done.
  unfold boot_map. cbv zeta. rewrite Hv. destruct (decide (va / 2 ^ 39 mod 512 = 0)) as [E0|N0].
  - rewrite (walk_table _ _ _ i3) by done. cbn [mbind option_bind].
    rewrite (walk_lower va i3 i2 (λ i, if decide (i = 0) then 0x83 else 0)); [|done..| | |].
    + cbv zeta. case_decide as Hd.
      * destruct Hd as [E30 Hd]. case_decide; [|done]. rewrite decide_True by lia. f_equal. 
        change (PAGE_ADDR 131 / 2 ^ 21 * 2 ^ 21) with 0. lia.
      * destruct (decide (va / 2 ^ 30 mod 512 = 0)); [|by rewrite !decide_False by lia].
        revert Hd. destruct (decide (va / 2 ^ 21 mod 512 = 0)); intros Hd; [exfalso; by apply Hd|]. by rewrite !decide_False by lia.
    + intros i Hi. rewrite <- F3. by apply (entry_idpdpt p4 p3 p2 i3 i2).
    + intros i Hi. rewrite <- F2. by apply (entry_idpdt p4 p3 p2 i3 i2).
    + intros i Hi. case_decide; [by right|by left].
  - destruct (decide (va / 2 ^ 39 mod 512 = 256)) as [E256|N256].
    2: { rewrite walk_nothing by done. by rewrite !decide_False by lia. }
    rewrite (walk_table _ _ _ p3) by done. cbn [mbind option_bind].
    rewrite (walk_lower va p3 p2 (λ i, if decide (i = 0) then 0x83 else if decide (i = 1) then 0x200083
      else if decide (i = 2) then 0x400083 else if decide (i = 256) then 0x600083 else 0)); [|done..| | |].
    + cbv zeta. destruct (decide (va / 2 ^ 30 mod 512 = 0)) as [E30|N30];
        [|rewrite decide_False by tauto; by rewrite !decide_False by lia].
      repeat (match goal with |- context [decide (va / 2 ^ 21 mod 512 = ?b)] =>
        destruct (decide (va / 2 ^ 21 mod 512 = b)) end);
      first [rewrite (decide_False (P := _ ∧ _)) by tauto|rewrite (decide_True (P := _ ∧ _)) by done];
      repeat (case_decide; try (exfalso; lia)); try done; f_equal;
      match goal with |- ?a + _ = _ => let v := eval vm_compute in a in change a with v end; lia.
    + intros i Hi. rewrite <- E3. by apply (entry_pdpt p4 p3 p2 i3 i2).
    + intros i Hi. rewrite <- E2. by apply (entry_pdt p4 p3 p2 i3 i2).
    + intros i Hi. repeat case_decide; first [by left|by right].
Qed.

(** Memory outside the tables is untouched. *)
Lemma booted_outside x : (∀ a, a ∈ table_addrs s → ¬ (a ≤ x < a + 4096)) → booted x = mem x.
Proof.
  intros Hx. unfold booted, boot_entries. cbv beta zeta. cbn [foldl]. unfold store8. cbn [fst snd].
  unfold table_addrs in Hx. cbn [fmap list_fmap] in Hx.
  pose proof (Hx _ ltac:(by left)). pose proof (Hx _ ltac:(by right; left)). pose proof (Hx _ ltac:(by do 2 right; left)).
  pose proof (Hx _ ltac:(by do 3 right; left)). pose proof (Hx _ ltac:(by do 4 right; left)).
  rewrite !write_bytes_outside by (rewrite length_to_le_bytes; lia). done.
Qed.

(** [rdi] keeps the argument meanwhile. *)
Definition writes_rdi (i : instr) : bool :=
  match i with
  | MovImm _ d | Mov _ d | Andq _ d | OrImm _ d | Orq _ d | Xorq _ d | Shrq _ d | AddImm _ d | Addq _ d => bool_decide (d = RDI)
  | Store _ _ => false
  end.

Lemma run_keeps_rdi code : ∀ c, forallb (negb ∘ writes_rdi) code = true → regs (run code c) RDI = regs c RDI.
Proof.
  induction code as [|i code IH]; intros c Hc; [done|]. cbn [forallb] in Hc. apply andb_prop in Hc as [Hi Hc].
  unfold run in *. cbn [foldl]. rewrite IH by done. unfold compose in Hi.
  destruct i; cbn in Hi |- *; try done; case_bool_decide; try done; by rewrite decide_False by congruence.
Qed.

Lemma run_enter c :
  let c' := run (enter_high_half s) c in
  ram c' = ram c ∧ regs c' CR3 = phys (boot_pml4 s) ∧ regs c' RDI = (regs c RDI + KERNEL_BASE) mod 2 ^ 64 ∧
  regs c' RSP = boot_stack_bottom s.
Proof. split_and!; reflexivity. Qed.

(** The state [start] is called in: the argument is the address of the boot data in the
    kernel's half, and the translation is [boot_map]. *)
Lemma low_start_state r :
  let c := run (_low_start s) (mkCpu r mem) in
  ram c = booted ∧ regs c CR3 = phys (boot_pml4 s) ∧ regs c RDI = (r RCX + KERNEL_BASE) mod 2 ^ 64 ∧
  regs c RSP = boot_stack_bottom s ∧ ∀ va, mmu_walk (ram c) (regs c CR3) va = boot_map va.
Proof.
  cbv zeta. unfold _low_start. rewrite !run_code_app. set (c1 := run (boot_paging s) _).
  assert (ram c1 = booted) as Hb by (subst c1; by rewrite boot_paging_stores).
  assert (regs c1 RDI = r RCX) as Hr by (subst c1; by rewrite run_keeps_rdi).
  destruct (run_enter c1) as (H1 & H2 & H3 & H4). rewrite H1, H2, H3, H4, Hb, Hr.
  split_and!; [reflexivity..|]. exact walk_booted.
Qed.
End blocks.
