(* ===== verification/Boot.v ===== *)
(** * From the boot loader to the kernel (bootloader/src/main.rs, bootlib, src/boot/mod.rs)

    The end of [efi_main] - the memory map with virtual addresses, the kernel image, the boot
    data at its fixed place - and the kernel's [BootData::relocate], which runs on the page
    tables of [BootAsm].  Memory is bytes by address.  The firmware gives the memory map, the framebuffer and the tables, and
    answers [set_virtual_address_map]; these are arguments. *)

From S2P Require Import Prelude Memory Elf Malloc BootAsm.

Definition MMIO_BASE : Z := 0xffffff0000000000.
Definition MEMORY_MAP_BUF : Z := 0x401000.
Definition BOOT_DATA : Z := 0x400000.

(** [uefi::table::boot::MemoryDescriptor] *)
Record Descriptor := mkDesc { d_ty : Z; d_phys_start : Z; d_virt_start : Z; d_page_count : Z; d_att : Z }.

(** bootlib's [RawFramebuffer] and [BootData]: what the boot loader writes. *)
Record RawFramebuffer := mkRawFb {
  framebuffer_base : Z; framebuffer_size : Z; horizontal_resolution : Z; vertical_resolution : Z;
  pixels_per_scan_line : Z; pixel_format : Z;
}.
Record PhysBootData := mkPhysBootData {
  memory_map_buf : Z; memory_map_len : Z; phys_framebuffer : RawFramebuffer; phys_system_table : Z; phys_acpi_rsdp : Z;
}.

(** The kernel's: a slice is its address and its length. *)
Record BootFramebuffer := mkBootFb {
  framebuffer : Z * Z; fb_horizontal : Z; fb_vertical : Z; fb_scan_line : Z; fb_format : Z;
}.
Record BootData := mkBootData { memory_map : Z * Z; boot_framebuffer : BootFramebuffer; system_table : Z; acpi_rsdp : Z }.

(** The loop over the configuration tables of the firmware, each a GUID and an address. *)
Definition find_rsdp (ACPI2_GUID : Z) (config_table : list (Z * Z)) : Z :=
  foldl (λ rsdp t, if decide (t.1 = ACPI2_GUID) then t.2 else rsdp) 0 config_table.

Definition virt_mmap (entries : list Descriptor) : outcome (list Descriptor) :=
  mfold (λ vs e,
    virt ← checked_add 64 (d_phys_start e) MMIO_BASE;
    Ret (vs ++ [mkDesc (d_ty e) (d_phys_start e) virt (d_page_count e) (d_att e)])) entries [].

(** The [repr(C)] layouts; [pad] is the padding after a 32-bit field, whose bytes are not defined. *)
Definition desc_widths : list nat := [4; 4; 8; 8; 8; 8]%nat.
Definition DESC_SIZE : Z := 40.
Definition desc_bytes (pad : Z) (d : Descriptor) : list Z :=
  encode_fields desc_widths [d_ty d; pad; d_phys_start d; d_virt_start d; d_page_count d; d_att d].

Definition boot_widths : list nat := [8; 8; 8; 8; 8; 8; 8; 4; 4; 8; 8]%nat.
Definition boot_fields (pad : Z) (b : PhysBootData) : list Z :=
  let fb := phys_framebuffer b in
  [memory_map_buf b; memory_map_len b; framebuffer_base fb; framebuffer_size fb; horizontal_resolution fb;
   vertical_resolution fb; pixels_per_scan_line fb; pixel_format fb; pad; phys_system_table b; phys_acpi_rsdp b].
Definition boot_bytes (pad : Z) (b : PhysBootData) : list Z := encode_fields boot_widths (boot_fields pad b).

Inductive boot_end := Aborted | Entered (entry_point : Z).

(** [efi_main] from [exit_boot_services] to the jump.  [map_ok] is the firmware's answer to
    [set_virtual_address_map], [table_ptr] the address of the local the table is in. *)
Definition boot_kernel (map_ok : list Descriptor → bool) (table_ptr pad : Z) (entries : list Descriptor)
    (file : list Z) (raw_fb : RawFramebuffer) (rsdp : Z) (mem : Z → Z) : outcome ((Z → Z) * boot_end) :=
  vs ← virt_mmap entries;
  _ ← assert_that (map_ok vs) (ExpectFailed "error when setting virtual memory map");
  '(mem, r) ← load_elf file mem;
  match r with
  | Err _ => Ret (mem, Aborted)
  | Ok entry_point =>
      let mem := write_bytes mem MEMORY_MAP_BUF (concat (desc_bytes pad <$> vs)) in
      let mem := write_bytes mem BOOT_DATA
        (boot_bytes pad (mkPhysBootData MEMORY_MAP_BUF (Z.of_nat (length vs)) raw_fb table_ptr rsdp)) in
      Ret (mem, Entered entry_point)
  end.

(** The kernel's side; [mem] is memory as the kernel sees it. *)
Definition read_boot_data (mem : Z → Z) (a : Z) : outcome PhysBootData :=
  match decode_fields boot_widths (mem_bytes mem a 80) with
  | [buf; len; fb; fs; hr; vr; sl; pf; _; st; rsdp] =>
      Ret (mkPhysBootData buf len (mkRawFb fb fs hr vr sl pf) st rsdp)
  | _ => Panic Unreachable
  end.

Definition fb_relocate (phys_fb : RawFramebuffer) (kernel_base : Z) : BootFramebuffer :=
  mkBootFb (framebuffer_base phys_fb, framebuffer_size phys_fb) (horizontal_resolution phys_fb)
    (vertical_resolution phys_fb) (pixels_per_scan_line phys_fb) (pixel_format phys_fb).

Definition relocate (mem : Z → Z) (phys_boot_data base : Z) : outcome BootData :=
  p ← read_boot_data mem phys_boot_data;
  rsdp ← checked_add 64 (phys_acpi_rsdp p) base;
  mm_ptr ← checked_add 64 (memory_map_buf p) KERNEL_BASE;
  Ret (mkBootData (mm_ptr, memory_map_len p) (fb_relocate (phys_framebuffer p) base) (phys_system_table p) rsdp).

(** What the kernel reads through the slice of the memory map. *)
Definition read_desc (mem : Z → Z) (a : Z) : outcome Descriptor :=
  match decode_fields desc_widths (mem_bytes mem a 40) with
  | [ty; _; ps; vs; pc; att] => Ret (mkDesc ty ps vs pc att)
  | _ => Panic Unreachable
  end.

Fixpoint read_descs (mem : Z → Z) (a : Z) (n : nat) : outcome (list Descriptor) :=
  match n with
  | O => Ret []
  | S n => d ← read_desc mem a; ds ← read_descs mem (a + DESC_SIZE) n; Ret (d :: ds)
  end.

(** ** Lemmas *)

Definition relocated (e : Descriptor) : Descriptor :=
  mkDesc (d_ty e) (d_phys_start e) (d_phys_start e + MMIO_BASE) (d_page_count e) (d_att e).

(** Entries as the firmware gives them, below the 1 TiB the window at [MMIO_BASE] has. *)
Definition entry_ok (e : Descriptor) : Prop :=
  0 ≤ d_ty e < 2 ^ 32 ∧ 0 ≤ d_phys_start e < 2 ^ 40 ∧ 0 ≤ d_page_count e < 2 ^ 64 ∧ 0 ≤ d_att e < 2 ^ 64.

Lemma virt_mmap_Ret es : Forall entry_ok es → virt_mmap es = Ret (relocated <$> es).
Proof.
  intros Hes. unfold virt_mmap.
  assert (∀ acc, mfold (λ vs e,
      virt ← checked_add 64 (d_phys_start e) MMIO_BASE;
      Ret (vs ++ [mkDesc (d_ty e) (d_phys_start e) virt (d_page_count e) (d_att e)])) es acc
    = Ret (acc ++ (relocated <$> es))) as H; [|apply (H [])].
  induction Hes as [|e es (_ & Hp & _) _ IH]; intros acc; cbn [mfold fmap list_fmap]; [by rewrite app_nil_r|].
  rewrite checked_add_ok by (unfold MMIO_BASE; lia). ret. rewrite IH. by rewrite <- app_assoc.
Qed.

(** The window ends at the top of the address space: memory from 1 TiB on does not fit. *)
Lemma virt_mmap_high e : 2 ^ 40 ≤ d_phys_start e → virt_mmap [e] = Panic ArithmeticOverflow.
Proof. intros He. unfold virt_mmap, checked_add. cbn [mfold]. by rewrite decide_False by (unfold MMIO_BASE; lia). Qed.

Lemma length_desc_bytes pad d : length (desc_bytes pad d) = 40%nat.
Proof. unfold desc_bytes. by rewrite length_encode. Qed.

Lemma length_descs pad ds : length (concat (desc_bytes pad <$> ds)) = (40 * length ds)%nat.
Proof. induction ds as [|d ds IH]; [done|]. cbn [fmap list_fmap concat length]. rewrite length_app, IH, length_desc_bytes. lia. Qed.

Definition desc_ok (d : Descriptor) : Prop :=
  0 ≤ d_ty d < 2 ^ 32 ∧ 0 ≤ d_phys_start d < 2 ^ 64 ∧ 0 ≤ d_virt_start d < 2 ^ 64 ∧
  0 ≤ d_page_count d < 2 ^ 64 ∧ 0 ≤ d_att d < 2 ^ 64.

Lemma relocated_ok e : entry_ok e → desc_ok (relocated e).
Proof. unfold entry_ok, desc_ok, relocated, MMIO_BASE. cbn. lia. Qed.

Lemma read_descs_holds pad mem ds : ∀ a,
  0 ≤ pad < 2 ^ 32 → Forall desc_ok ds → holds mem a (concat (desc_bytes pad <$> ds)) → read_descs mem a (length ds) = Ret ds.
Proof.
  induction ds as [|d ds IH]; intros a Hpad Hok Hm; [done|]. apply Forall_cons in Hok as [Hd Hok].
  cbn [fmap list_fmap concat] in Hm. apply holds_app in Hm as [Hm1 Hm]. rewrite length_desc_bytes in Hm.
  cbn [read_descs length]. unfold read_desc, holds in *. rewrite length_desc_bytes in Hm1. rewrite Hm1.
  unfold desc_bytes. rewrite <- (app_nil_r (encode_fields _ _)), decode_encode.
  - cbn [mbind outcome_bind]. rewrite (IH (a + DESC_SIZE)) by done. ret. by destruct d.
  - destruct Hd as (?&?&?&?&?). repeat constructor; cbn; lia.
Qed.

Definition raw_fb_ok (f : RawFramebuffer) : Prop :=
  0 ≤ framebuffer_base f < 2 ^ 64 ∧ 0 ≤ framebuffer_size f < 2 ^ 64 ∧ 0 ≤ horizontal_resolution f < 2 ^ 64 ∧
  0 ≤ vertical_resolution f < 2 ^ 64 ∧ 0 ≤ pixels_per_scan_line f < 2 ^ 64 ∧ 0 ≤ pixel_format f < 2 ^ 32.

Lemma read_boot_data_holds pad mem a b :
  0 ≤ pad < 2 ^ 32 → raw_fb_ok (phys_framebuffer b) → 0 ≤ memory_map_buf b < 2 ^ 64 → 0 ≤ memory_map_len b < 2 ^ 64 →
  0 ≤ phys_system_table b < 2 ^ 64 → 0 ≤ phys_acpi_rsdp b < 2 ^ 64 →
  holds mem a (boot_bytes pad b) → read_boot_data mem a = Ret b.
Proof.
  intros Hpad (?&?&?&?&?&?) ? ? ? ? Hm. unfold read_boot_data, holds, boot_bytes in *.
  rewrite length_encode in Hm by done. change (sum_list boot_widths) with 80%nat in Hm. rewrite Hm.
  rewrite <- (app_nil_r (encode_fields _ _)), decode_encode; [by destruct b as [? ? []]|].
  repeat constructor; cbn; lia.
Qed.

(** ** The hand-over *)

Definition overlay (n : nat) (x : Z) : Prop := BOOT_DATA ≤ x < BOOT_DATA + 80 ∨ MEMORY_MAP_BUF ≤ x < MEMORY_MAP_BUF + 40 * Z.of_nat n.

Definition in_tables (s : symbols) (x : Z) : Prop := ∃ a, a ∈ table_addrs s ∧ a ≤ x < a + 4096.

(** Memory as the kernel sees it: at mapped addresses what the translation says, anything
    elsewhere. *)
Definition sees (c : cpu) (vmem : Z → Z) : Prop := ∀ va pa, mmu_walk (ram c) (regs c CR3) va = Some pa → vmem va = ram c pa.

Lemma boot_map_kernel x : 0 ≤ x < 0x600000 → boot_map (KERNEL_BASE + x) = Some x.
Proof.
  intros Hx. unfold boot_map. assert ((KERNEL_BASE + x) mod 2 ^ 48 = 2 ^ 47 + x) as ->.
  { change KERNEL_BASE with (2 ^ 47 + 0xffff * 2 ^ 48). replace (2 ^ 47 + 65535 * 2 ^ 48 + x) with (2 ^ 47 + x + 65535 * 2 ^ 48) by lia.
    rewrite Z.mod_add by done. apply Z.mod_small. lia. }
  cbv zeta. rewrite decide_False, decide_True by lia. f_equal. lia.
Qed.

(** Bytes of the first megabytes, seen at [KERNEL_BASE]. *)
Lemma holds_view c vmem a l :
  (∀ va, mmu_walk (ram c) (regs c CR3) va = boot_map va) → sees c vmem → 0 ≤ a → a + Z.of_nat (length l) ≤ 0x600000 →
  holds (ram c) a l → holds vmem (KERNEL_BASE + a) l.
Proof.
  intros Hw Hs Ha Hl Hm. rewrite holds_iff in *. intros i b Hi. rewrite <- (Hm i b Hi), <- Z.add_assoc. apply Hs.
  rewrite Hw. apply boot_map_kernel. apply lookup_lt_Some in Hi. lia.
Qed.

Section hand_over.
Context (map_ok : list Descriptor → bool) (table_ptr pad rsdp : Z) (entries : list Descriptor).
Context (file : list Z) (h : ElfHeader) (phs : list ProgramHeader) (raw_fb : RawFramebuffer) (sy : symbols).
Hypothesis Hmap : map_ok (relocated <$> entries) = true.
Hypothesis Hptr : 0 ≤ table_ptr < 2 ^ 64.
Hypothesis Hpad : 0 ≤ pad < 2 ^ 32.
Hypothesis Hrsdp : 0 ≤ rsdp < 2 ^ 40.
Hypothesis Hentries : Forall entry_ok entries.
Hypothesis Hcount : MEMORY_MAP_BUF + 40 * Z.of_nat (length entries) ≤ 0x600000.
Hypothesis Hfb : raw_fb_ok raw_fb.
Hypothesis Helf : elf_ok file h phs.
Hypothesis Hsegments : Forall (segment_ok file) phs.
Hypothesis Hdisjoint : ∀ i j ph ph' x,
  phs !! i = Some ph → phs !! j = Some ph' → in_segment ph x → in_segment ph' x → i = j.
Hypothesis Hlinked : linked sy.
(** The tables are in the part of the image that is zero, away from the boot data. *)
Hypothesis Htables : ∀ x, in_tables sy x →
  ¬ overlay (length entries) x ∧ ∃ ph, ph ∈ phs ∧ in_segment ph x ∧ segment_byte file ph x = 0.

Definition phys_data : PhysBootData := mkPhysBootData MEMORY_MAP_BUF (Z.of_nat (length entries)) raw_fb table_ptr rsdp.

(** What the boot loader leaves in memory. *)
Lemma boot_kernel_memory mem :
  ∃ mem', boot_kernel map_ok table_ptr pad entries file raw_fb rsdp mem = Ret (mem', Entered (e_entry h)) ∧
    holds mem' BOOT_DATA (boot_bytes pad phys_data) ∧
    holds mem' MEMORY_MAP_BUF (concat (desc_bytes pad <$> (relocated <$> entries))) ∧
    (∀ ph x, ph ∈ phs → in_segment ph x → ¬ overlay (length entries) x → mem' x = segment_byte file ph x).
Proof.
  destruct (load_elf_places file h phs mem Helf Hsegments Hdisjoint) as (mem1 & E & Hin & _).
  set (mem2 := write_bytes mem1 MEMORY_MAP_BUF (concat (desc_bytes pad <$> (relocated <$> entries)))).
  set (mem3 := write_bytes mem2 BOOT_DATA (boot_bytes pad phys_data)). exists mem3.
  assert (length (boot_bytes pad phys_data) = 80%nat) as Hlb by (unfold boot_bytes; by rewrite length_encode).
  assert (length (concat (desc_bytes pad <$> (relocated <$> entries))) = (40 * length entries)%nat) as Hld
    by (by rewrite length_descs, length_fmap).
  split_and!.
  - unfold boot_kernel. rewrite virt_mmap_Ret by done. ret. rewrite Hmap. ret. rewrite E. ret. by rewrite length_fmap.
  - apply holds_written.
  - eapply holds_ext; [apply holds_written|]. intros x Hx. apply write_bytes_outside.
    rewrite Hlb. unfold BOOT_DATA, MEMORY_MAP_BUF in *. lia.
  - intros ph x Hph Hx Ho. unfold overlay in Ho. unfold mem3. rewrite write_bytes_outside by (rewrite Hlb; lia).
    unfold mem2. rewrite write_bytes_outside by (rewrite Hld; lia). by apply Hin.
Qed.

(** C31. From the boot loader to [start].  For a kernel image and a memory map of the
    firmware the boot loader enters the image; the code of [_low_start], given the address of
    the boot data, builds page tables on which [relocate] reads, in the kernel's half, what
    the boot loader meant to pass: the framebuffer and the system table pointer, the ACPI
    pointer in the window at [MMIO_BASE], and a memory map slice that holds the firmware's
    entries with virtual addresses in that window.  The segments of the kernel are in place
    except for the boot data, the memory map and the page tables, written after them. *)
Theorem boot_hand_over mem r :
  r RCX = BOOT_DATA →
  ∃ mem1, boot_kernel map_ok table_ptr pad entries file raw_fb rsdp mem = Ret (mem1, Entered (e_entry h)) ∧
    let c := run (_low_start sy) (mkCpu r mem1) in
    (∀ ph x, ph ∈ phs → in_segment ph x → ¬ overlay (length entries) x → ¬ in_tables sy x → ram c x = segment_byte file ph x) ∧
    ∀ vmem, sees c vmem → ∃ data, relocate vmem (regs c RDI) MMIO_BASE = Ret data ∧
      boot_framebuffer data = fb_relocate raw_fb 0 ∧ system_table data = table_ptr ∧ acpi_rsdp data = rsdp + MMIO_BASE ∧
      (memory_map data).2 = Z.of_nat (length entries) ∧
      read_descs vmem (memory_map data).1 (length entries) = Ret (relocated <$> entries).
Proof.
  intros Hrcx. destruct (boot_kernel_memory mem) as (mem1 & E & Hbd & Hmm & Hseg). exists mem1. split; [done|].
  assert (tables_zero sy mem1) as Hz.
  { intros a x Ha Hx. destruct (Htables x) as [Ho (ph & Hph & Hin & Hb)]; [by exists a|]. by rewrite (Hseg ph). }
  destruct (low_start_state sy Hlinked mem1 Hz r) as (Hram & _ & Hrdi & _ & Hwalk). cbv zeta in *.
  revert Hram Hrdi Hwalk. generalize (run (_low_start sy) (mkCpu r mem1)) as c. intros c Hram Hrdi Hwalk.
  assert (∀ x, ¬ in_tables sy x → ram c x = mem1 x) as Hout.
  { intros x Hx. rewrite Hram. apply booted_outside. intros a Ha Hax. apply Hx. by exists a. }
  split; [intros ph x Hph Hin Ho Ht; rewrite Hout by done; by apply Hseg|]. intros vmem Hs.
  assert (∀ a l, holds mem1 a l → 0 ≤ a → a + Z.of_nat (length l) ≤ 0x600000 →
    (∀ x, a ≤ x < a + Z.of_nat (length l) → overlay (length entries) x) → holds vmem (KERNEL_BASE + a) l) as Hview.
  { intros a l Hl Ha Hfit Ho. apply (holds_view c); try done. eapply holds_ext; [exact Hl|].
    intros x Hx. apply Hout. intros Ht. destruct (Htables x Ht) as [Hn _]. by apply Hn, Ho. }
  assert (length (boot_bytes pad phys_data) = 80%nat) as Hlb by (unfold boot_bytes; by rewrite length_encode).
  assert (read_boot_data vmem (regs c RDI) = Ret phys_data) as Hr.
  { rewrite Hrdi, Hrcx. change ((BOOT_DATA + KERNEL_BASE) mod 2 ^ 64) with (KERNEL_BASE + BOOT_DATA).
    apply (read_boot_data_holds pad); try done; [cbn; unfold MEMORY_MAP_BUF in *; lia..|cbn; lia|].
    apply Hview; [done|done|rewrite Hlb; done|]. rewrite Hlb. intros x Hx. left. lia. }
  exists (mkBootData (KERNEL_BASE + MEMORY_MAP_BUF, Z.of_nat (length entries)) (fb_relocate raw_fb MMIO_BASE) table_ptr (rsdp + MMIO_BASE)).
  split_and!; try done.
  - unfold relocate. rewrite Hr. ret. cbn [phys_acpi_rsdp memory_map_buf phys_data]. unfold MMIO_BASE, KERNEL_BASE, MEMORY_MAP_BUF.
    rewrite (checked_add_ok 64 rsdp) by lia. ret. by rewrite (checked_add_ok 64 0x401000) by lia.
  - cbn [memory_map fst]. rewrite <- (length_fmap relocated entries).
    apply (read_descs_holds pad); [done|by apply Forall_fmap; eapply Forall_impl; [|apply relocated_ok]|].
    apply Hview; [done|done|..]; rewrite length_descs, length_fmap; [lia|]. intros x Hx. right. lia.
Qed.
End hand_over.

(** The tables behind the bytes of the example image. *)
Definition ex_symbols : symbols :=
  mkSymbols (KERNEL_BASE + 0x201000) (KERNEL_BASE + 0x202000) (KERNEL_BASE + 0x203000) (KERNEL_BASE + 0x204000)
    (KERNEL_BASE + 0x205000) (KERNEL_BASE + 0x20e000) 0x100000.

Lemma ex_tables : table_addrs ex_symbols = [0x201000; 0x202000; 0x203000; 0x204000; 0x205000].
Proof. done. Qed.

Lemma ex_linked : linked ex_symbols.
Proof.
  split; [|rewrite ex_tables; by apply (bool_decide_unpack _)|by cbn].
  rewrite ex_tables. repeat (apply Forall_cons_2; [split; [by apply Z.mod_divide|lia]|]). apply Forall_nil_2.
Qed.

Lemma ex_in_tables x : in_tables ex_symbols x → 0x201000 ≤ x < 0x206000.
Proof. intros (a & Ha & Hx). rewrite ex_tables, !elem_of_cons, elem_of_nil in Ha. lia. Qed.

Lemma boot_hand_over_witness : ∃ mem1,
  boot_kernel (λ _, true) 0x5000 0 [mkDesc 7 0x100000 0 16 15] ex_elf (mkRawFb 0xc0000000 4096 32 32 32 0) 0x7000 (λ _, 1)
    = Ret (mem1, Entered 0x200010) ∧
  let c := run (_low_start ex_symbols) (mkCpu (λ _, BOOT_DATA) mem1) in
  ram c 0x200001 = 8 ∧
  ∀ vmem, sees c vmem → ∃ data, relocate vmem (regs c RDI) MMIO_BASE = Ret data ∧ acpi_rsdp data = 0xffffff0000007000 ∧
    read_descs vmem (memory_map data).1 1 = Ret [mkDesc 7 0x100000 0xffffff0000100000 16 15].
Proof.
  destruct (boot_hand_over (λ _, true) 0x5000 0 0x7000 [mkDesc 7 0x100000 0 16 15] ex_elf ex_elf_header [ex_segment]
    (mkRawFb 0xc0000000 4096 32 32 32 0) ex_symbols) with (mem := λ _ : Z, 1) (r := λ _ : reg, BOOT_DATA)
    as (mem1 & E & Hs & Hv).
  - reflexivity.
  - lia.
  - lia.
  - lia.
  - apply Forall_singleton. unfold entry_ok. cbn. lia.
  - cbn. unfold MEMORY_MAP_BUF. lia.
  - unfold raw_fb_ok. cbn. lia.
  - apply ex_elf_ok.
  - apply ex_segment_ok.
  - intros [|i] [|j] a b x Hi Hj; [reflexivity|discriminate..].
  - apply ex_linked.
  - intros x Hx%ex_in_tables. split; [unfold overlay, BOOT_DATA, MEMORY_MAP_BUF; lia|].
    exists ex_segment. split; [apply list_elem_of_here|]. split; [split; [discriminate|cbn; lia]|].
    unfold segment_byte. cbn [p_paddr p_filesz ex_segment]. rewrite decide_False by lia. reflexivity.
  - reflexivity.
  - exists mem1. split; [exact E|]. split.
    + rewrite (Hs ex_segment); [reflexivity|apply list_elem_of_here| | |].
      * split; [discriminate|cbn; lia].
      * unfold overlay, BOOT_DATA, MEMORY_MAP_BUF. lia.
      * intros Hx%ex_in_tables. lia.
    + intros vmem Hvm. destruct (Hv vmem Hvm) as (data & Hr & _ & _ & Ha & _ & Hd).
      exists data. split; [exact Hr|]. split; [exact Ha|exact Hd].
Defined.
