(* ===== verification/Layout.v ===== *)
(** * The layout of the structures shared with hardware, firmware and assembly

    The declarations with [repr(C)] and [repr(packed)] as types, and the layout rules of the
    Rust reference for them: [size_of], [align_of] and the offset of a field.  The parsers of
    [Acpi], [Elf] and [Boot] and the assembly of [Switch] read fields at literal offsets; the
    last part shows that these are the offsets of the declarations.

    [IOAPIC], [LAPCIOverride] and [InterruptSourceOverride] are [repr(packed)] without [C]: the
    order of their fields is the compiler's choice, here the order of the declaration. *)

From S2P Require Import Prelude Memory Acpi Malloc Task Switch Rtl8139 Elf Boot.

(** ** Types *)

Inductive repr := ReprC | ReprAlign (a : Z) | Packed.

(** A primitive type is as aligned as it is large.  The induction principle is [ty_rec_nested]. *)
Unset Elimination Schemes.
Inductive ty :=
| Prim (size : Z)
| Array (t : ty) (n : Z)
| Struct (r : repr) (fields : list (string * ty)).
Set Elimination Schemes.

Definition u8 : ty := Prim 1.
Definition u16 : ty := Prim 2.
Definition u32 : ty := Prim 4.
Definition u64 : ty := Prim 8.
Definition usize : ty := Prim 8.
Definition ptr : ty := Prim 8.

(** The least multiple of [a] that is not below [x]. *)
Definition align_up (x a : Z) : Z := (x + a - 1) / a * a.

Definition field_align (r : repr) (a : Z) : Z := match r with Packed => 1 | _ => a end.

(** Fields in order, each at the next multiple of its alignment: the offsets, and the end. *)
Fixpoint lay (off : Z) (fs : list (Z * Z)) : list Z * Z :=
  match fs with
  | [] => ([], off)
  | (s, a) :: fs =>
      let o := align_up off a in
      let '(os, e) := lay (o + s) fs in (o :: os, e)
  end.

Definition struct_align (r : repr) (fs : list (Z * Z)) : Z :=
  foldr (λ f m, Z.max f.2 m) (match r with ReprAlign a => Z.max 1 a | _ => 1 end) fs.

Definition struct_layout (r : repr) (fs : list (Z * Z)) : Z * Z :=
  let fs := List.map (λ f, (f.1, field_align r f.2)) fs in
  (align_up (lay 0 fs).2 (struct_align r fs), struct_align r fs).

(** Size and alignment. *)
Fixpoint layout (t : ty) : Z * Z :=
  match t with
  | Prim n => (n, n)
  | Array t n => let '(s, a) := layout t in (s * n, a)
  | Struct r fs => struct_layout r (List.map (λ f, layout f.2) fs)
  end.

Definition size_of (t : ty) : Z := (layout t).1.
Definition align_of (t : ty) : Z := (layout t).2.

(** The fields a structure is laid out by. *)
Definition parts (r : repr) (fs : list (string * ty)) : list (Z * Z) :=
  List.map (λ f, (size_of f.2, field_align r (align_of f.2))) fs.

Definition offsets (r : repr) (fs : list (string * ty)) : list Z := (lay 0 (parts r fs)).1.

Fixpoint find_field (name : string) (fs : list (string * ty)) (os : list Z) : option (Z * ty) :=
  match fs, os with
  | (n, t) :: fs, o :: os => if String.eqb n name then Some (o, t) else find_field name fs os
  | _, _ => None
  end.

Definition field_of (t : ty) (name : string) : option (Z * ty) :=
  match t with
  | Struct r fs => find_field name fs (offsets r fs)
  | _ => None
  end.

(** The offset and the type of a place [t.a.b]. *)
Fixpoint place (t : ty) (path : list string) : option (Z * ty) :=
  match path with
  | [] => Some (0, t)
  | name :: path =>
      '(o, t) ← field_of t name;
      '(o', t') ← place t path;
      Some (o + o', t')
  end.

Definition offset_of (t : ty) (path : list string) : option Z := fst <$> place t path.

(** The value of a place of the structure at [a]. *)
Definition read_place (mem : Z → Z) (a : Z) (t : ty) (path : list string) : option Z :=
  '(o, t) ← place t path; Some (read_le mem (Z.to_nat (size_of t)) (a + o)).

(** ** The declarations *)

(** *** drivers/acpi.rs *)

Definition table_header : list (string * ty) :=
  [("signature", Array u8 4); ("length", u32); ("revision", u8); ("checksum", u8); ("oemid", Array u8 6);
   ("oem_table_id", Array u8 8)]%string.

Definition T_MADT : ty := Struct ReprC [("lapic_addr", u32); ("flags", u32); ("int_ctrlr_struct", u8)]%string.

Definition T_HPET : ty := Struct Packed
  [("event_timer_block_id", u32); ("address_space_id", u8); ("register_bit_width", u8); ("register_bit_offset", u8);
   ("reserved", u8); ("base_address", usize); ("hpet_number", u8); ("minimum_tick", u16); ("page_protection", u8)]%string.

Definition T_MCFG : ty := Struct Packed
  (table_header ++ [("oem_revision", u32); ("creator_id", Array u8 4); ("creator_revision", u32); ("reserved", u64)]%string).

Definition T_Allocation : ty := Struct Packed
  [("base_address", u64); ("segment_group_number", u16); ("start_bus_number", u8); ("end_bus_number", u8);
   ("reserved", u32)]%string.

Definition T_RSDP : ty := Struct ReprC
  [("signature", Array u8 8); ("checksum", u8); ("oemid", Array u8 6); ("revision", u8); ("rstd_addr", u32);
   ("length", u32); ("xsdt_addr", usize); ("ext_chksum", u8); ("_reserved", Array u8 3)]%string.

Definition T_XSDT : ty := Struct ReprC
  (table_header ++ [("oem_revision", Array u8 4); ("creator_id", Array u8 4); ("creator_revision", Array u8 4);
                    ("entry", ptr)]%string).

Definition T_DescriptionHeader : ty := Struct ReprC
  (table_header ++ [("oem_revision", Array u8 4); ("creator_id", Array u8 4); ("creator_revision", Array u8 4);
                    ("data", u8)]%string).

Definition T_InterruptController (A : ty) : ty := Struct ReprC [("ty", u8); ("length", u8); ("type_specific", A)]%string.

Definition T_IOAPIC : ty := Struct Packed
  [("id", u8); ("_reserved", u8); ("addr", u32); ("global_system_interrupt_base", u32)]%string.

Definition T_LAPCIOverride : ty := Struct Packed [("_reserved", u16); ("addr", u64)]%string.

Definition T_InterruptSourceOverride : ty := Struct Packed
  [("bus", u8); ("source", u8); ("global_system_interrupt", u8); ("flags", u16)]%string.

(** *** kernel/sched/task.rs *)

Definition T_TaskFlags : ty := Struct ReprC [("0", u32)]%string.

Definition T_Registers : ty := Struct ReprC [("stack_top", usize); ("cr3", usize)]%string.

Definition T_TaskInfo : ty := Struct ReprC
  [("task_id", usize); ("registers", T_Registers); ("last_scheduled", u64); ("run_until", u64); ("total_runtime", u64);
   ("flags", T_TaskFlags); ("interrupt_enabled", u8)]%string.

Definition T_Task : ty := Struct (ReprAlign 0x2000)
  [("info", T_TaskInfo); ("stack", Array u8 (KERNEL_STACK_SIZE - size_of T_TaskInfo))]%string.

(** *** The descriptor table registers, the buffers of the network card and the page tables *)

Definition T_IDTR : ty := Struct Packed [("limit", u16); ("base", usize)]%string.
Definition T_GDTR : ty := Struct Packed [("limit", u16); ("base", usize)]%string.
Definition T_RxBuf : ty := Struct (ReprAlign 4) [("buf", Array u8 RX_BUF_SIZE_WITH_WRAP)]%string.
Definition T_TxBuf : ty := Struct (ReprAlign 4) [("buf", Array u8 TX_BUF_SIZE)]%string.
Definition T_PagingStructEntry : ty := Struct ReprC [("bytes", u64)]%string.
Definition T_PagingStruct : ty := Struct (ReprAlign 0x1000) [("entries", Array T_PagingStructEntry 512)]%string.

(** *** bootlib and loader/elf.rs; [PixelFormat] is an enumeration of 32 bits. *)

Definition T_RawFramebuffer : ty := Struct ReprC
  [("framebuffer_base", ptr); ("framebuffer_size", usize); ("horizontal_resolution", usize);
   ("vertical_resolution", usize); ("pixels_per_scan_line", usize); ("pixel_format", u32)]%string.

Definition T_BootData : ty := Struct ReprC
  [("memory_map_buf", ptr); ("memory_map_len", usize); ("framebuffer", T_RawFramebuffer); ("system_table", ptr);
   ("acpi_rsdp", ptr)]%string.

Definition T_ElfHeader : ty := Struct ReprC
  [("e_ident", Array u8 16); ("e_type", u16); ("e_machine", u16); ("e_version", u32); ("e_entry", usize);
   ("e_phoff", usize); ("e_shoff", usize); ("e_flags", u32); ("e_ehsize", u16); ("e_phentsize", u16); ("e_phnum", u16);
   ("e_shentsize", u16); ("e_shnum", u16); ("e_shstrndx", u16)]%string.

Definition T_ProgramHeader : ty := Struct ReprC
  [("p_type", u32); ("p_flags", u32); ("p_offset", usize); ("p_vaddr", usize); ("p_paddr", usize);
   ("p_filesz", usize); ("p_memsz", usize); ("p_aligh", usize)]%string.

(** ** The rules are sound *)

Definition pow2 (a : Z) : bool := (0 <? a) && (2 ^ Z.log2 a =? a).

(** Alignments are powers of two, arrays have a length. *)
Fixpoint ty_ok (t : ty) : bool :=
  match t with
  | Prim n => pow2 n
  | Array t n => ty_ok t && (0 <=? n)
  | Struct r fs => (match r with ReprAlign a => pow2 a | _ => true end) && forallb (λ f, ty_ok f.2) fs
  end.

Fixpoint unpacked (t : ty) : bool :=
  match t with
  | Prim _ => true
  | Array t _ => unpacked t
  | Struct Packed _ => false
  | Struct _ fs => forallb (λ f, unpacked f.2) fs
  end.

Section ty_induction.
Context (P : ty → Prop) (Hprim : ∀ n, P (Prim n)) (Harray : ∀ t n, P t → P (Array t n)).
Context (Hstruct : ∀ r fs, Forall (λ f, P f.2) fs → P (Struct r fs)).

Fixpoint ty_rec_nested (t : ty) : P t :=
  match t with
  | Prim n => Hprim n
  | Array t n => Harray t n (ty_rec_nested t)
  | Struct r fs =>
      Hstruct r fs
        ((fix go (fs : list (string * ty)) : Forall (λ f, P f.2) fs :=
            match fs with
            | [] => Forall_nil_2 (λ f, P f.2)
            | f :: fs => Forall_cons_2 (λ f, P f.2) f fs (ty_rec_nested f.2) (go fs)
            end) fs)
  end.
End ty_induction.

Lemma pow2_spec a : pow2 a → 0 < a ∧ 2 ^ Z.log2 a = a.
Proof. unfold pow2. intros [H E]%andb_prop_elim. by apply Is_true_true, Z.ltb_lt in H; apply Is_true_true, Z.eqb_eq in E. Qed.

Lemma is_pow2_pos a : pow2 a → 0 < a.
Proof. by intros [? _]%pow2_spec. Qed.

Lemma is_pow2_divide a b : pow2 a → pow2 b → a ≤ b → (a | b).
Proof.
  intros [Ha <-]%pow2_spec [Hb <-]%pow2_spec Hab.
  apply Z.pow_le_mono_r_iff in Hab; [|lia|apply Z.log2_nonneg].
  exists (2 ^ (Z.log2 b - Z.log2 a)). pose proof (Z.log2_nonneg a). rewrite <- Z.pow_add_r by lia. f_equal. lia.
Qed.

Lemma pow2_max a b : pow2 a → pow2 b → pow2 (Z.max a b).
Proof. intros ??. by destruct (Z.max_spec a b) as [[_ ->]|[_ ->]]. Qed.

Lemma align_up_spec x a : 0 < a → (a | align_up x a) ∧ x ≤ align_up x a < x + a.
Proof.
  intros Ha. unfold align_up. split; [by exists ((x + a - 1) / a)|].
  pose proof (Z.div_mod (x + a - 1) a). pose proof (Z.mod_pos_bound (x + a - 1) a). nia.
Qed.

(** Parts as they are laid out: sizes and alignments are positive. *)
Definition parts_ok (fs : list (Z * Z)) : Prop := Forall (λ f, 0 ≤ f.1 ∧ pow2 f.2) fs.

Lemma lay_end off fs : parts_ok fs → off ≤ (lay off fs).2.
Proof.
  intros H. revert off. induction H as [|[s a] fs [Hs Ha] _ IH]; intros off; cbn; [lia|].
  specialize (IH (align_up off a + s)). destruct (lay _ fs) as [os e]. cbn in *.
  destruct (align_up_spec off a) as [_ ?]; [by apply is_pow2_pos|]. lia.
Qed.

Lemma lay_field off fs i s a : parts_ok fs → fs !! i = Some (s, a) →
  ∃ o, (lay off fs).1 !! i = Some o ∧ off ≤ o ∧ (a | o) ∧ o + s ≤ (lay off fs).2.
Proof.
  intros H. revert off i. induction H as [|[s' a'] fs [Hs Ha] Hfs IH]; intros off i Hi; [done|].
  cbn. pose proof (lay_end (align_up off a' + s') fs Hfs) as He.
  destruct (align_up_spec off a') as [? ?]; [by apply is_pow2_pos|].
  destruct i as [|i]; cbn in Hi.
  - simplify_eq. destruct (lay _ fs) as [os e]. cbn in *. exists (align_up off a). split_and!; [done|lia|done|lia].
  - destruct (IH (align_up off a' + s') i Hi) as (o & Ho & ? & ? & ?).
    destruct (lay _ fs) as [os e]. cbn in *. exists o. split_and!; [done|lia|done|lia].
Qed.

Lemma lay_disjoint off fs i j s a o o' : parts_ok fs → (i < j)%nat → fs !! i = Some (s, a) →
  (lay off fs).1 !! i = Some o → (lay off fs).1 !! j = Some o' → o + s ≤ o'.
Proof.
  intros H. revert off i j. induction H as [|[s' a'] fs [Hs Ha] Hfs IH]; intros off i j Hij Hi; [done|].
  cbn. destruct (lay (align_up off a' + s') fs) as [os e] eqn:El. cbn.
  destruct j as [|j]; [lia|]. destruct i as [|i]; cbn in Hi |- *; intros Ho Ho'.
  - simplify_eq. destruct (lookup_lt_is_Some_2 fs j) as [[s' a'] Hj].
    { apply lookup_lt_Some in Ho'. enough (length os = length fs) by lia.
      clear -El. revert El. generalize (align_up off a + s). intros x. revert os e x.
      induction fs as [|[??] fs IH]; intros os e x; cbn; [by intros [= <- <-]|].
      destruct (lay _ fs) as [os' e'] eqn:E. intros [= <- <-]. cbn. f_equal. by eapply IH. }
    destruct (lay_field (align_up off a + s) fs j s' a' Hfs Hj) as (x & E & Hx & _).
    rewrite El in E. cbn in E. change (os !! j = Some o') in Ho'. rewrite E in Ho'. injection Ho' as <-. exact Hx.
  - apply (IH (align_up off a' + s') i j); [lia|done|rewrite El; exact Ho|rewrite El; exact Ho'].
Qed.

Lemma struct_align_pow2 r fs : (match r with ReprAlign a => pow2 a | _ => true end) → parts_ok fs → pow2 (struct_align r fs).
Proof.
  intros Hr H. unfold struct_align. induction H as [|[s a] fs [_ Ha] _ IH]; cbn.
  - destruct r as [|a|]; [done| |done]. by apply pow2_max.
  - by apply pow2_max.
Qed.

Lemma struct_align_ge r fs i s a : fs !! i = Some (s, a) → a ≤ struct_align r fs.
Proof.
  unfold struct_align. revert i. induction fs as [|f fs IH]; intros [|i] Hi; cbn in Hi |- *; [done..| |].
  - simplify_eq. cbn. lia.
  - specialize (IH i Hi). lia.
Qed.

Lemma layout_struct r fs :
  layout (Struct r fs) = (align_up (lay 0 (parts r fs)).2 (struct_align r (parts r fs)), struct_align r (parts r fs)).
Proof. unfold parts, size_of, align_of. cbn [layout]. unfold struct_layout. by rewrite List.map_map. Qed.

Lemma ty_ok_fields r fs : ty_ok (Struct r fs) → Forall (λ f, ty_ok f.2) fs.
Proof.
  cbn [ty_ok]. intros [_ H]%andb_prop_elim. rewrite Is_true_true, forallb_forall in H. apply Forall_forall.
  intros f Hf. rewrite (H f); [done|by apply list_elem_of_In].
Qed.

(** Sizes are multiples of alignments, which are powers of two. *)
Lemma layout_divides t : ty_ok t → 0 ≤ size_of t ∧ pow2 (align_of t) ∧ (align_of t | size_of t).
Proof.
  induction t as [n|t n IH|r fs IH] using ty_rec_nested; intros Ht.
  - cbn in *. pose proof (is_pow2_pos n Ht). split_and!; [cbn; lia|done|reflexivity].
  - cbn [ty_ok] in Ht. apply andb_prop_elim in Ht as [Ht Hn]. apply Is_true_true, Z.leb_le in Hn. destruct (IH Ht) as (? & ? & ?).
    unfold size_of, align_of in *. cbn. destruct (layout t) as [s a]. cbn in *.
    split_and!; [nia|done|by apply Z.divide_mul_l].
  - pose proof (ty_ok_fields _ _ Ht) as Hf. unfold size_of, align_of. rewrite layout_struct. cbn [fst snd ty_ok] in *. apply andb_prop_elim in Ht as [Hr Hfs].
    assert (parts_ok (parts r fs)) as Hp.
    { unfold parts_ok, parts. rewrite Forall_map. pose proof (proj2 (Forall_and _ fs) (conj IH Hf)) as HF.
      eapply Forall_impl; [exact HF|]. intros f [Hi E]. cbn in *. destruct (Hi E) as (? & ? & _). split; [done|]. by destruct r. }
    pose proof (struct_align_pow2 r _ Hr Hp) as Ha. pose proof (lay_end 0 _ Hp).
    destruct (align_up_spec (lay 0 (parts r fs)).2 (struct_align r (parts r fs))) as [? ?]; [by apply is_pow2_pos|].
    split_and!; [lia|done|done].
Qed.

Lemma parts_ok_struct r fs : ty_ok (Struct r fs) → parts_ok (parts r fs).
Proof.
  intros H%ty_ok_fields. unfold parts_ok, parts. rewrite Forall_map. eapply Forall_impl; [exact H|].
  intros f Hf. cbn. destruct (layout_divides _ Hf) as (? & ? & _). split; [done|]. by destruct r.
Qed.

(** A field is one of the declared ones, at the offset of its index. *)
Lemma find_field_index name fs os o t : find_field name fs os = Some (o, t) →
  ∃ i, fs !! i = Some (name, t) ∧ os !! i = Some o.
Proof.
  revert os. induction fs as [|[n t'] fs IH]; intros [|o' os]; cbn; [done..|].
  destruct (String.eqb_spec n name) as [->|_].
  - intros [= -> ->]. by exists 0%nat.
  - intros (i & ? & ?)%IH. by exists (S i).
Qed.

Lemma field_of_struct t name o t' : field_of t name = Some (o, t') →
  ∃ r fs i, t = Struct r fs ∧ fs !! i = Some (name, t') ∧ offsets r fs !! i = Some o ∧
            parts r fs !! i = Some (size_of t', field_align r (align_of t')).
Proof.
  destruct t as [| |r fs]; [done..|]. cbn. intros (i & Hi & Ho)%find_field_index.
  exists r, fs, i. split_and!; [done..|]. unfold parts. by rewrite list_lookup_fmap, Hi.
Qed.

Lemma struct_size_ge r fs : ty_ok (Struct r fs) → (lay 0 (parts r fs)).2 ≤ size_of (Struct r fs).
Proof.
  intros H. pose proof (layout_divides _ H) as (_ & Ha & _). unfold size_of, align_of in *. rewrite layout_struct in *. cbn in *.
  apply align_up_spec. by apply is_pow2_pos.
Qed.

Lemma field_inside t name o t' : ty_ok t → field_of t name = Some (o, t') →
  ty_ok t' ∧ 0 ≤ o ∧ o + size_of t' ≤ size_of t.
Proof.
  intros H (r & fs & i & -> & Hi & Ho & Hp)%field_of_struct.
  pose proof (ty_ok_fields _ _ H) as Hf. rewrite Forall_lookup in Hf. pose proof (Hf _ _ Hi) as Ht. cbn in Ht.
  destruct (lay_field 0 (parts r fs) i _ _ (parts_ok_struct _ _ H) Hp) as (o' & Ho' & ? & _ & ?).
  unfold offsets in Ho. simplify_eq. pose proof (struct_size_ge r fs H). split_and!; [done|lia|lia].
Qed.

Lemma field_aligned t name o t' : ty_ok t → unpacked t → field_of t name = Some (o, t') →
  unpacked t' ∧ (align_of t' | o) ∧ (align_of t' | align_of t).
Proof.
  intros H Hu E. pose proof (field_inside _ _ _ _ H E) as (Ht' & _).
  apply field_of_struct in E as (r & fs & i & -> & Hi & Ho & Hp).
  assert (field_align r (align_of t') = align_of t') as Er by (destruct r; [done..|by cbn in Hu]).
  rewrite Er in Hp. destruct (lay_field 0 (parts r fs) i _ _ (parts_ok_struct _ _ H) Hp) as (o' & Ho' & _ & ? & _).
  unfold offsets in Ho. simplify_eq. split_and!; [|done|].
  - assert (forallb (λ f, unpacked f.2) fs) as Hfs by (destruct r; [done..|by cbn in Hu]).
    rewrite Is_true_true, forallb_forall in Hfs. specialize (Hfs (name, t')). cbn in Hfs.
    rewrite Hfs; [done|]. by apply list_elem_of_In, list_elem_of_lookup; exists i.
  - pose proof (layout_divides _ H) as (_ & Ha & _). unfold align_of at 2. rewrite layout_struct. cbn [snd].
    apply is_pow2_divide; [by apply layout_divides|by unfold align_of in Ha; rewrite layout_struct in Ha|].
    by apply (struct_align_ge r _ i (size_of t')).
Qed.

Lemma place_cons t name path o t' : place t (name :: path) = Some (o, t') →
  ∃ o1 t1 o2, field_of t name = Some (o1, t1) ∧ place t1 path = Some (o2, t') ∧ o = o1 + o2.
Proof.
  cbn [place]. destruct (field_of t name) as [[o1 t1]|]; [|done]. cbn.
  destruct (place t1 path) as [[o2 t2]|] eqn:E; [|done]. cbn. intros [= <- <-]. by exists o1, t1, o2.
Qed.

Lemma place_inside t path o t' : ty_ok t → place t path = Some (o, t') → ty_ok t' ∧ 0 ≤ o ∧ o + size_of t' ≤ size_of t.
Proof.
  revert t o. induction path as [|name path IH]; intros t o H E.
  - cbn in E. simplify_eq. split_and!; [done|lia|lia].
  - apply place_cons in E as (o1 & t1 & o2 & Hf & Hp & ->). apply field_inside in Hf as (? & ? & ?); [|done].
    apply IH in Hp as (? & ? & ?); [|done]. split_and!; [done|lia|lia].
Qed.

Lemma place_aligned t path o t' : ty_ok t → unpacked t → place t path = Some (o, t') →
  (align_of t' | o) ∧ (align_of t' | align_of t).
Proof.
  revert t o. induction path as [|name path IH]; intros t o H Hu E.
  - cbn in E. simplify_eq. split; [apply Z.divide_0_r|reflexivity].
  - apply place_cons in E as (o1 & t1 & o2 & Hf & Hp & ->).
    pose proof (field_inside _ _ _ _ H Hf) as (? & _). apply field_aligned in Hf as (? & ? & ?); [|done..].
    apply IH in Hp as [? ?]; [|done..]. split; [|by etransitivity].
    apply Z.divide_add_r; [|done]. by etransitivity.
Qed.

Lemma place_app t p q o t' : place t (p ++ q) = Some (o, t') →
  ∃ o1 t1 o2, place t p = Some (o1, t1) ∧ place t1 q = Some (o2, t') ∧ o = o1 + o2.
Proof.
  revert t o. induction p as [|n p IH]; intros t o E; [by exists 0, t, o|].
  apply place_cons in E as (o1 & t1 & o2 & Hf & (o3 & t3 & o4 & Hp & Hq & ->)%IH & ->).
  exists (o1 + o3), t3, o4. cbn [place]. rewrite Hf. cbn. rewrite Hp. cbn. split_and!; [done..|lia].
Qed.

Lemma fields_disjoint t n m o1 t1 o2 t2 : ty_ok t → n ≠ m → field_of t n = Some (o1, t1) → field_of t m = Some (o2, t2) →
  o1 + size_of t1 ≤ o2 ∨ o2 + size_of t2 ≤ o1.
Proof.
  intros H Hnm (r & fs & i & -> & Hi & Ho & Hp)%field_of_struct (r' & fs' & j & [= <- <-] & Hj & Ho' & Hp')%field_of_struct.
  pose proof (parts_ok_struct _ _ H) as Hok. unfold offsets in *.
  destruct (Nat.lt_trichotomy i j) as [?|[->|?]].
  - left. by apply (lay_disjoint 0 (parts r fs) i j _ (field_align r (align_of t1))).
  - simplify_eq.
  - right. by apply (lay_disjoint 0 (parts r fs) j i _ (field_align r (align_of t2))).
Qed.

(** The rules are sound for every structure of powers of two. *)
Lemma place_sound t p o t' : ty_ok t → place t p = Some (o, t') →
  0 ≤ o ∧ o + size_of t' ≤ size_of t ∧ (align_of t | size_of t) ∧
  (unpacked t → ∀ a, (align_of t | a) → (align_of t' | a + o)) ∧
  ∀ q n m p1 p2 o2 t2, p = q ++ n :: p1 → n ≠ m → place t (q ++ m :: p2) = Some (o2, t2) →
    o + size_of t' ≤ o2 ∨ o2 + size_of t2 ≤ o.
Proof.
  intros H E. pose proof (place_inside _ _ _ _ H E) as (_ & ? & ?). split_and!; [done..|by apply layout_divides| |].
  - intros Hu a Ha. destruct (place_aligned _ _ _ _ H Hu E) as [? ?].
    apply Z.divide_add_r; [by etransitivity|done].
  - intros q n m p1 p2 o2 t2 -> Hnm E2.
    apply place_app in E as (b & s & c & Hq & Hn & ->). apply place_app in E2 as (b' & s' & c' & Hq' & Hm & ->).
    rewrite Hq in Hq'. simplify_eq. pose proof (place_inside _ _ _ _ H Hq) as (Hs & _).
    apply place_cons in Hn as (x & u & y & Hn & Hu & ->). apply place_cons in Hm as (x' & u' & y' & Hm & Hu' & ->).
    pose proof (field_inside _ _ _ _ Hs Hn) as (? & _). pose proof (field_inside _ _ _ _ Hs Hm) as (? & _).
    apply place_inside in Hu as (_ & ? & ?); [|done]. apply place_inside in Hu' as (_ & ? & ?); [|done].
    destruct (fields_disjoint _ _ _ _ _ _ _ Hs Hnm Hn Hm); lia.
Qed.

(** The structures of the source whose layout is seen outside the kernel's own code. *)
Definition declarations : list ty :=
  [T_MADT; T_HPET; T_MCFG; T_Allocation; T_RSDP; T_XSDT; T_DescriptionHeader;
   T_InterruptController T_IOAPIC; T_InterruptController T_LAPCIOverride;
   T_InterruptController T_InterruptSourceOverride; T_Task; T_IDTR; T_GDTR; T_RxBuf; T_TxBuf; T_PagingStruct;
   T_BootData; T_ElfHeader; T_ProgramHeader].

Lemma declarations_ok : Forall (λ t, ty_ok t) declarations.
Proof. repeat constructor. Qed.



(** ** What the code reads *)

(** The leaves of a structure in order: offset and size. *)
Fixpoint leaves (base : Z) (t : ty) : list (Z * Z) :=
  match t with
  | Struct r fs => concat (zip_with (λ o f, f (base + o)) (lay 0 (parts r fs)).1 (List.map (λ f b, leaves b f.2) fs))
  | _ => [(base, size_of t)]
  end.

(** Where fields of these widths are when they follow each other. *)
Fixpoint cuts (base : Z) (ws : list nat) : list (Z * Z) :=
  match ws with
  | [] => []
  | w :: ws => (base, Z.of_nat w) :: cuts (base + Z.of_nat w) ws
  end.

Definition at_place (mem : Z → Z) (a : Z) (t : ty) (path : list string) : Z := default 0 (read_place mem a t path).

Lemma read_le_byte mem a : read_le mem 1 a = mem a.
Proof.
  unfold read_le, mem_bytes. rewrite seqZ_cons by done. change (seqZ (Z.succ a) _) with (@nil Z).
  cbn [fmap list_fmap from_le_bytes]. lia.
Qed.

(** [at_place] computed to the read it stands for. *)
Lemma at_place_read mem a t path o t' : place t path = Some (o, t') →
  at_place mem a t path = read_le mem (Z.to_nat (size_of t')) (a + o).
Proof. intros E. unfold at_place, read_place. by rewrite E. Qed.

Ltac places :=
  repeat match goal with
  | |- context [at_place ?m ?a ?t ?p] =>
      let r := eval vm_compute in (place t p) in
      match r with Some (?o, ?t') => rewrite (at_place_read m a t p o t') by reflexivity end
  | |- context [Z.to_nat (size_of ?t)] =>
      let n := eval vm_compute in (Z.to_nat (size_of t)) in change (Z.to_nat (size_of t)) with n
  end;
  rewrite ?read_le_byte, ?Z.add_0_r, <- ?Z.add_assoc.


(** The structures that assembly and the boot loader share with the kernel are laid out as they
    assume: the saved stack pointer and [cr3] are at the displacements of task_switch.s, a
    [Task] fills its region of [KERNEL_STACK_SIZE] bytes exactly and is aligned to it, the
    fields of an ELF file and of the boot data are where [decode_fields] and [encode_fields]
    put them (the boot data has one gap, after [pixel_format]), and the limit and base of a
    descriptor table register are ten bytes. *)
Lemma shared_layouts :
  offset_of T_Task ["info"; "registers"; "stack_top"]%string = Some 8 ∧
  offset_of T_Task ["info"; "registers"; "cr3"]%string = Some 16 ∧
  place T_Task ["stack"]%string = Some (TASK_INFO_SIZE, Array u8 ACTUAL_STACK_SIZE) ∧
  layout T_Task = (KERNEL_STACK_SIZE, KERNEL_STACK_SIZE) ∧
  leaves 0 T_ElfHeader = (0, Z.of_nat E_IDENT) :: cuts (Z.of_nat E_IDENT) elf_widths ∧
  size_of T_ElfHeader = Z.of_nat ELF_HEADER_SIZE ∧
  leaves 0 T_ProgramHeader = cuts 0 ph_widths ∧ size_of T_ProgramHeader = Z.of_nat PROGRAM_HEADER_SIZE ∧
  leaves 0 T_BootData = take 8 (cuts 0 boot_widths) ++ drop 9 (cuts 0 boot_widths) ∧
  size_of T_BootData = 80 ∧
  leaves 0 T_IDTR = [(0, 2); (2, 8)] ∧ leaves 0 T_GDTR = [(0, 2); (2, 8)] ∧
  layout T_PagingStruct = (4096, 4096) ∧ layout T_RxBuf = (9708, 4) ∧ layout T_TxBuf = (1532, 4).
Proof. by repeat split. Qed.

(** The comment on [XSDT] puts [entry] at byte 36; the pointer is aligned to 8, so the field is at
    40, and [_parse_xsdt] adds 36 to the address instead of using the field.  Reading a
    [DescriptionHeader] takes 40 bytes, four more than the header of a table has. *)
Lemma xsdt_entry_offset :
  offset_of T_XSDT ["entry"]%string = Some 40 ∧ size_of T_XSDT = 48 ∧
  offset_of T_DescriptionHeader ["data"]%string = Some 36 ∧ size_of T_DescriptionHeader = 40.
Proof. by repeat split. Qed.
