(* ===== verification/Loader.v ===== *)
(** * The boot loader application (bootloader/src/main.rs, bootloader/src/loader/mod.rs)

    [load_file] and the whole of [efi_main]: the screen of [Screen], the kernel file, the
    memory map, and the hand-over of [Boot].  The firmware and the uefi crate in front of it
    are the record [firmware]: what each service answers.  What the UEFI specification says of
    the file protocol is [regular_file]. *)

From S2P Require Import Prelude Memory Elf BootAsm Boot Font Screen Text.

(** ** The file protocol *)

Definition Status := Z.
Definition BUFFER_TOO_SMALL : Status := 0x8000000000000005.

Inductive FileType := Dir | Regular.

(** The Simple File System: a volume with one file of interest, opened by its name in UCS-2.
    [fs_get_info] takes the size of the buffer and gives the size of the file; its error
    carries the size the buffer should have.  [fs_read] takes the buffer, and gives it back
    with the number of bytes read. *)
Record file_system := mkFs {
  fs_handle : Result Z Status;
  fs_open_protocol : Z → Result () Status;
  fs_from_str : string → nat → option (list Z);
  fs_open_volume : Result () Status;
  fs_open : list Z → Result () Status;
  fs_into_type : Result FileType Status;
  fs_get_info : nat → Result Z (Status * option nat);
  fs_read : list Z → list Z * Result nat Status;
}.

Definition map_err {A E F} (f : E → F) (r : Result A E) : Result A F :=
  match r with
  | Ok a => Ok a
  | Err e => Err (f e)
  end.

(** The [?] operator. *)
Definition try {A B E} (r : Result A E) (k : A → outcome (Result B E)) : outcome (Result B E) :=
  match r with
  | Ok a => k a
  | Err e => Ret (Err e)
  end.

Section load_file.
(** [{:?}] of a status; the contents of [n] bytes of new memory. *)
Context (debug_status : Status → list Z) (uninit : nat → list Z).

Definition message (s : string) (e : Status) : list Z := text s ++ debug_status e.

(** The part for a regular file. *)
Definition read_file (fs : file_system) : outcome (Result (list Z) (list Z)) :=
  match fs_get_info fs 1 with
  | Ok _ => Panic (ExpectFailed "file info size is 1 byte :thinking_face:")
  | Err (status, data) =>
      match data with
      | Some size =>
          if decide (status = BUFFER_TOO_SMALL) then
            try (map_err (λ e, message "failed to get file info: " e.1) (fs_get_info fs size)) (λ file_size,
              let '(buf, r) := fs_read fs (uninit (Z.to_nat file_size)) in
              try (map_err (message "failed to read kernel: ") r) (λ _, Ret (Ok buf)))
          else Ret (Err (message "unexpected error in obtaining file info: " status))
      | None => Ret (Err (message "unexpected error in obtaining file info: " status))
      end
  end.

Definition load_file (fs : file_system) : outcome (Result (list Z) (list Z)) :=
  try (map_err (message "Simple File System Protocol support is required: ") (fs_handle fs)) (λ handle,
  try (map_err (message "Simple File System Protocol support is required: ") (fs_open_protocol fs handle)) (λ _,
  let kernel_obj := fs_from_str fs "aosir" 8 in
  try (map_err (message "failed to open root directory: ") (fs_open_volume fs)) (λ _,
  name ← expect kernel_obj (ExpectFailed "unwrap");
  try (map_err (message "failed to obtain file handle: ") (fs_open fs name)) (λ _,
  try (map_err (message "failed to get file type: ") (fs_into_type fs)) (λ kernel_file,
  match kernel_file with
  | Dir => Ret (Err (text "directory found instead of kernel binary at /aosir"))
  | Regular => read_file fs
  end))))).
End load_file.

(** ** [efi_main] *)

(** The answers of the firmware, in the order the boot loader asks for them.  [fw_final_map] is
    the memory map [exit_boot_services] returns, after [sort]. *)
Record firmware := mkFirmware {
  fw_helpers_init : bool;
  fw_gop_handle : option Z;
  fw_open_gop : Z → bool;
  fw_resolution : Z * Z;
  fw_blt : BltOp → bool;
  fw_image_handle : Z;
  fw_loaded_image : Z → option Z;
  fw_config_table : list (Z * Z);
  fw_fs : file_system;
  fw_frame_buffer : Z * Z;
  fw_stride : Z;
  fw_pixel_format : Z;
  fw_memory_map : option nat;
  fw_final_map : list Descriptor;
  fw_set_map : list Descriptor → bool;
}.

(** [Framebuffer::new] with the calls to the firmware. *)
Definition open_framebuffer (bdf : list (list Z)) (fw : firmware) : outcome Framebuffer :=
  handle ← expect (fw_gop_handle fw) (ExpectFailed "Graphics Output Protocol support is required!");
  _ ← assert_that (fw_open_gop fw handle) (ExpectFailed "Graphics Output Protocol support is required!");
  framebuffer_new (fw_resolution fw) bdf.

Definition raw_framebuffer (fw : firmware) (fb : Framebuffer) : RawFramebuffer :=
  let '(base, size) := fw_frame_buffer fw in
  let '(hr, vr) := fw_resolution fw in
  mkRawFb base size hr vr (fw_stride fw) (fw_pixel_format fw).

(** The screen, memory, and how it ended. *)
Record boot_result := mkBootResult { b_screen : Framebuffer; b_memory : Z → Z; b_end : boot_end }.

Section efi_main.
Context (debug_status : Status → list Z) (uninit : nat → list Z) (ACPI2_GUID table_ptr pad : Z).

(** After [exit_boot_services] nothing can be allocated: pushing onto the full vector fails. *)
Definition hand_over (fw : firmware) (capacity : nat) (file : list Z) (raw_fb : RawFramebuffer) (acpi_rsdp : Z)
    (mem : Z → Z) : outcome ((Z → Z) * boot_end) :=
  if decide (length (fw_final_map fw) ≤ capacity)%nat
  then boot_kernel (fw_set_map fw) table_ptr pad (fw_final_map fw) file raw_fb acpi_rsdp mem
  else _ ← virt_mmap (take (S capacity) (fw_final_map fw)); Panic (ExplicitPanic "memory allocation failed").

Definition efi_main (bdf : list (list Z)) (fw : firmware) (mem : Z → Z) : outcome boot_result :=
  _ ← assert_that (fw_helpers_init fw) (ExpectFailed "failed to initialize uefi-rs library.");
  fb ← open_framebuffer bdf fw;
  let '(fb, r) := framebuffer_init (fw_blt fw) (fw_resolution fw) fb in
  _ ← match r with inl _ => Ret tt | inr _ => Panic (ExpectFailed "failed to initialize framebuffer") end;
  base ← expect (fw_loaded_image fw (fw_image_handle fw)) (ExpectFailed "error when loading loaded image protocol");
  fb ← fb_write_str fb (line (text "Bootloader was loaded at " ++ pointer base));
  fb ← fb_write_str fb (line (text "Loading kernel..."));
  let acpi_rsdp := find_rsdp ACPI2_GUID (fw_config_table fw) in
  f ← load_file debug_status uninit (fw_fs fw);
  match f with
  | Err e =>
      fb ← fb_write_str fb (line (text "kernel read failed: " ++ debug_str e));
      Ret (mkBootResult fb mem Aborted)
  | Ok file =>
      fb ← fb_write_str fb (line (text "kernel loaded: " ++ display (Z.of_nat (length file))));
      fb ← fb_write_str fb (line (text "Booting kernel..."));
      let raw_fb := raw_framebuffer fw fb in
      n ← expect (fw_memory_map fw) (ExpectFailed "unwrap");
      '(mem, e) ← hand_over fw (n + 2) file raw_fb acpi_rsdp mem;
      Ret (mkBootResult fb mem e)
  end.
End efi_main.

(** ** Reading the file *)

(** A regular file with the given contents, as the UEFI specification describes the protocol:
    asking for the file information with too small a buffer gives the size it needs, and
    reading fills the buffer up to the end of the file. *)
Record opened (fs : file_system) : Prop := {
  rf_handle : ∃ h, fs_handle fs = Ok h ∧ fs_open_protocol fs h = Ok tt;
  rf_volume : fs_open_volume fs = Ok tt;
  rf_open : ∃ name, fs_from_str fs "aosir" 8 = Some name ∧ fs_open fs name = Ok tt;
  rf_type : fs_into_type fs = Ok Regular;
}.

Definition info_of (fs : file_system) (data : list Z) : Prop := ∃ n, (1 < n)%nat ∧ ∀ k, fs_get_info fs k =
  if decide (k < n)%nat then Err (BUFFER_TOO_SMALL, Some n) else Ok (Z.of_nat (length data)).

Record regular_file (fs : file_system) (data : list Z) : Prop := {
  rf_opened : opened fs;
  rf_info : info_of fs data;
  rf_read : ∀ buf, fs_read fs buf =
    (take (length buf) data ++ drop (length data) buf, Ok (length buf `min` length data)%nat);
}.

Section reading.
Context (debug_status : Status → list Z) (uninit : nat → list Z) (Huninit : ∀ n, length (uninit n) = n).

Lemma load_file_opened fs : opened fs → load_file debug_status uninit fs = read_file debug_status uninit fs.
Proof.
  intros [(h & Eh & Ep) Ev (name & En & Eo) Et]. unfold load_file. rewrite Eh. cbn [map_err try]. rewrite Ep.
  cbn [map_err try]. rewrite Ev. cbn [map_err try]. rewrite En. ret. rewrite Eo. cbn [map_err try]. by rewrite Et.
Qed.

Lemma read_file_info fs data buf k : info_of fs data → fs_read fs (uninit (length data)) = (buf, Ok k) →
  read_file debug_status uninit fs = Ret (Ok buf).
Proof.
  intros (n & Hn & Ei) Er. unfold read_file. rewrite (Ei 1%nat), decide_True by done. rewrite decide_True by done.
  rewrite (Ei n), decide_False by lia. cbn [map_err try]. by rewrite Nat2Z.id, Er.
Qed.

Lemma load_file_regular fs data : regular_file fs data → load_file debug_status uninit fs = Ret (Ok data).
Proof.
  intros [Ho Hi Er]. rewrite load_file_opened by done. eapply read_file_info; [done|]. rewrite Er.
  by rewrite take_ge, drop_ge, app_nil_r by (rewrite Huninit; lia).
Qed.

(** The number of bytes read is not looked at: what a short read leaves of the buffer is passed
    on as the end of the file. *)
Lemma load_file_short_read fs data k :
  opened fs → info_of fs data → (∀ buf, fs_read fs buf = (take k data ++ drop k buf, Ok k)) → (k < length data)%nat →
  load_file debug_status uninit fs = Ret (Ok (take k data ++ drop k (uninit (length data)))).
Proof. intros Ho Hi Er Hk. rewrite load_file_opened by done. eapply read_file_info; [done|]. by rewrite Er. Qed.

(** The only ways to a panic are a name that does not fit its buffer and file information of
    one byte; a file is only returned after a read that succeeded. *)
Lemma load_file_total fs :
  fs_from_str fs "aosir" 8 ≠ None → (∀ s, fs_get_info fs 1 ≠ Ok s) →
  ∃ r, load_file debug_status uninit fs = Ret r ∧
    ∀ buf, r = Ok buf → ∃ size n k, fs_get_info fs 1 = Err (BUFFER_TOO_SMALL, Some size) ∧
      fs_get_info fs size = Ok n ∧ fs_read fs (uninit (Z.to_nat n)) = (buf, Ok k).
Proof.
  intros Hn Hi. unfold load_file, try, map_err.
  destruct (fs_handle fs) as [h|]; [|by eexists; split; [done|]]. destruct (fs_open_protocol fs h); [|by eexists; split; [done|]].
  destruct (fs_open_volume fs); [|by eexists; split; [done|]]. destruct (fs_from_str fs "aosir" 8) as [name|]; [|done]. ret.
  destruct (fs_open fs name); [|by eexists; split; [done|]]. destruct (fs_into_type fs) as [[]|]; [by eexists; split; [done|]| |by eexists; split; [done|]].
  unfold read_file. destruct (fs_get_info fs 1) as [s|[status [size|]]] eqn:E1; [by specialize (Hi s)| |by eexists; split; [done|]].
  case_decide as Hs; [|by eexists; split; [done|]]. subst status. unfold try, map_err.
  destruct (fs_get_info fs size) as [n|] eqn:E2; [|by eexists; split; [done|]].
  destruct (fs_read fs (uninit (Z.to_nat n))) as [buf r] eqn:E3. destruct r as [k|]; [|by eexists; split; [done|]].
  eexists. split; [done|]. intros buf' [= <-]. by exists size, n, k.
Qed.
End reading.

(** ** The screen takes any text *)

Definition writable (c : Z) : Prop := c = 10 ∨ printable c.

(** What stays the same while text is written, and how far the cursor can move. *)
Definition wrote (k : Z) (fb fb' : Framebuffer) : Prop :=
  fb_ok fb' ∧ cursor_x fb' ≤ cursor_x fb + k ∧ ∃ ops, gop fb' = ops ++ gop fb.

Lemma write_char_total fb c : fb_ok fb → writable c → cursor_x fb < 2 ^ 32 →
  ∃ fb', write_char_impl fb c = Ret fb' ∧ wrote 1 fb fb'.
Proof.
  intros Hfb Hc Hx. pose proof (ok_cols _ Hfb). pose proof (ok_rows _ Hfb). pose proof (ok_y _ Hfb). pose proof (ok_x _ Hfb).
  destruct Hc as [->|Hc].
  - unfold write_char_impl. rewrite decide_True by done. eexists. split; [done|]. unfold newline, wrote.
    case_decide; cbn; (split; [|split; [lia|by exists []]]); [|done]. destruct Hfb. split; cbn; lia || done.
  - assert (c ≠ 10) as Hc10 by (unfold printable in Hc; lia).
    destruct (decide (cursor_x fb < n_col fb ∨ cursor_y fb = n_row fb)) as [Hd|Hd].
    + destruct (draw_char fb c Hfb Hc) as (op & _ & E); [lia|]. eexists. split; [exact E|]. split_and!; cbn; [|lia|by exists [op]].
      destruct Hfb. split; cbn; lia || done.
    + rewrite write_char_wraps by lia. set (fb1 := set_cursor fb 0 (cursor_y fb + 1)).
      assert (fb_ok fb1) as Hfb1 by (destruct Hfb; split; cbn; lia || done).
      destruct (draw_char fb1 c Hfb1 Hc) as (op & _ & E); [cbn; lia|]. eexists. split; [exact E|].
      split_and!; cbn; [|lia|by exists [op]]. destruct Hfb. split; cbn; lia || done.
Qed.

Lemma write_text_total fb s : fb_ok fb → Forall writable s → cursor_x fb + Z.of_nat (length s) < 2 ^ 32 →
  ∃ fb', fb_write_str fb s = Ret fb' ∧ wrote (Z.of_nat (length s)) fb fb'.
Proof.
  intros Hfb Hs Hx. unfold fb_write_str.
  destruct (mfold_inv write_char_impl (λ dn fb', wrote (Z.of_nat (length dn)) fb fb') s fb) as (fb' & E & H).
  - split_and!; [done|cbn; lia|by exists []].
  - intros dn c rest fb1 -> (Hok & Hx1 & ops & Hg). rewrite length_app in Hx. cbn in Hx.
    apply Forall_app in Hs as [_ Hs]. apply Forall_cons in Hs as [Hc _].
    destruct (write_char_total fb1 c Hok Hc) as (fb2 & E & Hok2 & Hx2 & ops2 & Hg2); [lia|].
    exists fb2. split; [done|]. split_and!; [done|rewrite length_app; cbn; lia|].
    exists (ops2 ++ ops). by rewrite Hg2, Hg, app_assoc.
  - by exists fb'.
Qed.

Lemma printable_check s : forallb (λ c, (32 <=? c) && (c <? 128)) s = true → Forall printable s.
Proof.
  rewrite forallb_forall. intros H. apply Forall_forall. intros c Hc. unfold printable.
  specialize (H c ltac:(by apply list_elem_of_In)). lia.
Qed.

Ltac printable_text := by apply printable_check; vm_compute.

Lemma writable_line s : Forall printable s → Forall writable (line s).
Proof. intros H. apply Forall_app. split; [|by apply Forall_singleton; left]. eapply Forall_impl; [exact H|]. by right. Qed.

Lemma printable_display n : Forall printable (display n).
Proof. eapply Forall_impl; [apply display_chars|]. unfold printable. cbn. lia. Qed.

Lemma printable_pointer a : Forall printable (pointer a).
Proof.
  apply Forall_app. split; [printable_text|]. eapply Forall_impl; [apply lower_hex_chars|]. unfold printable. cbn. lia.
Qed.

Lemma pointer_length a : (length (pointer a) ≤ 66)%nat.
Proof. unfold pointer. rewrite length_app. change (length (text "0x")) with 2%nat. pose proof (proj2 (lower_hex_chars a)). lia. Qed.

Lemma printable_debug_char c : printable c → Forall printable (debug_char c) ∧ (length (debug_char c) ≤ 6)%nat.
Proof.
  intros Hc. unfold debug_char. destruct (decide (c = 34)); [by split; [printable_text|apply Nat.leb_le]|].
  destruct (decide (c = 92)); [by split; [printable_text|apply Nat.leb_le]|]. pose proof Hc as Hc'. unfold printable in Hc'.
  rewrite !(decide_False (P := c = _)) by lia. case_decide.
  - assert (c = 127) as -> by lia. split; [printable_text|by apply Nat.leb_le].
  - split; [by apply Forall_singleton|cbn; lia].
Qed.

Lemma printable_debug s : Forall printable s →
  Forall printable (debug_str s) ∧ (length (debug_str s) ≤ 2 + 6 * length s)%nat.
Proof.
  intros Hs. unfold debug_str.
  assert (Forall printable (concat (debug_char <$> s)) ∧ (length (concat (debug_char <$> s)) ≤ 6 * length s)%nat) as [Hc Hl].
  { induction Hs as [|c s Hc _ [IH1 IH2]]; [done|]. rewrite fmap_cons. cbn [concat length].
    destruct (printable_debug_char c Hc). rewrite length_app. split; [by apply Forall_app|lia]. }
  rewrite !length_app. split; [|cbn [length]; lia]. apply Forall_app; split; [printable_text|]. by apply Forall_app; split; [|printable_text].
Qed.

Lemma write_line_total fb s B : fb_ok fb → Forall printable s → Z.of_nat (length s) < B → cursor_x fb + B < 2 ^ 32 →
  ∃ fb', fb_write_str fb (line s) = Ret fb' ∧ fb_ok fb' ∧ cursor_x fb' ≤ cursor_x fb + B.
Proof.
  intros Hfb Hs Hl Hx. assert (Z.of_nat (length (line s)) ≤ B) by (unfold line; rewrite length_app; cbn; lia).
  destruct (write_text_total fb (line s) Hfb (writable_line s Hs)) as (fb' & E & Hok & Hx' & _); [lia|].
  exists fb'. split_and!; [done..|lia].
Qed.

(** ** The whole of [efi_main] *)

(** Firmware with a screen, of at least one character, on which the font can be drawn. *)
Record has_screen (bdf : list (list Z)) (fw : firmware) : Prop := {
  hs_init : fw_helpers_init fw = true;
  hs_gop : ∃ h, fw_gop_handle fw = Some h ∧ fw_open_gop fw h = true;
  hs_font : ∃ gs, parse_bdf bdf = Ret gs ∧ length gs = 96%nat;
  hs_width : 16 ≤ (fw_resolution fw).1 < 2 ^ 32;
  hs_height : 18 ≤ (fw_resolution fw).2 < 2 ^ 32;
  hs_blt : ∀ op, fw_blt fw op = true;
  hs_image : ∃ base, fw_loaded_image fw (fw_image_handle fw) = Some base;
}.

Section theorems.
Context (debug_status : Status → list Z) (uninit : nat → list Z) (Huninit : ∀ n, length (uninit n) = n).
Context (ACPI2_GUID table_ptr pad : Z) (bdf : list (list Z)) (fw : firmware) (Hfw : has_screen bdf fw).
Abbreviation main := (efi_main debug_status uninit ACPI2_GUID table_ptr pad bdf fw).

(** Up to the kernel file nothing fails. *)
Lemma efi_main_front : ∃ fb, fb_ok fb ∧ cursor_x fb ≤ 200 ∧ ∀ mem, main mem =
  (f ← load_file debug_status uninit (fw_fs fw);
   match f with
   | Err e =>
       fb ← fb_write_str fb (line (text "kernel read failed: " ++ debug_str e));
       Ret (mkBootResult fb mem Aborted)
   | Ok file =>
       fb ← fb_write_str fb (line (text "kernel loaded: " ++ display (Z.of_nat (length file))));
       fb ← fb_write_str fb (line (text "Booting kernel..."));
       n ← expect (fw_memory_map fw) (ExpectFailed "unwrap");
       '(mem, e) ← hand_over table_ptr pad fw (n + 2) file (raw_framebuffer fw fb)
                     (find_rsdp ACPI2_GUID (fw_config_table fw)) mem;
       Ret (mkBootResult fb mem e)
   end).
Proof.
  destruct Hfw as [Hi (h & Eh & Eo) (gs & Eg & Hgs) Hw Hh Hb (base & Eb)]. destruct (fw_resolution fw) as [w ht] eqn:Er.
  cbn [fst snd] in *.
  set (fb0 := blt (mkFb [] w ht (w / FONT_WIDTH) (ht / FONT_HEIGHT) 0 0 gs) (VideoFill BACKGROUND (0, 0) (w, ht))).
  assert (fb_ok fb0) as H0.
  { split; cbn; [done| | |lia|]; unfold FONT_WIDTH, FONT_HEIGHT.
    - pose proof (Z.div_le_lower_bound w 16 1). pose proof (Z.div_le_upper_bound w 16 w). pose proof (Z.div_lt w 16). lia.
    - pose proof (Z.div_le_lower_bound ht 18 1). pose proof (Z.div_lt ht 18). lia.
    - pose proof (Z.div_pos ht 18). lia. }
  destruct (write_line_total fb0 (text "Bootloader was loaded at " ++ pointer base) 100 H0) as (fb1 & E1 & H1 & Hx1).
  { apply Forall_app. split; [printable_text|apply printable_pointer]. }
  { rewrite length_app. change (length (text "Bootloader was loaded at ")) with 25%nat. pose proof (pointer_length base). lia. }
  { cbn. lia. }
  destruct (write_line_total fb1 (text "Loading kernel...") 50 H1) as (fb2 & E2 & H2 & Hx2); [printable_text|done|cbn in *; lia|].
  exists fb2. split_and!; [done|cbn in *; lia|]. intros mem.
  unfold efi_main, open_framebuffer. rewrite Hi, Eh. ret. rewrite Eo, Er. ret. unfold framebuffer_new. rewrite Eg. ret.
  unfold framebuffer_init. rewrite Hb. ret. rewrite Eb. ret. fold fb0. rewrite E1. ret. rewrite E2. ret. done.
Qed.


Lemma find_rsdp_last (rsdp : Z) pre post : Forall (λ t, t.1 ≠ ACPI2_GUID) post →
  find_rsdp ACPI2_GUID (pre ++ (ACPI2_GUID, rsdp) :: post) = rsdp.
Proof.
  intros H. unfold find_rsdp. rewrite foldl_app. cbn [foldl fst snd]. rewrite decide_True by done.
  induction H as [|t post Ht _ IH]; [done|]. cbn [foldl]. by rewrite decide_False.
Qed.

(** C33. The boot loader as a whole.  On firmware with a screen, a volume with a regular file
    [aosir] that is a kernel image, and a final memory map that has grown by at most two
    entries since it was counted, [efi_main] enters the image: the file in memory is the file
    on the volume, with its segments in place, and the boot data passed on has the memory
    map, the framebuffer of the screen, and the address of the last ACPI 2 table. *)
Theorem efi_main_boots file n rsdp pre post h phs mem :
  regular_file (fw_fs fw) file → fw_memory_map fw = Some n → (length (fw_final_map fw) ≤ n + 2)%nat →
  fw_config_table fw = pre ++ (ACPI2_GUID, rsdp) :: post → Forall (λ t, t.1 ≠ ACPI2_GUID) post →
  fw_set_map fw (relocated <$> fw_final_map fw) = true → Forall Boot.entry_ok (fw_final_map fw) →
  MEMORY_MAP_BUF + 40 * Z.of_nat (length (fw_final_map fw)) ≤ 0x600000 →
  elf_ok file h phs → Forall (segment_ok file) phs →
  (∀ i j ph ph' x, phs !! i = Some ph → phs !! j = Some ph' → in_segment ph x → in_segment ph' x → i = j) →
  ∃ fb mem', main mem = Ret (mkBootResult fb mem' (Entered (e_entry h))) ∧
    let entries := relocated <$> fw_final_map fw in
    holds mem' BOOT_DATA (boot_bytes pad
      (mkPhysBootData MEMORY_MAP_BUF (Z.of_nat (length entries)) (raw_framebuffer fw fb) table_ptr rsdp)) ∧
    holds mem' MEMORY_MAP_BUF (concat (desc_bytes pad <$> entries)) ∧
    ∀ ph x, ph ∈ phs → in_segment ph x → ¬ overlay (length entries) x → mem' x = segment_byte file ph x.
Proof.
  intros Hf En Hcap Ec Hpost Hset Hes Hfit Helf Hseg Hdis.
  destruct efi_main_front as (fb & Hfb & Hx & Hm). rewrite Hm, (load_file_regular _ _ Huninit _ _ Hf). ret.
  destruct (write_line_total fb (text "kernel loaded: " ++ display (Z.of_nat (length file))) 100 Hfb) as (fb1 & -> & H1 & Hx1).
  { apply Forall_app. by split; [printable_text|apply printable_display]. }
  { rewrite length_app. change (length (text "kernel loaded: ")) with 15%nat.
    pose proof (display_length (Z.of_nat (length file))). lia. }
  { lia. }
  destruct (write_line_total fb1 (text "Booting kernel...") 50 H1) as (fb2 & E2 & _); [printable_text|done|lia|].
  ret. rewrite E2. ret. rewrite En. ret. unfold hand_over. rewrite decide_True by done.
  rewrite Ec, find_rsdp_last by done.
  destruct (boot_kernel_memory (fw_set_map fw) table_ptr pad rsdp (fw_final_map fw) file h phs (raw_framebuffer fw fb2))
    with (mem := mem) as (mem' & -> & Hbd & Hmm & Hin); try done.
  exists fb2, mem'. split; [done|]. rewrite length_fmap. by split_and!.
Qed.
End theorems.

(** ** An example *)

Definition ex_fs : file_system :=
  mkFs (Ok 1) (λ _, Ok tt) (λ _ _, Some [97; 111; 115; 105; 114; 0]) (Ok tt) (λ _, Ok tt) (Ok Regular)
    (λ k, if decide (k < 90)%nat then Err (BUFFER_TOO_SMALL, Some 90%nat) else Ok (Z.of_nat (length ex_elf)))
    (λ buf, (take (length buf) ex_elf ++ drop (length ex_elf) buf, Ok (length buf `min` length ex_elf)%nat)).

Definition ex_firmware (fs : file_system) : firmware :=
  mkFirmware true (Some 2) (λ _, true) (640, 480) (λ _, true) 3 (λ _, Some 0x3f000000) [(7, 0x5000); (8, 0x7000); (9, 0)]
    fs (0xc0000000, 1228800) 640 1 (Some 1%nat) [mkDesc 7 0x100000 0 16 15] (λ _, true).

Lemma ex_has_screen fs : has_screen [] (ex_firmware fs).
Proof.
  split; [done|by exists 2| |cbn; lia|cbn; lia|done|by exists 0x3f000000].
  eexists. split; [reflexivity|]. reflexivity.
Qed.

Lemma ex_regular_file : regular_file ex_fs ex_elf.
Proof.
  split; [split; [by exists 1|done|by eexists|done]| |done]. exists 90%nat. split; [lia|done].
Qed.


Lemma efi_main_boots_witness : ∃ fb mem',
  efi_main (λ _, []) (λ n, replicate n 0) 8 0x5000 0 [] (ex_firmware ex_fs) (λ _, 1) =
    Ret (mkBootResult fb mem' (Entered 0x200010)) ∧ mem' 0x200001 = 8.
Proof.
  destruct (efi_main_boots (λ _, []) (λ n, replicate n 0) (λ n, length_replicate n 0) 8 0x5000 0 [] (ex_firmware ex_fs)
    (ex_has_screen _) ex_elf 1 0x7000 [(7, 0x5000)] [(9, 0)] ex_elf_header [ex_segment] (λ _, 1)) as (fb & mem' & E & _ & _ & Hin).
  - exact ex_regular_file.
  - reflexivity.
  - cbn. lia.
  - reflexivity.
  - by apply Forall_singleton.
  - reflexivity.
  - apply Forall_singleton. unfold Boot.entry_ok. cbn. lia.
  - cbn. unfold MEMORY_MAP_BUF. lia.
  - apply ex_elf_ok.
  - apply ex_segment_ok.
  - intros [|i] [|j] a b x Hi Hj; [reflexivity|discriminate..].
  - exists fb, mem'. split; [exact E|].
    rewrite (Hin ex_segment); [reflexivity|apply list_elem_of_here|split; [discriminate|cbn; lia]|].
    unfold overlay, BOOT_DATA, MEMORY_MAP_BUF. cbn. lia.
Defined.

(** A memory map that has grown by more than the two spare entries cannot be copied. *)
Lemma hand_over_full table_ptr pad fw capacity file raw_fb rsdp mem :
  (capacity < length (fw_final_map fw))%nat → Forall Boot.entry_ok (fw_final_map fw) →
  hand_over table_ptr pad fw capacity file raw_fb rsdp mem = Panic (ExplicitPanic "memory allocation failed").
Proof.
  intros Hl He. unfold hand_over. rewrite decide_False by lia. by rewrite virt_mmap_Ret by (by apply Forall_take).
Qed.
