(* ===== verification/Isr.v ===== *)
(** * Interrupt entry and exit (src/arch/x86_64/isr.s)

    The service routines as lists of instructions, run on the registers and the stack.  A
    jump to shared code is the code appended.  Memory is 64-bit words by address: every
    access is to an aligned word, since the processor aligns the stack on entry.  Stack
    pointers do not wrap around.  What the called handlers do is a parameter. *)

From S2P Require Import Prelude.

Inductive reg := RAX | RCX | RDX | RBX | RSP | RBP | RSI | RDI | R8 | R9 | R10 | R11 | R12 | R13 | R14 | R15.

#[global] Instance reg_eq_dec : EqDecision reg.
Proof. solve_decision. Defined.

Record machine := mkMachine {
  regs : reg → Z; rip : Z; rflags : Z; cs : Z; ss : Z; cr2 : Z; words : Z → Z;
}.

Definition with_regs (m : machine) (r : reg → Z) : machine := mkMachine r (rip m) (rflags m) (cs m) (ss m) (cr2 m) (words m).
Definition with_words (m : machine) (w : Z → Z) : machine := mkMachine (regs m) (rip m) (rflags m) (cs m) (ss m) (cr2 m) w.

Definition upd {A} `{EqDecision A} (f : A → Z) (x : A) (v : Z) : A → Z := λ y, if decide (y = x) then v else f y.
Definition set_reg (r : reg) (v : Z) (m : machine) : machine := with_regs m (upd (regs m) r v).

(** [pushq] stores below the stack pointer; the value is read before. *)
Definition push (v : Z) (m : machine) : machine :=
  let sp := regs m RSP - 8 in
  with_words (set_reg RSP sp m) (upd (words m) sp v).

(** [popq]: the stack pointer moves before the register is written, so [popq %rsp] loads it. *)
Definition pop (r : reg) (m : machine) : machine :=
  let v := words m (regs m RSP) in
  set_reg r v (set_reg RSP (regs m RSP + 8) m).

Inductive instr :=
| Pushq (r : reg)
| PushImm (v : Z)
| Popq (r : reg)
| MovStack (offset : Z) (dst : reg)
| MovCr2 (dst : reg)
| Cld
| Hlt
| Call (f : string)
| AddRsp (n : Z)
| AddRspTo (a : Z)
| Iretq.

Definition DF : Z := 10.

Section run.
(** What a called function does to the machine, the call and the return included. *)
Context (calls : string → machine → machine).

Definition iretq (m : machine) : machine :=
  let sp := regs m RSP in
  let w k := words m (sp + 8 * k) in
  mkMachine (upd (regs m) RSP (w 3)) (w 0) (w 2) (w 1) (w 4) (cr2 m) (words m).

(** [Hlt] waits and goes on; [AddRspTo a] adds the stack pointer to the word at [a]. *)
Definition exec (m : machine) (i : instr) : machine :=
  match i with
  | Pushq r => push (regs m r) m
  | PushImm v => push v m
  | Popq r => pop r m
  | MovStack offset dst => set_reg dst (words m (regs m RSP + offset)) m
  | MovCr2 dst => set_reg dst (cr2 m) m
  | Cld => mkMachine (regs m) (rip m) (Z.clearbit (rflags m) DF) (cs m) (ss m) (cr2 m) (words m)
  | Hlt => m
  | Call f => calls f m
  | AddRsp n => set_reg RSP (regs m RSP + n) m
  | AddRspTo a => with_words m (upd (words m) a ((words m a + regs m RSP) mod 2 ^ 64))
  | Iretq => iretq m
  end.

Definition run (code : list instr) (m : machine) : machine := foldl exec m code.
End run.

Definition pusha : list instr :=
  Pushq <$> [RAX; RCX; RDX; RDI; RSI; RBP; RSP; R8; R9; R10; R11].
Definition popa : list instr :=
  Popq <$> [R11; R10; R9; R8; RSP; RBP; RSI; RDI; RDX; RCX; RAX].

Definition isr_exit : list instr := [Call "check_runtime"] ++ popa ++ [AddRsp 8; Iretq].

Definition general_protection_fault_isr : list instr :=
  [Hlt] ++ pusha ++ [Cld; Call "general_protection_fault_handler"] ++ popa ++ [AddRspTo 8; Iretq].

(** Up to and with the call of the handler. *)
Definition page_fault_entry : list instr := pusha ++ [Cld; MovStack 88 RDI; MovCr2 RSI].
Definition page_fault_isr : list instr := page_fault_entry ++ [Call "page_fault_handler"] ++ isr_exit.

Definition ps2_keyboard_isr : list instr := [PushImm 0x21] ++ pusha ++ [Cld; Call "ps2_keyboard_handler"] ++ isr_exit.
Definition pit_isr : list instr := [PushImm 0x20] ++ pusha ++ [Cld; Call "pit_handler"] ++ isr_exit.
Definition com0_isr : list instr := [PushImm 0x24] ++ pusha ++ [Cld; Call "com0_handler"] ++ isr_exit.
Definition hpet_isr : list instr := [PushImm 0x20] ++ pusha ++ [Cld; Call "hpet_handler"] ++ isr_exit.

Definition syscall_entry : list instr :=
  [PushImm 0x80] ++ pusha ++
  [MovStack 80 RDI; MovStack 56 RSI; MovStack 48 RDX; MovStack 64 RCX; MovStack 8 R8; MovStack 24 R9; Cld].
Definition syscall_isr : list instr := syscall_entry ++ [Call "syscall_handler"] ++ isr_exit.

(** Entry number [from] of [gen_device_isrs], and the code it jumps to. *)
Definition device_entry (from : Z) : list instr := [PushImm from] ++ pusha ++ [Cld; MovStack 88 RDI].
Definition device_isr (from : Z) : list instr := device_entry from ++ [Call "device_handler"] ++ isr_exit.

(** ** The processor *)

(** An interrupt: the stack is aligned and gets what [iretq] takes back, and for some
    exceptions an error code; the gates of the kernel clear the interrupt flag. *)
Definition IF_FLAG : Z := 9.

Definition push_frame (error : option Z) (m : machine) : machine :=
  let top := regs m RSP / 16 * 16 in
  let m1 := push (rip m) (push (cs m) (push (rflags m) (push (regs m RSP) (push (ss m) (set_reg RSP top m))))) in
  match error with Some e => push e m1 | None => m1 end.

Definition interrupt (handler : Z) (error : option Z) (m : machine) : machine :=
  let m2 := push_frame error m in
  mkMachine (regs m2) handler (Z.clearbit (rflags m) IF_FLAG) (cs m) (ss m) (cr2 m) (words m2).

(** The calling convention: a function keeps the callee-saved registers and does not write
    to the frames of its callers - 17 words here. *)
Definition callee_saved (r : reg) : bool :=
  match r with RBX | RSP | RBP | R12 | R13 | R14 | R15 => true | _ => false end.

Definition abi (calls : string → machine → machine) : Prop := ∀ f m,
  (∀ r, callee_saved r = true → regs (calls f m) r = regs m r) ∧
  (∀ a, regs m RSP ≤ a < regs m RSP + 136 → words (calls f m) a = words m a).

(** The interrupted code goes on as if nothing had happened. *)
Definition resumed (m' m : machine) : Prop :=
  (∀ r, regs m' r = regs m r) ∧ rip m' = rip m ∧ rflags m' = rflags m ∧ cs m' = cs m ∧ ss m' = ss m.

(** ** Lemmas *)

(** The stack from the stack pointer up. *)
Definition stacked (m : machine) (vs : list Z) : Prop :=
  ∀ i v, vs !! i = Some v → words m (regs m RSP + 8 * Z.of_nat i) = v.

Lemma stacked_nil m : stacked m [].
Proof. by intros i v. Qed.

Lemma stacked_push m v vs : stacked m vs → stacked (push v m) (v :: vs).
Proof.
  intros H [|i] w; cbn; unfold upd; rewrite (decide_True (P := RSP = RSP)) by done.
  - intros [= <-]. rewrite Z.add_0_r. by rewrite decide_True.
  - intros Hw. rewrite decide_False by lia. rewrite <- (H i w Hw). f_equal. lia.
Qed.

Lemma stacked_words m m' vs :
  stacked m vs → regs m' RSP = regs m RSP →
  (∀ a, regs m RSP ≤ a < regs m RSP + 8 * Z.of_nat (length vs) → words m' a = words m a) → stacked m' vs.
Proof.
  intros H Hsp Hw i v Hi. rewrite Hsp, Hw; [by apply H|]. apply lookup_lt_Some in Hi. lia.
Qed.

Lemma regs_push m v r : regs (push v m) r = if decide (r = RSP) then regs m RSP - 8 else regs m r.
Proof. done. Qed.

Lemma regs_pop m v vs r r' :
  stacked m (v :: vs) → (r = RSP → v = regs m RSP + 8) →
  regs (pop r m) r' = if decide (r' = RSP) then regs m RSP + 8 else if decide (r' = r) then v else regs m r'.
Proof.
  intros H Hr. pose proof (H 0%nat v eq_refl) as H0. rewrite Z.add_0_r in H0. cbn. unfold upd. rewrite H0.
  repeat case_decide; subst; auto; congruence.
Qed.

Lemma stacked_pop m v vs r : stacked m (v :: vs) → (r = RSP → v = regs m RSP + 8) → stacked (pop r m) vs.
Proof.
  intros H Hr i w Hi. rewrite (regs_pop m v vs) by done. rewrite decide_True by done. cbn.
  rewrite <- (H (S i) w Hi). f_equal. lia.
Qed.

(** Pushing a list of registers; [sv] is what is saved of each. *)
Lemma run_push calls rs sv : ∀ m vs,
  stacked m vs → (∀ r, r ≠ RSP → sv r = regs m r) →
  (∀ i, rs !! i = Some RSP → sv RSP = regs m RSP - 8 * Z.of_nat i) →
  let m' := run calls (Pushq <$> rs) m in
  stacked m' ((sv <$> reverse rs) ++ vs) ∧
  ∀ r, regs m' r = if decide (r = RSP) then regs m RSP - 8 * Z.of_nat (length rs) else regs m r.
Proof.
  induction rs as [|r rs IH]; intros m vs Hs Hsv Hrsp; cbn zeta.
  - split; [done|]. intros r. cbn. case_decide; subst; [lia|done].
  - assert (regs m r = sv r) as Hr.
    { destruct (decide (r = RSP)) as [->|Hne]; [|by rewrite Hsv]. rewrite (Hrsp 0%nat) by done. lia. }
    change (run calls (Pushq <$> r :: rs) m) with (run calls (Pushq <$> rs) (push (regs m r) m)). rewrite Hr.
    destruct (IH (push (sv r) m) (sv r :: vs)) as [IH1 IH2].
    + by apply stacked_push.
    + intros r' Hr'. rewrite regs_push, decide_False by done. by apply Hsv.
    + intros i Hi. rewrite regs_push, decide_True by done. rewrite (Hrsp (S i)) by done. lia.
    + split.
      * by rewrite reverse_cons, fmap_app, <- app_assoc.
      * intros r'. rewrite IH2, !regs_push, (decide_True (P := RSP = RSP)) by done. case_decide; [cbn [length]; lia|done].
Qed.

Lemma run_pop calls rs sv : ∀ m vs,
  stacked m ((sv <$> rs) ++ vs) → (∀ i, rs !! i = Some RSP → sv RSP = regs m RSP + 8 * Z.of_nat (S i)) →
  let m' := run calls (Popq <$> rs) m in
  stacked m' vs ∧
  ∀ r, regs m' r = if decide (r = RSP) then regs m RSP + 8 * Z.of_nat (length rs)
                   else if decide (r ∈ rs) then sv r else regs m r.
Proof.
  induction rs as [|r rs IH]; intros m vs Hs Hrsp; cbn in *.
  - split; [done|]. intros r. case_decide; subst; [lia|]. by rewrite decide_False by set_solver.
  - assert (r = RSP → sv r = regs m RSP + 8) as Hr by (intros ->; rewrite (Hrsp 0%nat) by done; lia).
    pose proof (λ r', regs_pop m _ _ r r' Hs Hr) as Hregs.
    destruct (IH (pop r m) vs) as [IH1 IH2].
    + by eapply stacked_pop.
    + intros i Hi. rewrite Hregs, decide_True by done. rewrite (Hrsp (S i)) by done. lia.
    + split; [done|]. intros r'. unfold run in *. rewrite IH2, !Hregs.
      rewrite (decide_True (P := RSP = RSP)) by done.
      destruct (decide (r' = RSP)); [lia|]. destruct (decide (r' ∈ rs)) as [Hin|Hin].
      * by rewrite decide_True by (by right).
      * destruct (decide (r' = r)) as [->|Hne]; [by rewrite decide_True by left|].
        by rewrite decide_False by set_solver.
Qed.

(** What [pusha] saves, [popa] restores; the slot of the stack pointer holds the address it
    has when it is reached again. *)
Definition saved (m : machine) (r : reg) : Z := if decide (r = RSP) then regs m RSP - 48 else regs m r.
Definition popped : list reg := [R11; R10; R9; R8; RSP; RBP; RSI; RDI; RDX; RCX; RAX].

Lemma run_pusha calls m vs :
  stacked m vs →
  stacked (run calls pusha m) ((saved m <$> popped) ++ vs) ∧
  ∀ r, regs (run calls pusha m) r = if decide (r = RSP) then regs m RSP - 88 else regs m r.
Proof.
  intros Hs. apply (run_push calls [RAX; RCX; RDX; RDI; RSI; RBP; RSP; R8; R9; R10; R11] (saved m) m vs Hs).
  - intros r Hr. unfold saved. by rewrite decide_False.
  - intros i Hi. do 6 (destruct i as [|i]; [done|]). destruct i as [|i]; [done|].
    do 4 (destruct i as [|i]; [done|]). done.
Qed.

Lemma saved_rsp m i : popped !! i = Some RSP → saved m RSP = regs m RSP - 88 + 8 * Z.of_nat (S i).
Proof.
  intros Hi. unfold saved. rewrite decide_True by done.
  do 4 (destruct i as [|i]; [done|]). destruct i as [|i]; [lia|]. do 6 (destruct i as [|i]; [done|]). done.
Qed.

Lemma run_app calls c1 c2 m : run calls (c1 ++ c2) m = run calls c2 (run calls c1 m).
Proof. apply foldl_app. Qed.

(** A call followed by [popa], with the saved registers and at most six more words on the stack. *)
Lemma run_call_popa calls f m0 m rest :
  abi calls → regs m RSP = regs m0 RSP - 88 → stacked m ((saved m0 <$> popped) ++ rest) → (length rest ≤ 6)%nat →
  (∀ r, callee_saved r = true → r ≠ RSP → regs m r = regs m0 r) →
  let m' := run calls popa (calls f m) in stacked m' rest ∧ ∀ r, regs m' r = regs m0 r.
Proof.
  intros Habi Hsp Hs Hlen Hkept. cbn zeta. destruct (Habi f m) as [Hr Hw]. revert Hr Hw. generalize (calls f m) as m1.
  intros m1 Hr Hw.
  assert (stacked m1 ((saved m0 <$> popped) ++ rest)) as Hs1.
  { apply (stacked_words m); [done|by apply Hr|]. intros a Ha. apply Hw.
    rewrite length_app, length_fmap in Ha. cbn [length popped] in Ha. lia. }
  destruct (run_pop calls popped (saved m0) m1 _ Hs1) as [Hs2 Hr2].
  { intros i Hi. rewrite (Hr RSP), Hsp by done. by apply saved_rsp. }
  split; [exact Hs2|]. intros r. change (run calls popa m1) with (run calls (Popq <$> popped) m1). rewrite Hr2.
  destruct (decide (r = RSP)) as [->|Hne]; [rewrite Hr, Hsp by done; cbn [length popped]; lia|].
  unfold saved. case_decide as Hin; [by rewrite decide_False|].
  assert (callee_saved r = true) as Hc by (by destruct r; try done; exfalso; apply Hin; rewrite list_elem_of_In; cbn; tauto).
  rewrite Hr by done. by apply Hkept.
Qed.

(** The exit: with the saved registers, a word and the processor's frame on the stack, the
    machine is back where the frame says. *)
Lemma run_exit calls m0 m v sp :
  abi calls → regs m RSP = regs m0 RSP - 88 →
  stacked m ((saved m0 <$> popped) ++ [v; rip m0; cs m0; rflags m0; sp; ss m0]) →
  (∀ r, callee_saved r = true → r ≠ RSP → regs m r = regs m0 r) →
  let m' := run calls isr_exit m in
  (∀ r, regs m' r = if decide (r = RSP) then sp else regs m0 r) ∧
  rip m' = rip m0 ∧ rflags m' = rflags m0 ∧ cs m' = cs m0 ∧ ss m' = ss m0.
Proof.
  intros Habi Hsp Hs Hkept. cbn zeta. unfold isr_exit. rewrite !run_app.
  change (run calls [Call ?f] m) with (calls f m).
  destruct (run_call_popa calls "check_runtime" m0 m _ Habi Hsp Hs) as [Hs2 Hr2]; [cbn; lia|done|].
  revert Hs2 Hr2. generalize (run calls popa (calls "check_runtime"%string m)) as m2. intros m2 Hs2 Hr2.
  assert (∀ i w, [rip m0; cs m0; rflags m0; sp; ss m0] !! i = Some w → words m2 (regs m2 RSP + 8 + 8 * Z.of_nat i) = w) as Hf.
  { intros i w Hi. rewrite <- (Hs2 (S i) w Hi). f_equal. lia. }
  cbn [run foldl exec iretq set_reg with_regs regs rip rflags cs ss words]. unfold upd.
  rewrite (decide_True (P := RSP = RSP)) by done.
  split_and!; [|by apply (Hf 0%nat)|by apply (Hf 2%nat)|by apply (Hf 1%nat)|by apply (Hf 4%nat)].
  intros r. destruct (decide (r = RSP)) as [->|Hne]; [by apply (Hf 3%nat)|]. apply Hr2.
Qed.

(** Instructions that set up the arguments of the handler. *)
Definition sets_argument (i : instr) : bool :=
  match i with Cld => true | MovStack _ r | MovCr2 r => negb (callee_saved r) | _ => false end.

Lemma run_arguments calls args : ∀ m,
  forallb sets_argument args = true →
  words (run calls args m) = words m ∧ ∀ r, callee_saved r = true → regs (run calls args m) r = regs m r.
Proof.
  induction args as [|i args IH]; intros m Ha; [done|]. cbn in Ha. apply andb_prop in Ha as [Hi Ha].
  assert (words (exec calls m i) = words m ∧ ∀ r, callee_saved r = true → regs (exec calls m i) r = regs m r) as [Hw Hr].
  { destruct i; try done; (split; [done|]; intros r Hr; cbn; unfold upd; rewrite decide_False; [done|];
      intros ->; cbn in Hi; by rewrite Hr in Hi). }
  destruct (IH (exec calls m i) Ha) as [IHw IHr]. unfold run in *. cbn [foldl]. rewrite IHw. split; [done|].
  intros r Hc. by rewrite IHr, Hr.
Qed.

Definition frame (m : machine) : list Z := [rip m; cs m; rflags m; regs m RSP; ss m].

(** From the first [pushq] on: one word and the frame are on the stack. *)
Lemma run_body calls m m1 v args f :
  abi calls → stacked m1 (v :: frame m) → (∀ r, r ≠ RSP → regs m1 r = regs m r) →
  forallb sets_argument args = true →
  resumed (run calls (pusha ++ args ++ [Call f] ++ isr_exit) m1) m.
Proof.
  intros Habi Hs Hr Hargs. rewrite !run_app. destruct (run_pusha calls m1 _ Hs) as [Hs2 Hr2].
  set (m2 := run calls pusha m1) in *. destruct (run_arguments calls args m2 Hargs) as [Hw3 Hr3].
  set (m3 := run calls args m2) in *. destruct (Habi f m3) as [Hr4 Hw4].
  change (run calls [Call f] m3) with (calls f m3). set (m4 := calls f m3) in *.
  set (m0 := mkMachine (regs m1) (rip m) (rflags m) (cs m) (ss m) (cr2 m) (words m)).
  assert (regs m3 RSP = regs m1 RSP - 88) as Hsp3 by (by rewrite Hr3, Hr2).
  destruct (run_exit calls m0 m4 v (regs m RSP) Habi) as (H1 & H2).
  - by rewrite Hr4.
  - apply (stacked_words m2); [exact Hs2|by rewrite Hr4, Hr3|]. rewrite <- Hw3, <- (Hr3 RSP) by done. exact Hw4.
  - intros r Hc Hne. rewrite Hr4, Hr3, Hr2 by done. by rewrite decide_False.
  - split; [|exact H2]. intros r. rewrite H1. case_decide as Hd; [by subst|]. by apply Hr.
Qed.

Lemma interrupt_regs handler error m r :
  regs (interrupt handler error m) r
  = if decide (r = RSP) then regs m RSP / 16 * 16 - 8 * (if error is Some _ then 6 else 5) else regs m r.
Proof.
  unfold interrupt, push_frame. cbn [regs]. destruct error; rewrite !regs_push;
    cbn [set_reg with_regs regs]; unfold upd; rewrite !(decide_True (P := RSP = RSP)) by done;
    (destruct (decide (r = RSP)); [lia|done]).
Qed.

Lemma interrupt_frame handler error m :
  stacked (interrupt handler error m) ((if error is Some e then [e] else []) ++ frame m).
Proof.
  enough (stacked (push_frame error m) ((if error is Some e then [e] else []) ++ frame m)) as H by exact H.
  unfold push_frame, frame. destruct error; cbn [app]; repeat apply stacked_push; apply stacked_nil.
Qed.

(** The routines the interrupt table points at, and the error code some get. *)
Inductive isr := PageFault (error : Z) | Keyboard | Pit | Com0 | HpetTimer | Syscall | Device (n : Z).

Definition isr_code (i : isr) : list instr :=
  match i with
  | PageFault _ => page_fault_isr | Keyboard => ps2_keyboard_isr | Pit => pit_isr | Com0 => com0_isr
  | HpetTimer => hpet_isr | Syscall => syscall_isr | Device n => device_isr n
  end.

Definition isr_error (i : isr) : option Z := match i with PageFault e => Some e | _ => None end.

Lemma run_vectored calls m handler v args f :
  abi calls → forallb sets_argument args = true →
  resumed (run calls ([PushImm v] ++ pusha ++ args ++ [Call f] ++ isr_exit) (interrupt handler None m)) m.
Proof.
  intros Habi Hargs. rewrite run_app. pose proof (interrupt_frame handler None m) as Hs.
  apply (run_body calls m _ v); [done|by apply stacked_push| |done].
  intros r Hne. cbn [run foldl exec]. rewrite regs_push, decide_False by done. by rewrite interrupt_regs, decide_False.
Qed.


(** A handler that overwrites what the convention lets it. *)
Definition clobber (f : string) (m : machine) : machine :=
  with_regs m (λ r, if callee_saved r then regs m r else 0xdead).


(** ** Arguments *)

Lemma syscall_loads calls m :
  regs (run calls [MovStack 80 RDI; MovStack 56 RSI; MovStack 48 RDX; MovStack 64 RCX; MovStack 8 R8; MovStack 24 R9; Cld] m)
    <$> [RDI; RSI; RDX; RCX; R8; R9]
  = (λ o, words m (regs m RSP + o)) <$> [80; 56; 48; 64; 8; 24].
Proof. reflexivity. Qed.

(** The handler of system calls gets the number and the five arguments of the Linux
    convention, in the registers of the C convention. *)
Lemma syscall_arguments calls handler m :
  regs (run calls syscall_entry (interrupt handler None m)) <$> [RDI; RSI; RDX; RCX; R8; R9]
  = regs m <$> [RAX; RDI; RSI; RDX; R10; R8].
Proof.
  unfold syscall_entry. rewrite !run_app. pose proof (interrupt_frame handler None m) as Hs.
  set (m1 := run calls [PushImm 128] _). assert (stacked m1 (128 :: frame m)) as Hs1 by (by apply stacked_push).
  destruct (run_pusha calls m1 _ Hs1) as [Hs2 _]. set (m2 := run calls pusha m1) in *.
  assert (∀ r, r ≠ RSP → regs m1 r = regs m r) as Hr1.
  { intros r Hne. cbn [m1 run foldl exec]. rewrite regs_push, decide_False by done. by rewrite interrupt_regs, decide_False. }
  rewrite syscall_loads.
  assert (∀ i r, popped !! i = Some r → r ≠ RSP → words m2 (regs m2 RSP + 8 * Z.of_nat i) = regs m r) as Hw.
  { intros i r Hi Hne. rewrite <- Hr1 by done. replace (regs m1 r) with (saved m1 r) by (unfold saved; by rewrite decide_False).
    apply Hs2. rewrite lookup_app_l by (rewrite length_fmap; by eapply lookup_lt_Some). by rewrite list_lookup_fmap, Hi. }
  clearbody m2. cbn [fmap list_fmap].
  rewrite <- (Hw 10%nat RAX), <- (Hw 7%nat RDI), <- (Hw 6%nat RSI), <- (Hw 8%nat RDX), <- (Hw 1%nat R10), <- (Hw 3%nat R8)
    by done.
  done.
Qed.

(** The page fault handler gets the error code and the address. *)
Lemma page_fault_arguments calls handler e m :
  let m' := run calls page_fault_entry (interrupt handler (Some e) m) in regs m' RDI = e ∧ regs m' RSI = cr2 m.
Proof.
  cbn zeta. unfold page_fault_entry. rewrite run_app. pose proof (interrupt_frame handler (Some e) m) as Hs.
  destruct (run_pusha calls _ _ Hs) as [Hs2 _]. change (cr2 m) with (cr2 (interrupt handler (Some e) m)).
  revert Hs2. generalize (interrupt handler (Some e) m) as m1. intros m1 Hs2.
  assert (cr2 (run calls pusha m1) = cr2 m1) as <- by reflexivity.
  revert Hs2. generalize (run calls pusha m1) as m2. intros m2 Hs2. split; [exact (Hs2 11%nat e eq_refl)|reflexivity].
Qed.

(** The device handler gets the number of its entry. *)
Lemma device_load calls m : regs (run calls [Cld; MovStack 88 RDI] m) RDI = words m (regs m RSP + 88).
Proof. reflexivity. Qed.

Lemma device_argument calls handler n m : regs (run calls (device_entry n) (interrupt handler None m)) RDI = n.
Proof.
  unfold device_entry. rewrite !run_app. pose proof (interrupt_frame handler None m) as Hs.
  set (m1 := run calls [PushImm n] _). assert (stacked m1 (n :: frame m)) as Hs1 by (by apply stacked_push).
  clearbody m1. destruct (run_pusha calls m1 _ Hs1) as [Hs2 _]. rewrite device_load. by apply (Hs2 11%nat n).
Qed.

(** The routine for general protection faults does not drop the error code: [addq %rsp, 8]
    adds to memory, and [iretq] takes the error code for the address to return to. *)
Lemma gpf_returns_to_error calls handler e m :
  abi calls → 256 ≤ regs m RSP / 16 * 16 →
  rip (run calls general_protection_fault_isr (interrupt handler (Some e) m)) = e.
Proof.
  intros Habi Hsp. unfold general_protection_fault_isr. rewrite !run_app. change (run calls [Hlt] ?x) with x.
  pose proof (interrupt_frame handler (Some e) m) as Hs. pose proof (interrupt_regs handler (Some e) m RSP) as Hsp1.
  rewrite decide_True in Hsp1 by done. revert Hs Hsp1. generalize (interrupt handler (Some e) m) as m1. intros m1 Hs Hsp1.
  destruct (run_pusha calls m1 _ Hs) as [Hs2 Hr2]. revert Hs2 Hr2. generalize (run calls pusha m1) as m2. intros m2 Hs2 Hr2.
  change (run calls [Cld; Call ?f] m2) with (calls f (exec calls m2 Cld)).
  destruct (run_call_popa calls "general_protection_fault_handler" m1 (exec calls m2 Cld) ([e] ++ frame m) Habi)
    as [Hs4 Hr4].
  - apply (Hr2 RSP).
  - exact Hs2.
  - cbn. lia.
  - intros r Hc Hne. change (regs (exec calls m2 Cld) r) with (regs m2 r). by rewrite Hr2, decide_False.
  - revert Hs4 Hr4. generalize (run calls popa (calls "general_protection_fault_handler"%string (exec calls m2 Cld))) as m4.
    intros m4 Hs4 Hr4. cbn [run foldl exec iretq with_words rip words regs]. unfold upd.
    rewrite decide_False by (rewrite Hr4; lia). apply (Hs4 0%nat e eq_refl).
Qed.
