(* ===== verification/Handlers.v ===== *)
(** * Interrupt handlers (src/arch/x86_64/interrupt.rs) and the PIT (pit.rs)

    What the service routines call.  The state of the hardware is that of [Io]; the local
    APIC is told of the end of the interrupt by a write to its register 0xb0.  The handler of
    system calls ties the decoding of the number to the scheduler; it ends in a context
    switch, of which the model returns the two task structures. *)

From S2P Require Import Prelude Malloc Table Mapping Io Clock Task Sched Pci Interrupt Memory Acpi Hpet Serial.

(** ** The interval timer *)

Definition CHAN0_DATA : Z := 0x40.
Definition MODE_CMD : Z := 0x43.
Definition TICK_INTERVAL : Z := 1000000.

(** Whether a tick function, that of the clock, is registered. *)
Record PIT := mkPIT { pit_registered : bool }.
Definition pit_new : PIT := mkPIT false.
Definition pit_register_tick (p : PIT) : PIT := mkPIT true.

Definition pit_tick {F} (p : PIT) (clock : Clock F) : Clock F * list (Z * F) :=
  if pit_registered p then clock_tick clock TICK_INTERVAL else (clock, []).

Section handlers.
Context {H : Type} `{!Heap H} {W : Type} `{!Hardware W}.
Implicit Types self : TaskList H.

Definition start_rate : io W () :=
  let count := 1193 in
  let control := 52 in
  _ ← outb MODE_CMD control;
  _ ← outb CHAN0_DATA (count mod 2 ^ 8);
  outb CHAN0_DATA (Z.shiftr count 8 mod 2 ^ 8).

(** ** The handlers; [lapic] is the base address of the local APIC. *)

Definition ps2_keyboard_handler (lapic : Z) : io W () := end_of_interrupt lapic.

Definition pit_handler {F} (lapic : Z) (p : PIT) (clock : Clock F) : io W (Clock F * list (Z * F)) :=
  let r := pit_tick p clock in
  _ ← end_of_interrupt lapic;
  mret r.

Definition hpet_handler {F} (lapic : Z) (s : time_system F) (counter : Z) : io W (time_system F * list (Z * F)) :=
  r ← pure (hpet_tick s counter);
  _ ← end_of_interrupt lapic;
  mret r.

Definition com0_handler (fuel : nat) (lapic : Z) (com1 : Com) : io W () :=
  _ ← read_com1 fuel com1;
  end_of_interrupt lapic.

(** [tick] is what the clock source reports, [now] the time the scheduler reads, [enabled]
    the interrupt flag found by [sched::lock]. *)
Definition syscall_handler (lapic : Z) self (clock : option (Clock Z)) (rsp syscall_number arg0 tick now : Z)
    (enabled : bool) : io W (TaskList H * option (Clock Z) * Z * Z) :=
  _ ← end_of_interrupt lapic;
  match syscall_try_from syscall_number with
  | Ok SchedYield => pure (
      self ← sched_lock self rsp enabled;
      '(self, from_ptr, to_ptr) ← switch self rsp now;
      Ret (self, clock, from_ptr, to_ptr))
  | Ok Nanosleep => pure (
      self ← sched_lock self rsp enabled;
      '(self, clock, from_ptr, to_ptr) ← sleep self clock rsp arg0 tick now;
      Ret (self, Some clock, from_ptr, to_ptr))
  | Err _ => pure (Panic (ExplicitPanic "Invalid syscall"))
  end.

(** What the hardware has seen after the end of the interrupt. *)
Definition acknowledged (lapic : Z) (w : W) : W := hw_write 4 (lapic + 0xb0) 0 w.
End handlers.

(** ** System calls *)

Section syscalls.
Context {H : Type} `{!Heap H, !HeapLaws H} {W : Type} `{!Hardware W}.
Implicit Types self : TaskList H.

Lemma syscall_handler_Ret lapic self clock rsp n arg0 tick now b (w : W) r w' :
  syscall_handler lapic self clock rsp n arg0 tick now b w = Ret (r, w') →
  w' = acknowledged lapic w ∧ ∃ self1, sched_lock self rsp b = Ret self1 ∧
    ((n = 0x18 ∧ ∃ self' f t, switch self1 rsp now = Ret (self', f, t) ∧ r = (self', clock, f, t)) ∨
     (n = 0x23 ∧ ∃ self' c f t, sleep self1 clock rsp arg0 tick now = Ret (self', c, f, t) ∧ r = (self', Some c, f, t))).
Proof.
  unfold syscall_handler. intros E. rewrite (io_bind_Ret _ _ w tt (acknowledged lapic w)) in E by done.
  destruct (syscall_try_from n) as [s|v] eqn:Hs; [|done]. apply syscall_try_from_spec in Hs as ->.
  destruct s; unfold pure in E; destruct (sched_lock self rsp b) as [self1|] eqn:Hl; try done; cbn [mbind outcome_bind] in E.
  - destruct (switch self1 rsp now) as [[[self' f] t]|] eqn:Hsw; [|done]. cbn in E. injection E as <- <-.
    split; [done|]. exists self1. split; [done|]. left. split; [done|]. by exists self', f, t.
  - destruct (sleep self1 clock rsp arg0 tick now) as [[[[self' c] f] t]|] eqn:Hsl; [|done]. cbn in E. injection E as <- <-.
    split; [done|]. exists self1. split; [done|]. right. split; [done|]. by exists self', c, f, t.
Qed.

(** The two system calls.  When the handler reaches the context switch, the end of the
    interrupt has been signalled, the scheduler's invariant holds and the task that runs next
    is one of least runtime.  After [sched_yield] the caller is as runnable as it was and the
    clock is untouched; after [nanosleep] the caller is blocked and the clock will wake it
    [arg0] nanoseconds after its reading. *)
Theorem syscall_effect lapic self clock rsp n arg0 tick now b c (w : W) self' clock' from_ptr to_ptr w' :
  task_list_ok self → runs self rsp c →
  syscall_handler lapic self (Some clock) rsp n arg0 tick now b w = Ret ((self', clock', from_ptr, to_ptr), w') →
  w' = acknowledged lapic w ∧ task_list_ok self' ∧
  (∃ to, current self' = Some to ∧ picks (view self') to) ∧
  (n = syscall_number SchedYield ∧ clock' = Some clock ∧ (fst <$> view self' c) = (fst <$> view self c) ∨
   n = syscall_number Nanosleep ∧ clock' = Some (mkClock tick (<[tick + arg0 := c]> (callbacks clock))) ∧
     (fst <$> view self' c) = Some false).
Proof.
  intros Hok Hr E. apply syscall_handler_Ret in E as (-> & self1 & Hl & E).
  destruct (sched_lock_spec _ _ _ _ _ Hok Hr Hl) as (Hok1 & Hc1 & Ht1 & _ & Hv1 & _).
  pose proof (runs_kept _ _ _ _ Hr Hc1 Ht1) as Hr1. split; [done|].
  destruct E as [(-> & s2 & f & t & Hsw & [= -> -> -> ->])|(-> & s2 & c2 & f & t & Hsl & [= -> -> -> ->])].
  - destruct (switch_spec _ _ _ _ _ _ _ Hok1 Hr1 Hsw) as (tk & to & Htk & _ & Hs).
    split_and!; [apply Hs|exists to; split; apply Hs|]. left. split_and!; [done..|].
    rewrite (sw_view _ _ _ _ _ _ _ _ Hs), decide_True by done. rewrite <- (Hv1 c). unfold view. rewrite Htk. done.
  - destruct (sleep_spec _ _ _ _ _ _ _ _ _ _ _ Hok1 Hr1 Hsl) as (-> & to & Hb).
    split_and!; [apply Hb|exists to; split; apply Hb|]. right. split_and!; [done..|].
    by destruct (bl_view_c _ _ _ _ Hb) as (rt & ->).
Qed.

(** Any other number stops the kernel. *)
Lemma unknown_syscall_panics lapic self clock rsp n arg0 tick now b (w : W) :
  (∀ s, n ≠ syscall_number s) →
  syscall_handler lapic self clock rsp n arg0 tick now b w = Panic (ExplicitPanic "Invalid syscall").
Proof.
  intros Hn. unfold syscall_handler. rewrite (io_bind_Ret _ _ w tt (acknowledged lapic w)) by done.
  destruct (syscall_try_from n) as [s|v] eqn:Hs; [|done]. apply syscall_try_from_spec in Hs. by destruct (Hn s).
Qed.
End syscalls.
