(* ===== verification/Start.v ===== *)
(** * Starting the kernel (src/main.rs)

    [start] puts the components together: memory, the ACPI tables, the scheduler, interrupts,
    the serial port, the clock, the PCI bus with its network card, and the first tasks.  The
    parts are those of the other files; here is their order, what one hands to the next, and
    the statics they leave behind.  [interrupt_init] and the clock's [init] are here too, as
    is [spawn], the way [start] creates tasks. *)

From S2P Require Import Prelude Malloc Physical Table Mapping Io Clock Task Sched SchedSpec Switch Net Pci Interrupt Memory Acpi Hpet Rtl8139 Mm Boot Serial Text.

(** ** [interrupt::init] *)

(** The statics [IOAPIC] and [LOCAL_APIC], the interrupt flag, and the register that [lidt]
    loads: limit and base. *)
Record controllers := mkControllers {
  static_ioapic : Z; static_lapic : Z; interrupt_flag : bool; idtr : option (Z * Z);
}.

Section interrupts.
Context {W : Type} `{!Hardware W}.

(** Up to the end of [remap_all], whose last instruction is [sti]. *)
Definition interrupt_setup (s : isrs) (idt_addr : Z) (idt : list Z) (madt : MADT) (c : controllers) :
    io W (list Z * controllers * Z) :=
  idt ← pure (idt_init s idt);
  let idtr := (256 * 16 - 1, idt_addr) in
  _ ← mask_pic;
  id ← lapic_id (lapic_addr madt);
  _ ← ioapic_remap_all (ioapic_addr madt) id;
  mret (idt, mkControllers (static_ioapic c) (static_lapic c) true (Some idtr), id).

Definition interrupt_init (s : isrs) (idt_addr : Z) (idt : list Z) (madt : MADT) (c : controllers) :
    io W (list Z * controllers * Z) :=
  '(idt, c, id) ← interrupt_setup s idt_addr idt madt c;
  mret (idt, mkControllers (ioapic_addr madt) (lapic_addr madt) (interrupt_flag c) (idtr c), id).

(** [interrupt::mask_line], on the static controller. *)
Definition mask_line (c : controllers) (mask : bool) (line : Z) : io W () := ioapic_mask_line (static_ioapic c) mask line.
End interrupts.

(** ** The segment registers (pm.s) *)

(** The descriptor table register, limit and base, and the selectors. *)
Record segments := mkSegments { gdtr : Z * Z; cs : Z; ds : Z; es : Z; fs : Z; gs : Z; ss : Z }.

(** [reload_gdt]: the stack as words, the top first; [lretq] takes the address of [reload_cs] and
    the code selector from it, [ret] the return address. *)
Definition reload_gdt (reload_cs : Z) (operand : Z * Z) (s : segments) (stack : list Z) : outcome (segments * Z * list Z) :=
  let s := mkSegments operand (cs s) 0x10 0x10 0x10 0x10 0x10 in
  match reload_cs :: 0x8 :: stack with
  | _ :: code :: stack =>
      let s := mkSegments (gdtr s) code (ds s) (es s) (fs s) (gs s) (ss s) in
      match stack with
      | ret :: stack => Ret (s, ret, stack)
      | [] => Panic InvalidDeref
      end
  | _ => Panic Unreachable
  end.

(** The descriptor a selector names, if the register's limit covers it. *)
Definition selected (gdt : list Z) (s : segments) (selector : Z) : option Z :=
  if decide (selector + 7 ≤ (gdtr s).1) then gdt !! Z.to_nat (selector / 8) else None.

(** ** The clock *)

(** [clock::init] replaces the static clock; [tick_fn] is the function given to the timer. *)
Definition clock_init {F} (clock : option (Clock F)) : option (Clock F) := Some clock_new.

Definition tick_fn {F} (clock : option (Clock F)) (x : Z) : option (Clock F) * list (Z * F) :=
  match clock with
  | Some clock => let '(clock, ran) := clock_tick clock x in (Some clock, ran)
  | None => (None, [])
  end.

(** ** Tasks *)

Section spawn.
Context {H : Type} `{!Heap H} (ep uninit : Z).

(** [sched::lock().new_task(entry)]: the lock disables interrupts, dropping it restores them. *)
Definition spawn (k : kernel H) (mapper : KernelMapper) (rsp : Z) (enabled : bool) (entry : Z) :
    outcome (kernel H * KernelMapper * bool * Z) :=
  l ← sched_lock (k_list k) rsp enabled;
  '(l, heap, mapper, id) ← new_task ep uninit l (k_heap k) mapper rsp entry;
  enabled ← sched_unlock l rsp;
  Ret (mkKernel l heap, mapper, enabled, id).

Definition spawn_all (k : kernel H) (mapper : KernelMapper) (rsp : Z) (enabled : bool) (entries : list Z) :
    outcome (kernel H * KernelMapper * bool * list Z) :=
  mfold (λ '(k, mapper, enabled, ids) e,
    '(k, mapper, enabled, id) ← spawn k mapper rsp enabled e;
    Ret (k, mapper, enabled, ids ++ [id])) entries (k, mapper, enabled, []).
End spawn.

(** ** [start] *)

(** What the linker fixes: the boot stack and page tables, the table of gates, and the
    functions whose addresses are taken. *)
Record image := mkImage {
  im_isrs : isrs;
  im_idt : Z;
  im_boot_stack : Z;
  im_pml4 : Z; im_pdpt : Z; im_pdt : Z;
  im_task_entry : Z;
  im_bottom_half : Z; im_net_run : Z; im_some_task : Z;
  im_rtl8139_handler : Z;
}.

(** What memory holds before the kernel writes it, and what the processor has at entry. *)
Record entry_state := mkEntry0 {
  e_boot : Z → Z;                        (* memory as [relocate] sees it *)
  e_acpi : Z → Z;                        (* memory as the parsers see it *)
  e_tables : gmap Z PagingStruct;
  e_ram : gmap Z Z;
  e_stack : Task;                        (* what the boot stack holds *)
  e_heap : KernelAllocator;
  e_rsp : Z;
  e_cr3 : Z;
  e_gdt : list Z;
  e_frame : list Z;
  e_tx : list (list Z);
  e_task : Z;
}.

(** The statics when the main loop begins. *)
Record started (H : Type) := mkStarted {
  st_kernel : kernel H;
  st_mapper : KernelMapper;
  st_gdt : list Z * Z;
  st_idt : list Z;
  st_controllers : controllers;
  st_com1 : Com;
  st_mcfg : list Allocation;
  st_hpet : HPET;
  st_clock : option (Clock Z);
  st_pci : list PCIDevice;
  st_handlers : list Z;
  st_nics : list (BDF * RTL8139);
  st_network : list (BDF * Interface);
  st_tasks : list Z;
}.
Arguments mkStarted {H}.

Section start.
Context {H : Type} `{!Heap H} {W : Type} `{!Hardware W}.
(** The meaning of the numbers of memory types, the addresses of the card's buffers, and fuel
    for the loops that wait for a device or walk a table. *)
Context (memory_type : Z → MemoryType) (rx_buf_addr : Z) (tx_buf_addr : nat → Z) (fuel : nat).
Context (im : image) (e : entry_state).

Definition descriptor_of (d : Descriptor) : MemoryDescriptor :=
  mkDescriptor (memory_type (d_ty d)) (d_phys_start d) (d_page_count d).

(** The boot data and its memory map, the mapper, and the controllers' table. *)
Definition start_memory (boot_data : Z) : outcome (BootData * KernelMapper * MADT) :=
  bd ← relocate (e_boot e) boot_data MMIO_BASE;
  let '(map_ptr, map_len) := memory_map bd in
  ds ← read_descs (e_boot e) map_ptr (Z.to_nat map_len);
  mapper ← init_mm (im_pml4 im) (im_pdpt im) (im_pdt im) (mkBareMetal (e_cr3 e) 0) (e_tables e) (e_ram e) (descriptor_of <$> ds);
  '(mapper, r) ← parse_madt (e_acpi e) fuel mapper (acpi_rsdp bd);
  match r with
  | Ok madt => Ret (bd, mapper, madt)
  | Err _ => Panic (ExpectFailed "failed to parse ACPI tables")
  end.

(** [sched::init] runs before there is a clock, so the time is zero; interrupts are disabled
    since _low_start, and stay so. *)
Definition start_scheduler : outcome (kernel H) :=
  '(l, _, _) ← sched_init (mkTaskList 0 None ∅ heap_new {[im_boot_stack im := e_stack e]}) (im_boot_stack im)
                 (e_rsp e) (e_cr3 e) 0 false;
  _ ← sched_unlock l (e_rsp e);
  Ret (mkKernel l (e_heap e)).

(** The serial port, and what is said on it. *)
Definition say (com1 : Com) (s : string) : io W () := tmp_write_com1 fuel com1 (text "[OK]" ++ [9] ++ line (text s)).

(** The HPET is the only clock source there is. *)
Definition start_clock (mapper : KernelMapper) (c : controllers) (rsdp : Z) :
    io W (KernelMapper * HPET * option (Clock Z)) :=
  '(mapper, r) ← pure (parse_hpet (e_acpi e) mapper rsdp);
  match r with
  | Ok h =>
      hpet ← hpet_init (static_ioapic c) h;
      hpet ← pure (expect (register_tick (Some hpet)) Unreachable);
      mret (mapper, hpet, clock_init None)
  | Err _ => pure (Panic (ExplicitPanic "No supported clocksource found!"))
  end.

(** [mm::phys_addr]; a walk that fails finds nothing. *)
Definition mm_phys_addr (mapper : KernelMapper) (v : Z) : option Z :=
  match translate mapper v with
  | Ret o => o
  | Panic _ => None
  end.

(** [pci::init], and [rtl8139::init] with the task for its bottom half, created while the locks
    of the bus and of the cards keep interrupts disabled. *)
Definition start_network (k : kernel H) (mapper : KernelMapper) (c : controllers) (lapic_id : Z) (madt : MADT) :
    io W (kernel H * KernelMapper * list PCIDevice * list Z * list (BDF * RTL8139) * list (BDF * Interface) * Z) :=
  devices ← enumerate_pci_bus fuel lapic_id [];
  '(rest, (handlers, nics, stack)) ← rtl8139_init_all (mm_phys_addr mapper) rx_buf_addr tx_buf_addr
     (interface_new (e_frame e)) fuel (e_tx e) (im_rtl8139_handler im) (static_ioapic c) (static_lapic c)
     (interrupt_mappings madt) (replicate 128 0) devices;
  '(k, mapper, _, id) ← pure (spawn (im_task_entry im) (e_task e) k mapper (e_rsp e) false (im_bottom_half im));
  mret (k, mapper, rest, handlers, nics, stack, id).

(** Up to the main loop. *)
Definition start (boot_data : Z) : io W (started H) :=
  '(bd, mapper, madt) ← pure (start_memory boot_data);
  gdt ← pure (gdt_init (e_gdt e));
  k ← pure start_scheduler;
  '(idt, c, lapic_id) ← interrupt_init (im_isrs im) (im_idt im) (replicate 256 0) madt (mkControllers 0 0 false None);
  com1 ← serial_init;
  _ ← say com1 "Serial console initialized";
  r ← pure (parse_mcfg (e_acpi e) (acpi_rsdp bd));
  mcfg ← pure (match r with Ok m => Ret m | Err _ => Panic (ExpectFailed "failed to parse ACPI tables") end);
  '(mapper, hpet, clock) ← start_clock mapper c (acpi_rsdp bd);
  '(k, mapper, devices, handlers, nics, stack, id) ← start_network k mapper c lapic_id madt;
  _ ← (if decide (length nics = 1%nat) then say com1 "RTL8139 NIC initialized" else say com1 "No NICs found");
  '(k, mapper, _, ids) ← pure (spawn_all (im_task_entry im) (e_task e) k mapper (e_rsp e) (interrupt_flag c)
     [im_net_run im; im_some_task im; im_some_task im; im_some_task im]);
  mret (mkStarted k mapper gdt idt c com1 mcfg hpet clock devices handlers nics stack (id :: ids)).
End start.

(** After [pm::init] the code selector names the 64-bit code segment and the others the data
    segment; control is back at the caller. *)
Lemma reload_gdt_selects uninit gdt limit base label s ret stack :
  gdt_init uninit = Ret (gdt, limit) →
  ∃ s', reload_gdt label (limit, base) s (ret :: stack) = Ret (s', ret, stack) ∧ gdtr s' = (limit, base) ∧
    selected gdt s' (cs s') = Some (segment_u64 (mkSegment 0 0 0xaf9a)) ∧
    Forall (λ r, selected gdt s' r = Some (segment_u64 (mkSegment 0 0 0xcf92))) [ds s'; es s'; fs s'; gs s'; ss s'].
Proof.
  intros E. unfold gdt_init in E. apply bind_Ret_inv in E as (g0 & [H0 ->]%index_set_Ret_inv & E).
  apply bind_Ret_inv in E as (g1 & [H1 ->]%index_set_Ret_inv & E).
  apply bind_Ret_inv in E as (g2 & [H2 ->]%index_set_Ret_inv & E). apply Ret_pair_inv in E as [<- <-].
  eexists. split; [reflexivity|]. split; [reflexivity|]. unfold selected. cbn [gdtr fst cs ds es fs gs ss]. split.
  - rewrite decide_True by done. rewrite list_lookup_insert_ne by done. by apply list_lookup_insert_eq.
  - repeat (apply Forall_cons_2; [rewrite decide_True by done; by apply list_lookup_insert_eq|]). apply Forall_nil_2.
Qed.

(** ** The tasks *)

Section tasks.
Context {H : Type} `{!Heap H, !HeapLaws H} (ep uninit : Z).
Implicit Types k : kernel H.

(** A new task, ready to enter [e] on its own stack. *)
Definition ready k (id e : Z) : Prop := ∃ ptr cr3,
  tasks (k_list k) !! id = Some ptr ∧ lookup_task (k_list k) id = Some (fresh_task ep uninit e id ptr cr3).

Lemma spawn_spec k mapper rsp c enabled e k' mapper' enabled' id :
  kernel_ok k → runs (k_list k) rsp c → spawn ep uninit k mapper rsp enabled e = Ret (k', mapper', enabled', id) →
  kernel_ok k' ∧ runs (k_list k') rsp c ∧ enabled' = enabled ∧ id = next_task_id (k_list k) ∧
  next_task_id (k_list k') = id + 1 ∧ ready k' id e ∧
  (∀ j, j ≠ id → view (k_list k') j = view (k_list k) j) ∧
  (∀ j, j ≠ id → j ≠ c → lookup_task (k_list k') j = lookup_task (k_list k) j ∧ tasks (k_list k') !! j = tasks (k_list k) !! j).
Proof.
  intros Hk Hr E. unfold spawn in E. apply bind_Ret_inv in E as (l1 & E1 & E).
  destruct (sched_lock_spec _ _ _ _ _ (k_ok k Hk) Hr E1) as (Hok1 & Hc1 & Ht1 & Hn1 & Hv1 & t1 & Hl1 & Hb1).
  pose proof (kernel_ok_same k l1 Hk Hok1 Ht1) as Hk1. pose proof (runs_kept _ _ _ _ Hr Hc1 Ht1) as Hr1.
  apply bind_Ret_inv in E as ([[[l2 heap2] m2] id2] & E2 & E).
  destruct (new_task_inv ep uninit (mkKernel l1 (k_heap k)) mapper rsp e c _ _ _ _ Hk1 Hr1 E2) as (cr3 & ptr & Hall & -> & El).
  pose proof (add_task_created (mkKernel l1 (k_heap k)) heap2 ptr ep uninit e cr3 Hk1 Hall) as Hcr. cbn [k_list] in *.
  rewrite <- El in Hcr. destruct Hcr as [Hok2 [_ Hn2] Hc2 Hnew Hl2 _]. cbn [k_list] in *.
  assert (tasks l2 = <[next_task_id l1 := ptr]> (tasks l1)) as Ht2 by (by rewrite El).
  destruct Hr1 as [Hcur1 Hreg1]. assert (c ≠ next_task_id l1) as Hne by (intros ->; by rewrite Hnew in Hreg1).
  assert (runs l2 rsp c) as Hr2.
  { split; [congruence|]. by rewrite Ht2, lookup_insert_ne by (by apply not_eq_sym). }
  apply bind_Ret_inv in E as (b & E3 & E). injection E as <- <- <- <-. cbn [k_list].
  assert (lookup_task l2 c = Some t1) as Hlc by (by rewrite Hl2, decide_False).
  assert (b = enabled) as ->.
  { unfold sched_unlock, resume_interrupts, _current_task in E3. unfold lookup_task in Hlc.
    destruct Hr2 as [_ Hreg2]. rewrite Hreg2 in Hlc. cbn in Hlc. rewrite Hlc in E3. cbn in E3. congruence. }
  split_and!; try done.
  - exists ptr, cr3. cbn [k_list]. rewrite Ht2, lookup_insert_eq. split; [done|]. by rewrite Hl2, decide_True by done.
  - intros j Hj. rewrite <- Hv1. unfold view. by rewrite Hl2, decide_False by done.
  - intros j Hj Hjc. split.
    + rewrite Hl2, decide_False by done. unfold sched_lock, set_resume_interrupts in E1. unfold lookup_task.
      rewrite Ht1. destruct (tasks (k_list k) !! j) as [a|] eqn:Ej; [|done]. cbn.
      apply bind_Ret_inv in E1 as ([a0 t0] & E0 & E1). injection E1 as <-. cbn [update_info write_box boxes].
      apply lookup_insert_ne. unfold _current_task in E0. apply bind_Ret_inv in E0 as (t0' & _ & E0). injection E0 as <- _.
      intros Ha. destruct (proj1 (task_list_ok_split _) (k_ok k Hk)) as (Hok & _). destruct Hr as [_ Hreg]. subst a.
      destruct (l_boxes _ Hok _ _ Ej) as (t & Hb & E'), (l_boxes _ Hok _ _ Hreg) as (t' & Hb' & E''). congruence.
    + by rewrite Ht2, lookup_insert_ne, Ht1 by (by apply not_eq_sym).
Qed.

(** The task stays ready while another is created. *)
Lemma ready_kept k k' id e c id' : ready k id e → id ≠ id' → id ≠ c →
  (∀ j, j ≠ id' → j ≠ c → lookup_task (k_list k') j = lookup_task (k_list k) j ∧ tasks (k_list k') !! j = tasks (k_list k) !! j) →
  ready k' id e.
Proof. intros (ptr & cr3 & Ht & Hl) Hne Hc Hsame. destruct (Hsame id Hne Hc) as [E1 E2]. exists ptr, cr3. by rewrite E1, E2. Qed.

Lemma runs_below k rsp c : kernel_ok k → runs (k_list k) rsp c → c < next_task_id (k_list k).
Proof.
  intros Hk [_ Hr]. destruct (proj1 (task_list_ok_split _) (k_ok k Hk)) as ([_ _ Hb] & _).
  apply (Hb c). by eexists.
Qed.

Lemma spawn_all_go k mapper rsp c enabled ids es k' mapper' enabled' ids' :
  kernel_ok k → runs (k_list k) rsp c →
  mfold (λ '(k, mapper, enabled, ids) e,
    '(k, mapper, enabled, id) ← spawn ep uninit k mapper rsp enabled e;
    Ret (k, mapper, enabled, ids ++ [id])) es (k, mapper, enabled, ids) = Ret (k', mapper', enabled', ids') →
  kernel_ok k' ∧ runs (k_list k') rsp c ∧ enabled' = enabled ∧
  ids' = ids ++ seqZ (next_task_id (k_list k)) (Z.of_nat (length es)) ∧
  next_task_id (k_list k') = next_task_id (k_list k) + Z.of_nat (length es) ∧
  (∀ i e, es !! i = Some e → ready k' (next_task_id (k_list k) + Z.of_nat i) e) ∧
  (∀ j, j < next_task_id (k_list k) → view (k_list k') j = view (k_list k) j) ∧
  (∀ j e, j < next_task_id (k_list k) → j ≠ c → ready k j e → ready k' j e).
Proof.
  revert k mapper enabled ids. induction es as [|e es IH]; intros k mapper enabled ids Hk Hr E; cbn [mfold] in E.
  - injection E as <- <- <- <-. cbn. rewrite app_nil_r, Z.add_0_r. by split_and!.
  - apply bind_Ret_inv in E as ([[[k1 m1] b1] ids1] & E1 & E). apply bind_Ret_inv in E1 as ([[[k2 m2] b2] id] & Es & E1).
    injection E1 as -> -> -> <-.
    destruct (spawn_spec _ _ _ _ _ _ _ _ _ _ Hk Hr Es) as (Hk1 & Hr1 & -> & -> & Hn1 & Hrd & Hv1 & Hl1).
    pose proof (runs_below k rsp c Hk Hr) as Hc.
    destruct (IH _ _ _ _ Hk1 Hr1 E) as (Hk' & Hr' & -> & -> & Hn' & Hrdy & Hv' & Hk2). rewrite Hn1 in *.
    cbn [length]. rewrite Nat2Z.inj_succ. split_and!; try done.
    + rewrite <- app_assoc, (seqZ_cons _ (Z.succ _)) by lia. by rewrite Z.pred_succ.
    + lia.
    + intros [|i] e' Hi; cbn in Hi.
      * injection Hi as <-. rewrite Z.add_0_r. apply Hk2; [lia|lia|done].
      * specialize (Hrdy i e' Hi). by replace (_ + Z.of_nat (S i)) with (next_task_id (k_list k) + 1 + Z.of_nat i) by lia.
    + intros j Hj. rewrite Hv', Hv1 by lia. done.
    + intros j e' Hj Hjc Hrj. apply Hk2; [lia|done|]. eapply ready_kept; [done| |done|exact Hl1]. lia.
Qed.

(** Creating tasks one after the other, as [start] does: the new ids are consecutive, and
    each of the new tasks is runnable with no runtime and set up to enter its own function
    on a stack of its own; the scheduler's invariant holds, the caller keeps running with
    its interrupt flag restored, and no other task's state changes. *)
Theorem spawn_all_ready k mapper rsp c enabled es k' mapper' enabled' ids :
  kernel_ok k → runs (k_list k) rsp c →
  spawn_all ep uninit k mapper rsp enabled es = Ret (k', mapper', enabled', ids) →
  kernel_ok k' ∧ runs (k_list k') rsp c ∧ enabled' = enabled ∧
  ids = seqZ (next_task_id (k_list k)) (Z.of_nat (length es)) ∧
  (∀ i e, es !! i = Some e → let id := next_task_id (k_list k) + Z.of_nat i in
     ready k' id e ∧ view (k_list k') id = Some (true, 0)) ∧
  (∀ j, j < next_task_id (k_list k) → view (k_list k') j = view (k_list k) j).
Proof.
  intros Hk Hr E. destruct (spawn_all_go _ _ _ _ _ _ _ _ _ _ _ Hk Hr E) as (? & ? & ? & -> & _ & Hrd & ? & _).
  split_and!; try done. intros i e Hi. specialize (Hrd i e Hi). cbv zeta. split; [done|].
  destruct Hrd as (ptr & cr3 & _ & Hl). unfold view. by rewrite Hl.
Qed.
End tasks.

(** ** The whole of [start] *)

Lemma pure_inv {W A} (m : outcome A) (w : W) a w' : pure m w = Ret (a, w') → m = Ret a ∧ w' = w.
Proof. unfold pure. destruct m; [|done]. by intros [= -> ->]. Qed.

Section boot.
Context {H : Type} `{!Heap H, !HeapLaws H} {W : Type} `{!Hardware W}.
Context (memory_type : Z → MemoryType) (rx_buf_addr : Z) (tx_buf_addr : nat → Z) (fuel : nat) (im : image) (e : entry_state).
Hypothesis Hstack : im_boot_stack im = Z.land (e_rsp e) TASK_STRUCT_MASK.
Hypothesis Haligned : (KERNEL_STACK_SIZE | im_boot_stack im).
Hypothesis Hheap : 0 < head (e_heap e) ∧ im_boot_stack im + KERNEL_STACK_SIZE ≤ head (e_heap e).

Lemma start_scheduler_runs k : start_scheduler (H := H) im e = Ret k →
  kernel_ok k ∧ runs (k_list k) (e_rsp e) 0 ∧ next_task_id (k_list k) = 1.
Proof.
  unfold start_scheduler. intros E. apply bind_Ret_inv in E as ([[l f] t] & E1 & E).
  apply bind_Ret_inv in E as (b & _ & E). injection E as <-. rewrite Hstack in *.
  eapply (sched_init_boots (mkKernel l (e_heap e))); [done|apply Hheap|apply Hheap|exact E1].
Qed.

(** The interrupt flag, the gates' register and the statics after [interrupt_init]. *)
Lemma interrupt_init_controllers s idt_addr idt madt c (w : W) idt' c' id w' :
  interrupt_init s idt_addr idt madt c w = Ret ((idt', c', id), w') →
  c' = mkControllers (ioapic_addr madt) (lapic_addr madt) true (Some (4095, idt_addr)) ∧ idt_init s idt = Ret idt'.
Proof.
  unfold interrupt_init, interrupt_setup. intros E. apply io_bind_inv in E as ([[i c1] n] & w1 & E1 & E).
  injection E as <- <- <- <-. apply io_bind_inv in E1 as (i' & w2 & [Hi _]%pure_inv & E1).
  apply io_bind_inv in E1 as (? & w3 & _ & E1). apply io_bind_inv in E1 as (? & w4 & _ & E1).
  apply io_bind_inv in E1 as (? & w5 & _ & E1). injection E1 as <- <- _ _. done.
Qed.

Lemma start_network_task k mapper c lapic madt (w : W) k' mapper' ds hs nics st id w' :
  kernel_ok k → runs (k_list k) (e_rsp e) 0 →
  start_network rx_buf_addr tx_buf_addr fuel im e k mapper c lapic madt w = Ret ((k', mapper', ds, hs, nics, st, id), w') →
  kernel_ok k' ∧ runs (k_list k') (e_rsp e) 0 ∧ id = next_task_id (k_list k) ∧ next_task_id (k_list k') = id + 1 ∧
  ready (im_task_entry im) (e_task e) k' id (im_bottom_half im).
Proof.
  intros Hk Hr E. unfold start_network in E. apply io_bind_inv in E as (? & w1 & _ & E).
  apply io_bind_inv in E as ([rest [[h n] s]] & w2 & _ & E).
  apply io_bind_inv in E as ([[[k1 m1] b] i] & w3 & [E3 _]%pure_inv & E). injection E as <- <- _ _ _ _ <- _.
  destruct (spawn_spec _ _ _ _ _ _ _ _ _ _ _ _ Hk Hr E3) as (? & ? & _ & ? & ? & ? & _). by split_and!.
Qed.

Lemma start_clock_set mapper c rsdp (w : W) mapper' hpet clock w' :
  start_clock e mapper c rsdp w = Ret ((mapper', hpet, clock), w') → tick_registered hpet = true ∧ clock = Some clock_new.
Proof.
  unfold start_clock. intros E. apply io_bind_inv in E as ([m r] & w1 & _ & E). destruct r as [h|]; [|done].
  apply io_bind_inv in E as (h1 & w2 & _ & E). apply io_bind_inv in E as (h2 & w3 & [E3 _]%pure_inv & E).
  injection E as _ <- <- _. injection E3 as <-. done.
Qed.


(** Without an HPET there is no clock, and [start] stops: the interval timer is not used. *)
Lemma start_clock_none mapper c rsdp (w : W) mapper' msg :
  parse_hpet (e_acpi e) mapper rsdp = Ret (mapper', Err msg) →
  start_clock e mapper c rsdp w = Panic (ExplicitPanic "No supported clocksource found!").
Proof. intros E. unfold start_clock. by rewrite (io_bind_Ret _ _ w (mapper', Err msg) w) by (unfold pure; by rewrite E). Qed.
End boot.

(** [remap_all] enables interrupts before the statics are set.  An interrupt in between is
    acknowledged at the address of the initial static, [0xb0], and not at the local APIC. *)
Lemma early_interrupt_not_acknowledged {W} `{!Hardware W} s idt_addr idt madt (w : W) idt' c id w' :
  interrupt_setup s idt_addr idt madt (mkControllers 0 0 false None) w = Ret ((idt', c, id), w') →
  interrupt_flag c = true ∧ end_of_interrupt (static_lapic c) w' = Ret (tt, hw_write 4 0xb0 0 w').
Proof.
  unfold interrupt_setup. intros E. apply io_bind_inv in E as (i' & w2 & _ & E).
  apply io_bind_inv in E as (? & w3 & _ & E). apply io_bind_inv in E as (? & w4 & _ & E).
  apply io_bind_inv in E as (? & w5 & _ & E). by injection E as _ <- _ _.
Qed.
