(* ===== verification/StartExamples.v ===== *)
(** * A run of [start]

    A machine on which [start] comes to the main loop: two free pages, the ACPI tables of one
    I/O APIC and one HPET, a serial port that is always ready and an empty PCI bus. *)

From S2P Require Import Prelude Malloc Physical Table Mapping Io Clock Task Sched SchedSpec Switch Net Pci Interrupt Memory Acpi Hpet Rtl8139 Mm Boot Serial Text Start.

(** The boot data and the memory map. *)
Definition mini_desc : Descriptor := mkDesc 7 0x801000 0 2 15.
Definition mini_data : PhysBootData := mkPhysBootData MEMORY_MAP_BUF 1 (mkRawFb 0xc0000000 4096 32 32 32 0) 0x5000 0x7000.
Definition mini_boot : Z → Z :=
  write_bytes (write_bytes (λ _, 0) (KERNEL_BASE + BOOT_DATA) (boot_bytes 0 mini_data)) (KERNEL_BASE + MEMORY_MAP_BUF) (desc_bytes 0 mini_desc).
(** Page tables that are all zero. *)
Definition mini_base : Z := PAGING_STRUCTURE_BASE_ADDR + 0x200000.
Definition mini_tables : gmap Z PagingStruct :=
  list_to_map ((λ n, (mini_base + n * 0x1000, table_default)) <$> seqZ 0 40).
(** The ACPI tables. *)
Definition mini_acpi : Z → Z :=
  let at_ a l m := write_bytes m (MMIO_BASE + a) l in
  at_ 0x7000 (SIG_RSDP ++ replicate 16 0 ++ to_le_bytes 8 0x7100)
  (at_ 0x7100 (SIG_XSDT ++ to_le_bytes 4 (36 + 24) ++ replicate 28 0 ++ to_le_bytes 8 0x7200 ++ to_le_bytes 8 0x7300 ++ to_le_bytes 8 0x7400)
  (at_ 0x7200 (SIG_APIC ++ to_le_bytes 4 (44 + 12) ++ replicate 28 0 ++ to_le_bytes 4 0xfee00000 ++ replicate 4 0 ++ [1; 12; 0; 0] ++ to_le_bytes 4 0xfec00000 ++ replicate 4 0)
  (at_ 0x7300 (SIG_HPET ++ to_le_bytes 4 56 ++ replicate 28 0 ++ to_le_bytes 4 0x100 ++ replicate 4 0 ++ to_le_bytes 8 0xfed00000 ++ replicate 4 0)
  (at_ 0x7400 (SIG_MCFG ++ to_le_bytes 4 44 ++ replicate 36 0)
  (λ _, 0))))).

(** Devices that answer without a state: a ready serial port, an empty PCI bus, a timer. *)
Definition constant_hardware : Hardware () := {|
  hw_in width port w := (if decide (port = 0x3fd) then 0x20 else 2 ^ (8 * width) - 1, w);
  hw_out _ _ _ w := w;
  hw_read width a w :=
    (if decide (a = MMIO_BASE + 0xfed00000) then 0x100 else
     if decide (a = MMIO_BASE + 0xfed00004) then 10000000 else
     if decide (a = MMIO_BASE + 0xfed00100) then 0x10 else
     if decide (a = MMIO_BASE + 0xfed00104) then 0x4 else 0, w);
  hw_write _ _ _ w := w;
|}.

Definition mini_image : image :=
  mkImage (mkIsrs 1 2 3 4 5 6) 0x9000 0x2000 (KERNEL_BASE + 0x200000) (KERNEL_BASE + 0x201000) (KERNEL_BASE + 0x202000)
    0xffff800000100000 0x11 0x22 0x33 0x44.
Definition mini_entry : entry_state :=
  mkEntry0 mini_boot mini_acpi mini_tables ∅ (mkTask (mkTaskInfo 0 (mkRegisters 0 0) 0 0 0 0 false) (replicate stack_len 0))
   (mkKernelAllocator 0x4000 0x4000) 0x3f00 0x200000 (replicate 8 0) [] [] 0.


Definition mini_type (t : Z) : MemoryType := if decide (t = 7) then CONVENTIONAL else OtherMemory t.
Definition mini_start : outcome (started (list TaskInfo) * ()) :=
  start (Hardware0 := constant_hardware) mini_type 0 (λ _, 0) 10 mini_image mini_entry (KERNEL_BASE + BOOT_DATA) tt.

Definition is_ret {A} (o : outcome A) : bool := match o with Ret _ => true | Panic _ => false end.

Lemma mini_start_returns : is_ret mini_start = true.
Proof. vm_compute. reflexivity. Qed.

