(* ===== verification/Main.v ===== *)
(** * What the tasks do (src/main.rs, src/net/mod.rs, src/kernel/sched/task.rs)

    The bodies of the tasks [start] creates, one round of each loop: [net::run] over the
    network interfaces, [some_task], and the main loop of the idle task; [task_entry], through
    which they are entered; and the panic handler, where a task ends that panics.  The whole
    of [recv_frame] and [handle_frame] is here, composed of the parts that [Net] interleaves. *)

From S2P Require Import Prelude Semaphore Ethernet Arp Io Clock Malloc Table Mapping Task Sched Net Pci Interrupt Memory Acpi Hpet Rtl8139 Serial Handlers Text.

(** ** [recv_frame] *)

(** [Refused]: all buffers are in use, and the frame is dropped.  [Stuck]: the semaphore of the
    filled buffers is at its maximum, and [signal] waits. *)
Inductive received := Refused | Stuck (i : Interface) | Received (i : Interface).

Definition recv_frame (i : Interface) (bytes : list Z) : outcome received :=
  match recv_reserve i with
  | None => Ret Refused
  | Some i =>
      let '(i, next) := recv_next i in
      i ← recv_copy i next bytes;
      match recv_signal i with
      | None => Ret (Stuck i)
      | Some i => Ret (Received i)
      end
  end.

(** ** [handle_frame] and [run] *)

Section network.
Context {W : Type} `{!Hardware W}.
Context (phys_addr : Z → option Z) (tx_buf_addr : nat → Z) (com1 : Com) (fuel : nat).
Abbreviation cards := (list (BDF * RTL8139)).

(** [BTreeMap::get], and the card put back after a call on it. *)
Definition nic_get (nics : cards) (b : BDF) : option RTL8139 := snd <$> List.find (λ x, bool_decide (x.1 = b)) nics.
Definition nic_set (nics : cards) (b : BDF) (n : RTL8139) : cards := btree_insert b n nics.

(** The text of [writeln!]; the lock of the serial port is held while the arguments are
    evaluated. *)
Definition frame_line (f : Frame) : outcome (list Z) :=
  src ← frame_src f;
  dest ← frame_dest f;
  e ← frame_ethertype f;
  t ← ethertype_fmt e;
  Ret (line (text "src: " ++ mac_fmt src ++ text ", dest: " ++ mac_fmt dest ++ text ", EtherType: " ++ t)).

Definition handle_payload (device : BDF) (nics : cards) (frame : Frame) : io W cards :=
  l ← pure (frame_line frame);
  _ ← com_write_str fuel com1 l;
  e ← pure (frame_ethertype frame);
  match e with
  | ARP =>
      payload ← pure (frame_payload frame);
      tpa ← pure (arp_target_protocol_address (arp_from_bytes payload));
      if decide (tpa = ME) then
        interface ← pure (expect (nic_get nics device) (ExpectFailed "unwrap"));
        payload ← pure (frame_payload frame);
        mac ← id interface;
        dest ← pure (frame_dest frame);
        interface ← transmit phys_addr tx_buf_addr interface dest [None; None] ARP (reply_writer payload mac);
        mret (nic_set nics device interface)
      else mret nics
  | Other _ => mret nics
  end.

(** Waiting for a frame, waiting to hand the buffer back, or done. *)
Inductive handled :=
| AwaitsFrame
| AwaitsRoom (i : Interface) (nics : cards)
| Handled (i : Interface) (nics : cards) (result : Result () Error).

(** What is done with the bytes of a buffer. *)
Definition dispatch (device : BDF) (nics : cards) (buf : list Z) : io W (cards * Result () Error) :=
  match try_from_bytes buf with
  | Ok frame => nics ← handle_payload device nics frame; mret (nics, Ok tt)
  | Err s => mret (nics, Err (mkError InvalidFrame s))
  end.

Definition handle_frame (device : BDF) (i : Interface) (nics : cards) : io W handled :=
  match handle_wait i with
  | None => mret AwaitsFrame
  | Some i =>
      let '(i, next) := handle_next i in
      buf ← pure (handle_read i next);
      '(nics, result) ← dispatch device nics buf;
      match handle_signal i with
      | None => mret (AwaitsRoom i nics)
      | Some i => mret (Handled i nics result)
      end
  end.

(** [Display for Error] *)
Definition error_fmt (e : Error) : list Z :=
  match error_type e with
  | InvalidFrame => text "InvalidFrame"
  | UnknownError => text "Unknown"
  end ++ text ": " ++ text (message e).

(** One round of the loop of [run]: it stops at the first interface that has no frame, and
    with it the task. *)
Fixpoint run_round (nets : list (BDF * Interface)) (nics : cards) : io W (option (list (BDF * Interface) * cards)) :=
  match nets with
  | [] => mret (Some ([], nics))
  | (device, i) :: nets =>
      h ← handle_frame device i nics;
      match h with
      | AwaitsFrame | AwaitsRoom _ _ => mret None
      | Handled i nics result =>
          _ ← match result with
              | Ok _ => mret true
              | Err e => com_write_str fuel com1 (line (text "Error receiving frame: " ++ error_fmt e))
              end;
          o ← run_round nets nics;
          mret ('(nets, nics) ← o; Some ((device, i) :: nets, nics))
      end
  end.
End network.

(** ** The other tasks *)

(** [task_entry]: the scheduler lock, held across the switch, is released before the task's
    function runs; the result is the interrupt flag it starts with. *)
Definition task_entry {H} (self : TaskList H) (rsp : Z) : outcome bool := sched_unlock self rsp.

Section tasks.
Context {H : Type} `{!Heap H} {W : Type} `{!Hardware W} (com1 : Com) (fuel : nat).
Implicit Types self : TaskList H.

(** One round of [some_task], up to the switch in its system call. *)
Definition some_task_round (lapic : Z) self (clock : option (Clock Z)) (rsp tick now : Z) :
    io W (TaskList H * option (Clock Z) * Z * Z) :=
  current ← pure (current_task self rsp);
  _ ← com_write_str fuel com1 (line (text "Yo! from some task: " ++ display current));
  syscall_handler lapic self clock rsp 0x23 1000000000 tick now false.

(** One round of the main loop: a message, a second of waiting for the clock, whose readings
    are [samples], and [sched_yield].  The two stores in between are to user pages: their
    faults are those of the page fault handler. *)
Definition main_loop_round (lapic : Z) self (clock : option (Clock Z)) (samples : option (list Z)) (rsp now : Z) :
    io W (option (TaskList H * option (Clock Z) * Z * Z)) :=
  _ ← pure (current_task self rsp);
  _ ← com_write_str fuel com1 (line (text "Yo! from kernel main loop"));
  r ← pure (busy_sleep samples 1000);
  match r with
  | None => mret None
  | Some _ =>
      r ← syscall_handler lapic self clock rsp 0x18 0 0 now false;
      mret (Some r)
  end.

(** ** Panics *)

(** Taking the lock of the serial port on the only processor, with interrupts disabled. *)
Fixpoint spin_lock (fuel : nat) (locked : bool) : outcome () :=
  match fuel with
  | O => Panic OutOfFuel
  | S fuel => if locked then spin_lock fuel locked else Ret tt
  end.

(** The panic handler up to its endless loop; [locked] is the state of the lock of the serial
    port where the panic happened. *)
Definition panic_handler (locked : bool) (location : option (list Z * Z * Z)) (msg : list Z) : io W Com :=
  _ ← pure (spin_lock fuel locked);
  com1 ← serial_init;
  _ ← match location with
      | Some (file, ln, col) =>
          _ ← com_write_str fuel com1
                (line (text "file: " ++ file ++ text ", line: " ++ display ln ++ text ", col: " ++ display col));
          com_write_str fuel com1 msg
      | None => com_write_str fuel com1 (line (text "Failed to get panic message"))
      end;
  mret com1.
End tasks.

(** ** The interface is a queue *)

(** The frames an interface holds while no call is under way, the oldest first. *)
Definition queue_of (i : Interface) (q : list (list Z)) : Prop :=
  ∃ acc del, ring_inv (mkRing i PIdle CIdle acc del) ∧ q = drop (length del) acc.

Lemma queue_length i q acc del : ring_inv (mkRing i PIdle CIdle acc del) → q = drop (length del) acc →
  Z.of_nat (length q) = n_accepted (mkRing i PIdle CIdle acc del) - n_read (mkRing i PIdle CIdle acc del) ∧
  (length q ≤ 4)%nat ∧ count (recv_empty i) = 4 - Z.of_nat (length q) ∧ count (recv_full i) = Z.of_nat (length q).
Proof.
  intros [_ _ _ [He _] [Hf _] Hr Ho _ _ _ _ Hd] ->. counters. rewrite length_drop. lia.
Qed.

Lemma queue_new uninit i : length uninit = RX_BUF_LEN → interface_new uninit = Ret i → queue_of i [].
Proof.
  intros Hu E. exists [], []. split; [|done]. apply ring_inv_initial. split_and!; [|done..]. by exists uninit.
Qed.

Lemma recv_copy_total i n f : bufs_ok (bufs i) → 0 ≤ n < 4 → (length f ≤ RX_BUF_LEN)%nat → ∃ i', recv_copy i n f = Ret i'.
Proof.
  intros [Hlen Hall] Hn Hf. unfold recv_copy.
  destruct (lookup_lt_is_Some_2 (bufs i) (Z.to_nat n)) as [b Hb]; [lia|].
  pose proof (Forall_lookup_1 _ _ _ _ Hall Hb) as Hbl. cbn in Hbl.
  rewrite (bind_Ret _ _ b) by (by apply index_Ret_inv). unfold copy_into, index_set.
  rewrite !decide_True by lia. ret. rewrite decide_True by lia. ret. by eexists.
Qed.

(** Accepting a frame. *)
Lemma recv_frame_queue i q f : queue_of i q → (length f ≤ RX_BUF_LEN)%nat →
  if decide (length q < 4)%nat then ∃ i', recv_frame i f = Ret (Received i') ∧ queue_of i' (q ++ [f])
  else recv_frame i f = Ret Refused.
Proof.
  intros (acc & del & Hi & Hq) Hf. destruct (queue_length _ _ _ _ Hi Hq) as (Hl & _ & He & _). unfold recv_frame.
  case_decide as H4.
  - destruct (recv_reserve i) as [i1|] eqn:E1.
    2: { unfold recv_reserve, try_decrement in E1. rewrite decide_True in E1 by lia. done. }
    pose proof (ring_inv_reserve i CIdle acc del f i1 Hi E1) as H1.
    destruct (recv_next i1) as [i2 n] eqn:E2. pose proof (ring_inv_next i1 CIdle acc del f i2 n H1 E2) as H2.
    destruct (ri_prod _ H2 f n (or_introl eq_refl)) as [Hn _].
    destruct (recv_copy_total i2 n f (ri_bufs _ H2)) as [i3 E3]; [rewrite Hn; apply Z.mod_pos_bound; lia|done|].
    rewrite E3. ret. pose proof (ring_inv_copy i2 CIdle (acc ++ [f]) del f n i3 H2 E3) as H3.
    destruct (recv_signal i3) as [i4|] eqn:E4.
    + exists i4. split; [done|]. exists (acc ++ [f]), del. split; [by eapply ring_inv_signal|].
      subst q. rewrite drop_app_le; [done|]. counters. pose proof (ri_delivered _ Hi) as Hd. counters. rewrite Hd, length_take. lia.
    + exfalso. unfold recv_signal, try_increment in E4. destruct (ri_full _ H3) as [Hf3 Hm3]. counters.
      rewrite decide_True in E4; [done|]. rewrite Hf3, Hm3. lia.
  - unfold recv_reserve, try_decrement. rewrite decide_False by lia. done.
Qed.

Section queue.
Context {W : Type} `{!Hardware W}.
Context (phys_addr : Z → option Z) (tx_buf_addr : nat → Z) (com1 : Com) (fuel : nat).
Abbreviation handle := (handle_frame phys_addr tx_buf_addr com1 fuel).

(** Taking a frame out. *)
Lemma handle_frame_queue device i nics f q : queue_of i (f :: q) → ∃ i', queue_of i' q ∧
  ∀ w : W, handle device i nics w =
    ('(nics, result) ← dispatch phys_addr tx_buf_addr com1 fuel device nics f; mret (Handled i' nics result)) w.
Proof.
  intros (acc & del & Hi & Hq). destruct (queue_length _ _ _ _ Hi Hq) as (Hl & _ & _ & Hf). cbn [length] in *.
  unfold handle_frame. destruct (handle_wait i) as [i1|] eqn:E1.
  2: { unfold handle_wait, try_decrement in E1. rewrite decide_True in E1 by lia. done. }
  pose proof (ring_inv_wait i PIdle acc del i1 Hi E1) as H1.
  destruct (handle_next i1) as [i2 n] eqn:E2. pose proof (ring_inv_handle_next i1 PIdle acc del i2 n H1 E2) as H2.
  assert (acc !! length del = Some f) as Hacc.
  { pose proof (lookup_drop acc (length del) 0) as Hd. rewrite <- Hq, Nat.add_0_r in Hd. by rewrite <- Hd. }
  assert (handle_read i2 n = Ret f) as E3.
  { pose proof (ri_cons _ H2 n (or_introl eq_refl)) as Hn. pose proof (ri_order _ Hi) as Ho.
    destruct (ri_held _ H2 (Z.of_nat (length del)) f) as (b & Hb & Hh).
    - counters. apply lookup_lt_Some in Hacc. lia.
    - counters. by rewrite Nat2Z.id.
    - counters. replace (Z.of_nat (length del) + 1 - 1) with (Z.of_nat (length del)) in Hn by lia. rewrite <- Hn in Hb.
      unfold handle_read. by rewrite (bind_Ret _ _ b) by (by apply index_Ret_inv). }
  pose proof (ring_inv_read i2 PIdle acc del n f H2 E3) as H3.
  destruct (handle_signal i2) as [i4|] eqn:E4.
  - exists i4. split.
    + exists acc, (del ++ [f]). split; [by eapply ring_inv_handle_signal|].
      rewrite length_app. cbn [length]. rewrite <- drop_drop, <- Hq. done.
    + intros w. by rewrite (io_bind_Ret _ _ w f w) by (unfold pure; by rewrite E3).
  - exfalso. unfold handle_signal, try_increment in E4. destruct (ri_empty _ H3) as [He Hm]. pose proof (ri_room _ H3).
    counters. rewrite decide_True in E4; [done|]. rewrite He, Hm. lia.
Qed.

Lemma handle_frame_empty device i nics (w : W) : queue_of i [] → handle device i nics w = Ret (AwaitsFrame, w).
Proof.
  intros (acc & del & Hi & Hq). destruct (queue_length _ _ _ _ Hi Hq) as (_ & _ & _ & Hf).
  unfold handle_frame, handle_wait, try_decrement. cbn [length] in Hf. by rewrite decide_False by lia.
Qed.

End queue.

Definition null_hardware : Hardware () :=
  {| hw_in _ _ w := (0, w); hw_out _ _ _ w := w; hw_read _ _ w := (0, w); hw_write _ _ _ w := w |}.


(** ** Panics *)

(** A panic while the serial port is locked is never reported: the handler waits for the lock
    that its own task holds. *)
Lemma panic_under_lock_hangs {W} `{!Hardware W} fuel location msg (w : W) :
  panic_handler fuel true location msg w = Panic OutOfFuel.
Proof.
  unfold panic_handler. assert (spin_lock fuel true = Panic OutOfFuel) as E by (induction fuel as [|n IH]; [done|exact IH]).
  unfold mbind, io_bind, pure. by rewrite E.
Qed.

Section report.
#[local] Instance com1_hardware : Hardware uart := uart_hardware COM1_PORT.

(** Setting up the port sends something and does not make the device busier. *)
Definition set_up (u u' : uart) : Prop :=
  (∃ l, u_sent u' = u_sent u ++ l) ∧ (length (u_ready u') ≤ length (u_ready u))%nat ∧ u_received u' = u_received u.

Lemma set_up_refl u : set_up u u.
Proof. split_and!; [exists []; by rewrite app_nil_r|done|done]. Qed.

Lemma set_up_trans u1 u2 u3 : set_up u1 u2 → set_up u2 u3 → set_up u1 u3.
Proof.
  intros ([l1 E1] & ? & ?) ([l2 E2] & ? & ?). split_and!; [|lia|congruence]. exists (l1 ++ l2). by rewrite E2, E1, app_assoc.
Qed.

Lemma outb_set_up offset v u : 0 ≤ offset < 8 → ∃ u', com_outb (mkCom (Some COM1_PORT)) offset v u = Ret (tt, u') ∧ set_up u u'.
Proof.
  intros Ho. unfold com_outb. cbn [com_port].
  rewrite (io_bind_Ret _ _ u (COM1_PORT + offset) u) by (unfold pure; rewrite checked_add_ok; [done|unfold COM1_PORT; lia]).
  unfold outb. cbn [hw_out com1_hardware uart_hardware]. case_decide; eexists; (split; [reflexivity|]); [|apply set_up_refl].
  split_and!; [by exists [v]|done|done].
Qed.

(** A sequence of writes to the port's registers. *)
Lemma outb_then {A} offset v (f : () → io uart A) u : 0 ≤ offset < 8 →
  ∃ u', set_up u u' ∧ (com_outb (mkCom (Some COM1_PORT)) offset v ≫= f) u = f tt u'.
Proof.
  intros Ho. destruct (outb_set_up offset v u Ho) as (u' & E & Hs). exists u'. split; [done|]. by apply io_bind_Ret.
Qed.

Ltac next_outb :=
  match goal with
  | |- context [(com_outb _ ?o ?v ≫= ?f) ?u] =>
      let u' := fresh "u" in
      destruct (outb_then o v f u ltac:(lia)) as (u' & ?Hset & ->)
  end.

Lemma com_new_set_up u : ∃ u', com_new COM1_PORT 2 u = Ret (mkCom (Some COM1_PORT), u') ∧ set_up u u'.
Proof.
  unfold com_new. do 8 next_outb. eexists. split; [reflexivity|]. eauto 10 using set_up_trans.
Qed.

Lemma serial_init_set_up u : ∃ u', serial_init u = Ret (mkCom (Some COM1_PORT), u') ∧ set_up u u'.
Proof.
  unfold serial_init. destruct (com_new_set_up u) as (u1 & E1 & H1). rewrite (io_bind_Ret _ _ _ _ _ E1).
  destruct (com_write_uart COM1_PORT ltac:(done) [0x1b; 91; 50; 48; 104] u1) as (n & r & E2 & _ & Hlen).
  rewrite (io_bind_Ret _ _ _ _ _ E2). eexists. split; [reflexivity|]. eapply set_up_trans; [exact H1|].
  split_and!; [by eexists|cbn; lia|done].
Qed.

Lemma com_write_str_uart fuel s u : (S (length (u_ready u)) < fuel)%nat →
  ∃ r, com_write_str fuel (mkCom (Some COM1_PORT)) s u = Ret (true, mkUart r (u_received u) (u_sent u ++ line_all s)) ∧
    (length r ≤ length (u_ready u))%nat.
Proof.
  intros Hf. destruct (write_all_sends COM1_PORT ltac:(done) fuel s u Hf) as (r & E & Hr). exists r. split; [|done].
  unfold com_write_str. cbn [com_port]. by rewrite (io_bind_Ret _ _ _ _ _ E).
Qed.

(** C37. A panic outside the serial port's lock is reported: after what sets up the port, the
    line gets the file, line and column in decimal and then the message, whole and in order,
    however long the device keeps the handler waiting. *)
Theorem panic_reports fuel file ln col msg u :
  (S (length (u_ready u)) < fuel)%nat →
  ∃ u' l, panic_handler fuel false (Some (file, ln, col)) msg u = Ret (mkCom (Some COM1_PORT), u') ∧
    u_sent u' = u_sent u ++ l ++ line_all (text "file: " ++ file ++ text ", line: " ++ display ln ++
                                             text ", col: " ++ display col ++ [10]) ++ line_all msg.
Proof.
  intros Hf. unfold panic_handler. destruct fuel as [|fuel]; [lia|].
  rewrite (io_bind_Ret _ _ u tt u) by done. destruct (serial_init_set_up u) as (u1 & E1 & [l Hl] & Hr1 & _).
  rewrite (io_bind_Ret _ _ _ _ _ E1).
  set (s := line _).
  destruct (com_write_str_uart (S fuel) s u1) as (r2 & E2 & Hr2); [lia|].
  destruct (com_write_str_uart (S fuel) msg (mkUart r2 (u_received u1) (u_sent u1 ++ line_all s))) as (r3 & E3 & _); [cbn; lia|].
  rewrite (io_bind_Ret _ _ u1 true (mkUart r3 (u_received u1) ((u_sent u1 ++ line_all s) ++ line_all msg))).
  2: { rewrite (io_bind_Ret _ _ _ _ _ E2). exact E3. }
  eexists _, l. split; [reflexivity|]. cbn [u_sent]. rewrite Hl, <- !app_assoc. unfold s, line. by rewrite <- !app_assoc.
Qed.
End report.

Lemma panic_reports_witness : ∃ u' l,
  panic_handler (Hardware0 := uart_hardware COM1_PORT) 4 false (Some (text "src/main.rs", 72, 13)) (text "oops")
    (mkUart [false; false] [] []) = Ret (mkCom (Some COM1_PORT), u') ∧
  u_sent u' = l ++ line_all (line (text "file: src/main.rs, line: 72, col: 13")) ++ text "oops".
Proof.
  destruct (panic_reports 4 (text "src/main.rs") 72 13 (text "oops") (mkUart [false; false] [] [])) as (u' & l & E & Hs).
  - cbn. lia.
  - exists u', l. split; [exact E|exact Hs].
Defined.

(** A station can silence the kernel: the arguments of the log line are evaluated with the
    serial port locked, and for a frame that is nothing but VLAN tags that panics. *)
Lemma tags_frame_silences {W} `{!Hardware W} dest src tags :
  length dest = 6%nat → length src = 6%nat → Forall (λ t, length t = 2%nat) tags → (13 ≤ length tags ≤ 380)%nat →
  ∃ f, try_from_bytes (dest ++ src ++ tags_bytes tags) = Ok f ∧ frame_line f = Panic IndexOutOfBounds ∧
    ∀ fuel location msg (w : W), panic_handler fuel true location msg w = Panic OutOfFuel.
Proof.
  intros Hd Hs Ht Hn. destruct (only_tags_frame_panics dest src tags Hd Hs Ht Hn) as (f & Ef & Ep).
  exists f. split_and!; [done| |intros; apply panic_under_lock_hangs].
  unfold try_from_bytes in Ef. case_decide; [done|]. injection Ef as <-. unfold frame_line.
  assert (frame_src (mkFrame (dest ++ src ++ tags_bytes tags)) = Ret src) as ->
    by (unfold frame_src; cbn [frame_bytes]; by apply slice_app; rewrite ?Hd, ?Hs).
  ret. assert (frame_dest (mkFrame (dest ++ src ++ tags_bytes tags)) = Ret dest) as ->
    by (unfold frame_dest; cbn [frame_bytes]; apply (slice_app []); rewrite ?Hd, ?Hs; done).
  ret. by rewrite Ep.
Qed.

(** ** [some_task] *)

(** A round ends with the task asleep for a second, and the least served of the others
    running. *)
Lemma some_task_sleeps {H : Type} `{!Heap H, !HeapLaws H} {W : Type} `{!Hardware W} com1 fuel lapic (self : TaskList H)
    clock rsp tick now c (w : W) self' clock' from_ptr to_ptr w' :
  task_list_ok self → runs self rsp c →
  some_task_round com1 fuel lapic self (Some clock) rsp tick now w = Ret ((self', clock', from_ptr, to_ptr), w') →
  task_list_ok self' ∧ (fst <$> view self' c) = Some false ∧
  clock' = Some (mkClock tick (<[tick + 1000000000 := c]> (callbacks clock))) ∧
  (∃ to, current self' = Some to ∧ picks (view self') to).
Proof.
  intros Hok Hr E. unfold some_task_round in E. apply io_bind_inv in E as (id & w1 & _ & E).
  apply io_bind_inv in E as (b & w2 & _ & E).
  destruct (syscall_effect _ _ _ _ _ _ _ _ _ _ _ _ _ _ _ _ Hok Hr E) as (_ & Hok' & Hto & [(Hn & _)|(_ & Hc & Hv)]); [done|].
  by split_and!.
Qed.
