(* ===== verification/Wire.v ===== *)
(** * From the wire to the wire

    The network card and the serial port in one machine, and the way of a frame through the
    kernel on it: the card's ring, the bottom half of its driver (src/drivers/net/rtl8139.rs),
    the receive ring of the interface and the network task (src/net/mod.rs), and back to the
    card.  What the parts do is proved in Rtl8139, Serial, Net and Main, each on the device it
    needs; here they run on the machine that has both. *)

From S2P Require Import Prelude Semaphore Ethernet Arp Text Io Net Pci Rtl8139 Serial Main.

(** ** The machine *)

Record machine := mkMachine { m_uart : uart; m_nic : nic }.

(** The eight ports of COM1 are the serial port's; all others belong to the PCI bus and the
    card, whose ports start at [base]. *)
Definition machine_hardware (base : Z) : Hardware machine := {|
  hw_in k port w :=
    if decide (COM1_PORT ≤ port < COM1_PORT + 8)
    then let '(v, u) := @hw_in _ (uart_hardware COM1_PORT) k port (m_uart w) in (v, mkMachine u (m_nic w))
    else let '(v, c) := @hw_in _ (nic_hardware base) k port (m_nic w) in (v, mkMachine (m_uart w) c);
  hw_out k port data w :=
    if decide (COM1_PORT ≤ port < COM1_PORT + 8)
    then mkMachine (@hw_out _ (uart_hardware COM1_PORT) k port data (m_uart w)) (m_nic w)
    else mkMachine (m_uart w) (@hw_out _ (nic_hardware base) k port data (m_nic w));
  hw_read _ _ w := (0, w);
  hw_write _ _ _ w := w;
|}.

(** Running code of one device on the machine. *)
Definition on_uart {A} (m : io uart A) : io machine A := λ w,
  match m (m_uart w) with
  | Ret (a, u) => Ret (a, mkMachine u (m_nic w))
  | Panic p => Panic p
  end.
Definition on_nic {A} (m : io nic A) : io machine A := λ w,
  match m (m_nic w) with
  | Ret (a, c) => Ret (a, mkMachine (m_uart w) c)
  | Panic p => Panic p
  end.

Lemma on_uart_bind {A B} (m : io uart A) (f : A → io uart B) w :
  on_uart (m ≫= f) w = (on_uart m ≫= λ a, on_uart (f a)) w.
Proof. unfold on_uart, mbind, io_bind. by destruct (m (m_uart w)) as [[a u]|]. Qed.

Lemma on_nic_bind {A B} (m : io nic A) (f : A → io nic B) w :
  on_nic (m ≫= f) w = (on_nic m ≫= λ a, on_nic (f a)) w.
Proof. unfold on_nic, mbind, io_bind. by destruct (m (m_nic w)) as [[a u]|]. Qed.

Lemma io_bind_cong {W A B} (m m' : io W A) (f f' : A → io W B) w :
  m w = m' w → (∀ a w', m' w = Ret (a, w') → f a w' = f' a w') → (m ≫= f) w = (m' ≫= f') w.
Proof. intros E Hf. unfold mbind, io_bind. rewrite E. destruct (m' w) as [[a w']|] eqn:E'; [by apply Hf|done]. Qed.

Section machine.
Context (base : Z) (Hbase : 0x1000 ≤ base) (Hend : base + 0x100 ≤ 2 ^ 16) (Halign : (4 | base)).
#[local] Instance the_machine : Hardware machine := machine_hardware base.
#[local] Instance the_uart : Hardware uart := uart_hardware COM1_PORT.
#[local] Instance the_nic : Hardware nic := nic_hardware base.

#[local] Abbreviation com1 := (mkCom (Some COM1_PORT)).

(** *** The serial port *)

Lemma outb_on_uart o v w : 0 ≤ o < 8 → com_outb com1 o v w = on_uart (com_outb com1 o v) w.
Proof.
  intros Ho. unfold com_outb. cbn [com_port]. unfold on_uart, mbind, io_bind, pure. rewrite checked_add_ok by (unfold COM1_PORT; lia).
  unfold outb. cbn [hw_out the_machine machine_hardware]. by rewrite decide_True by (unfold COM1_PORT; lia).
Qed.

Lemma inb_on_uart o w : 0 ≤ o < 8 → com_inb com1 o w = on_uart (com_inb com1 o) w.
Proof.
  intros Ho. unfold com_inb. cbn [com_port]. unfold on_uart, mbind, io_bind, pure. rewrite checked_add_ok by (unfold COM1_PORT; lia).
  unfold inb. cbn [hw_in the_machine machine_hardware]. rewrite decide_True by (unfold COM1_PORT; lia).
  by destruct (hw_in 1 _ (m_uart w)).
Qed.

Lemma write_byte_on_uart b w : write_byte com1 b w = on_uart (write_byte com1 b) w.
Proof.
  unfold write_byte. destruct (decide (b = 10)); [|by apply outb_on_uart].
  rewrite on_uart_bind. apply io_bind_cong; [by apply outb_on_uart|]. intros ? ? _. by apply outb_on_uart.
Qed.

Lemma com_write_on_uart buf : ∀ w, com_write com1 buf w = on_uart (com_write com1 buf) w.
Proof.
  induction buf as [|b buf IH]; intros w; [by destruct w|]. cbn [com_write]. rewrite on_uart_bind.
  apply io_bind_cong; [by apply inb_on_uart|]. intros s w1 _. destruct (decide _) as [_|_]; [by destruct w1|].
  rewrite on_uart_bind. apply io_bind_cong; [apply write_byte_on_uart|]. intros ? w2 _.
  rewrite on_uart_bind. apply io_bind_cong; [apply IH|]. by intros n [] _.
Qed.

Lemma write_all_on_uart fuel : ∀ buf w, write_all fuel com1 buf w = on_uart (write_all fuel com1 buf) w.
Proof.
  induction fuel as [|fuel IH]; intros buf w; [done|]. cbn [write_all]. destruct (decide _) as [_|_]; [|by destruct w].
  rewrite on_uart_bind. apply io_bind_cong; [apply com_write_on_uart|]. intros n w1 _.
  rewrite on_uart_bind. apply io_bind_cong; [unfold on_uart, pure; by destruct (split_at buf n), w1|]. intros [? t] w2 _. apply IH.
Qed.

(** What a message leaves of the machine: the text is out, the card is as it was. *)
Lemma write_str_machine fuel s w : (S (length (u_ready (m_uart w))) < fuel)%nat →
  ∃ r, com_write_str fuel com1 s w =
      Ret (true, mkMachine (mkUart r (u_received (m_uart w)) (u_sent (m_uart w) ++ line_all s)) (m_nic w)) ∧
    (length r ≤ length (u_ready (m_uart w)))%nat.
Proof.
  intros Hf. destruct (write_all_sends COM1_PORT ltac:(done) fuel s (m_uart w) Hf) as (r & E & Hr). exists r. split; [|done].
  unfold com_write_str. cbn [com_port]. unfold mbind, io_bind. rewrite write_all_on_uart. unfold on_uart, the_uart. by rewrite E.
Qed.

(** *** The card *)

Lemma in_on_nic k port w : ¬ (COM1_PORT ≤ port < COM1_PORT + 8) →
  Ret (hw_in k port w) = on_nic (λ c, Ret (hw_in k port c)) w.
Proof.
  intros Hp. unfold on_nic. cbn [hw_in the_machine machine_hardware]. rewrite decide_False by done.
  by destruct (hw_in k port (m_nic w)).
Qed.

Lemma out_on_nic k port v w : ¬ (COM1_PORT ≤ port < COM1_PORT + 8) →
  Ret (tt, hw_out k port v w) = on_nic (λ c, Ret (tt, hw_out k port v c)) w.
Proof. intros Hp. unfold on_nic. cbn [hw_out the_machine machine_hardware]. by rewrite decide_False. Qed.

Lemma pci_inl_on_nic d o w : pci_inl d o w = on_nic (pci_inl d o) w.
Proof.
  unfold pci_inl. rewrite on_nic_bind. apply io_bind_cong.
  - apply out_on_nic. unfold COM1_PORT, CONFIG_ADDRESS. lia.
  - intros ? ? _. apply in_on_nic. unfold COM1_PORT, CONFIG_DATA. lia.
Qed.

Lemma ioaddr_on_nic d off w : ioaddr d off w = on_nic (ioaddr d off) w.
Proof.
  unfold ioaddr, read_bar_register, read_header_type. rewrite on_nic_bind. apply io_bind_cong.
  - rewrite on_nic_bind. apply io_bind_cong.
    + rewrite on_nic_bind. apply io_bind_cong; [apply pci_inl_on_nic|]. by intros ? [] _.
    + intros h w1 _. destruct (decide _) as [_|_]; [apply pci_inl_on_nic|by destruct w1].
  - intros b [] _. unfold on_nic, pure. cbn [m_nic m_uart]. by destruct (checked_add _ _ _).
Qed.

Lemma reg_on_nic {A} (f : Z → io machine A) (g : Z → io nic A) d off w :
  ready base d (m_nic w) → 0 ≤ off < 0x100 → (∀ w', f (base + off) w' = on_nic (g (base + off)) w') →
  (ioaddr d off ≫= f) w = on_nic (ioaddr d off ≫= g) w.
Proof.
  intros Hr Ho Hf. rewrite on_nic_bind. apply io_bind_cong; [apply ioaddr_on_nic|]. intros a w' E.
  unfold on_nic, the_nic in E. rewrite (ioaddr_card base Hbase Hend Halign d off _ Hr Ho) in E. injection E as <- _. apply Hf.
Qed.

Lemma not_com1 off : 0 ≤ off < 0x100 → ¬ (COM1_PORT ≤ base + off < COM1_PORT + 8).
Proof. unfold COM1_PORT. lia. Qed.

Lemma rtl_inb_on_nic d off w : ready base d (m_nic w) → 0 ≤ off < 0x100 → rtl_inb d off w = on_nic (rtl_inb d off) w.
Proof. intros Hr Ho. apply reg_on_nic; [done..|]. intros w'. by apply in_on_nic, not_com1. Qed.
Lemma rtl_inw_on_nic d off w : ready base d (m_nic w) → 0 ≤ off < 0x100 → rtl_inw d off w = on_nic (rtl_inw d off) w.
Proof. intros Hr Ho. apply reg_on_nic; [done..|]. intros w'. by apply in_on_nic, not_com1. Qed.
Lemma rtl_outw_on_nic d off v w : ready base d (m_nic w) → 0 ≤ off < 0x100 → rtl_outw d off v w = on_nic (rtl_outw d off v) w.
Proof. intros Hr Ho. apply (reg_on_nic (λ a, outw a v) (λ a, outw a v)); [done..|]. intros w'. by apply out_on_nic, not_com1. Qed.
Lemma rtl_outl_on_nic d off v w : ready base d (m_nic w) → 0 ≤ off < 0x100 → rtl_outl d off v w = on_nic (rtl_outl d off v) w.
Proof. intros Hr Ho. apply (reg_on_nic (λ a, outl a v) (λ a, outl a v)); [done..|]. intros w'. by apply out_on_nic, not_com1. Qed.

Lemma pure_on_nic {A B} (m : outcome A) (f : A → io machine B) (g : A → io nic B) w :
  (∀ a, m = Ret a → f a w = on_nic (g a) w) → (pure m ≫= f) w = on_nic (pure m ≫= g) w.
Proof. intros Hf. unfold on_nic, mbind, io_bind, pure. destruct m; [by apply Hf|done]. Qed.

Lemma on_nic_Ret {A} (m : io nic A) w a w' : on_nic m w = Ret (a, w') → m (m_nic w) = Ret (a, m_nic w').
Proof. unfold on_nic. destruct (m (m_nic w)) as [[b c]|]; [|done]. by intros [= -> <-]. Qed.

Lemma id_on_nic self w : ready base (pci self) (m_nic w) → id self w = on_nic (id self) w.
Proof.
  unfold id. enough (∀ l mac w, Forall (λ o, 0 ≤ o < 0x100) l → ready base (pci self) (m_nic w) →
    io_fold (λ mac i, b ← rtl_inb (pci self) i; mret (mac ++ [b])) l mac w =
    on_nic (io_fold (λ mac i, b ← rtl_inb (pci self) i; mret (mac ++ [b])) l mac) w) as Hgo
    by (intros Hr; apply Hgo; [repeat constructor; lia|done]).
  induction l as [|o l IH]; intros mac w1 Hl Hr; [by destruct w1|].
  apply Forall_cons in Hl as [Ho Hl]. cbn [io_fold]. rewrite on_nic_bind. apply io_bind_cong.
  - rewrite on_nic_bind. apply io_bind_cong; [by apply rtl_inb_on_nic|]. by intros ? [] _.
  - intros mac' w' E. apply IH; [done|]. apply on_nic_Ret in E. apply io_bind_inv in E as (v & c & E & E').
    unfold the_nic in E. rewrite (rtl_inb_card base Hbase Hend Halign _ _ _ Hr Ho) in E. injection E as _ <-. injection E' as _ <-.
    by apply (ready_cfg base _ (m_nic w1)).
Qed.

(** Sending does on the machine what it does on the card alone. *)
Lemma transmit_on_nic phys_addr tx_buf_addr self dest tags e writer w :
  ready base (pci self) (m_nic w) → 0 ≤ next_tx_desc self < 4 →
  transmit phys_addr tx_buf_addr self dest tags e writer w = on_nic (transmit phys_addr tx_buf_addr self dest tags e writer) w.
Proof.
  intros Hr Hi. unfold transmit. rewrite on_nic_bind. apply io_bind_cong; [by apply id_on_nic|]. intros src w1 E.
  assert (ready base (pci self) (m_nic w1)) as Hr1.
  { apply on_nic_Ret in E. destruct (id_card base Hbase Hend Halign self _ Hr) as [sel E'].
    unfold the_nic in E. rewrite E' in E. injection E as _ <-. by apply (ready_cfg base _ (m_nic w)). }
  clear E. apply pure_on_nic. intros buf _. apply pure_on_nic. intros [frame buf'] _. apply pure_on_nic. intros bufs _.
  apply pure_on_nic. intros phys _. rewrite Z2Nat.id by lia. rewrite on_nic_bind.
  assert (0 ≤ REG_TSAD0 + next_tx_desc self * 4 < 0x100) as Ho1 by (unfold REG_TSAD0; lia).
  assert (0 ≤ REG_TSD0 + next_tx_desc self * 4 < 0x100) as Ho2 by (unfold REG_TSD0; lia).
  apply io_bind_cong; [by apply rtl_outl_on_nic|]. intros ? w2 E. rewrite on_nic_bind.
  assert (ready base (pci self) (m_nic w2)) as Hr2.
  { apply on_nic_Ret in E. unfold the_nic in E. rewrite (rtl_outl_card base Hbase Hend Halign _ _ _ _ Hr1 Ho1) in E.
    injection E as _ <-. by apply (ready_cfg base _ (m_nic w1)). }
  apply io_bind_cong; [by apply rtl_outl_on_nic|]. by intros ? [] _.
Qed.

(** *** Receiving *)

(** The message for a frame that is received. *)
Definition rx_log (fuel : nat) (l : list Z) : io machine () :=
  match l with
  | [rsr; frame_size; capr; cbr] =>
      _ ← com_write_str fuel com1 (line (text "RSR: " ++ lower_hex rsr ++ text ", SIZE: " ++ lower_hex frame_size ++
            text ", CAPR: " ++ lower_hex capr ++ text ", CBR: " ++ lower_hex cbr));
      mret tt
  | _ => mret tt
  end.

(** What the kernel may do to the serial port meanwhile: write. *)
Definition wrote (u u' : uart) : Prop :=
  (length (u_ready u') ≤ length (u_ready u))%nat ∧ u_received u' = u_received u ∧ ∃ s, u_sent u' = u_sent u ++ s.

Lemma wrote_refl u : wrote u u.
Proof. split_and!; [done..|]. exists []. by rewrite app_nil_r. Qed.
Lemma wrote_trans u1 u2 u3 : wrote u1 u2 → wrote u2 u3 → wrote u1 u3.
Proof.
  intros (H1 & H2 & s & H3) (H4 & H5 & s' & H6). split_and!; [lia|congruence|].
  exists (s ++ s'). by rewrite H6, H3, app_assoc.
Qed.

(** [m'] does to the card what [m] does. *)
Definition follows {A} (m : io nic A) (m' : io machine A) (w : machine) : Prop := ∀ a c,
  m (m_nic w) = Ret (a, c) → ∃ u, m' w = Ret (a, mkMachine u c) ∧ wrote (m_uart w) u.

Lemma follows_bind {A B} (m : io nic A) (m' : io machine A) (f : A → io nic B) (f' : A → io machine B) w :
  follows m m' w → (∀ a u c, m (m_nic w) = Ret (a, c) → wrote (m_uart w) u → follows (f a) (f' a) (mkMachine u c)) →
  follows (m ≫= f) (m' ≫= f') w.
Proof.
  intros Hm Hf b c2 E. apply io_bind_inv in E as (a & c & E1 & E2). destruct (Hm a c E1) as (u & E & Hu).
  destruct (Hf a u c E1 Hu b c2 E2) as (u' & E' & Hu'). exists u'. rewrite (io_bind_Ret _ _ _ _ _ E). split; [done|].
  by eapply wrote_trans.
Qed.

Lemma follows_on_nic {A} (m : io nic A) (m' : io machine A) w : m' w = on_nic m w → follows m m' w.
Proof. intros E a c Em. exists (m_uart w). rewrite E. unfold on_nic. rewrite Em. split; [done|apply wrote_refl]. Qed.

Lemma follows_ret {A} (a : A) w : follows (mret a) (mret a) w.
Proof. apply follows_on_nic. by destruct w. Qed.
Lemma follows_pure {A B} (m : outcome A) (f : A → io nic B) (f' : A → io machine B) w :
  (∀ a, m = Ret a → follows (f a) (f' a) w) → follows (pure m ≫= f) (pure m ≫= f') w.
Proof. intros Hf b c. unfold mbind, io_bind, pure. destruct m as [a|]; [|done]. by apply Hf. Qed.

Section bottom_half.
Context {N : Type} (recv : N → list Z → outcome N) (fuel0 : nat) (d : PCIDevice).
#[local] Abbreviation loop_nic := (receive_loop (λ c, c_ring (n_card c)) (λ _, mret tt) recv).
#[local] Abbreviation loop := (receive_loop (λ w, c_ring (n_card (m_nic w))) (rx_log fuel0) recv).

Lemma follows_log l w : (S (length (u_ready (m_uart w))) < fuel0)%nat → follows (mret tt) (rx_log fuel0 l) w.
Proof.
  intros Hf. unfold rx_log. destruct l as [|a [|b [|c [|e [|]]]]]; try apply follows_ret.
  intros [] n [= <-]. match goal with |- context [com_write_str _ _ ?s] => destruct (write_str_machine fuel0 s w Hf) as (r & E & Hr) end.
  rewrite (io_bind_Ret _ _ _ _ _ E). eexists. split; [reflexivity|]. split_and!; [done..|by eexists].
Qed.

(** The loop of the bottom half, with its messages on the serial port. *)
Lemma receive_loop_follows fuel : ∀ cbr capr net w,
  ready base d (m_nic w) → (S (length (u_ready (m_uart w))) < fuel0)%nat →
  follows (loop_nic fuel d cbr capr net) (loop fuel d cbr capr net) w.
Proof.
  induction fuel as [|fuel IH]; intros cbr capr net w Hr Hf; [done|]. cbn [receive_loop].
  assert (0 ≤ REG_COMMAND < 0x100 ∧ 0 ≤ REG_CAPR < 0x100) as [Ho Ho'] by (unfold REG_COMMAND, REG_CAPR; lia).
  apply follows_bind; [by apply follows_on_nic, rtl_inb_on_nic|]. intros cr u c E (Hu & _).
  unfold the_nic in E. rewrite (rtl_inb_card base Hbase Hend Halign _ _ _ Hr Ho) in E. injection E as _ <-.
  assert (ready base d (set_select (m_nic w) (bar_select d))) as Hr1 by (by apply (ready_cfg base _ (m_nic w))).
  destruct (decide _) as [_|_]; [apply follows_ret|]. destruct (decide _) as [_|_]; [apply follows_ret|].
  generalize dependent (set_select (m_nic w) (bar_select d)). intros c Hr1.
  apply follows_bind; [by apply follows_on_nic|]. intros buf u1 c1 [= <- <-] (Hu1 & _). cbn [m_uart] in Hu1.
  apply follows_pure. intros rx _. apply follows_pure. intros [rsr rest] _. apply follows_pure. intros [size rest'] _.
  apply follows_pure. intros frame _. apply follows_bind; [apply follows_log; cbn; lia|].
  intros ? u2 c2 [= _ <-] (Hu2 & _). cbn [m_uart m_nic] in *. apply follows_pure. intros net' _.
  apply follows_bind; [by apply follows_on_nic, rtl_outw_on_nic|]. intros ? u3 c3 E (Hu3 & _). cbn [m_uart m_nic] in *.
  unfold the_nic in E. rewrite (rtl_outw_card base Hbase Hend Halign _ _ _ _ Hr1 Ho') in E. injection E as _ <-.
  apply IH; cbn [m_uart m_nic]; [by apply (ready_cfg base _ c)|lia].
Qed.

Lemma process_receive_follows fuel self net w :
  pci self = d → ready base d (m_nic w) → (S (length (u_ready (m_uart w))) < fuel0)%nat →
  follows (process_receive (λ c, c_ring (n_card c)) (λ _, mret tt) recv fuel self net)
    (process_receive (λ w, c_ring (n_card (m_nic w))) (rx_log fuel0) recv fuel self net) w.
Proof.
  intros Hd Hr Hf. unfold process_receive. rewrite Hd. destruct (try_decrement _) as [s|]; [|apply follows_ret].
  assert (0 ≤ REG_CBR < 0x100 ∧ 0 ≤ REG_CAPR < 0x100) as [Ho Ho'] by (unfold REG_CBR, REG_CAPR; lia).
  apply follows_bind; [by apply follows_on_nic, rtl_inw_on_nic|]. intros cbr u c E (Hu & _).
  unfold the_nic in E. rewrite (rtl_inw_card base Hbase Hend Halign _ _ _ Hr Ho) in E. injection E as _ <-.
  apply follows_bind; [by apply follows_on_nic, rtl_inw_on_nic|]. intros capr u1 c1 E (Hu1 & _). cbn [m_uart m_nic] in *.
  unfold the_nic in E. rewrite (rtl_inw_card base Hbase Hend Halign d _ (set_select _ _) Hr Ho') in E. injection E as _ <-.
  apply follows_bind; [apply receive_loop_follows; cbn [m_uart m_nic]; [done|lia]|]. intros. apply follows_ret.
Qed.
End bottom_half.

(** [recv_frame] of the interface that belongs to the card; [interface_refines_queue] of Main
    shows that it never waits. *)
Definition deliver (i : Interface) (f : list Z) : outcome Interface :=
  r ← recv_frame i f;
  match r with
  | Refused => Ret i
  | Stuck _ => Panic Unreachable
  | Received i => Ret i
  end.

Lemma deliver_queue fs : ∀ i q, queue_of i q → Forall (λ f, length f ≤ RX_BUF_LEN)%nat fs → (length q + length fs ≤ 4)%nat →
  ∃ i', mfold deliver fs i = Ret i' ∧ queue_of i' (q ++ fs).
Proof.
  induction fs as [|f fs IH]; intros i q Hq Hfs Hl.
  { exists i. by rewrite app_nil_r. }
  apply Forall_cons in Hfs as [Hf Hfs]. cbn [length] in Hl. pose proof (recv_frame_queue i q f Hq Hf) as Hr.
  rewrite decide_True in Hr by lia. destruct Hr as (i1 & E & Hq1). cbn [mfold]. rewrite (bind_Ret _ _ i1) by (unfold deliver; by rewrite E).
  destruct (IH i1 (q ++ [f])) as (i' & E' & Hq'); [done|done|rewrite length_app; cbn; lia|]. exists i'. split; [done|].
  by rewrite <- app_assoc in Hq'.
Qed.

(** *** Answering *)

Lemma bdf_lt_irrefl b : bdf_lt b b = false.
Proof. unfold bdf_lt. by rewrite !Z.ltb_irrefl, !andb_false_r. Qed.

Section answer.
Context (phys_addr : Z → option Z) (tx_buf_addr : nat → Z) (fuel : nat).

(** The frame that is sent for a request [q] that came to [dest]. *)
Definition reply_frame (dest mac : MACAddress) (q : packet) : list Z :=
  dest ++ mac ++ [0x08; 0x06] ++ packet_bytes (reply_packet q mac).

(** The message about a frame with an ARP packet. *)
Definition arp_line (dest src : MACAddress) : list Z :=
  line (text "src: " ++ mac_fmt src ++ text ", dest: " ++ mac_fmt dest ++ text ", EtherType: " ++ text "ARP").

(** A frame with a well-formed ARP packet that asks for this host's address and fits the
    kernel's buffers. *)
Record request (dest src : MACAddress) (q : packet) (padding crc : list Z) : Prop := {
  rq_dest : length dest = 6%nat;
  rq_src : length src = 6%nat;
  rq_crc : length crc = 4%nat;
  rq_packet : packet_ok q;
  rq_me : p_tpa q = ME;
  rq_length : (64 ≤ length (arp_frame dest src q padding crc) ≤ RX_BUF_LEN)%nat;
}.

(** The next transmit buffer [buf] is at the physical address [phys] and has room. *)
Record can_send (self : RTL8139) (reply buf : list Z) (phys : Z) : Prop := {
  cs_next : 0 ≤ next_tx_desc self < 4;
  cs_buf : tx_bufs self !! Z.to_nat (next_tx_desc self) = Some buf;
  cs_phys : phys_addr (tx_buf_addr (Z.to_nat (next_tx_desc self))) = Some phys;
  cs_room : (length reply ≤ length buf)%nat;
  cs_max : Z.of_nat (length reply) < 0x2000;
}.

(** The card has received the frames [fs] since the driver last read, and its interrupt was
    counted. *)
Record has_frames (self : RTL8139) (c : card) (fs : list (list Z)) : Prop := {
  hf_pending : 0 < count (pending_irqs self);
  hf_aligned : (4 | read_up_to c);
  hf_end : c_regs c REG_CBR = (read_up_to c + total fs) mod RX_BUF_SIZE;
  hf_total : total fs < RX_BUF_SIZE;
  hf_ring : ring_holds (c_ring c) (read_up_to c) fs;
}.

(** The bottom half puts the frames of the card into the queue of the interface. *)
Lemma bottom_half_queues self i q fs w :
  ready base (pci self) (m_nic w) → has_frames self (n_card (m_nic w)) fs →
  queue_of i q → Forall (λ f, length f ≤ RX_BUF_LEN)%nat fs → (length q + length fs ≤ 4)%nat →
  (S (length (u_ready (m_uart w))) < fuel)%nat → (length fs < fuel)%nat →
  ∃ s i' w', process_receive (λ w, c_ring (n_card (m_nic w))) (rx_log fuel) deliver fuel self i w =
      Ret (Some (with_irqs self s, i'), w') ∧ queue_of i' (q ++ fs) ∧
    wrote (m_uart w) (m_uart w') ∧ Rtl8139.received (m_nic w) (m_nic w') ∧
    read_up_to (n_card (m_nic w')) = c_regs (n_card (m_nic w)) REG_CBR.
Proof.
  intros Hr [Hp H4 He Ht Hring] Hq Hfs Hl Hf Hfuel. destruct (deliver_queue fs i q Hq Hfs Hl) as (i' & Ei & Hq').
  destruct (receive_loop_spec base Hbase Hend Halign (λ _, mret tt) (pci self) ltac:(by intros l m; exists m) deliver
    (c_regs (n_card (m_nic w)) REG_CBR) fs fuel (set_select (m_nic w) (bar_select (pci self)))
    (read_up_to (n_card (m_nic w))) i i') as (c' & E & Hrec & Hend'); try done.
  { by apply Z.mod_pos_bound. }
  assert (∃ s, try_decrement (pending_irqs self) = Some s) as [s Hs] by (unfold try_decrement; rewrite decide_True by done; by eexists).
  pose proof (process_receive_runs base Hbase Hend Halign (λ _, mret tt) (pci self) deliver fuel self (m_nic w) i s i' c' eq_refl Hr Hs E) as E'.
  destruct (process_receive_follows deliver fuel (pci self) fuel self i w eq_refl Hr Hf _ _ E') as (u & Em & Hu).
  exists s, i', (mkMachine u c'). by split_and!.
Qed.

Lemma dispatch_arp device self dest src q padding crc buf phys w :
  length dest = 6%nat → length src = 6%nat → length crc = 4%nat → packet_ok q → p_tpa q = ME →
  (64 ≤ length (arp_frame dest src q padding crc) ≤ 1534)%nat →
  (S (length (u_ready (m_uart w))) < fuel)%nat → ready base (pci self) (m_nic w) →
  0 ≤ next_tx_desc self < 4 → tx_bufs self !! Z.to_nat (next_tx_desc self) = Some buf →
  phys_addr (tx_buf_addr (Z.to_nat (next_tx_desc self))) = Some phys →
  let reply := reply_frame dest (card_mac (n_card (m_nic w))) q in
  (length reply ≤ length buf)%nat → Z.of_nat (length reply) < 0x2000 →
  let j := next_tx_desc self in
  ∃ w', dispatch phys_addr tx_buf_addr com1 fuel device [(device, self)] (arp_frame dest src q padding crc) w =
      Ret (([(device, with_tx self (<[Z.to_nat j := reply ++ drop (length reply) buf]> (tx_bufs self)) ((j + 1) mod 4))], Ok tt), w') ∧
    u_sent (m_uart w') = u_sent (m_uart w) ++ line_all (arp_line dest src) ∧
    c_regs (n_card (m_nic w')) (REG_TSAD0 + j * 4) = phys mod 2 ^ 32 ∧
    c_regs (n_card (m_nic w')) (REG_TSD0 + j * 4) = Z.of_nat (length reply) ∧
    (∀ r, r ≠ REG_TSAD0 + j * 4 → r ≠ REG_TSD0 + j * 4 → c_regs (n_card (m_nic w')) r = c_regs (n_card (m_nic w)) r).
Proof.
  intros Hd Hs Hcrc Hq Htpa Hlen Hf Hr Hj Hbuf Hphys reply Hfit Hmax j.
  destruct (arp_frame_parse dest src q padding crc) as (E & H1 & H2 & H3 & H4 & H5); [done..|].
  unfold dispatch. rewrite E. unfold handle_payload.
  assert (frame_line (mkFrame (arp_frame dest src q padding crc)) = Ret (arp_line dest src)) as El.
  { unfold frame_line. by rewrite H2, H1, H3. }
  destruct (write_str_machine fuel (arp_line dest src) w Hf) as (r & Ew & _). set (w1 := mkMachine _ _) in Ew.
  assert (ready base (pci self) (m_nic w1)) as Hr1 by exact Hr.
  destruct (id_card base Hbase Hend Halign self (m_nic w1) Hr1) as [sel Eid].
  set (w2 := mkMachine (m_uart w1) (set_select (m_nic w1) sel)).
  assert (id self w1 = Ret (card_mac (n_card (m_nic w)), w2)) as Eid2.
  { rewrite id_on_nic by done. unfold on_nic, the_nic. by rewrite Eid. }
  destruct (reply_writer_writes q padding (card_mac (n_card (m_nic w))) Hq eq_refl) as [Hwr _].
  destruct (rtl_transmit base Hbase Hend Halign phys_addr tx_buf_addr self (m_nic w2) dest [None; None] ARP
    (reply_writer (packet_bytes q ++ padding) (card_mac (n_card (m_nic w))))
    (packet_bytes (reply_packet q (card_mac (n_card (m_nic w))))) buf phys) as (c3 & Et & Ha & Hl & Ho);
    [exact Hr|done|done|exact Hwr|done|done|done|exact Hfit|exact Hmax|].
  assert (transmit phys_addr tx_buf_addr self dest [None; None] ARP
    (reply_writer (packet_bytes q ++ padding) (card_mac (n_card (m_nic w)))) w2 =
    Ret (with_tx self (<[Z.to_nat j := reply ++ drop (length reply) buf]> (tx_bufs self)) ((j + 1) mod 4), mkMachine (m_uart w2) c3)) as Et2.
  { rewrite transmit_on_nic by done. unfold on_nic, the_nic. by rewrite Et. }
  exists (mkMachine (m_uart w2) c3). split; [|by split_and!].
  rewrite (io_bind_Ret _ _ w [(device, with_tx self (<[Z.to_nat j := reply ++ drop (length reply) buf]> (tx_bufs self)) ((j + 1) mod 4))] (mkMachine (m_uart w2) c3)); [done|].
  rewrite (io_bind_Ret _ _ w (arp_line dest src) w) by (unfold pure; by rewrite El).
  rewrite (io_bind_Ret _ _ _ _ _ Ew).
  rewrite (io_bind_Ret _ _ w1 ARP w1) by (unfold pure; by rewrite H3).
  rewrite (io_bind_Ret _ _ w1 (packet_bytes q ++ padding) w1) by (unfold pure; by rewrite H4).
  rewrite (io_bind_Ret _ _ w1 ME w1) by (unfold pure; by rewrite H5, Htpa).
  rewrite decide_True by done.
  rewrite (io_bind_Ret _ _ w1 self w1) by (unfold nic_get, pure; cbn [List.find fst]; by rewrite bool_decide_true).
  rewrite (io_bind_Ret _ _ w1 (packet_bytes q ++ padding) w1) by (unfold pure; by rewrite H4).
  rewrite (io_bind_Ret _ _ _ _ _ Eid2).
  rewrite (io_bind_Ret _ _ w2 dest w2) by (unfold pure; by rewrite H1).
  rewrite (io_bind_Ret _ _ _ _ _ Et2). unfold nic_set. cbn [btree_insert].
  by rewrite bdf_lt_irrefl, decide_True.
Qed.

(** C22. A request for this host's hardware address is answered.  When the card has received
    an ARP request, the bottom half of the driver and the network task, each running once,
    take it from the card's ring through the interface's queue and hand the card a reply:
    the reply packet, from the card's own address, to the address the request was sent to, at
    the start of the next transmit buffer, whose physical address and length are in the
    card's registers.  The ring and the queue are empty again, no other register has
    changed, and the frame is reported on the serial port. *)
Theorem arp_request_answered self i dest src q padding crc buf phys w :
  let c := n_card (m_nic w) in
  let reply := reply_frame dest (card_mac c) q in
  let device := bdf (pci self) in
  let j := next_tx_desc self in
  request dest src q padding crc → ready base (pci self) (m_nic w) →
  has_frames self c [arp_frame dest src q padding crc] → can_send self reply buf phys →
  queue_of i [] → (S (length (u_ready (m_uart w))) < fuel)%nat →
  ∃ self' i' w' i'' bufs w'' said,
    process_receive (λ w, c_ring (n_card (m_nic w))) (rx_log fuel) deliver fuel self i w = Ret (Some (self', i'), w') ∧
    handle_frame phys_addr tx_buf_addr com1 fuel device i' [(device, self')] w' =
      Ret (Handled i'' [(device, with_tx self' bufs ((j + 1) mod 4))] (Ok tt), w'') ∧
    queue_of i'' [] ∧ bufs = <[Z.to_nat j := reply ++ drop (length reply) buf]> (tx_bufs self) ∧
    let c' := n_card (m_nic w'') in
    c_regs c' (REG_TSAD0 + j * 4) = phys mod 2 ^ 32 ∧ c_regs c' (REG_TSD0 + j * 4) = Z.of_nat (length reply) ∧
    read_up_to c' = c_regs c REG_CBR ∧
    (∀ r, r ≠ REG_TSAD0 + j * 4 → r ≠ REG_TSD0 + j * 4 → r ≠ REG_CAPR → c_regs c' r = c_regs c r) ∧
    u_sent (m_uart w'') = u_sent (m_uart w) ++ said ++ line_all (arp_line dest src).
Proof.
  intros c reply device j [Hd Hs Hcrc Hq Hme Hlen] Hr Hfs [Hn Hbuf Hphys Hroom Hmax] Hi Hf.
  destruct (bottom_half_queues self i [] [arp_frame dest src q padding crc] w) as (s & i' & w' & E & Hq' & (Hu & _ & said & Hsaid) & (Hcfg & _ & Hregs) & Hread);
    [done|done|done|apply Forall_cons_2; [lia|apply Forall_nil_2]|cbn; lia|done|cbn; lia|].
  destruct (handle_frame_queue (W := machine) phys_addr tx_buf_addr com1 fuel device i' [(device, with_irqs self s)] _ [] Hq') as (i'' & Hq'' & Eh).
  assert (card_mac (n_card (m_nic w')) = card_mac c) as Hmac.
  { unfold card_mac. apply list_fmap_ext. intros k x Hx. apply Hregs. apply lookup_seqZ in Hx as [-> Hk]. unfold REG_CAPR. lia. }
  destruct (dispatch_arp device (with_irqs self s) dest src q padding crc buf phys w') as (w'' & Ed & Hsent & Ha & Hl & Ho);
    rewrite ?Hmac; try done; [unfold RX_BUF_LEN in Hlen; lia|lia|by apply (ready_cfg base _ (m_nic w))|].
  rewrite Hmac in Ed, Hl. exists (with_irqs self s), i', w', i'', (<[Z.to_nat j := reply ++ drop (length reply) buf]> (tx_bufs self)), w'', said.
  split; [exact E|]. split; [rewrite Eh; by rewrite (io_bind_Ret _ _ _ _ _ Ed)|]. split; [done|]. split; [done|].
  split; [done|]. split; [done|]. split; [|split].
  - change (read_up_to (n_card (m_nic w'')) = c_regs (n_card (m_nic w)) REG_CBR). rewrite <- Hread. unfold read_up_to.
    rewrite Ho; [done|unfold REG_CAPR, REG_TSAD0, REG_TSD0; cbn; lia..].
  - intros r H1 H2 H3. by rewrite Ho, Hregs.
  - by rewrite Hsent, Hsaid, <- app_assoc.
Qed.
End answer.
End machine.

(** ** A request from the network *)

Definition ex_frame : list Z := arp_frame (replicate 6 255) [1; 2; 3; 4; 5; 6] ex_request (replicate 18 0) [0; 0; 0; 0].

Definition ex_machine : machine :=
  mkMachine (mkUart [false] [] [])
    (mkNic 0 ex_nic_cfg (mkCard (λ r, if decide (r = REG_CAPR) then 0xfff0 else if decide (r = REG_CBR) then 68 else
                                      if decide (r = REG_COMMAND) then 0x0c else r) ([1; 0; 64; 0] ++ ex_frame))).

Definition ex_wire_card : RTL8139 :=
  mkRTL8139 ex_nic_device 0x26 (replicate 4 (replicate 60 0)) 2 (mkSemaphore 1 128 [] []).

Lemma arp_request_answered_witness : ∃ i self' i' w' i'' bufs w'',
  interface_new (replicate RX_BUF_LEN 0) = Ret i ∧
  process_receive (H := machine_hardware 0xc000) (λ w, c_ring (n_card (m_nic w))) (rx_log 0xc000 4) deliver 4 ex_wire_card i ex_machine =
    Ret (Some (self', i'), w') ∧
  handle_frame (Hardware0 := machine_hardware 0xc000) (λ a, Some (a + 0x1000)) (λ k, Z.of_nat k * 0x600) (mkCom (Some COM1_PORT)) 4 (mkBDF 0 3 0) i'
    [(mkBDF 0 3 0, self')] w' = Ret (Handled i'' [(mkBDF 0 3 0, with_tx self' bufs 3)] (Ok tt), w'') ∧
  take 42 <$> bufs !! 2%nat = Some (reply_frame (replicate 6 255) [0; 1; 2; 3; 4; 5] ex_request) ∧
  c_regs (n_card (m_nic w'')) (REG_TSAD0 + 8) = 0x1c00 ∧ c_regs (n_card (m_nic w'')) (REG_TSD0 + 8) = 42.
Proof.
  destruct (interface_new (replicate RX_BUF_LEN 0)) as [i|] eqn:E; [|discriminate E].
  destruct (arp_request_answered 0xc000 ltac:(lia) ltac:(lia) ltac:(by exists 12288) (λ a, Some (a + 0x1000)) (λ k, Z.of_nat k * 0x600) 4
    ex_wire_card i (replicate 6 255) [1; 2; 3; 4; 5; 6] ex_request (replicate 18 0) [0; 0; 0; 0] (replicate 60 0) 0x1c00 ex_machine)
    as (self' & i' & w' & i'' & bufs & w'' & said & H1 & H2 & _ & -> & H3 & H4 & _).
  - split; [reflexivity..|exact ex_request_ok|reflexivity|]. split; apply Nat.leb_le; reflexivity.
  - split; reflexivity.
  - split; [reflexivity|by exists 0|reflexivity|reflexivity|].
    split; [reflexivity|]. split; [exists [1; 0]; split; reflexivity|exact I].
  - split; [cbn; lia|reflexivity|reflexivity|apply Nat.leb_le; reflexivity|reflexivity].
  - by apply (queue_new (replicate RX_BUF_LEN 0)).
  - apply Nat.ltb_lt. reflexivity.
  - exists i, self', i', w', i'', (<[2%nat := reply_frame (replicate 6 255) [0; 1; 2; 3; 4; 5] ex_request ++ drop 42 (replicate 60 0)]> (replicate 4 (replicate 60 0))), w''.
    split; [reflexivity|]. split; [exact H1|]. split; [exact H2|]. split; [reflexivity|]. split; [exact H3|exact H4].
Defined.
